(** * RISC-V 64 backend of the ART runtime: a shallow embedding

    The development follows the sources it verifies:
    - [Features]: runtime/arch/riscv64/instruction_set_features_riscv64.cc
    - [Context]: the unwind context header (context_riscv64.h)
    - [Jni]: compiler/jni/quick/riscv64/calling_convention_riscv64.cc
    - [DexOverflow]: the build script of the dex-overflow test
    - [Asm]: compiler/utils/riscv64/assembler_riscv64.cc and its header

    32-bit and 64-bit machine integers are modelled as [Z] with the
    wrap-around written out. *)

From Stdlib Require Import ZArith Lia List String Ascii Bool.
From Stdlib Require DecimalString DecimalNat.
From Stdlib Require Import SpecFloat Btauto.
From coqutil Require Import Z.bitblast.
Set Warnings "-abstract-large-number".
Import ListNotations.
Local Open Scope Z_scope.

(** ** Fixed-width integers *)

Definition u32 (x : Z) : Z := x mod 2 ^ 32.
Definition u16 (x : Z) : Z := x mod 2 ^ 16.
Definition u64 (x : Z) : Z := x mod 2 ^ 64.

(** Two's complement reading of the low [n] bits of [x]. *)
Definition sext (n : Z) (x : Z) : Z :=
  (x + 2 ^ (n - 1)) mod 2 ^ n - 2 ^ (n - 1).

(** [IsInt<N>(value)] and [IsUint<N>(value)] of base/bit_utils.h. *)
Definition IsInt (n : Z) (value : Z) : bool :=
  (- 2 ^ (n - 1) <=? value) && (value <? 2 ^ (n - 1)).
Definition IsUint (n : Z) (value : Z) : bool :=
  (0 <=? value) && (value <? 2 ^ n).

(** [RoundUp(x, n)] of base/bit_utils.h, for [n] a power of two. *)
Definition RoundUp (x n : Z) : Z := (x + n - 1) / n * n.

(** ** Register names

    registers_riscv64.h is not among the sources; the names used by the
    sources are the RISC-V ABI names, numbered as the architecture numbers
    them (the number is what the encoders shift into the instruction). *)

Inductive GpuRegister : Set :=
| ZERO | RA | SP | GP | TP | T0 | T1 | T2 | S0 | S1
| A0 | A1 | A2 | A3 | A4 | A5 | A6 | A7
| S2 | S3 | S4 | S5 | S6 | S7 | S8 | S9 | S10 | S11
| T3 | T4 | T5 | T6.

Inductive FpuRegister : Set :=
| FT0 | FT1 | FT2 | FT3 | FT4 | FT5 | FT6 | FT7 | FS0 | FS1
| FA0 | FA1 | FA2 | FA3 | FA4 | FA5 | FA6 | FA7
| FS2 | FS3 | FS4 | FS5 | FS6 | FS7 | FS8 | FS9 | FS10 | FS11
| FT8 | FT9 | FT10 | FT11.

Definition all_gpu : list GpuRegister :=
  [ZERO; RA; SP; GP; TP; T0; T1; T2; S0; S1;
   A0; A1; A2; A3; A4; A5; A6; A7;
   S2; S3; S4; S5; S6; S7; S8; S9; S10; S11;
   T3; T4; T5; T6].

Definition all_fpu : list FpuRegister :=
  [FT0; FT1; FT2; FT3; FT4; FT5; FT6; FT7; FS0; FS1;
   FA0; FA1; FA2; FA3; FA4; FA5; FA6; FA7;
   FS2; FS3; FS4; FS5; FS6; FS7; FS8; FS9; FS10; FS11;
   FT8; FT9; FT10; FT11].

Definition gpu_num (r : GpuRegister) : Z :=
  match r with
  | ZERO => 0 | RA => 1 | SP => 2 | GP => 3 | TP => 4 | T0 => 5 | T1 => 6
  | T2 => 7 | S0 => 8 | S1 => 9 | A0 => 10 | A1 => 11 | A2 => 12 | A3 => 13
  | A4 => 14 | A5 => 15 | A6 => 16 | A7 => 17 | S2 => 18 | S3 => 19
  | S4 => 20 | S5 => 21 | S6 => 22 | S7 => 23 | S8 => 24 | S9 => 25
  | S10 => 26 | S11 => 27 | T3 => 28 | T4 => 29 | T5 => 30 | T6 => 31
  end.

Definition fpu_num (r : FpuRegister) : Z :=
  match r with
  | FT0 => 0 | FT1 => 1 | FT2 => 2 | FT3 => 3 | FT4 => 4 | FT5 => 5
  | FT6 => 6 | FT7 => 7 | FS0 => 8 | FS1 => 9 | FA0 => 10 | FA1 => 11
  | FA2 => 12 | FA3 => 13 | FA4 => 14 | FA5 => 15 | FA6 => 16 | FA7 => 17
  | FS2 => 18 | FS3 => 19 | FS4 => 20 | FS5 => 21 | FS6 => 22 | FS7 => 23
  | FS8 => 24 | FS9 => 25 | FS10 => 26 | FS11 => 27 | FT8 => 28
  | FT9 => 29 | FT10 => 30 | FT11 => 31
  end.

Definition gpu_of_num (n : Z) : GpuRegister := nth (Z.to_nat n) all_gpu ZERO.
Definition fpu_of_num (n : Z) : FpuRegister := nth (Z.to_nat n) all_fpu FT0.

Definition gpu_eqb (a b : GpuRegister) : bool := gpu_num a =? gpu_num b.
Definition fpu_eqb (a b : FpuRegister) : bool := fpu_num a =? fpu_num b.

(** ** Instruction-set features *)

Module Features.

(** The anonymous enum of the class: bitmap positions. *)
Definition kIBitfield : Z := Z.shiftl 1 0.
Definition kMBitfield : Z := Z.shiftl 1 1.
Definition kABitfield : Z := Z.shiftl 1 2.
Definition kFBitfield : Z := Z.shiftl 1 3.
Definition kDBitfield : Z := Z.shiftl 1 4.
Definition kCBitfield : Z := Z.shiftl 1 5.
Definition kVBitfield : Z := Z.shiftl 1 6.
Definition kSBitfield : Z := Z.shiftl 1 7.
Definition kUBitfield : Z := Z.shiftl 1 8.

(** [if (bits_ & kXBitfield)]: a C++ integer is true when non-zero. *)
Definition has (bits_ mask : Z) : bool := negb (Z.land bits_ mask =? 0).

(** [FromBitmap] wraps the bitmap; the object is its [bits_] field. *)
Definition FromBitmap (bitmap : Z) : Z := bitmap.

Definition FromCppDefines : Z :=
  Z.lor (Z.lor (Z.lor (Z.lor (Z.lor kIBitfield kMBitfield) kABitfield)
                      kFBitfield) kDBitfield) kCBitfield.

Definition AsBitmap (bits_ : Z) : Z := bits_.

Definition GetFeatureString (bits_ : Z) : string :=
  let result := "rv64imaf"%string in
  let result := if has bits_ kDBitfield then (result ++ "d")%string else result in
  let result := if has bits_ kCBitfield then (result ++ "c")%string else result in
  let result := if has bits_ kVBitfield then (result ++ "v")%string else result in
  result.

(** The letters that follow the fixed prefix ["rv64imaf"]. *)
Definition feature_letters (s : string) : list ascii :=
  skipn 8 (list_ascii_of_string s).

End Features.

(** ** Unwind context *)

Module Context.

Definition kNumberOfGpuRegisters : Z := 32.
Definition kNumberOfFpuRegisters : Z := 32.

(** A register slot is a pointer into the frame; [None] is [nullptr]. *)
Record Riscv64Context : Type := {
  gprs_ : Z -> option Z;   (* uintptr_t* gprs_[kNumberOfGpuRegisters + 1] *)
  fprs_ : Z -> option Z;   (* uint64_t* fprs_[kNumberOfFpuRegisters] *)
  memory : Z -> Z          (* the words the non-null slots point to *)
}.

(** What a call does: return a value, stop on a failed CHECK or DCHECK, or
    dereference a null pointer. *)
Inductive outcome (A : Type) : Type :=
| Returns (a : A)
| CheckFailed
| NullDereference.
Arguments Returns {A} a.
Arguments CheckFailed {A}.
Arguments NullDereference {A}.

Section Build.
(** [DCHECK] is [CHECK] in a debug build and nothing otherwise
    (android-base/logging.h, not among the sources). *)
Variable kIsDebugBuild : bool.

Definition IsAccessibleGPR (c : Riscv64Context) (reg : Z) : outcome bool :=
  if kIsDebugBuild && negb (reg <? kNumberOfGpuRegisters + 1) then CheckFailed
  else Returns (match gprs_ c reg with Some _ => true | None => false end).

Definition GetGPRAddress (c : Riscv64Context) (reg : Z) : outcome (option Z) :=
  if kIsDebugBuild && negb (reg <? kNumberOfGpuRegisters + 1) then CheckFailed
  else Returns (gprs_ c reg).

Definition GetGPR (c : Riscv64Context) (reg : Z) : outcome Z :=
  if negb (reg <? kNumberOfGpuRegisters) then CheckFailed
  else
    match (if kIsDebugBuild then IsAccessibleGPR c reg else Returns true) with
    | Returns true =>
        match gprs_ c reg with
        | Some p => Returns (memory c p)
        | None => NullDereference
        end
    | _ => CheckFailed
    end.

Definition IsAccessibleFPR (c : Riscv64Context) (reg : Z) : outcome bool :=
  if negb (reg <? kNumberOfFpuRegisters) then CheckFailed
  else Returns (match fprs_ c reg with Some _ => true | None => false end).

Definition GetFPR (c : Riscv64Context) (reg : Z) : outcome Z :=
  if negb (reg <? kNumberOfFpuRegisters) then CheckFailed
  else
    match (if kIsDebugBuild then IsAccessibleFPR c reg else Returns true) with
    | Returns true =>
        match fprs_ c reg with
        | Some p => Returns (memory c p)
        | None => NullDereference
        end
    | _ => CheckFailed
    end.

End Build.

End Context.

(** ** JNI calling convention *)

Module Jni.

Definition kMaxFloatOrDoubleRegisterArguments : Z := 8.
Definition kMaxIntLikeRegisterArguments : Z := 8.
Definition kFramePointerSize : Z := 8.

Definition kGpuArgumentRegisters : list GpuRegister :=
  [A0; A1; A2; A3; A4; A5; A6; A7].

Definition kFpuArgumentRegisters : list FpuRegister :=
  [FA0; FA1; FA2; FA3; FA4; FA5; FA6; FA7].

(** [Riscv64ManagedRegister]: no register, a core or a floating-point one. *)
Inductive ManagedRegister : Set :=
| NoRegister
| FromGpuRegister (r : GpuRegister)
| FromFpuRegister (r : FpuRegister).

Definition kCalleeSaveRegisters : list ManagedRegister :=
  [FromFpuRegister FS0; FromFpuRegister FS1; FromFpuRegister FS2;
   FromFpuRegister FS3; FromFpuRegister FS4; FromFpuRegister FS5;
   FromFpuRegister FS6; FromFpuRegister FS7; FromFpuRegister FS8;
   FromFpuRegister FS9; FromFpuRegister FS10; FromFpuRegister FS11;
   FromGpuRegister S2; FromGpuRegister S3; FromGpuRegister S4;
   FromGpuRegister S5; FromGpuRegister S6; FromGpuRegister S7;
   FromGpuRegister S8; FromGpuRegister S9; FromGpuRegister S10;
   FromGpuRegister S0].

Definition kCriticalCalleeSaveRegisters : list ManagedRegister :=
  [FromGpuRegister RA].

(** *** Parameter iteration

    The iterator lives in the base class [CallingConvention]; the two
    counters below are the ones the RISC-V code reads. *)
Record Iterator : Set := {
  itr_args_ : Z;               (* unsigned int *)
  itr_float_and_doubles_ : Z   (* unsigned int *)
}.

(** [IsCurrentParamAFloatOrDouble()] is decided by the shorty in the base
    class; here it is the kind of the parameter under the iterator. *)
Inductive ParamKind : Set := IntLike | FloatOrDouble.

Definition IsCurrentParamAFloatOrDouble (k : ParamKind) : bool :=
  match k with FloatOrDouble => true | IntLike => false end.

Definition IsCurrentParamInRegister (k : ParamKind) (it : Iterator) : bool :=
  let gp_args := u32 (itr_args_ it - itr_float_and_doubles_ it) in
  if IsCurrentParamAFloatOrDouble k then
    let can_spilled_to_gp := 0 in
    let can_spilled_to_gp :=
      if gp_args <? 8 then u32 (can_spilled_to_gp + u32 (8 - gp_args))
      else can_spilled_to_gp in
    itr_float_and_doubles_ it
      <? kMaxFloatOrDoubleRegisterArguments + can_spilled_to_gp
  else
    let spilled_to_gp := 0 in
    let spilled_to_gp :=
      if gp_args <? 8 then
        u32 (spilled_to_gp +
             (if kMaxFloatOrDoubleRegisterArguments <=? itr_float_and_doubles_ it
              then itr_float_and_doubles_ it - kMaxFloatOrDoubleRegisterArguments
              else 0))
      else spilled_to_gp in
    u32 (gp_args + spilled_to_gp) <? kMaxIntLikeRegisterArguments.

Definition IsCurrentParamOnStack (k : ParamKind) (it : Iterator) : bool :=
  negb (IsCurrentParamInRegister k it).

(** Array indexing: reading past the end of the table has no defined
    result, hence [option]. *)
Definition index {A : Type} (l : list A) (i : Z) : option A :=
  if (0 <=? i) then nth_error l (Z.to_nat i) else None.

(** [None] stands for a failed CHECK (or a read past the table). *)
Definition CurrentParamRegister (k : ParamKind) (it : Iterator)
  : option ManagedRegister :=
  if negb (IsCurrentParamInRegister k it) then None
  else
    let gp_reg := itr_args_ it - itr_float_and_doubles_ it in
    if IsCurrentParamAFloatOrDouble k then
      if itr_float_and_doubles_ it <? kMaxFloatOrDoubleRegisterArguments then
        option_map FromFpuRegister
          (index kFpuArgumentRegisters (itr_float_and_doubles_ it))
      else
        let spilled_to_gp :=
          u32 (itr_float_and_doubles_ it - kMaxFloatOrDoubleRegisterArguments) in
        if negb (u32 (gp_reg + spilled_to_gp) <? kMaxIntLikeRegisterArguments)
        then None
        else option_map FromGpuRegister
               (index kGpuArgumentRegisters (gp_reg + spilled_to_gp))
    else
      let spilled_to_gp := 0 in
      let spilled_to_gp :=
        u32 (spilled_to_gp +
             (if kMaxFloatOrDoubleRegisterArguments <=? itr_float_and_doubles_ it
              then itr_float_and_doubles_ it - kMaxFloatOrDoubleRegisterArguments
              else 0)) in
      if negb (u32 (gp_reg + spilled_to_gp) <? kMaxIntLikeRegisterArguments)
      then None
      else option_map FromGpuRegister
             (index kGpuArgumentRegisters (gp_reg + spilled_to_gp)).

(** Modelled from the spec: the iterator that callers drive
    ([JniCallingConvention::Next], in the base class, not among the
    sources): one step per parameter in argument order, counting the
    parameters passed and, among them, the float/double ones. *)
Definition Next (k : ParamKind) (it : Iterator) : Iterator :=
  {| itr_args_ := itr_args_ it + 1;
     itr_float_and_doubles_ :=
       if IsCurrentParamAFloatOrDouble k then itr_float_and_doubles_ it + 1
       else itr_float_and_doubles_ it |}.

Definition ResetIterator : Iterator :=
  {| itr_args_ := 0; itr_float_and_doubles_ := 0 |}.

(** Where a parameter ends up. *)
Inductive Placement : Set :=
| InRegister (r : ManagedRegister)
| OnStack
| Aborts.

Definition place (k : ParamKind) (it : Iterator) : Placement :=
  if IsCurrentParamOnStack k it then OnStack
  else match CurrentParamRegister k it with
       | Some r => InRegister r
       | None => Aborts
       end.

(** The iterator after the parameters [ks], and the placement of each. *)
Definition iterate (ks : list ParamKind) (it : Iterator) : Iterator :=
  fold_left (fun i k => Next k i) ks it.

Fixpoint placements (ks : list ParamKind) (it : Iterator) : list Placement :=
  match ks with
  | [] => []
  | k :: ks' => place k it :: placements ks' (Next k it)
  end.

Definition count_kind (k : ParamKind) (ks : list ParamKind) : Z :=
  Z.of_nat (List.length (filter (fun k' => match k, k' with
                                      | IntLike, IntLike => true
                                      | FloatOrDouble, FloatOrDouble => true
                                      | _, _ => false
                                      end) ks)).

(** *** Frame sizes

    What the base class [JniCallingConvention] and jni_frame_riscv64.h
    answer about the method is not among the sources; a method is given by
    those answers. *)
Record Method : Type := {
  is_critical_native_ : bool;
  SpillsMethod : bool;
  HasLocalReferenceSegmentState : bool;
  SpillsReturnValue : bool;
  SizeOfReturnValue : Z;
  NumberOfExtraArgumentsForJni : Z;
  NumArgs : Z;
  NumFloatOrDoubleArgs : Z;
  RequiresSmallResultTypeExtension : bool
}.

Section Frame.
(** Platform constants and the out-args helper of jni_frame_riscv64.h. *)
Variable kStackAlignment : Z.
Variable kRiscv64StackAlignment : Z.
Variable GetNativeOutArgsSize : Z -> Z -> Z.

Definition IsCriticalNative (m : Method) : bool := is_critical_native_ m.

(** [None] stands for a failed CHECK. *)
Definition UseTailCall (m : Method) : option bool :=
  if negb (IsCriticalNative m) then None
  else Some false.

Definition CalleeSaveRegisters (m : Method) : option (list ManagedRegister) :=
  if IsCriticalNative m then
    match UseTailCall m with
    | None => None
    | Some true => Some []
    | Some false => Some kCriticalCalleeSaveRegisters
    end
  else Some kCalleeSaveRegisters.

Definition FrameSize (m : Method) : option Z :=
  if is_critical_native_ m then
    if SpillsMethod m then None
    else if HasLocalReferenceSegmentState m then None
    else if SpillsReturnValue m then None
    else Some 0
  else
    let method_ptr_size := kFramePointerSize in
    match CalleeSaveRegisters m with
    | None => None
    | Some regs =>
        let ra_and_callee_save_area_size :=
          (Z.of_nat (List.length regs) + 1) * kFramePointerSize in
        let ra_and_callee_save_area_size :=
          if IsCriticalNative m
          then ra_and_callee_save_area_size - kFramePointerSize
          else ra_and_callee_save_area_size in
        let total_size := method_ptr_size + ra_and_callee_save_area_size in
        let total_size :=
          if SpillsReturnValue m then total_size + SizeOfReturnValue m
          else total_size in
        Some (RoundUp total_size kStackAlignment)
    end.

Definition OutFrameSize (m : Method) : Z :=
  let all_args := NumberOfExtraArgumentsForJni m + NumArgs m in
  let num_fp_args := NumFloatOrDoubleArgs m in
  let num_non_fp_args := all_args - num_fp_args in
  let size := GetNativeOutArgsSize num_fp_args num_non_fp_args in
  let size := if IsCriticalNative m then size + kFramePointerSize else size in
  RoundUp size kRiscv64StackAlignment.

(** The outgoing-area size as the specification words it: the extra slot
    only when a tail call is impossible, that is with stack arguments or
    with a result that needs extension. *)
Definition OutFrameSize_as_specified (m : Method) : Z :=
  let all_args := NumberOfExtraArgumentsForJni m + NumArgs m in
  let num_fp_args := NumFloatOrDoubleArgs m in
  let size := GetNativeOutArgsSize num_fp_args (all_args - num_fp_args) in
  let size :=
    if is_critical_native_ m &&
       (negb (size =? 0) || RequiresSmallResultTypeExtension m)
    then size + kFramePointerSize else size in
  RoundUp size kRiscv64StackAlignment.

End Frame.

End Jni.

(** ** The dex-overflow test: its build script *)

Module DexOverflow.
Local Open Scope string_scope.
Local Set Warnings "-abstract-large-number".

Definition newline : ascii := ascii_of_nat 10.
Definition nl : string := String newline EmptyString.

(** awk's [%d]. *)
Definition decimal (n : nat) : string :=
  DecimalString.NilEmpty.string_of_uint (Nat.to_uint n).

(** One generated file: its name and what the [printf]s wrote to it, one
    entry per [printf]. *)
Definition File : Type := (string * list string)%type.

(** [for (i = 1; i <= 65500; i++)]. *)
Definition member_numbers : list nat := seq 1 65500.

Definition writeFileField (name type : string) : File :=
  let fileName := "src/" ++ name ++ ".java" in
  (fileName,
   List.app
     (("public class " ++ name ++ " {" ++ nl)
        :: map (fun i => "    " ++ type ++ decimal i ++ ";" ++ nl) member_numbers)
     ["}" ++ nl]).

Definition writeFileMethod (name : string) : File :=
  let fileName := "src/" ++ name ++ ".java" in
  (fileName,
   List.app
     (("public class " ++ name ++ " {" ++ nl)
        :: map (fun i => "    public void meth" ++ decimal i ++ "() { }" ++ nl)
               member_numbers)
     ["}" ++ nl]).

(** The [BEGIN] block. *)
Definition generated_sources : list File :=
  [ writeFileField "FillerStatic" "static public int staticInt";
    writeFileField "FillerField" "public int fieldInt";
    writeFileMethod "FillerMethod" ].

(** The member declarations of a generated file: everything between the
    class header and the closing brace. *)
Definition members (f : File) : list string :=
  removelast (tl (snd f)).

(** What the script hands to [./default-build], and what comes back. *)
Record BuildRequest : Type := {
  NEED_DEX : string;           (* exported environment variable *)
  argv : list string;          (* command line *)
  src : list File              (* the directory the script filled *)
}.

Record BuildResult : Type := {
  exit_status : nat;
  stderr_txt : string          (* what [2> stderr.txt] captured *)
}.

(** What the script cannot decide itself: the exit statuses of [mkdir]
    and of [awk], and what the build does. *)
Record World : Type := {
  mkdir_src_status : nat;
  awk_status : nat;
  default_build : BuildRequest -> BuildResult
}.

(** [grep -q PATTERN file] for a pattern without regular-expression
    operators: some line of the file contains the pattern. *)
Fixpoint contains (p s : string) : bool :=
  prefix p s || match s with
                | EmptyString => false
                | String _ s' => contains p s'
                end.

Fixpoint split_lines (s : string) : list string :=
  match s with
  | EmptyString => [EmptyString]
  | String c s' =>
      if Ascii.eqb c newline then EmptyString :: split_lines s'
      else match split_lines s' with
           | l :: ls => String c l :: ls
           | [] => [String c EmptyString]
           end
  end.

(** A pattern that fits on one line. *)
Fixpoint no_newline (p : string) : bool :=
  match p with
  | EmptyString => true
  | String c p' => negb (Ascii.eqb c newline) && no_newline p'
  end.

Definition grep_q (pattern text : string) : bool :=
  existsb (contains pattern) (split_lines text).

Definition EXPECTED_ERROR : string :=
  "Cannot fit requested classes in a single dex".

Definition request (args : list string) : BuildRequest :=
  {| NEED_DEX := "true";
     argv := "--api-level" :: "20" :: args;
     src := generated_sources |}.

(** The script under [set -e]: a command that fails ends the script with
    its exit status, except the build, whose status [|| true] replaces.
    The result is the exit status of the script. *)
Definition run (w : World) (args : list string) : nat :=
  (* mkdir src *)
  if negb (Nat.eqb (mkdir_src_status w) 0) then mkdir_src_status w
  (* awk '...' *)
  else if negb (Nat.eqb (awk_status w) 0) then awk_status w
  else
    (* export NEED_DEX=true *)
    (* ./default-build --api-level 20 "$@" > /dev/null 2> stderr.txt || true *)
    let result := default_build w (request args) in
    let stderr_file := stderr_txt result in
    (* grep -q "$EXPECTED_ERROR" stderr.txt *)
    if grep_q EXPECTED_ERROR stderr_file then 0%nat else 1%nat.

End DexOverflow.

(** ** The assembler *)

Module Asm.

(** *** The code buffer

    Modelled from the spec: [AssemblerBuffer] (utils/assembler.h, not among
    the sources) is the append-only byte buffer of the assembler; words are
    stored little-endian, [Store]/[Load] address bytes from the start,
    [Move] is a [memmove] and [Resize] sets the size. *)

Definition le32 (v : Z) : list Z :=
  [v mod 256; (v / 2 ^ 8) mod 256; (v / 2 ^ 16) mod 256; (v / 2 ^ 24) mod 256].

Definition byte_at (buf : list Z) (pos : Z) : Z :=
  if pos <? 0 then 0 else nth (Z.to_nat pos) buf 0.

Definition buf_Size (buf : list Z) : Z := Z.of_nat (List.length buf).

Definition buf_Emit32 (buf : list Z) (v : Z) : list Z := buf ++ le32 v.

Definition buf_Emit8 (buf : list Z) (b : Z) : list Z := buf ++ [b mod 256].

Definition buf_Load32 (buf : list Z) (pos : Z) : Z :=
  byte_at buf pos + 2 ^ 8 * byte_at buf (pos + 1)
  + 2 ^ 16 * byte_at buf (pos + 2) + 2 ^ 24 * byte_at buf (pos + 3).

Definition buf_Store32 (buf : list Z) (pos v : Z) : list Z :=
  firstn (Z.to_nat pos) buf ++ le32 v ++ skipn (Z.to_nat (pos + 4)) buf.

Definition buf_Resize (buf : list Z) (new_size : Z) : list Z :=
  firstn (Z.to_nat new_size) buf
  ++ repeat 0 (Z.to_nat new_size - List.length buf).

Definition buf_Move (buf : list Z) (newposition oldposition size : Z) : list Z :=
  firstn (Z.to_nat newposition) buf
  ++ firstn (Z.to_nat size) (skipn (Z.to_nat oldposition) buf)
  ++ skipn (Z.to_nat (newposition + size)) buf.

(** *** Labels

    Modelled from the spec: the base class [Label] (utils/label.h, not
    among the sources). An unbound label holds "never referenced" (zero) or
    the id of the most recent branch that refers to it, a bound one its
    position; the sign of [position_] tells the two apart, which is why
    PromoteBranches increments a bound position to move it down. *)

Record Riscv64Label : Set := {
  position_ : Z;                 (* int *)
  prev_branch_id_plus_one_ : Z   (* uint32_t *)
}.

Definition kPointerSize : Z := 8.   (* the size of a pointer *)

Definition new_label : Riscv64Label :=
  {| position_ := 0; prev_branch_id_plus_one_ := 0 |}.

Definition IsBound (l : Riscv64Label) : bool := position_ l <? 0.
Definition IsUnused (l : Riscv64Label) : bool := position_ l =? 0.
Definition IsLinked (l : Riscv64Label) : bool := 0 <? position_ l.

Definition Position (l : Riscv64Label) : Z :=
  if IsBound l then - position_ l - kPointerSize
  else position_ l - kPointerSize.

Definition BindTo (l : Riscv64Label) (position : Z) : Riscv64Label :=
  {| position_ := - position - kPointerSize;
     prev_branch_id_plus_one_ := prev_branch_id_plus_one_ l |}.

Definition LinkTo (l : Riscv64Label) (position : Z) : Riscv64Label :=
  {| position_ := position + kPointerSize;
     prev_branch_id_plus_one_ := prev_branch_id_plus_one_ l |}.

Definition set_position (l : Riscv64Label) (p : Z) : Riscv64Label :=
  {| position_ := p; prev_branch_id_plus_one_ := prev_branch_id_plus_one_ l |}.

(** *** Literals *)

Record Literal : Set := {
  label_ : Riscv64Label;
  size_ : Z;
  data_ : list Z
}.

(** *** Branches *)

Inductive BranchCondition : Set :=
| kCondLT | kCondGE | kCondLE | kCondGT
| kCondLTZ | kCondGEZ | kCondLEZ | kCondGTZ
| kCondEQ | kCondNE | kCondEQZ | kCondNEZ
| kCondLTU | kCondGEU
| kUncond.

Inductive Type_ : Set :=
| kUncondBranch | kCondBranch | kCall
| kBareUncondBranch | kBareCondBranch | kBareCall
| kLabel
| kLiteral | kLiteralUnsigned | kLiteralLong
| kLongUncondBranch | kLongCondBranch | kLongCall.

(** [enum OffsetBits]: the enumerators are the bit counts. *)
Definition kOffset12 : Z := 12.
Definition kOffset13 : Z := 13.
Definition kOffset21 : Z := 21.
Definition kOffset32 : Z := 32.

Definition kUnresolved : Z := 0xffffffff.
Definition kMaxBranchLength : Z := 32.
Definition kMaxBranchSize : Z := kMaxBranchLength * 4.

Record BranchInfo : Set := {
  length : Z;
  instr_offset : Z;
  pc_org : Z;
  offset_size : Z;
  offset_shift : Z
}.

Definition branch_info_ (t : Type_) : BranchInfo :=
  match t with
  | kUncondBranch => {| length := 1; instr_offset := 0; pc_org := 0; offset_size := kOffset21; offset_shift := 0 |}
  | kCondBranch => {| length := 1; instr_offset := 0; pc_org := 0; offset_size := kOffset13; offset_shift := 0 |}
  | kCall => {| length := 1; instr_offset := 0; pc_org := 0; offset_size := kOffset21; offset_shift := 0 |}
  | kBareUncondBranch => {| length := 1; instr_offset := 0; pc_org := 0; offset_size := kOffset21; offset_shift := 0 |}
  | kBareCondBranch => {| length := 1; instr_offset := 0; pc_org := 0; offset_size := kOffset13; offset_shift := 0 |}
  | kBareCall => {| length := 1; instr_offset := 0; pc_org := 0; offset_size := kOffset21; offset_shift := 0 |}
  | kLabel => {| length := 2; instr_offset := 0; pc_org := 0; offset_size := kOffset32; offset_shift := 0 |}
  | kLiteral => {| length := 2; instr_offset := 0; pc_org := 0; offset_size := kOffset32; offset_shift := 0 |}
  | kLiteralUnsigned => {| length := 2; instr_offset := 0; pc_org := 0; offset_size := kOffset32; offset_shift := 0 |}
  | kLiteralLong => {| length := 2; instr_offset := 0; pc_org := 0; offset_size := kOffset32; offset_shift := 0 |}
  | kLongUncondBranch => {| length := 2; instr_offset := 0; pc_org := 0; offset_size := kOffset32; offset_shift := 0 |}
  | kLongCondBranch => {| length := 3; instr_offset := 1; pc_org := 0; offset_size := kOffset32; offset_shift := 0 |}
  | kLongCall => {| length := 2; instr_offset := 0; pc_org := 0; offset_size := kOffset32; offset_shift := 0 |}
  end.

Record Branch : Set := {
  old_location_ : Z;
  location_ : Z;
  target_ : Z;
  lhs_reg_ : GpuRegister;
  rhs_reg_ : GpuRegister;
  condition_ : BranchCondition;
  type_ : Type_;
  old_type_ : Type_
}.

Definition set_type (b : Branch) (t : Type_) : Branch :=
  {| old_location_ := old_location_ b; location_ := location_ b;
     target_ := target_ b; lhs_reg_ := lhs_reg_ b; rhs_reg_ := rhs_reg_ b;
     condition_ := condition_ b; type_ := t; old_type_ := old_type_ b |}.

Definition IsNop (condition : BranchCondition) (lhs rhs : GpuRegister) : bool :=
  match condition with
  | kCondLT | kCondGT | kCondNE | kCondLTU => gpu_eqb lhs rhs
  | _ => false
  end.

Definition IsUncond (condition : BranchCondition) (lhs rhs : GpuRegister) : bool :=
  match condition with
  | kUncond => true
  | kCondGE | kCondLE | kCondEQ | kCondGEU => gpu_eqb lhs rhs
  | _ => false
  end.

(** [None] is [LOG(FATAL)]. *)
Definition OppositeCondition (cond : BranchCondition) : option BranchCondition :=
  match cond with
  | kCondLT => Some kCondGE
  | kCondGE => Some kCondLT
  | kCondLE => Some kCondGT
  | kCondGT => Some kCondLE
  | kCondLTZ => Some kCondGEZ
  | kCondGEZ => Some kCondLTZ
  | kCondLEZ => Some kCondGTZ
  | kCondGTZ => Some kCondLEZ
  | kCondEQ => Some kCondNE
  | kCondNE => Some kCondEQ
  | kCondEQZ => Some kCondNEZ
  | kCondNEZ => Some kCondEQZ
  | kCondLTU => Some kCondGEU
  | kCondGEU => Some kCondLTU
  | kUncond => None
  end.

Definition GetLength (b : Branch) : Z := length (branch_info_ (type_ b)).
Definition GetOldLength (b : Branch) : Z := length (branch_info_ (old_type_ b)).
Definition GetSize (b : Branch) : Z := u32 (GetLength b * 4).
Definition GetOldSize (b : Branch) : Z := u32 (GetOldLength b * 4).
Definition GetEndLocation (b : Branch) : Z := u32 (location_ b + GetSize b).
Definition GetOldEndLocation (b : Branch) : Z := u32 (old_location_ b + GetOldSize b).

Definition IsBare (b : Branch) : bool :=
  match type_ b with
  | kBareUncondBranch | kBareCondBranch | kBareCall => true
  | _ => false
  end.

Definition IsLong (b : Branch) : bool :=
  match type_ b with
  | kUncondBranch | kCondBranch | kCall
  | kBareUncondBranch | kBareCondBranch | kBareCall => false
  | kLongUncondBranch | kLongCondBranch | kLongCall
  | kLabel
  | kLiteral | kLiteralUnsigned | kLiteralLong => true
  end.

Definition IsResolved (b : Branch) : bool := negb (target_ b =? kUnresolved).

Definition GetOffsetSize (b : Branch) : Z := offset_size (branch_info_ (type_ b)).

Definition GetOffsetSizeNeeded (location target : Z) : Z :=
  if target =? kUnresolved then kOffset13
  else
    let distance := target - location in
    let distance :=
      distance + (if 0 <=? distance then kMaxBranchSize else - kMaxBranchSize) in
    if IsInt kOffset13 distance then kOffset13
    else if IsInt kOffset21 distance then kOffset21
    else kOffset32.

Definition Resolve (b : Branch) (target : Z) : Branch :=
  {| old_location_ := old_location_ b; location_ := location_ b;
     target_ := target; lhs_reg_ := lhs_reg_ b; rhs_reg_ := rhs_reg_ b;
     condition_ := condition_ b; type_ := type_ b; old_type_ := old_type_ b |}.

Definition Relocate (b : Branch) (expand_location delta : Z) : Branch :=
  let location := if expand_location <? location_ b
                  then u32 (location_ b + delta) else location_ b in
  let target := if negb (IsResolved b) then target_ b
                else if expand_location <? target_ b
                     then u32 (target_ b + delta) else target_ b in
  {| old_location_ := old_location_ b; location_ := location;
     target_ := target; lhs_reg_ := lhs_reg_ b; rhs_reg_ := rhs_reg_ b;
     condition_ := condition_ b; type_ := type_ b; old_type_ := old_type_ b |}.

(** [None] is a failed CHECK. *)
Definition PromoteToLong (b : Branch) : option Branch :=
  if IsBare b then None
  else
    let b' := match type_ b with
              | kUncondBranch => set_type b kLongUncondBranch
              | kCondBranch => set_type b kLongCondBranch
              | kCall => set_type b kLongCall
              | _ => b
              end in
    if IsLong b' then Some b' else None.

Definition kDefaultMaxShortDistance : Z := 0xffffffff.  (* numeric_limits<uint32_t>::max() *)

Definition PromoteIfNeeded (b : Branch) (max_short_distance : Z)
  : option (Z * Branch) :=
  if IsLong b || negb (IsResolved b) then Some (0, b)
  else if GetOffsetSize b <? GetOffsetSizeNeeded (location_ b) (target_ b) then
    match PromoteToLong b with
    | None => None
    | Some b' =>
        let old_size := GetOldSize b' in
        let new_size := GetSize b' in
        if old_size <? new_size then Some (u32 (new_size - old_size), b') else None
    end
  else if negb (max_short_distance =? kDefaultMaxShortDistance) && negb (IsBare b) then
    let distance := target_ b - location_ b in
    let distance := if 0 <=? distance then distance else - distance in
    if max_short_distance <=? distance then
      match PromoteToLong b with
      | None => None
      | Some b' =>
          let old_size := GetOldSize b' in
          let new_size := GetSize b' in
          if old_size <? new_size then Some (u32 (new_size - old_size), b') else None
      end
    else Some (0, b)
  else Some (0, b).

Definition GetOffsetLocation (b : Branch) : Z :=
  u32 (location_ b + instr_offset (branch_info_ (type_ b)) * 4).

Definition GetOffset (b : Branch) : option Z :=
  if negb (IsResolved b) then None
  else
    let ofs_mask := Z.shiftr 0xFFFFFFFF (32 - GetOffsetSize b) in
    let offset_location := GetOffsetLocation b in
    let offset := u32 (target_ b - offset_location
                       - pc_org (branch_info_ (type_ b)) * 4) in
    let offset := Z.shiftr (Z.land offset ofs_mask)
                           (offset_shift (branch_info_ (type_ b))) in
    Some offset.

(** [InitShortOrLong] and [InitializeType]; the result is the type, [None]
    a failed CHECK or [LOG(FATAL)]. *)
Definition InitShortOrLong (offset_size_needed : Z) (short_type long_type : Type_)
  : Type_ :=
  if offset_size_needed <=? offset_size (branch_info_ short_type)
  then short_type else long_type.

Definition InitializeType (b : Branch) (initial_type : Type_) : option Branch :=
  let offset_size_needed := GetOffsetSizeNeeded (location_ b) (target_ b) in
  let typed :=
    match initial_type with
    | kLabel | kLiteral | kLiteralUnsigned | kLiteralLong =>
        if IsResolved b then None else Some initial_type
    | kCall => Some (InitShortOrLong offset_size_needed kCall kLongCall)
    | kCondBranch =>
        match condition_ b with
        | kUncond =>
            Some (InitShortOrLong offset_size_needed kUncondBranch kLongUncondBranch)
        | _ => Some (InitShortOrLong offset_size_needed kCondBranch kLongCondBranch)
        end
    | kBareCall =>
        if offset_size_needed <=? offset_size (branch_info_ kBareCall)
        then Some kBareCall else None
    | kBareCondBranch =>
        let t := match condition_ b with
                 | kUncond => kBareUncondBranch
                 | _ => kBareCondBranch
                 end in
        if offset_size_needed <=? offset_size (branch_info_ t)
        then Some t else None
    | _ => None
    end in
  match typed with
  | None => None
  | Some t =>
      Some {| old_location_ := old_location_ b; location_ := location_ b;
              target_ := target_ b; lhs_reg_ := lhs_reg_ b; rhs_reg_ := rhs_reg_ b;
              condition_ := condition_ b; type_ := t; old_type_ := t |}
  end.

(** The three constructors. The type fields of the argument of
    [InitializeType] are not read before they are set. *)
Definition Branch_uncond (location target : Z) (is_call is_bare : bool)
  : option Branch :=
  InitializeType
    {| old_location_ := location; location_ := location; target_ := target;
       lhs_reg_ := ZERO; rhs_reg_ := ZERO; condition_ := kUncond;
       type_ := kUncondBranch; old_type_ := kUncondBranch |}
    (if is_call then (if is_bare then kBareCall else kCall)
     else (if is_bare then kBareCondBranch else kCondBranch)).

Definition Branch_cond (location target : Z) (condition : BranchCondition)
    (lhs_reg rhs_reg : GpuRegister) (is_bare : bool) : option Branch :=
  let operands_ok :=
    match condition with
    | kCondEQ | kCondNE | kCondLT | kCondGE | kCondLE | kCondGT
    | kCondLTU | kCondGEU =>
        negb (gpu_eqb lhs_reg ZERO) && negb (gpu_eqb rhs_reg ZERO)
    | kCondLTZ | kCondGEZ | kCondLEZ | kCondGTZ | kCondEQZ | kCondNEZ =>
        negb (gpu_eqb lhs_reg ZERO) && gpu_eqb rhs_reg ZERO
    | kUncond => false
    end in
  if negb operands_ok then None
  else if IsNop condition lhs_reg rhs_reg then None
  else
    let condition_ := if IsUncond condition lhs_reg rhs_reg
                      then kUncond else condition in
    InitializeType
      {| old_location_ := location; location_ := location; target_ := target;
         lhs_reg_ := lhs_reg; rhs_reg_ := rhs_reg; condition_ := condition_;
         type_ := kCondBranch; old_type_ := kCondBranch |}
      (if is_bare then kBareCondBranch else kCondBranch).

Definition Branch_label_or_literal (location : Z) (dest_reg : GpuRegister)
    (label_or_literal_type : Type_) : option Branch :=
  if gpu_eqb dest_reg ZERO then None
  else
    InitializeType
      {| old_location_ := location; location_ := location;
         target_ := kUnresolved;
         lhs_reg_ := dest_reg; rhs_reg_ := ZERO; condition_ := kUncond;
         type_ := label_or_literal_type; old_type_ := label_or_literal_type |}
      label_or_literal_type.

(** *** The assembler object *)

Record Assembler : Set := {
  buffer_ : list Z;
  overwriting_ : bool;
  overwrite_location_ : Z;
  branches_ : list Branch;
  literals_ : list Literal;
  long_literals_ : list Literal
}.

Definition new_assembler : Assembler :=
  {| buffer_ := []; overwriting_ := false; overwrite_location_ := 0;
     branches_ := []; literals_ := []; long_literals_ := [] |}.

Definition with_buffer (a : Assembler) (buf : list Z) : Assembler :=
  {| buffer_ := buf; overwriting_ := overwriting_ a;
     overwrite_location_ := overwrite_location_ a; branches_ := branches_ a;
     literals_ := literals_ a; long_literals_ := long_literals_ a |}.

Definition with_branches (a : Assembler) (bs : list Branch) : Assembler :=
  {| buffer_ := buffer_ a; overwriting_ := overwriting_ a;
     overwrite_location_ := overwrite_location_ a; branches_ := bs;
     literals_ := literals_ a; long_literals_ := long_literals_ a |}.

Definition with_overwriting (a : Assembler) (o : bool) : Assembler :=
  {| buffer_ := buffer_ a; overwriting_ := o;
     overwrite_location_ := overwrite_location_ a; branches_ := branches_ a;
     literals_ := literals_ a; long_literals_ := long_literals_ a |}.

Definition with_overwrite_location (a : Assembler) (l : Z) : Assembler :=
  {| buffer_ := buffer_ a; overwriting_ := overwriting_ a;
     overwrite_location_ := l; branches_ := branches_ a;
     literals_ := literals_ a; long_literals_ := long_literals_ a |}.

Definition with_literals (a : Assembler) (ls lls : list Literal) : Assembler :=
  {| buffer_ := buffer_ a; overwriting_ := overwriting_ a;
     overwrite_location_ := overwrite_location_ a; branches_ := branches_ a;
     literals_ := ls; long_literals_ := lls |}.

(** Member functions run in a state monad over the assembler that can
    abort: [None] is a failed CHECK, [LOG(FATAL)] or [UNREACHABLE()]. *)
Definition M (A : Type) : Type := Assembler -> option (A * Assembler).

Definition ret {A : Type} (x : A) : M A := fun a => Some (x, a).

Definition bind {A B : Type} (m : M A) (k : A -> M B) : M B :=
  fun a => match m a with
           | Some (x, a') => k x a'
           | None => None
           end.

Definition fatal {A : Type} : M A := fun _ => None.

Definition CHECK (b : bool) : M unit :=
  fun a => if b then Some (tt, a) else None.

Definition get : M Assembler := fun a => Some (a, a).
Definition put (a : Assembler) : M unit := fun _ => Some (tt, a).

Definition lift {A : Type} (o : option A) : M A :=
  fun a => match o with Some x => Some (x, a) | None => None end.

Declare Scope asm_scope.
Delimit Scope asm_scope with asm.
Notation "x <- m ;; k" := (bind m (fun x => k))
  (at level 61, m at next level, right associativity) : asm_scope.
Notation "m ;; k" := (bind m (fun _ => k))
  (at level 61, right associativity) : asm_scope.
Local Open Scope asm_scope.

Definition exec {A : Type} (m : M A) (a : Assembler) : option Assembler :=
  match m a with Some (_, a') => Some a' | None => None end.

(** [Emit]: append, or patch in place while overwriting. *)
Definition Emit (value : Z) : M unit :=
  a <- get ;;
  if overwriting_ a then
    put (with_overwrite_location
           (with_buffer a (buf_Store32 (buffer_ a) (overwrite_location_ a) (u32 value)))
           (u32 (overwrite_location_ a + 4)))
  else put (with_buffer a (buf_Emit32 (buffer_ a) (u32 value))).

(** *** Instruction formats *)

Definition EncodeI (imm rs1 funct3 rd opcode : Z) : Z :=
  Z.lor (Z.lor (Z.lor (Z.lor (u32 (Z.shiftl (u16 imm) 20))
                             (u32 (Z.shiftl rs1 15)))
                      (u32 (Z.shiftl funct3 12)))
               (u32 (Z.shiftl rd 7)))
        opcode.

Definition EncodeR (funct7 rs2 rs1 funct3 rd opcode : Z) : Z :=
  Z.lor (Z.lor (Z.lor (Z.lor (Z.lor (u32 (Z.shiftl funct7 25))
                                    (u32 (Z.shiftl rs2 20)))
                             (u32 (Z.shiftl rs1 15)))
                      (u32 (Z.shiftl funct3 12)))
               (u32 (Z.shiftl rd 7)))
        opcode.

Definition EncodeI6 (funct6 imm6 rs1 funct3 rd opcode : Z) : Z :=
  Z.lor (Z.lor (Z.lor (Z.lor (Z.lor (u32 (Z.shiftl (u16 funct6) 26))
                                    (u32 (Z.shiftl (Z.land (u16 imm6) 0x3F) 20)))
                             (u32 (Z.shiftl rs1 15)))
                      (u32 (Z.shiftl funct3 12)))
               (u32 (Z.shiftl rd 7)))
        opcode.

Definition EncodeB (imm rs2 rs1 funct3 opcode : Z) : Z :=
  Z.lor (Z.lor (Z.lor (Z.lor (Z.lor (Z.lor (Z.lor
    (u32 (Z.shiftl (Z.shiftr (Z.land imm 0x1000) 12) 31))
    (u32 (Z.shiftl (Z.shiftr (Z.land imm 0x07E0) 5) 25)))
    (u32 (Z.shiftl rs2 20)))
    (u32 (Z.shiftl rs1 15)))
    (u32 (Z.shiftl funct3 12)))
    (u32 (Z.shiftl (Z.shiftr (Z.land imm 0x1E) 1) 8)))
    (u32 (Z.shiftl (Z.shiftr (Z.land imm 0x0800) 11) 7)))
    opcode.

Definition EncodeU (imm rd opcode : Z) : Z :=
  Z.lor (Z.lor (u32 (Z.shiftl imm 12)) (u32 (Z.shiftl rd 7))) opcode.

Definition EncodeJ (imm20 rd opcode : Z) : Z :=
  Z.lor (Z.lor (Z.lor (Z.lor (Z.lor
    (u32 (Z.shiftl (Z.shiftr (Z.land imm20 0x100000) 20) 31))
    (u32 (Z.shiftl (Z.shiftr (Z.land imm20 0x07FE) 1) 21)))
    (u32 (Z.shiftl (Z.shiftr (Z.land imm20 0x800) 11) 20)))
    (u32 (Z.shiftl (Z.shiftr (Z.land imm20 0xFF000) 12) 12)))
    (u32 (Z.shiftl rd 7)))
    opcode.

Definition EmitI (imm rs1 funct3 rd opcode : Z) : M unit :=
  Emit (EncodeI imm rs1 funct3 rd opcode).

Definition EmitR (funct7 rs2 rs1 funct3 rd opcode : Z) : M unit :=
  Emit (EncodeR funct7 rs2 rs1 funct3 rd opcode).

Definition EmitI6 (funct6 imm6 rs1 funct3 rd opcode : Z) : M unit :=
  Emit (EncodeI6 funct6 imm6 rs1 funct3 rd opcode).

Definition EmitB (imm rs2 rs1 funct3 opcode : Z) : M unit :=
  let imm := u16 imm in
  CHECK (IsUint 13 imm) ;;
  Emit (EncodeB imm rs2 rs1 funct3 opcode).

Definition EmitU (imm rd opcode : Z) : M unit :=
  Emit (EncodeU (u32 imm) rd opcode).

Definition EmitJ (imm20 rd opcode : Z) : M unit :=
  let imm20 := u32 imm20 in
  CHECK (IsUint 21 imm20) ;;
  Emit (EncodeJ imm20 rd opcode).

(** *** Instructions *)

Definition Addi (rd rs1 : GpuRegister) (offset : Z) : M unit :=
  EmitI (u16 offset) (gpu_num rs1) 0x0 (gpu_num rd) 0x13.

Definition Slli (rd rs1 : GpuRegister) (offset : Z) : M unit :=
  let offset := u16 offset in
  if negb (gpu_eqb rd rs1) || negb (offset =? 0)
  then EmitI6 0x0 offset (gpu_num rs1) 0x1 (gpu_num rd) 0x13
  else ret tt.

Definition Srli (rd rs1 : GpuRegister) (offset : Z) : M unit :=
  let offset := u16 offset in
  if negb (gpu_eqb rd rs1) || negb (offset =? 0)
  then EmitI6 0x0 offset (gpu_num rs1) 0x5 (gpu_num rd) 0x13
  else ret tt.

Definition Ori (rd rs1 : GpuRegister) (offset : Z) : M unit :=
  EmitI (u16 offset) (gpu_num rs1) 0x6 (gpu_num rd) 0x13.

Definition Lw (rd rs1 : GpuRegister) (offset : Z) : M unit :=
  EmitI (u16 offset) (gpu_num rs1) 0x2 (gpu_num rd) 0x03.

Definition Ld (rd rs1 : GpuRegister) (offset : Z) : M unit :=
  EmitI (u16 offset) (gpu_num rs1) 0x3 (gpu_num rd) 0x03.

Definition Lwu (rd rs1 : GpuRegister) (offset : Z) : M unit :=
  EmitI (u16 offset) (gpu_num rs1) 0x6 (gpu_num rd) 0x3.

Definition Or (rd rs1 rs2 : GpuRegister) : M unit :=
  EmitR 0x0 (gpu_num rs2) (gpu_num rs1) 0x06 (gpu_num rd) 0x33.

Definition Xor (rd rs1 rs2 : GpuRegister) : M unit :=
  EmitR 0x0 (gpu_num rs2) (gpu_num rs1) 0x04 (gpu_num rd) 0x33.

Definition Addiw (rd rs1 : GpuRegister) (imm12 : Z) : M unit :=
  EmitI (u16 imm12) (gpu_num rs1) 0x0 (gpu_num rd) 0x1b.

Definition Auipc (rd : GpuRegister) (imm20 : Z) : M unit :=
  EmitU (u32 imm20) (gpu_num rd) 0x17.

Definition Lui (rd : GpuRegister) (imm20 : Z) : M unit :=
  EmitU (u32 imm20) (gpu_num rd) 0x37.

Definition Beq (rs1 rs2 : GpuRegister) (offset : Z) : M unit :=
  EmitB (u16 offset) (gpu_num rs2) (gpu_num rs1) 0x0 0x63.
Definition Bne (rs1 rs2 : GpuRegister) (offset : Z) : M unit :=
  EmitB (u16 offset) (gpu_num rs2) (gpu_num rs1) 0x1 0x63.
Definition Blt (rs1 rs2 : GpuRegister) (offset : Z) : M unit :=
  EmitB (u16 offset) (gpu_num rs2) (gpu_num rs1) 0x4 0x63.
Definition Bge (rs1 rs2 : GpuRegister) (offset : Z) : M unit :=
  EmitB (u16 offset) (gpu_num rs2) (gpu_num rs1) 0x5 0x63.
Definition Bltu (rs1 rs2 : GpuRegister) (offset : Z) : M unit :=
  EmitB (u16 offset) (gpu_num rs2) (gpu_num rs1) 0x6 0x63.
Definition Bgeu (rs1 rs2 : GpuRegister) (offset : Z) : M unit :=
  EmitB (u16 offset) (gpu_num rs2) (gpu_num rs1) 0x7 0x63.

Definition Jalr (rd rs1 : GpuRegister) (offset : Z) : M unit :=
  EmitI (u16 offset) (gpu_num rs1) 0x0 (gpu_num rd) 0x67.

Definition Jal (rd : GpuRegister) (imm20 : Z) : M unit :=
  EmitJ (u32 imm20) (gpu_num rd) 0x6F.

(** Floating point, opcode 0x53. *)
Definition kFPRoundingModeRTZ : Z := 0x1.

Definition FSgnjS (rd rs1 rs2 : FpuRegister) : M unit :=
  EmitR 0x10 (fpu_num rs2) (fpu_num rs1) 0x0 (fpu_num rd) 0x53.
Definition FMinS (rd rs1 rs2 : FpuRegister) : M unit :=
  EmitR 0x14 (fpu_num rs2) (fpu_num rs1) 0x0 (fpu_num rd) 0x53.
Definition FMaxS (rd rs1 rs2 : FpuRegister) : M unit :=
  EmitR 0x14 (fpu_num rs2) (fpu_num rs1) 0x1 (fpu_num rd) 0x53.
Definition FEqS (rd : GpuRegister) (rs1 rs2 : FpuRegister) : M unit :=
  EmitR 0x50 (fpu_num rs2) (fpu_num rs1) 0x2 (gpu_num rd) 0x53.
Definition FCvtWS (rd : GpuRegister) (rs1 : FpuRegister) (frm : Z) : M unit :=
  EmitR 0x60 0x0 (fpu_num rs1) frm (gpu_num rd) 0x53.
Definition FCvtLS (rd : GpuRegister) (rs1 : FpuRegister) (frm : Z) : M unit :=
  EmitR 0x60 0x2 (fpu_num rs1) frm (gpu_num rd) 0x53.

Definition FSgnjD (rd rs1 rs2 : FpuRegister) : M unit :=
  EmitR 0x11 (fpu_num rs2) (fpu_num rs1) 0x0 (fpu_num rd) 0x53.
Definition FMinD (rd rs1 rs2 : FpuRegister) : M unit :=
  EmitR 0x15 (fpu_num rs2) (fpu_num rs1) 0x0 (fpu_num rd) 0x53.
Definition FMaxD (rd rs1 rs2 : FpuRegister) : M unit :=
  EmitR 0x15 (fpu_num rs2) (fpu_num rs1) 0x1 (fpu_num rd) 0x53.
Definition FEqD (rd : GpuRegister) (rs1 rs2 : FpuRegister) : M unit :=
  EmitR 0x51 (fpu_num rs2) (fpu_num rs1) 0x2 (gpu_num rd) 0x53.
Definition FCvtWD (rd : GpuRegister) (rs1 : FpuRegister) (frm : Z) : M unit :=
  EmitR 0x61 0x0 (fpu_num rs1) frm (gpu_num rd) 0x53.
Definition FCvtLD (rd : GpuRegister) (rs1 : FpuRegister) (frm : Z) : M unit :=
  EmitR 0x61 0x2 (fpu_num rs1) frm (gpu_num rd) 0x53.

(** *** Macro instructions *)

Definition Nop : M unit := Addi ZERO ZERO 0.

Definition MovS (fd fs : FpuRegister) : M unit := FSgnjS fd fs fs.
Definition MovD (fd fs : FpuRegister) : M unit := FSgnjD fd fs fs.

Definition Bc (imm20 : Z) : M unit := Jal ZERO (u32 imm20).
Definition Balc (imm20 : Z) : M unit := Jal RA (u32 imm20).

Definition Bltc (rs rt : GpuRegister) (imm12 : Z) : M unit :=
  CHECK (negb (gpu_eqb rs ZERO)) ;; CHECK (negb (gpu_eqb rt ZERO)) ;;
  CHECK (negb (gpu_eqb rs rt)) ;; Blt rs rt (u16 imm12).
Definition Bltzc (rt : GpuRegister) (imm12 : Z) : M unit :=
  CHECK (negb (gpu_eqb rt ZERO)) ;; Blt rt ZERO (u16 imm12).
Definition Bgtzc (rt : GpuRegister) (imm12 : Z) : M unit :=
  CHECK (negb (gpu_eqb rt ZERO)) ;; Blt ZERO rt (u16 imm12).
Definition Bgec (rs rt : GpuRegister) (imm12 : Z) : M unit :=
  CHECK (negb (gpu_eqb rs ZERO)) ;; CHECK (negb (gpu_eqb rt ZERO)) ;;
  CHECK (negb (gpu_eqb rs rt)) ;; Bge rs rt (u16 imm12).
Definition Bgezc (rt : GpuRegister) (imm12 : Z) : M unit :=
  CHECK (negb (gpu_eqb rt ZERO)) ;; Bge rt ZERO (u16 imm12).
Definition Blezc (rt : GpuRegister) (imm12 : Z) : M unit :=
  CHECK (negb (gpu_eqb rt ZERO)) ;; Bge ZERO rt (u16 imm12).
Definition Bltuc (rs rt : GpuRegister) (imm12 : Z) : M unit :=
  CHECK (negb (gpu_eqb rs ZERO)) ;; CHECK (negb (gpu_eqb rt ZERO)) ;;
  CHECK (negb (gpu_eqb rs rt)) ;; Bltu rs rt (u16 imm12).
Definition Bgeuc (rs rt : GpuRegister) (imm12 : Z) : M unit :=
  CHECK (negb (gpu_eqb rs ZERO)) ;; CHECK (negb (gpu_eqb rt ZERO)) ;;
  CHECK (negb (gpu_eqb rs rt)) ;; Bgeu rs rt (u16 imm12).
Definition Beqc (rs rt : GpuRegister) (imm12 : Z) : M unit :=
  CHECK (negb (gpu_eqb rs ZERO)) ;; CHECK (negb (gpu_eqb rt ZERO)) ;;
  CHECK (negb (gpu_eqb rs rt)) ;; Beq rs rt (u16 imm12).
Definition Bnec (rs rt : GpuRegister) (imm12 : Z) : M unit :=
  CHECK (negb (gpu_eqb rs ZERO)) ;; CHECK (negb (gpu_eqb rt ZERO)) ;;
  CHECK (negb (gpu_eqb rs rt)) ;; Bne rs rt (u16 imm12).
Definition Beqzc (rs : GpuRegister) (imm12 : Z) : M unit :=
  CHECK (negb (gpu_eqb rs ZERO)) ;; Beq rs ZERO (u16 (u32 imm12)).
Definition Bnezc (rs : GpuRegister) (imm12 : Z) : M unit :=
  CHECK (negb (gpu_eqb rs ZERO)) ;; Bne rs ZERO (u16 (u32 imm12)).

Definition EmitBcond (cond : BranchCondition) (rs rt : GpuRegister)
    (imm16_21 : Z) : M unit :=
  match cond with
  | kCondLT => Bltc rs rt imm16_21
  | kCondGE => Bgec rs rt imm16_21
  | kCondLE => Bgec rt rs imm16_21
  | kCondGT => Bltc rt rs imm16_21
  | kCondLTZ => CHECK (gpu_eqb rt ZERO) ;; Bltzc rs imm16_21
  | kCondGEZ => CHECK (gpu_eqb rt ZERO) ;; Bgezc rs imm16_21
  | kCondLEZ => CHECK (gpu_eqb rt ZERO) ;; Blezc rs imm16_21
  | kCondGTZ => CHECK (gpu_eqb rt ZERO) ;; Bgtzc rs imm16_21
  | kCondEQ => Beqc rs rt imm16_21
  | kCondNE => Bnec rs rt imm16_21
  | kCondEQZ => CHECK (gpu_eqb rt ZERO) ;; Beqzc rs imm16_21
  | kCondNEZ => CHECK (gpu_eqb rt ZERO) ;; Bnezc rs imm16_21
  | kCondLTU => Bltuc rs rt imm16_21
  | kCondGEU => Bgeuc rs rt imm16_21
  | kUncond => fatal
  end.

Definition Jic (rt : GpuRegister) (imm16 : Z) : M unit := Jalr ZERO rt (u16 imm16).
Definition Jialc (rt : GpuRegister) (imm16 : Z) : M unit := Jalr RA rt (u16 imm16).

Definition Low12Bits (value : Z) : Z := u16 (Z.land (u32 value) 0xFFF).
Definition High20Bits (value : Z) : Z := u32 (Z.shiftr (u32 value) 12).

(** *** Branches and labels in the assembler *)

Fixpoint list_update {A : Type} (l : list A) (i : nat) (x : A) : list A :=
  match l, i with
  | [], _ => []
  | _ :: t, O => x :: t
  | h :: t, S i' => h :: list_update t i' x
  end.

Definition GetBranch (branch_id : Z) : M Branch :=
  a <- get ;;
  CHECK ((0 <=? branch_id) && (branch_id <? Z.of_nat (List.length (branches_ a)))) ;;
  lift (nth_error (branches_ a) (Z.to_nat branch_id)).

Definition SetBranch (branch_id : Z) (b : Branch) : M unit :=
  a <- get ;;
  put (with_branches a (list_update (branches_ a) (Z.to_nat branch_id) b)).

(** The [while (label->IsLinked())] loop of [Bind]. Every turn moves to
    a branch created earlier, so the number of branches bounds the walk;
    [fuel] is that bound. *)
Fixpoint Bind_walk (fuel : nat) (bound_pc : Z) (label : Riscv64Label)
  : M Riscv64Label :=
  if IsLinked label then
    match fuel with
    | O => fatal
    | S fuel' =>
        let branch_id := u32 (Position label) in
        branch <- GetBranch branch_id ;;
        SetBranch branch_id (Resolve branch bound_pc) ;;
        let branch_location := location_ branch in
        a <- get ;;
        let prev := buf_Load32 (buffer_ a) branch_location in
        Bind_walk fuel' bound_pc (set_position label (sext 32 prev))
    end
  else ret label.

Definition Bind (label : Riscv64Label) : M Riscv64Label :=
  CHECK (negb (IsBound label)) ;;
  a <- get ;;
  let bound_pc := u32 (buf_Size (buffer_ a)) in
  label <- Bind_walk (S (List.length (branches_ a))) bound_pc label ;;
  a <- get ;;
  let n := u32 (Z.of_nat (List.length (branches_ a))) in
  let label := {| position_ := position_ label; prev_branch_id_plus_one_ := n |} in
  if negb (n =? 0) then
    branch <- GetBranch (n - 1) ;;
    let bound_pc := u32 (bound_pc - GetEndLocation branch) in
    ret (BindTo label (sext 32 bound_pc))
  else ret (BindTo label (sext 32 bound_pc)).

Definition GetLabelLocation (label : Riscv64Label) : M Z :=
  CHECK (IsBound label) ;;
  let target := u32 (Position label) in
  if negb (prev_branch_id_plus_one_ label =? 0) then
    branch <- GetBranch (prev_branch_id_plus_one_ label - 1) ;;
    ret (u32 (target + GetEndLocation branch))
  else ret target.

Fixpoint Nops (n : nat) : M unit :=
  match n with
  | O => ret tt
  | S n' => Nop ;; Nops n'
  end.

Definition FinalizeLabeledBranch (label : Riscv64Label) : M Riscv64Label :=
  a <- get ;;
  last <- lift (nth_error (branches_ a) (List.length (branches_ a) - 1)) ;;
  let length := GetLength last in
  if negb (IsBound label) then
    Emit (position_ label) ;;
    let length := u32 (length - 1) in
    let branch_id := Z.of_nat (List.length (branches_ a)) - 1 in
    Nops (Z.to_nat length) ;;
    ret (LinkTo label branch_id)
  else
    Nops (Z.to_nat length) ;; ret label.

Definition emplace_back (b : option Branch) : M unit :=
  b <- lift b ;;
  a <- get ;;
  put (with_branches a (branches_ a ++ [b])).

Definition label_target (label : Riscv64Label) : M Z :=
  if IsBound label then GetLabelLocation label else ret kUnresolved.

Definition Buncond (label : Riscv64Label) (is_bare : bool) : M Riscv64Label :=
  target <- label_target label ;;
  a <- get ;;
  emplace_back (Branch_uncond (u32 (buf_Size (buffer_ a))) target false is_bare) ;;
  FinalizeLabeledBranch label.

Definition Bcond (label : Riscv64Label) (is_bare : bool)
    (condition : BranchCondition) (lhs rhs : GpuRegister) : M Riscv64Label :=
  if IsNop condition lhs rhs then ret label
  else
    target <- label_target label ;;
    a <- get ;;
    emplace_back (Branch_cond (u32 (buf_Size (buffer_ a))) target condition
                              lhs rhs is_bare) ;;
    FinalizeLabeledBranch label.

Definition Call (label : Riscv64Label) (is_bare : bool) : M Riscv64Label :=
  target <- label_target label ;;
  a <- get ;;
  emplace_back (Branch_uncond (u32 (buf_Size (buffer_ a))) target true is_bare) ;;
  FinalizeLabeledBranch label.

Definition LoadLabelAddress (dest_reg : GpuRegister) (label : Riscv64Label)
  : M Riscv64Label :=
  a <- get ;;
  emplace_back (Branch_label_or_literal (u32 (buf_Size (buffer_ a))) dest_reg kLabel) ;;
  FinalizeLabeledBranch label.

(** The overloads that take a label. *)
Definition Bc_label (label : Riscv64Label) (is_bare : bool) := Buncond label is_bare.
Definition Balc_label (label : Riscv64Label) (is_bare : bool) := Call label is_bare.
Definition Bltc_label (rs rt : GpuRegister) (label : Riscv64Label) (is_bare : bool) :=
  Bcond label is_bare kCondLT rs rt.
Definition Bgec_label (rs rt : GpuRegister) (label : Riscv64Label) (is_bare : bool) :=
  Bcond label is_bare kCondGE rs rt.
Definition Bltuc_label (rs rt : GpuRegister) (label : Riscv64Label) (is_bare : bool) :=
  Bcond label is_bare kCondLTU rs rt.
Definition Bgeuc_label (rs rt : GpuRegister) (label : Riscv64Label) (is_bare : bool) :=
  Bcond label is_bare kCondGEU rs rt.
Definition Beqc_label (rs rt : GpuRegister) (label : Riscv64Label) (is_bare : bool) :=
  Bcond label is_bare kCondEQ rs rt.
Definition Bnec_label (rs rt : GpuRegister) (label : Riscv64Label) (is_bare : bool) :=
  Bcond label is_bare kCondNE rs rt.
Definition Beqzc_label (rs : GpuRegister) (label : Riscv64Label) (is_bare : bool) :=
  Bcond label is_bare kCondEQZ rs ZERO.
Definition Bnezc_label (rs : GpuRegister) (label : Riscv64Label) (is_bare : bool) :=
  Bcond label is_bare kCondNEZ rs ZERO.

(** *** Literals *)

(** A [Literal*]: the pool and the index in it. *)
Inductive LiteralRef : Set :=
| Lit4 (i : nat)
| Lit8 (i : nat).

Definition NewLiteral (size : Z) (data : list Z) : M LiteralRef :=
  a <- get ;;
  let lit := {| label_ := new_label; size_ := size; data_ := data |} in
  if size =? 4 then
    put (with_literals a (literals_ a ++ [lit]) (long_literals_ a)) ;;
    ret (Lit4 (List.length (literals_ a)))
  else
    put (with_literals a (literals_ a) (long_literals_ a ++ [lit])) ;;
    ret (Lit8 (List.length (long_literals_ a))).

Definition GetLiteral (r : LiteralRef) : M Literal :=
  a <- get ;;
  match r with
  | Lit4 i => lift (nth_error (literals_ a) i)
  | Lit8 i => lift (nth_error (long_literals_ a) i)
  end.

Definition SetLiteralLabel (r : LiteralRef) (l : Riscv64Label) : M unit :=
  lit <- GetLiteral r ;;
  a <- get ;;
  let lit' := {| label_ := l; size_ := size_ lit; data_ := data_ lit |} in
  match r with
  | Lit4 i => put (with_literals a (list_update (literals_ a) i lit') (long_literals_ a))
  | Lit8 i => put (with_literals a (literals_ a) (list_update (long_literals_ a) i lit'))
  end.

Inductive LoadOperandType : Set :=
| kLoadSignedByte | kLoadUnsignedByte | kLoadSignedHalfword
| kLoadUnsignedHalfword | kLoadWord | kLoadUnsignedWord | kLoadDoubleword
| kLoadQuadword.

Definition LoadLiteral (dest_reg : GpuRegister) (load_type : LoadOperandType)
    (literal : LiteralRef) : M unit :=
  literal_type <-
    match load_type with
    | kLoadWord => ret kLiteral
    | kLoadUnsignedWord => ret kLiteralUnsigned
    | kLoadDoubleword => ret kLiteralLong
    | _ => fatal
    end ;;
  lit <- GetLiteral literal ;;
  a <- get ;;
  emplace_back (Branch_label_or_literal (u32 (buf_Size (buffer_ a))) dest_reg
                                        literal_type) ;;
  label <- FinalizeLabeledBranch (label_ lit) ;;
  SetLiteralLabel literal label.

Definition EmitBytes (data : list Z) : M unit :=
  a <- get ;;
  put (with_buffer a (fold_left buf_Emit8 data (buffer_ a))).

Fixpoint EmitLiteralPool (mk : nat -> LiteralRef) (n : nat) (i : nat) : M unit :=
  match n with
  | O => ret tt
  | S n' =>
      lit <- GetLiteral (mk i) ;;
      label <- Bind (label_ lit) ;;
      SetLiteralLabel (mk i) label ;;
      EmitBytes (firstn (Z.to_nat (size_ lit)) (data_ lit)) ;;
      EmitLiteralPool mk n' (S i)
  end.

Definition EmitLiterals : M unit :=
  a <- get ;;
  EmitLiteralPool Lit4 (List.length (literals_ a)) 0 ;;
  if negb (Nat.eqb (List.length (long_literals_ a)) 0) then
    (* Reserve 4 bytes for potential alignment. *)
    Emit 0 ;;
    EmitLiteralPool Lit8 (List.length (long_literals_ a)) 0
  else ret tt.

(** *** Promotion *)

(** One turn of the [for (auto& branch : branches_)] loop, for the
    branches from index [i] on; [todo] counts them. *)
Fixpoint PromotePass (todo i : nat) (bs : list Branch) (changed : bool)
  : option (list Branch * bool) :=
  match todo with
  | O => Some (bs, changed)
  | S todo' =>
      match nth_error bs i with
      | None => Some (bs, changed)
      | Some branch =>
          if negb (IsResolved branch) then None
          else
            match PromoteIfNeeded branch kDefaultMaxShortDistance with
            | None => None
            | Some (delta, branch') =>
                let bs := list_update bs i branch' in
                if delta =? 0 then PromotePass todo' (S i) bs changed
                else
                  let expand_location := location_ branch' in
                  PromotePass todo' (S i)
                    (map (fun branch2 => Relocate branch2 expand_location delta) bs)
                    true
            end
      end
  end.

(** The [do ... while (changed)] loop. *)
Inductive LoopResult : Set :=
| Settled (bs : list Branch)
| CheckFailure
| OutOfFuel.

Fixpoint PromoteLoop (fuel : nat) (bs : list Branch) : LoopResult :=
  match fuel with
  | O => OutOfFuel
  | S fuel' =>
      match PromotePass (List.length bs) 0 bs false with
      | None => CheckFailure
      | Some (bs', changed) =>
          if changed then PromoteLoop fuel' bs' else Settled bs'
      end
  end.

(** The number of branches that can still be promoted bounds the number
    of turns of the loop. *)
Definition short_count (bs : list Branch) : nat :=
  List.length (filter (fun b => negb (IsLong b)) bs).

(** Moving the code between the branch placeholders, last branch first. *)
Fixpoint MoveCode (rev_bs : list Branch) (end_ : Z) (buf : list Z) : list Z :=
  match rev_bs with
  | [] => buf
  | branch :: rest =>
      let size := u32 (end_ - GetOldEndLocation branch) in
      let buf := buf_Move buf (GetEndLocation branch) (GetOldEndLocation branch) size in
      MoveCode rest (old_location_ branch) buf
  end.

(** The last part of [PromoteBranches]: 64-bit literals are moved down by
    4 bytes when they do not start at a multiple of 8. *)
Definition AlignLongLiterals : M unit :=
  a <- get ;;
  match long_literals_ a with
  | [] => ret tt
  | front :: _ =>
      first_literal_location <- GetLabelLocation (label_ front) ;;
      let lit_size := Z.of_nat (List.length (long_literals_ a)) * 8 in
      let buf_size := buf_Size (buffer_ a) in
      CHECK (first_literal_location + lit_size =? buf_size) ;;
      if negb (first_literal_location mod 8 =? 0) then
        let buf := buf_Move (buffer_ a) (first_literal_location - 4)
                            first_literal_location lit_size in
        let buf := buf_Resize buf (buf_size - 4) in
        let bs :=
          map (fun branch =>
                 let target := target_ branch in
                 if first_literal_location <=? target
                 then Resolve branch (u32 (target - 4)) else branch)
              (branches_ a) in
        let lls :=
          map (fun lit =>
                 {| label_ := set_position (label_ lit) (position_ (label_ lit) + 4);
                    size_ := size_ lit; data_ := data_ lit |})
              (long_literals_ a) in
        put (with_literals (with_branches (with_buffer a buf) bs) (literals_ a) lls)
      else ret tt
  end.

Definition PromoteBranches : M unit :=
  a <- get ;;
  bs <- match PromoteLoop (S (short_count (branches_ a))) (branches_ a) with
        | Settled bs => ret bs
        | _ => fatal
        end ;;
  a <- get ;;
  let a := with_branches a bs in
  let a :=
    match rev bs with
    | [] => a
    | last_branch :: _ =>
        let size_delta :=
          u32 (GetEndLocation last_branch - GetOldEndLocation last_branch) in
        let old_size := u32 (buf_Size (buffer_ a)) in
        let buf := buf_Resize (buffer_ a) (old_size + size_delta) in
        with_buffer a (MoveCode (rev bs) old_size buf)
    end in
  put a ;;
  AlignLongLiterals.

(** *** Final emission and the macro instructions that use scratch
    registers

    [AT], [TMP] and [TMP2] are aliases defined in registers_riscv64.h,
    which is not among the sources: they are parameters here. *)

Section Scratch.
Variables AT TMP TMP2 : GpuRegister.

(** [offset += (offset & 0x800) << 1], then the two halves. *)
Definition AdjustOffset (offset : Z) : Z :=
  u32 (offset + u32 (Z.shiftl (Z.land offset 0x800) 1)).

Definition EmitBranch (branch : Branch) : M unit :=
  a <- get ;;
  CHECK (overwriting_ a) ;;
  put (with_overwrite_location a (location_ branch)) ;;
  offset <- lift (GetOffset branch) ;;
  let condition := condition_ branch in
  let lhs := lhs_reg_ branch in
  let rhs := rhs_reg_ branch in
  let at_offset_location : M unit :=
    (a <- get ;; CHECK (overwrite_location_ a =? GetOffsetLocation branch)) in
  match type_ branch with
  | kUncondBranch => at_offset_location ;; Bc offset
  | kCondBranch => at_offset_location ;; EmitBcond condition lhs rhs offset
  | kCall => at_offset_location ;; Balc offset
  | kBareUncondBranch => at_offset_location ;; Bc offset
  | kBareCondBranch => at_offset_location ;; EmitBcond condition lhs rhs offset
  | kBareCall => at_offset_location ;; Balc offset
  | kLabel =>
      let offset := AdjustOffset offset in
      at_offset_location ;;
      Auipc AT (High20Bits offset) ;; Addi lhs AT (Low12Bits offset)
  | kLiteral =>
      let offset := AdjustOffset offset in
      at_offset_location ;;
      Auipc AT (High20Bits offset) ;; Lw lhs AT (Low12Bits offset)
  | kLiteralUnsigned =>
      let offset := AdjustOffset offset in
      at_offset_location ;;
      Auipc AT (High20Bits offset) ;; Lwu lhs AT (Low12Bits offset)
  | kLiteralLong =>
      let offset := AdjustOffset offset in
      at_offset_location ;;
      Auipc AT (High20Bits offset) ;; Ld lhs AT (Low12Bits offset)
  | kLongUncondBranch =>
      let offset := AdjustOffset offset in
      at_offset_location ;;
      Auipc AT (High20Bits offset) ;; Jic AT (Low12Bits offset)
  | kLongCondBranch =>
      opposite <- lift (OppositeCondition condition) ;;
      EmitBcond opposite lhs rhs 12 ;;
      let offset := AdjustOffset offset in
      at_offset_location ;;
      Auipc AT (High20Bits offset) ;; Jic AT (Low12Bits offset)
  | kLongCall =>
      let offset := AdjustOffset offset in
      at_offset_location ;;
      Auipc AT (High20Bits offset) ;; Jialc AT (Low12Bits offset)
  end ;;
  a <- get ;;
  CHECK (overwrite_location_ a =? GetEndLocation branch) ;;
  CHECK (GetSize branch <? kMaxBranchSize).

Fixpoint EmitBranchList (bs : list Branch) : M unit :=
  match bs with
  | [] => ret tt
  | branch :: rest => EmitBranch branch ;; EmitBranchList rest
  end.

Definition EmitBranches : M unit :=
  a <- get ;;
  CHECK (negb (overwriting_ a)) ;;
  put (with_overwriting a true) ;;
  EmitBranchList (branches_ a) ;;
  a <- get ;;
  put (with_overwriting a false).

(** [FinalizeCode] and [FinalizeInstructions] of a method without
    exception slow paths and jump tables; the copy into the memory region
    and the CFI patching leave the buffer as it is. *)
Definition FinalizeCode : M unit := EmitLiterals ;; PromoteBranches.
Definition FinalizeInstructions : M unit := EmitBranches.

(** The bytes of a finished method. *)
Definition assemble (body : M unit) : option (list Z) :=
  match (body ;; FinalizeCode ;; FinalizeInstructions) new_assembler with
  | Some (_, a) => Some (buffer_ a)
  | None => None
  end.

(** *** Constants *)

Definition LoadConst32 (rd : GpuRegister) (value : Z) : M unit :=
  let value := sext 32 value in
  if IsInt 12 value then Addi rd ZERO value
  else
    let l := Z.land value 0xFFF in
    let h := Z.shiftr value 12 in
    let h := if negb (Z.land l 0x800 =? 0) then sext 32 (h + 1) else h in
    Lui rd h ;;
    if negb (l =? 0) then Addiw rd rd l else ret tt.

Definition LoadConst64 (rd : GpuRegister) (value : Z) : M unit :=
  let value := sext 64 value in
  if IsInt 32 value then LoadConst32 rd value
  else
    let hi := sext 32 (Z.shiftr value 32) in
    let lo := sext 32 value in
    let scratch := TMP2 in
    LoadConst32 scratch lo ;;
    LoadConst32 rd hi ;;
    Slli rd rd 32 ;;
    Slli scratch scratch 32 ;;
    Srli scratch scratch 32 ;;
    Or rd rd scratch.

(** *** Truncation and NaN-aware min/max (the build without
    RISCV64_VARIANTS_THEAD) *)

Definition TruncLS (rd : GpuRegister) (fs : FpuRegister) : M unit :=
  Xor rd rd rd ;;
  FEqS TMP fs fs ;;
  let label := new_label in
  label <- Beqzc_label TMP label false ;;
  FCvtLS rd fs kFPRoundingModeRTZ ;;
  _ <- Bind label ;; ret tt.

Definition TruncLD (rd : GpuRegister) (fs : FpuRegister) : M unit :=
  Xor rd rd rd ;;
  FEqD TMP fs fs ;;
  let label := new_label in
  label <- Beqzc_label TMP label false ;;
  FCvtLD rd fs kFPRoundingModeRTZ ;;
  _ <- Bind label ;; ret tt.

Definition TruncWS (rd : GpuRegister) (fs : FpuRegister) : M unit :=
  Xor rd rd rd ;;
  FEqS TMP fs fs ;;
  let label := new_label in
  label <- Beqzc_label TMP label false ;;
  FCvtWS rd fs kFPRoundingModeRTZ ;;
  _ <- Bind label ;; ret tt.

Definition TruncWD (rd : GpuRegister) (fs : FpuRegister) : M unit :=
  Xor rd rd rd ;;
  FEqD TMP fs fs ;;
  let label := new_label in
  label <- Beqzc_label TMP label false ;;
  FCvtWD rd fs kFPRoundingModeRTZ ;;
  _ <- Bind label ;; ret tt.

Definition FJMaxMinS (fd fs ft : FpuRegister) (is_min : bool) : M unit :=
  let labelFS := new_label in
  let labelFT := new_label in
  let labelDone := new_label in
  FEqS TMP fs fs ;;
  labelFS <- Beqzc_label TMP labelFS false ;;
  FEqS TMP ft ft ;;
  labelFT <- Beqzc_label TMP labelFT false ;;
  (if is_min then FMinS fd fs ft else FMaxS fd fs ft) ;;
  labelDone <- Bc_label labelDone false ;;
  _ <- Bind labelFS ;;
  MovS fd fs ;;
  labelDone <- Bc_label labelDone false ;;
  _ <- Bind labelFT ;;
  MovS fd ft ;;
  _ <- Bind labelDone ;; ret tt.

Definition FJMaxMinD (fd fs ft : FpuRegister) (is_min : bool) : M unit :=
  let labelFS := new_label in
  let labelFT := new_label in
  let labelDone := new_label in
  FEqD TMP fs fs ;;
  labelFS <- Beqzc_label TMP labelFS false ;;
  FEqD TMP ft ft ;;
  labelFT <- Beqzc_label TMP labelFT false ;;
  (if is_min then FMinD fd fs ft else FMaxD fd fs ft) ;;
  labelDone <- Bc_label labelDone false ;;
  _ <- Bind labelFS ;;
  MovD fd fs ;;
  labelDone <- Bc_label labelDone false ;;
  _ <- Bind labelFT ;;
  MovD fd ft ;;
  _ <- Bind labelDone ;; ret tt.

End Scratch.

End Asm.

(** ** The target machine

    What the emitted words do when a RV64GC hart runs them: the
    instructions the properties below need, decoded from the word as the
    RISC-V manual lays the fields out. General registers hold signed
    64-bit integers, floating-point registers the value they denote. *)

Module Rv64.

Inductive FFmt : Set := FmtS | FmtD.
Inductive BrOp : Set := BEQ | BNE | BLT | BGE | BLTU | BGEU.

Inductive Instr : Set :=
| LUI (rd : GpuRegister) (imm : Z)
| AUIPC (rd : GpuRegister) (imm : Z)
| JAL (rd : GpuRegister) (offset : Z)
| JALR (rd rs1 : GpuRegister) (imm : Z)
| BRANCH (op : BrOp) (rs1 rs2 : GpuRegister) (offset : Z)
| ADDI (rd rs1 : GpuRegister) (imm : Z)
| ORI (rd rs1 : GpuRegister) (imm : Z)
| SLLI (rd rs1 : GpuRegister) (shamt : Z)
| SRLI (rd rs1 : GpuRegister) (shamt : Z)
| ADDIW (rd rs1 : GpuRegister) (imm : Z)
| OR (rd rs1 rs2 : GpuRegister)
| XOR (rd rs1 rs2 : GpuRegister)
| FEQ (fmt : FFmt) (rd : GpuRegister) (fs1 fs2 : FpuRegister)
| FCVT_W (fmt : FFmt) (rd : GpuRegister) (fs1 : FpuRegister) (rm : Z)
| FCVT_L (fmt : FFmt) (rd : GpuRegister) (fs1 : FpuRegister) (rm : Z)
| FMIN (fmt : FFmt) (fd fs1 fs2 : FpuRegister)
| FMAX (fmt : FFmt) (fd fs1 fs2 : FpuRegister)
| FSGNJ (fmt : FFmt) (fd fs1 fs2 : FpuRegister).

(** Bits [lo .. lo+n-1] of an instruction word. *)
Definition field (w lo n : Z) : Z := Z.land (Z.shiftr w lo) (Z.ones n).

Definition immI (w : Z) : Z := sext 12 (field w 20 12).
Definition immU (w : Z) : Z := sext 32 (Z.shiftl (field w 12 20) 12).
Definition immB (w : Z) : Z :=
  sext 13 (Z.lor (Z.lor (Z.lor (Z.shiftl (field w 31 1) 12)
                               (Z.shiftl (field w 7 1) 11))
                        (Z.shiftl (field w 25 6) 5))
                 (Z.shiftl (field w 8 4) 1)).
Definition immJ (w : Z) : Z :=
  sext 21 (Z.lor (Z.lor (Z.lor (Z.shiftl (field w 31 1) 20)
                               (Z.shiftl (field w 12 8) 12))
                        (Z.shiftl (field w 20 1) 11))
                 (Z.shiftl (field w 21 10) 1)).

Definition decode_fields (opcode rd funct3 rs1 rs2 funct7 : Z)
    (iI iU iB iJ : Z) : option Instr :=
  let xd := gpu_of_num rd in
  let x1 := gpu_of_num rs1 in
  let x2 := gpu_of_num rs2 in
  let fd := fpu_of_num rd in
  let f1 := fpu_of_num rs1 in
  let f2 := fpu_of_num rs2 in
  if opcode =? 0x37 then Some (LUI xd iU)
  else if opcode =? 0x17 then Some (AUIPC xd iU)
  else if opcode =? 0x6F then Some (JAL xd iJ)
  else if opcode =? 0x67 then
    if funct3 =? 0 then Some (JALR xd x1 iI) else None
  else if opcode =? 0x63 then
    if funct3 =? 0 then Some (BRANCH BEQ x1 x2 iB)
    else if funct3 =? 1 then Some (BRANCH BNE x1 x2 iB)
    else if funct3 =? 4 then Some (BRANCH BLT x1 x2 iB)
    else if funct3 =? 5 then Some (BRANCH BGE x1 x2 iB)
    else if funct3 =? 6 then Some (BRANCH BLTU x1 x2 iB)
    else if funct3 =? 7 then Some (BRANCH BGEU x1 x2 iB)
    else None
  else if opcode =? 0x13 then
    if funct3 =? 0 then Some (ADDI xd x1 iI)
    else if funct3 =? 6 then Some (ORI xd x1 iI)
    else if (funct3 =? 1) && (Z.shiftr funct7 1 =? 0)
      then Some (SLLI xd x1 (rs2 + 32 * Z.land funct7 1))
    else if (funct3 =? 5) && (Z.shiftr funct7 1 =? 0)
      then Some (SRLI xd x1 (rs2 + 32 * Z.land funct7 1))
    else None
  else if opcode =? 0x1b then
    if funct3 =? 0 then Some (ADDIW xd x1 iI) else None
  else if opcode =? 0x33 then
    if (funct7 =? 0) && (funct3 =? 6) then Some (OR xd x1 x2)
    else if (funct7 =? 0) && (funct3 =? 4) then Some (XOR xd x1 x2)
    else None
  else if opcode =? 0x53 then
    (* funct7 is funct5 followed by the two format bits *)
    let fmt := if Z.land funct7 3 =? 0 then FmtS else FmtD in
    let op := Z.shiftr funct7 2 in
    if 2 <=? Z.land funct7 3 then None
    else if (op =? 0x14) && (funct3 =? 2) then Some (FEQ fmt xd f1 f2)
    else if (op =? 0x18) && (rs2 =? 0) then Some (FCVT_W fmt xd f1 funct3)
    else if (op =? 0x18) && (rs2 =? 2) then Some (FCVT_L fmt xd f1 funct3)
    else if (op =? 0x05) && (funct3 =? 0) then Some (FMIN fmt fd f1 f2)
    else if (op =? 0x05) && (funct3 =? 1) then Some (FMAX fmt fd f1 f2)
    else if (op =? 0x04) && (funct3 =? 0) then Some (FSGNJ fmt fd f1 f2)
    else None
  else None.

Definition decode (w : Z) : option Instr :=
  decode_fields (field w 0 7) (field w 7 5) (field w 12 3) (field w 15 5)
                (field w 20 5) (field w 25 7) (immI w) (immU w) (immB w) (immJ w).

(** *** Floating-point values *)

Definition is_nan (v : spec_float) : bool :=
  match v with S754_nan => true | _ => false end.

Definition sign_of (v : spec_float) : bool :=
  match v with
  | S754_zero s | S754_infinity s | S754_finite s _ _ => s
  | S754_nan => false
  end.

(** FEQ: 1 when both operands are numbers and equal, 0 otherwise. *)
Definition feq (a b : spec_float) : Z := if SFeqb a b then 1 else 0.

(** FMIN and FMAX: the number when one operand is NaN, NaN when both are. *)
Definition fmin (a b : spec_float) : spec_float :=
  if is_nan a then b
  else if is_nan b then a
  else if SFltb a b then a
  else if SFltb b a then b
  else if sign_of a then a else b.

Definition fmax (a b : spec_float) : spec_float :=
  if is_nan a then b
  else if is_nan b then a
  else if SFltb a b then b
  else if SFltb b a then a
  else if sign_of a then b else a.

(** FSGNJ: the first operand with the sign of the second. *)
Definition fsgnj (a b : spec_float) : spec_float :=
  match a with
  | S754_zero _ => S754_zero (sign_of b)
  | S754_infinity _ => S754_infinity (sign_of b)
  | S754_finite _ m e => S754_finite (sign_of b) m e
  | S754_nan => S754_nan
  end.

(** The integer part of a number, rounding towards zero. *)
Definition truncate (v : spec_float) : Z :=
  match v with
  | S754_finite s m e =>
      let a := if 0 <=? e then Zpos m * 2 ^ e else Zpos m / 2 ^ (- e) in
      if s then - a else a
  | _ => 0
  end.

(** FCVT.W and FCVT.L with the static rounding mode RTZ: out-of-range
    inputs saturate, NaN gives the largest integer. *)
Definition fcvt_rtz (bits : Z) (v : spec_float) : Z :=
  let lo := - 2 ^ (bits - 1) in
  let hi := 2 ^ (bits - 1) - 1 in
  match v with
  | S754_nan => hi
  | S754_infinity s => if s then lo else hi
  | _ => Z.max lo (Z.min hi (truncate v))
  end.

(** *** States and steps *)

Record State : Type := {
  pc : Z;
  x : GpuRegister -> Z;
  f : FpuRegister -> spec_float
}.

Definition getx (s : State) (r : GpuRegister) : Z :=
  if gpu_eqb r ZERO then 0 else x s r.

Definition setx (s : State) (r : GpuRegister) (v : Z) : State :=
  {| pc := pc s;
     x := fun r' => if gpu_eqb r' r then sext 64 v else x s r';
     f := f s |}.

Definition setf (s : State) (r : FpuRegister) (v : spec_float) : State :=
  {| pc := pc s; x := x s;
     f := fun r' => if fpu_eqb r' r then v else f s r' |}.

Definition goto (s : State) (target : Z) : State :=
  {| pc := target; x := x s; f := f s |}.

Definition next (s : State) : State := goto s (pc s + 4).

Definition taken (op : BrOp) (a b : Z) : bool :=
  match op with
  | BEQ => a =? b
  | BNE => negb (a =? b)
  | BLT => a <? b
  | BGE => b <=? a
  | BLTU => u64 a <? u64 b
  | BGEU => u64 b <=? u64 a
  end.

(** [None]: a rounding mode outside the model. *)
Definition step_instr (i : Instr) (s : State) : option State :=
  match i with
  | LUI rd imm => Some (next (setx s rd imm))
  | AUIPC rd imm => Some (next (setx s rd (pc s + imm)))
  | JAL rd offset => Some (goto (setx s rd (pc s + 4)) (pc s + offset))
  | JALR rd rs1 imm =>
      let target := Z.land (getx s rs1 + imm) (-2) in
      Some (goto (setx s rd (pc s + 4)) target)
  | BRANCH op rs1 rs2 offset =>
      if taken op (getx s rs1) (getx s rs2)
      then Some (goto s (pc s + offset)) else Some (next s)
  | ADDI rd rs1 imm => Some (next (setx s rd (getx s rs1 + imm)))
  | ORI rd rs1 imm => Some (next (setx s rd (Z.lor (getx s rs1) imm)))
  | SLLI rd rs1 shamt => Some (next (setx s rd (Z.shiftl (getx s rs1) shamt)))
  | SRLI rd rs1 shamt =>
      Some (next (setx s rd (Z.shiftr (u64 (getx s rs1)) shamt)))
  | ADDIW rd rs1 imm => Some (next (setx s rd (sext 32 (getx s rs1 + imm))))
  | OR rd rs1 rs2 => Some (next (setx s rd (Z.lor (getx s rs1) (getx s rs2))))
  | XOR rd rs1 rs2 => Some (next (setx s rd (Z.lxor (getx s rs1) (getx s rs2))))
  | FEQ _ rd fs1 fs2 => Some (next (setx s rd (feq (f s fs1) (f s fs2))))
  | FCVT_W _ rd fs1 rm =>
      if rm =? 1 then Some (next (setx s rd (fcvt_rtz 32 (f s fs1)))) else None
  | FCVT_L _ rd fs1 rm =>
      if rm =? 1 then Some (next (setx s rd (fcvt_rtz 64 (f s fs1)))) else None
  | FMIN _ fd fs1 fs2 => Some (next (setf s fd (fmin (f s fs1) (f s fs2))))
  | FMAX _ fd fs1 fs2 => Some (next (setf s fd (fmax (f s fs1) (f s fs2))))
  | FSGNJ _ fd fs1 fs2 => Some (next (setf s fd (fsgnj (f s fs1) (f s fs2))))
  end.

Definition fetch (code : list Z) (at_ : Z) : option Z :=
  if (0 <=? at_) && (at_ + 4 <=? Asm.buf_Size code)
  then Some (Asm.buf_Load32 code at_) else None.

Definition step (code : list Z) (s : State) : option State :=
  match fetch code (pc s) with
  | None => None
  | Some w =>
      match decode w with
      | None => None
      | Some i => step_instr i s
      end
  end.

(** Running the code placed at address 0 until control leaves it at its
    end. [None]: a fault, or the fuel ran out. *)
Fixpoint run (fuel : nat) (code : list Z) (s : State) : option State :=
  if pc s =? Asm.buf_Size code then Some s
  else match fuel with
       | O => None
       | S fuel' =>
           match step code s with
           | None => None
           | Some s' => run fuel' code s'
           end
       end.

End Rv64.

(** * Properties *)

(** ** Instruction-set features *)

Lemma has_testbit (bits_ n : Z) :
  0 <= n -> Features.has bits_ (Z.shiftl 1 n) = Z.testbit bits_ n.
Proof.
  intros Hn. unfold Features.has.
  rewrite Z.shiftl_1_l.
  destruct (Z.testbit bits_ n) eqn:E.
  - destruct (Z.eqb_spec (Z.land bits_ (2 ^ n)) 0) as [H0|]; [|reflexivity].
    assert (T : Z.testbit (Z.land bits_ (2 ^ n)) n = true).
    { rewrite Z.land_spec, E, Z.pow2_bits_true by lia. reflexivity. }
    rewrite H0, Z.bits_0 in T. discriminate.
  - destruct (Z.eqb_spec (Z.land bits_ (2 ^ n)) 0) as [|H0]; [reflexivity|].
    exfalso. apply H0. apply Z.bits_inj'. intros i Hi.
    rewrite Z.land_spec, Z.bits_0.
    destruct (Z.eq_dec i n) as [->|Hne].
    + rewrite E. reflexivity.
    + rewrite (Z.pow2_bits_false n i) by lia. apply andb_false_r.
Qed.

(** C7. For every bitmap, GetFeatureString is "rv64imaf" followed by "d"
    exactly when the double-precision bit (bit 4) is set, then "c" exactly
    when the compressed bit (bit 5) is set, then "v" exactly when the
    vector bit (bit 6) is set; the default combination gives "rv64imafdc";
    and among the letters after the fixed prefix "v" occurs exactly when
    the vector bit is set. *)
Theorem GetFeatureString_spec (bits_ : Z) :
  Features.GetFeatureString bits_
  = ("rv64imaf"
       ++ (if Z.testbit bits_ 4 then "d" else "")
       ++ (if Z.testbit bits_ 5 then "c" else "")
       ++ (if Z.testbit bits_ 6 then "v" else ""))%string
  /\ Features.GetFeatureString Features.FromCppDefines = "rv64imafdc"%string
  /\ (In "v"%char (Features.feature_letters (Features.GetFeatureString bits_))
      <-> Z.testbit bits_ 6 = true).
Proof.
  assert (E : Features.GetFeatureString bits_
    = ("rv64imaf"
       ++ (if Z.testbit bits_ 4 then "d" else "")
       ++ (if Z.testbit bits_ 5 then "c" else "")
       ++ (if Z.testbit bits_ 6 then "v" else ""))%string).
  { unfold Features.GetFeatureString, Features.kDBitfield,
      Features.kCBitfield, Features.kVBitfield.
    rewrite !has_testbit by lia.
    destruct (Z.testbit bits_ 4), (Z.testbit bits_ 5), (Z.testbit bits_ 6);
      reflexivity. }
  split; [exact E|]. split; [reflexivity|].
  rewrite E. unfold Features.feature_letters.
  destruct (Z.testbit bits_ 4), (Z.testbit bits_ 5), (Z.testbit bits_ 6);
    cbn; split; intros H; try reflexivity; try discriminate;
    repeat (destruct H as [H|H]; try discriminate H); auto 6.
Qed.

(** ** Unwind context *)

(** A context in which only the slot of register 8 is filled. *)
Definition sample_context : Context.Riscv64Context :=
  {| Context.gprs_ := fun r => if r =? 8 then Some 4096 else None;
     Context.fprs_ := fun r => if r =? 8 then Some 8192 else None;
     Context.memory := fun p => p + 1 |}.

(** C8, as stated, fails: the test of the slot is a DCHECK, so a build
    without DCHECK does not stop on a null slot. Register 9 of the sample
    context is in range and not accessible, and GetGPR and GetFPR
    dereference its null slot instead of failing a check. *)
Lemma null_slot_is_unchecked_without_DCHECK :
  Context.IsAccessibleGPR false sample_context 9 = Context.Returns false
  /\ Context.GetGPR false sample_context 9 = Context.NullDereference
  /\ Context.GetGPR false sample_context 9 <> Context.CheckFailed
  /\ Context.IsAccessibleFPR sample_context 9 = Context.Returns false
  /\ Context.GetFPR false sample_context 9 = Context.NullDereference
  /\ Context.GetFPR false sample_context 9 <> Context.CheckFailed.
Proof. repeat split; discriminate. Qed.

(** C8, amended. For a register index in range, a slot is accessible
    exactly when it is non-null; GetGPR and GetFPR return the word a
    non-null slot points to, and never return a value for a null slot:
    a build with DCHECK enabled stops on the failed check, a build
    without it dereferences the null slot. *)
Theorem GetGPR_GetFPR_checked (dbg : bool) (c : Context.Riscv64Context) (reg : Z) :
  0 <= reg < 32 ->
  (Context.gprs_ c reg = None ->
     Context.IsAccessibleGPR dbg c reg = Context.Returns false
     /\ Context.GetGPR dbg c reg
        = (if dbg then Context.CheckFailed else Context.NullDereference)
     /\ forall v, Context.GetGPR dbg c reg <> Context.Returns v)
  /\ (forall p, Context.gprs_ c reg = Some p ->
        Context.IsAccessibleGPR dbg c reg = Context.Returns true
        /\ Context.GetGPR dbg c reg = Context.Returns (Context.memory c p))
  /\ (Context.fprs_ c reg = None ->
        Context.IsAccessibleFPR c reg = Context.Returns false
        /\ Context.GetFPR dbg c reg
           = (if dbg then Context.CheckFailed else Context.NullDereference)
        /\ forall v, Context.GetFPR dbg c reg <> Context.Returns v)
  /\ (forall p, Context.fprs_ c reg = Some p ->
        Context.IsAccessibleFPR c reg = Context.Returns true
        /\ Context.GetFPR dbg c reg = Context.Returns (Context.memory c p)).
Proof.
  intros Hr.
  unfold Context.GetGPR, Context.GetFPR, Context.IsAccessibleGPR,
    Context.IsAccessibleFPR, Context.kNumberOfGpuRegisters,
    Context.kNumberOfFpuRegisters.
  replace (reg <? 32) with true by (symmetry; apply Z.ltb_lt; lia).
  replace (reg <? 32 + 1) with true by (symmetry; apply Z.ltb_lt; lia).
  rewrite andb_false_r. cbn [negb].
  split; [|split; [|split]].
  - intros ->. split; [reflexivity|].
    split; destruct dbg; try reflexivity; intros v; discriminate.
  - intros p ->. split; [reflexivity|]. destruct dbg; reflexivity.
  - intros ->. split; [reflexivity|].
    split; destruct dbg; try reflexivity; intros v; discriminate.
  - intros p ->. split; [reflexivity|]. destruct dbg; reflexivity.
Qed.

Lemma GetGPR_GetFPR_checked_witness :
  0 <= 9 < 32
  /\ Context.GetGPR true sample_context 9 = Context.CheckFailed
  /\ Context.GetGPR false sample_context 9 = Context.NullDereference
  /\ Context.GetGPR true sample_context 8 = Context.Returns 4097
  /\ Context.GetFPR true sample_context 9 = Context.CheckFailed
  /\ Context.GetFPR false sample_context 8 = Context.Returns 8193.
Proof.
  split; [lia|].
  destruct (GetGPR_GetFPR_checked true sample_context 9 ltac:(lia))
    as (G9 & _ & F9 & _).
  destruct (GetGPR_GetFPR_checked false sample_context 9 ltac:(lia))
    as (G9' & _).
  destruct (GetGPR_GetFPR_checked true sample_context 8 ltac:(lia))
    as (_ & G8 & _).
  destruct (GetGPR_GetFPR_checked false sample_context 8 ltac:(lia))
    as (_ & _ & _ & F8).
  split; [exact (proj1 (proj2 (G9 eq_refl)))|].
  split; [exact (proj1 (proj2 (G9' eq_refl)))|].
  split; [exact (proj2 (G8 4096 eq_refl))|].
  split; [exact (proj1 (proj2 (F9 eq_refl)))|].
  exact (proj2 (F8 8192 eq_refl)).
Defined.

(** ** JNI calling convention: frame sizes *)

(** A sample of the helper of jni_frame_riscv64.h: eight bytes for every
    argument beyond the eight registers of its kind. *)
Definition sample_out_args (num_fp_args num_non_fp_args : Z) : Z :=
  (Z.max 0 (num_fp_args - 8) + Z.max 0 (num_non_fp_args - 8)) * 8.

(** A @CriticalNative method [()V]: no arguments, nothing to extend. *)
Definition critical_void_method : Jni.Method :=
  {| Jni.is_critical_native_ := true;
     Jni.SpillsMethod := false;
     Jni.HasLocalReferenceSegmentState := false;
     Jni.SpillsReturnValue := false;
     Jni.SizeOfReturnValue := 0;
     Jni.NumberOfExtraArgumentsForJni := 0;
     Jni.NumArgs := 0;
     Jni.NumFloatOrDoubleArgs := 0;
     Jni.RequiresSmallResultTypeExtension := false |}.

(** C4, as stated, fails: a @CriticalNative method without stack arguments
    and without result extension still gets the return-address slot (16
    bytes after alignment, where the specification leaves 0). *)
Lemma OutFrameSize_always_spills_RA :
  Jni.OutFrameSize 16 sample_out_args critical_void_method = 16
  /\ Jni.OutFrameSize_as_specified 16 sample_out_args critical_void_method = 0
  /\ sample_out_args 0 0 = 0
  /\ Jni.RequiresSmallResultTypeExtension critical_void_method = false.
Proof. repeat split. Qed.

(** C4, amended. For a @CriticalNative method FrameSize returns 0 when
    none of method spill, local-reference segment state and return-value
    spill is required and fails its CHECK otherwise; UseTailCall is always
    false, and OutFrameSize always adds one pointer-width slot for the
    return address before rounding up, whatever the arguments and the
    return type. *)
Theorem critical_native_frame_sizes
    (kStackAlignment kRiscv64StackAlignment : Z)
    (GetNativeOutArgsSize : Z -> Z -> Z) (m : Jni.Method) :
  Jni.is_critical_native_ m = true ->
  Jni.FrameSize kStackAlignment m
  = (if Jni.SpillsMethod m || Jni.HasLocalReferenceSegmentState m
        || Jni.SpillsReturnValue m
     then None else Some 0)
  /\ Jni.UseTailCall m = Some false
  /\ Jni.CalleeSaveRegisters m = Some [Jni.FromGpuRegister RA]
  /\ Jni.OutFrameSize kRiscv64StackAlignment GetNativeOutArgsSize m
     = RoundUp (GetNativeOutArgsSize
                  (Jni.NumFloatOrDoubleArgs m)
                  (Jni.NumberOfExtraArgumentsForJni m + Jni.NumArgs m
                   - Jni.NumFloatOrDoubleArgs m)
                + Jni.kFramePointerSize)
               kRiscv64StackAlignment.
Proof.
  intros Hc.
  unfold Jni.FrameSize, Jni.CalleeSaveRegisters, Jni.OutFrameSize.
  unfold Jni.UseTailCall, Jni.IsCriticalNative.
  rewrite Hc. cbn [negb].
  split; [|repeat split].
  destruct (Jni.SpillsMethod m), (Jni.HasLocalReferenceSegmentState m),
    (Jni.SpillsReturnValue m); reflexivity.
Qed.

Lemma critical_native_frame_sizes_witness :
  Jni.is_critical_native_ critical_void_method = true
  /\ Jni.FrameSize 16 critical_void_method = Some 0
  /\ Jni.OutFrameSize 16 sample_out_args critical_void_method = RoundUp (0 + 8) 16.
Proof.
  split; [reflexivity|].
  destruct (critical_native_frame_sizes 16 16 sample_out_args
              critical_void_method eq_refl) as (H1 & _ & _ & H2).
  split; [exact H1 | exact H2].
Defined.

(** ** The dex-overflow build script *)

Section Grep.
Import DexOverflow.
Local Open Scope string_scope.

Lemma split_lines_cons (s : string) :
  exists l ls, split_lines s = l :: ls.
Proof.
  induction s as [|c s IH]; cbn [split_lines].
  - eauto.
  - destruct (Ascii.eqb c newline); [eauto|].
    destruct IH as (l & ls & ->). eauto.
Qed.

Lemma prefix_first_line (p : string) :
  no_newline p = true ->
  forall s l ls, split_lines s = l :: ls -> prefix p s = prefix p l.
Proof.
  induction p as [|a p IH]; intros Hp s l ls Hs.
  - destruct s, l; reflexivity.
  - cbn [no_newline] in Hp. apply andb_true_iff in Hp. destruct Hp as [Ha Hp].
    apply negb_true_iff in Ha. apply Ascii.eqb_neq in Ha.
    destruct s as [|c s].
    + cbn [split_lines] in Hs. injection Hs as <- _. reflexivity.
    + cbn [split_lines] in Hs. destruct (Ascii.eqb_spec c newline) as [->|Hc].
      * injection Hs as <- _. cbn [prefix].
        destruct (ascii_dec a newline); [contradiction|reflexivity].
      * destruct (split_lines_cons s) as (l' & ls' & E).
        rewrite E in Hs. injection Hs as <- _. cbn [prefix].
        destruct (ascii_dec a c); [|reflexivity].
        apply (IH Hp s l' ls' E).
Qed.

Lemma contains_unfold (p s : string) :
  s <> EmptyString ->
  contains p s
  = prefix p s || match s with
                  | EmptyString => false
                  | String _ s' => contains p s'
                  end.
Proof. destruct s; reflexivity. Qed.

(** For a pattern on one line, matching some line of the text is the
    same as occurring in the text. *)
Lemma grep_q_contains (p text : string) :
  no_newline p = true -> grep_q p text = contains p text.
Proof.
  intros Hp. unfold grep_q.
  induction text as [|c s IH].
  - cbn [split_lines existsb contains]. destruct p; reflexivity.
  - destruct (split_lines_cons (String c s)) as (l & ls & E).
    rewrite (contains_unfold p (String c s)) by discriminate.
    rewrite (prefix_first_line p Hp _ _ _ E).
    revert E. cbn [split_lines].
    destruct (Ascii.eqb c newline).
    + intros E. injection E as <- <-.
      cbn [existsb]. rewrite IH.
      destruct p; reflexivity.
    + destruct (split_lines_cons s) as (l' & ls' & E').
      rewrite E' in *. intros E. injection E as <- <-.
      cbn [existsb] in *. rewrite <- IH.
      rewrite (contains_unfold p (String c l')) by discriminate.
      rewrite orb_assoc. reflexivity.
Qed.

End Grep.

Lemma members_of_class (name header footer : string) (body : list string) :
  DexOverflow.members (name, List.app (header :: body) [footer]) = body.
Proof.
  unfold DexOverflow.members. cbn [snd List.app tl].
  apply removelast_last.
Qed.

(** What a line of a class body declares, for declarations without
    initialisers as the script writes them: a method when it has a
    parameter list, otherwise a field, static when [static] is among its
    modifiers. *)
Inductive MemberKind : Set := StaticField | InstanceField | Method.

Fixpoint has_char (c : ascii) (s : string) : bool :=
  match s with
  | EmptyString => false
  | String a s' => Ascii.eqb c a || has_char c s'
  end.

Definition member_kind (line : string) : MemberKind :=
  if has_char "("%char line then Method
  else if DexOverflow.contains "static "%string line then StaticField
  else InstanceField.

Section Members.
Local Open Scope string_scope.

Lemma has_char_app (c : ascii) (s1 s2 : string) :
  has_char c (s1 ++ s2) = has_char c s1 || has_char c s2.
Proof.
  induction s1 as [|a s1 IH]; cbn [append has_char]; [reflexivity|].
  rewrite IH, orb_assoc. reflexivity.
Qed.

Lemma has_char_decimal (c : ascii) (n : nat) :
  (Ascii.nat_of_ascii c < 48 \/ 57 < Ascii.nat_of_ascii c)%nat ->
  has_char c (DexOverflow.decimal n) = false.
Proof.
  intros Hc. unfold DexOverflow.decimal.
  assert (D : forall a, (48 <= Ascii.nat_of_ascii a <= 57)%nat -> Ascii.eqb c a = false).
  { intros a Ha. apply Ascii.eqb_neq. intros ->. lia. }
  induction (Nat.to_uint n) as [|d IH|d IH|d IH|d IH|d IH|d IH|d IH|d IH|d IH|d IH];
    cbn [DecimalString.NilEmpty.string_of_uint has_char]; [reflexivity|..];
    rewrite IH, orb_false_r; apply D; cbn; lia.
Qed.

Lemma contains_needs_first_char (c : ascii) (p s : string) :
  has_char c s = false -> DexOverflow.contains (String c p) s = false.
Proof.
  induction s as [|a s IH]; cbn [has_char DexOverflow.contains prefix];
    [reflexivity|].
  intros H. apply orb_false_iff in H. destruct H as [H1 H2].
  apply Ascii.eqb_neq in H1.
  destruct (ascii_dec c a) as [E|_]; [contradiction|].
  cbn [orb]. apply IH, H2.
Qed.

Lemma static_field_kind (i : nat) :
  member_kind ("    static public int staticInt" ++ DexOverflow.decimal i ++ ";"
               ++ DexOverflow.nl) = StaticField.
Proof.
  unfold member_kind.
  rewrite has_char_app, has_char_app, has_char_decimal by (cbn; lia).
  reflexivity.
Qed.

Lemma instance_field_kind (i : nat) :
  member_kind ("    public int fieldInt" ++ DexOverflow.decimal i ++ ";"
               ++ DexOverflow.nl) = InstanceField.
Proof.
  unfold member_kind.
  rewrite (has_char_app "("%char), (has_char_app "("%char), has_char_decimal
    by (cbn; lia).
  change (has_char "("%char "    public int fieldInt"
          || (false || has_char "("%char (";" ++ DexOverflow.nl)))
    with false. cbv iota.
  rewrite contains_needs_first_char; [reflexivity|].
  rewrite has_char_app, has_char_app, has_char_decimal by (cbn; lia).
  reflexivity.
Qed.

Lemma method_kind (i : nat) :
  member_kind ("    public void meth" ++ DexOverflow.decimal i ++ "() { }"
               ++ DexOverflow.nl) = Method.
Proof.
  unfold member_kind. rewrite has_char_app, has_char_app.
  change (has_char "("%char ("() { }" ++ DexOverflow.nl)) with true.
  rewrite !orb_true_r. reflexivity.
Qed.

End Members.

(** A world in which the build succeeds and yet prints the message. *)
Definition lenient_world : DexOverflow.World :=
  {| DexOverflow.mkdir_src_status := 0;
     DexOverflow.awk_status := 0;
     DexOverflow.default_build := fun _ =>
       {| DexOverflow.exit_status := 0;
          DexOverflow.stderr_txt := DexOverflow.EXPECTED_ERROR |} |}.

(** C9, as stated, fails: the script does not look at the exit status of
    the build, so it succeeds on a build that exits with 0 and prints the
    expected text. *)
Lemma script_ignores_build_status :
  ~ (forall (w : DexOverflow.World) (args : list string),
       DexOverflow.run w args = 0%nat
       <-> (DexOverflow.exit_status
              (DexOverflow.default_build w (DexOverflow.request args)) <> 0%nat
            /\ DexOverflow.contains DexOverflow.EXPECTED_ERROR
                 (DexOverflow.stderr_txt
                    (DexOverflow.default_build w (DexOverflow.request args)))
               = true)).
Proof.
  intros H.
  destruct (H lenient_world []) as [H1 _].
  destruct (H1 eq_refl) as [Hne _].
  apply Hne. reflexivity.
Qed.

(** C9, amended. The script writes three classes, FillerStatic with
    65,500 static fields, FillerField with 65,500 instance fields and
    FillerMethod with 65,500 methods, runs the build with NEED_DEX=true
    and --api-level 20 in front of its own arguments, and succeeds exactly
    when mkdir and awk succeed and the captured standard-error text
    contains "Cannot fit requested classes in a single dex"; a failing
    mkdir or awk ends the script with its status, and the exit status of
    the build plays no part. *)
Theorem dex_overflow_script (w : DexOverflow.World) (args : list string) :
  let result := DexOverflow.default_build w (DexOverflow.request args) in
  (DexOverflow.run w args = 0%nat
   <-> DexOverflow.mkdir_src_status w = 0%nat
       /\ DexOverflow.awk_status w = 0%nat
       /\ DexOverflow.contains DexOverflow.EXPECTED_ERROR
            (DexOverflow.stderr_txt result) = true)
  /\ (DexOverflow.mkdir_src_status w <> 0%nat ->
      DexOverflow.run w args = DexOverflow.mkdir_src_status w)
  /\ (DexOverflow.mkdir_src_status w = 0%nat ->
      DexOverflow.awk_status w <> 0%nat ->
      DexOverflow.run w args = DexOverflow.awk_status w)
  /\ DexOverflow.NEED_DEX (DexOverflow.request args) = "true"%string
  /\ DexOverflow.argv (DexOverflow.request args)
     = ("--api-level" :: "20" :: args)%string
  /\ exists statics fields methods,
       DexOverflow.src (DexOverflow.request args) = [statics; fields; methods]
       /\ fst statics = "src/FillerStatic.java"%string
       /\ fst fields = "src/FillerField.java"%string
       /\ fst methods = "src/FillerMethod.java"%string
       /\ List.length (DexOverflow.members statics) = 65500%nat
       /\ List.length (DexOverflow.members fields) = 65500%nat
       /\ List.length (DexOverflow.members methods) = 65500%nat
       /\ Forall (fun m => member_kind m = StaticField) (DexOverflow.members statics)
       /\ Forall (fun m => member_kind m = InstanceField) (DexOverflow.members fields)
       /\ Forall (fun m => member_kind m = Method) (DexOverflow.members methods).
Proof.
  intros result. split; [|split; [|split; [|split; [|split]]]]; try reflexivity.
  - unfold DexOverflow.run. fold result.
    rewrite grep_q_contains by reflexivity.
    destruct (DexOverflow.mkdir_src_status w) as [|m]; cbn [Nat.eqb negb].
    + destruct (DexOverflow.awk_status w) as [|k]; cbn [Nat.eqb negb].
      * destruct (DexOverflow.contains _ _); split; intros H;
          try reflexivity; try discriminate H; auto;
          destruct H as (_ & _ & H); discriminate H.
      * split; [discriminate | intros (_ & H & _); discriminate H].
    + split; [discriminate | intros [H _]; discriminate H].
  - intros H. unfold DexOverflow.run.
    destruct (DexOverflow.mkdir_src_status w); [contradiction|reflexivity].
  - intros H1 H2. unfold DexOverflow.run. rewrite H1. cbn [Nat.eqb negb].
    destruct (DexOverflow.awk_status w); [contradiction|reflexivity].
  - eexists _, _, _. split; [reflexivity|].
    unfold DexOverflow.writeFileField, DexOverflow.writeFileMethod.
    cbn [fst]. rewrite !members_of_class, !length_map.
    unfold DexOverflow.member_numbers. rewrite length_seq.
    repeat (split; [reflexivity|]).
    split; [|split]; apply Forall_map, Forall_forall; intros i _.
    + apply static_field_kind.
    + apply instance_field_kind.
    + apply method_kind.
Qed.

(** ** JNI calling convention: parameter placement *)

Lemma count_kind_cons (k k' : Jni.ParamKind) (ks : list Jni.ParamKind) :
  Jni.count_kind k (k' :: ks)
  = (match k, k' with
     | Jni.IntLike, Jni.IntLike | Jni.FloatOrDouble, Jni.FloatOrDouble => 1
     | _, _ => 0
     end) + Jni.count_kind k ks.
Proof.
  unfold Jni.count_kind.
  destruct k, k'; cbn [filter List.length]; rewrite ?Nat2Z.inj_succ; lia.
Qed.

Lemma count_kind_nonneg (k : Jni.ParamKind) (ks : list Jni.ParamKind) :
  0 <= Jni.count_kind k ks.
Proof. unfold Jni.count_kind. lia. Qed.

Lemma count_kind_total (ks : list Jni.ParamKind) :
  Jni.count_kind Jni.IntLike ks + Jni.count_kind Jni.FloatOrDouble ks
  = Z.of_nat (List.length ks).
Proof.
  induction ks as [|k ks IH]; [reflexivity|].
  rewrite !count_kind_cons. cbn [List.length]. destruct k; lia.
Qed.

(** The iterator after a prefix counts the parameters of the prefix. *)
Lemma iterate_counts (pre : list Jni.ParamKind) (it : Jni.Iterator) :
  Jni.iterate pre it
  = {| Jni.itr_args_ := Jni.itr_args_ it + Z.of_nat (List.length pre);
       Jni.itr_float_and_doubles_ :=
         Jni.itr_float_and_doubles_ it
         + Jni.count_kind Jni.FloatOrDouble pre |}.
Proof.
  revert it. induction pre as [|k pre IH]; intros it.
  - destruct it. cbn. f_equal; lia.
  - unfold Jni.iterate in *. cbn [fold_left]. rewrite IH.
    rewrite count_kind_cons. cbn [List.length]. rewrite Nat2Z.inj_succ.
    destruct k;
      cbn [Jni.Next Jni.IsCurrentParamAFloatOrDouble Jni.itr_args_
           Jni.itr_float_and_doubles_];
      f_equal; lia.
Qed.

Lemma placements_at (pre post : list Jni.ParamKind) (k : Jni.ParamKind)
    (it : Jni.Iterator) :
  nth_error (Jni.placements (pre ++ k :: post) it) (List.length pre)
  = Some (Jni.place k (Jni.iterate pre it)).
Proof.
  revert it. induction pre as [|k' pre IH]; intros it; [reflexivity|].
  cbn [List.app Jni.placements List.length nth_error]. apply IH.
Qed.

(** The integer argument register with a given number. *)
Definition gpu_arg (i : Z) : Jni.Placement :=
  Jni.InRegister (Jni.FromGpuRegister (nth (Z.to_nat i) Jni.kGpuArgumentRegisters A0)).
Definition fpu_arg (i : Z) : Jni.Placement :=
  Jni.InRegister (Jni.FromFpuRegister (nth (Z.to_nat i) Jni.kFpuArgumentRegisters FA0)).

Lemma index_gpu_arg (i : Z) :
  0 <= i < 8 ->
  option_map Jni.FromGpuRegister (Jni.index Jni.kGpuArgumentRegisters i)
  = Some (Jni.FromGpuRegister (nth (Z.to_nat i) Jni.kGpuArgumentRegisters A0)).
Proof.
  intros H. assert (C : i = 0 \/ i = 1 \/ i = 2 \/ i = 3 \/ i = 4 \/ i = 5
                        \/ i = 6 \/ i = 7) by lia.
  repeat (destruct C as [->|C]; [reflexivity|]). subst. reflexivity.
Qed.

Lemma index_fpu_arg (i : Z) :
  0 <= i < 8 ->
  option_map Jni.FromFpuRegister (Jni.index Jni.kFpuArgumentRegisters i)
  = Some (Jni.FromFpuRegister (nth (Z.to_nat i) Jni.kFpuArgumentRegisters FA0)).
Proof.
  intros H. assert (C : i = 0 \/ i = 1 \/ i = 2 \/ i = 3 \/ i = 4 \/ i = 5
                        \/ i = 6 \/ i = 7) by lia.
  repeat (destruct C as [->|C]; [reflexivity|]). subst. reflexivity.
Qed.

(** Where the code puts a parameter, from the counts of integer-like
    ([ni]) and floating-point ([nf]) parameters passed before it. *)
Lemma place_by_counts (k : Jni.ParamKind) (ni nf : Z) :
  0 <= ni -> 0 <= nf -> ni + nf < 2 ^ 32 ->
  Jni.place k {| Jni.itr_args_ := ni + nf; Jni.itr_float_and_doubles_ := nf |}
  = match k with
    | Jni.FloatOrDouble =>
        if nf <? 8 then fpu_arg nf
        else if ni + (nf - 8) <? 8 then gpu_arg (ni + (nf - 8))
        else Jni.OnStack
    | Jni.IntLike =>
        if ni + Z.max 0 (nf - 8) <? 8 then gpu_arg (ni + Z.max 0 (nf - 8))
        else Jni.OnStack
    end.
Proof.
  intros Hi Hf Hb.
  unfold Jni.place, Jni.IsCurrentParamOnStack, Jni.CurrentParamRegister,
    Jni.IsCurrentParamInRegister, gpu_arg, fpu_arg.
  cbn [Jni.itr_args_ Jni.itr_float_and_doubles_].
  unfold Jni.kMaxFloatOrDoubleRegisterArguments, Jni.kMaxIntLikeRegisterArguments.
  replace (ni + nf - nf) with ni by lia.
  assert (U : forall z, 0 <= z < 2 ^ 32 -> u32 z = z)
    by (intros z Hz; apply Z.mod_small; exact Hz).
  rewrite (U ni) by lia.
  destruct k; cbn [Jni.IsCurrentParamAFloatOrDouble].
  - (* integer-like *)
    rewrite !Z.add_0_l.
    destruct (Z.leb_spec 8 nf) as [H8|H8].
    + replace (Z.max 0 (nf - 8)) with (nf - 8) by lia.
      rewrite (U (nf - 8)) by lia.
      destruct (Z.ltb_spec ni 8) as [Hn|Hn].
      * rewrite (U (ni + (nf - 8))) by lia.
        destruct (Z.ltb_spec (ni + (nf - 8)) 8) as [Hc|Hc]; cbn [negb].
        -- rewrite index_gpu_arg by lia. reflexivity.
        -- reflexivity.
      * rewrite Z.add_0_r, (U ni) by lia.
        destruct (Z.ltb_spec ni 8); [lia|]. cbn [negb].
        destruct (Z.ltb_spec (ni + (nf - 8)) 8); [lia|]. reflexivity.
    + replace (Z.max 0 (nf - 8)) with 0 by lia.
      rewrite (U 0) by lia. rewrite !Z.add_0_r.
      assert (E : (if ni <? 8 then 0 else 0) = 0) by (destruct (ni <? 8); reflexivity).
      rewrite E, Z.add_0_r, (U ni) by lia.
      destruct (Z.ltb_spec ni 8) as [Hn|Hn]; cbn [negb].
      * rewrite index_gpu_arg by lia. reflexivity.
      * reflexivity.
  - (* float or double *)
    destruct (Z.ltb_spec nf 8) as [H8|H8].
    + assert (T : (nf <? 8 + (if ni <? 8 then u32 (0 + u32 (8 - ni)) else 0)) = true).
      { apply Z.ltb_lt. destruct (Z.ltb_spec ni 8).
        - rewrite (U (8 - ni)), (U (0 + (8 - ni))) by lia. lia.
        - lia. }
      rewrite T. cbn [negb]. rewrite index_fpu_arg by lia. reflexivity.
    + rewrite (U (nf - 8)) by lia.
      destruct (Z.ltb_spec ni 8) as [Hn|Hn].
      * rewrite (U (8 - ni)), (U (0 + (8 - ni))) by lia.
        destruct (Z.ltb_spec (ni + (nf - 8)) 8) as [Hc|Hc].
        -- replace (nf <? 8 + (0 + (8 - ni))) with true
             by (symmetry; apply Z.ltb_lt; lia).
           cbn [negb]. rewrite (U (ni + (nf - 8))) by lia.
           replace (ni + (nf - 8) <? 8) with true
             by (symmetry; apply Z.ltb_lt; lia).
           cbn [negb]. rewrite index_gpu_arg by lia. reflexivity.
        -- replace (nf <? 8 + (0 + (8 - ni))) with false
             by (symmetry; apply Z.ltb_ge; lia).
           reflexivity.
      * replace (nf <? 8 + 0) with false by (symmetry; apply Z.ltb_ge; lia).
        cbn [negb].
        destruct (Z.ltb_spec (ni + (nf - 8)) 8); [lia|]. reflexivity.
Qed.


(** Nine doubles and an int, then one more double: it is the (8+1)-th
    floating-point parameter and lands in A2. *)
Definition sample_prefix : list Jni.ParamKind :=
  repeat Jni.FloatOrDouble 9 ++ [Jni.IntLike].


(** ** Instruction words: encoding against decoding *)

Lemma testbit_above (v k i : Z) :
  0 <= v < 2 ^ k -> k <= i -> Z.testbit v i = false.
Proof.
  intros [H0 H1] Hk.
  destruct (Z.eq_dec v 0) as [->|Hx]; [apply Z.testbit_0_l|].
  apply Z.bits_above_log2; [lia|].
  assert (Z.log2 v < k); [|lia].
  apply Z.log2_lt_pow2; lia.
Qed.

(** Bits outside the range of a bounded field are zero. *)
Ltac kill_bits :=
  repeat match goal with
  | H : 0 <= ?v < 2 ^ ?k |- context [Z.testbit ?v ?i] =>
      first [ rewrite (testbit_above v k i H) by lia
            | rewrite (Z.testbit_neg_r v i) by lia ]
  | |- context [Z.testbit ?v ?i] =>
      rewrite (Z.testbit_neg_r v i) by lia
  end.

Ltac bits_step :=
  kill_bits;
  rewrite ?orb_false_r, ?andb_true_r, ?andb_false_r, ?orb_false_l, ?andb_true_l;
  try reflexivity; try btauto.

Ltac bits :=
  Z.bitblast; bits_step;
  repeat (progress (subst; Z.bitblast_core; bits_step)).

(** The masks of EmitB and EmitJ as runs of ones. *)
Ltac masks :=
  change 4096 with (Z.shiftl (Z.ones 1) 12);
  change 2016 with (Z.shiftl (Z.ones 6) 5);
  change 30 with (Z.shiftl (Z.ones 4) 1);
  change 2048 with (Z.shiftl (Z.ones 1) 11);
  change 1048576 with (Z.shiftl (Z.ones 1) 20);
  change 2046 with (Z.shiftl (Z.ones 10) 1);
  change 1044480 with (Z.shiftl (Z.ones 8) 12);
  change 63 with (Z.ones 6).

Lemma gpu_num_range (r : GpuRegister) : 0 <= gpu_num r < 2 ^ 5.
Proof. destruct r; cbn; lia. Qed.

Lemma fpu_num_range (r : FpuRegister) : 0 <= fpu_num r < 2 ^ 5.
Proof. destruct r; cbn; lia. Qed.

Lemma gpu_of_num_num (r : GpuRegister) : gpu_of_num (gpu_num r) = r.
Proof. destruct r; reflexivity. Qed.

Lemma fpu_of_num_num (r : FpuRegister) : fpu_of_num (fpu_num r) = r.
Proof. destruct r; reflexivity. Qed.

Lemma gpu_eqb_refl (r : GpuRegister) : gpu_eqb r r = true.
Proof. apply Z.eqb_refl. Qed.

Lemma gpu_eqb_eq (a b : GpuRegister) : gpu_eqb a b = true <-> a = b.
Proof.
  unfold gpu_eqb. rewrite Z.eqb_eq. split; [|intros ->; reflexivity].
  intros H. rewrite <- (gpu_of_num_num a), <- (gpu_of_num_num b), H. reflexivity.
Qed.

Lemma gpu_eqb_neq (a b : GpuRegister) : a <> b -> gpu_eqb a b = false.
Proof.
  intros H. destruct (gpu_eqb a b) eqn:E; [|reflexivity].
  apply gpu_eqb_eq in E. contradiction.
Qed.

Lemma fpu_eqb_refl (r : FpuRegister) : fpu_eqb r r = true.
Proof. apply Z.eqb_refl. Qed.

Lemma fpu_eqb_eq (a b : FpuRegister) : fpu_eqb a b = true <-> a = b.
Proof.
  unfold fpu_eqb. rewrite Z.eqb_eq. split; [|intros ->; reflexivity].
  intros H. rewrite <- (fpu_of_num_num a), <- (fpu_of_num_num b), H. reflexivity.
Qed.

(** Sign extension gives back a value that fits. *)
Lemma sext_mod (n v : Z) :
  0 < n -> - 2 ^ (n - 1) <= v < 2 ^ (n - 1) -> sext n (v mod 2 ^ n) = v.
Proof.
  intros Hn Hv. unfold sext.
  assert (E : 2 ^ n = 2 * 2 ^ (n - 1)).
  { replace n with (1 + (n - 1)) at 1 by lia.
    rewrite Z.pow_add_r by lia. reflexivity. }
  rewrite Zplus_mod_idemp_l, Z.mod_small by lia. lia.
Qed.

Lemma sext_small (n v : Z) :
  0 < n -> - 2 ^ (n - 1) <= v < 2 ^ (n - 1) -> sext n v = v.
Proof.
  intros Hn Hv. unfold sext.
  assert (E : 2 ^ n = 2 * 2 ^ (n - 1)).
  { replace n with (1 + (n - 1)) at 1 by lia.
    rewrite Z.pow_add_r by lia. reflexivity. }
  rewrite Z.mod_small by lia. lia.
Qed.

Lemma sext_range (n v : Z) :
  0 < n -> - 2 ^ (n - 1) <= sext n v < 2 ^ (n - 1).
Proof.
  intros Hn. unfold sext.
  assert (E : 2 ^ n = 2 * 2 ^ (n - 1)).
  { replace n with (1 + (n - 1)) at 1 by lia.
    rewrite Z.pow_add_r by lia. reflexivity. }
  assert (0 < 2 ^ (n - 1)) by (apply Z.pow_pos_nonneg; lia).
  pose proof (Z.mod_pos_bound (v + 2 ^ (n - 1)) (2 ^ n)). lia.
Qed.

Lemma sext_mod_idem (n v : Z) : 0 < n -> sext n (v mod 2 ^ n) = sext n v.
Proof.
  intros Hn. unfold sext. rewrite Zplus_mod_idemp_l. reflexivity.
Qed.

Section FormatR.
Variables funct7 rs2 rs1 funct3 rd opcode : Z.
Hypothesis Hf7 : 0 <= funct7 < 2 ^ 7.
Hypothesis Hrs2 : 0 <= rs2 < 2 ^ 5.
Hypothesis Hrs1 : 0 <= rs1 < 2 ^ 5.
Hypothesis Hf3 : 0 <= funct3 < 2 ^ 3.
Hypothesis Hrd : 0 <= rd < 2 ^ 5.
Hypothesis Hop : 0 <= opcode < 2 ^ 7.
Let w := Asm.EncodeR funct7 rs2 rs1 funct3 rd opcode.

Lemma R_opcode : Rv64.field w 0 7 = opcode.
Proof. unfold w, Rv64.field, Asm.EncodeR, u32. bits. Qed.
Lemma R_rd : Rv64.field w 7 5 = rd.
Proof. unfold w, Rv64.field, Asm.EncodeR, u32. bits. Qed.
Lemma R_funct3 : Rv64.field w 12 3 = funct3.
Proof. unfold w, Rv64.field, Asm.EncodeR, u32. bits. Qed.
Lemma R_rs1 : Rv64.field w 15 5 = rs1.
Proof. unfold w, Rv64.field, Asm.EncodeR, u32. bits. Qed.
Lemma R_rs2 : Rv64.field w 20 5 = rs2.
Proof. unfold w, Rv64.field, Asm.EncodeR, u32. bits. Qed.
Lemma R_funct7 : Rv64.field w 25 7 = funct7.
Proof. unfold w, Rv64.field, Asm.EncodeR, u32. bits. Qed.

Lemma decode_EncodeR :
  Rv64.decode w
  = Rv64.decode_fields opcode rd funct3 rs1 rs2 funct7
      (Rv64.immI w) (Rv64.immU w) (Rv64.immB w) (Rv64.immJ w).
Proof.
  unfold Rv64.decode.
  rewrite R_opcode, R_rd, R_funct3, R_rs1, R_rs2, R_funct7. reflexivity.
Qed.
End FormatR.

Section FormatI.
Variables imm rs1 funct3 rd opcode : Z.
Hypothesis Hrs1 : 0 <= rs1 < 2 ^ 5.
Hypothesis Hf3 : 0 <= funct3 < 2 ^ 3.
Hypothesis Hrd : 0 <= rd < 2 ^ 5.
Hypothesis Hop : 0 <= opcode < 2 ^ 7.
Let w := Asm.EncodeI imm rs1 funct3 rd opcode.

Lemma I_opcode : Rv64.field w 0 7 = opcode.
Proof. unfold w, Rv64.field, Asm.EncodeI, u32, u16. bits. Qed.
Lemma I_rd : Rv64.field w 7 5 = rd.
Proof. unfold w, Rv64.field, Asm.EncodeI, u32, u16. bits. Qed.
Lemma I_funct3 : Rv64.field w 12 3 = funct3.
Proof. unfold w, Rv64.field, Asm.EncodeI, u32, u16. bits. Qed.
Lemma I_rs1 : Rv64.field w 15 5 = rs1.
Proof. unfold w, Rv64.field, Asm.EncodeI, u32, u16. bits. Qed.
Lemma I_imm : Rv64.field w 20 12 = imm mod 2 ^ 12.
Proof. unfold w, Rv64.field, Asm.EncodeI, u32, u16. bits. Qed.

Lemma decode_EncodeI :
  Rv64.decode w
  = Rv64.decode_fields opcode rd funct3 rs1
      (Rv64.field w 20 5) (Rv64.field w 25 7)
      (sext 12 imm) (Rv64.immU w) (Rv64.immB w) (Rv64.immJ w).
Proof.
  unfold Rv64.decode, Rv64.immI.
  rewrite I_opcode, I_rd, I_funct3, I_rs1, I_imm, sext_mod_idem by lia.
  reflexivity.
Qed.
End FormatI.

Section FormatI6.
Variables imm6 rs1 funct3 rd opcode : Z.
Hypothesis Himm : 0 <= imm6 < 2 ^ 6.
Hypothesis Hrs1 : 0 <= rs1 < 2 ^ 5.
Hypothesis Hf3 : 0 <= funct3 < 2 ^ 3.
Hypothesis Hrd : 0 <= rd < 2 ^ 5.
Hypothesis Hop : 0 <= opcode < 2 ^ 7.
Let w := Asm.EncodeI6 0 imm6 rs1 funct3 rd opcode.

Lemma I6_opcode : Rv64.field w 0 7 = opcode.
Proof. unfold w, Rv64.field, Asm.EncodeI6, u32, u16. masks. bits. Qed.
Lemma I6_rd : Rv64.field w 7 5 = rd.
Proof. unfold w, Rv64.field, Asm.EncodeI6, u32, u16. masks. bits. Qed.
Lemma I6_funct3 : Rv64.field w 12 3 = funct3.
Proof. unfold w, Rv64.field, Asm.EncodeI6, u32, u16. masks. bits. Qed.
Lemma I6_rs1 : Rv64.field w 15 5 = rs1.
Proof. unfold w, Rv64.field, Asm.EncodeI6, u32, u16. masks. bits. Qed.
Lemma I6_lo : Rv64.field w 20 5 = imm6 mod 2 ^ 5.
Proof. unfold w, Rv64.field, Asm.EncodeI6, u32, u16. masks. bits. Qed.
Lemma I6_hi : Rv64.field w 25 7 = imm6 / 2 ^ 5.
Proof. unfold w, Rv64.field, Asm.EncodeI6, u32, u16. masks. bits. Qed.

Lemma decode_EncodeI6 :
  Rv64.decode w
  = Rv64.decode_fields opcode rd funct3 rs1
      (imm6 mod 2 ^ 5) (imm6 / 2 ^ 5)
      (Rv64.immI w) (Rv64.immU w) (Rv64.immB w) (Rv64.immJ w).
Proof.
  unfold Rv64.decode.
  rewrite I6_opcode, I6_rd, I6_funct3, I6_rs1, I6_lo, I6_hi. reflexivity.
Qed.
End FormatI6.

Section FormatU.
Variables imm rd opcode : Z.
Hypothesis Hrd : 0 <= rd < 2 ^ 5.
Hypothesis Hop : 0 <= opcode < 2 ^ 7.
Let w := Asm.EncodeU imm rd opcode.

Lemma U_opcode : Rv64.field w 0 7 = opcode.
Proof. unfold w, Rv64.field, Asm.EncodeU, u32. bits. Qed.
Lemma U_rd : Rv64.field w 7 5 = rd.
Proof. unfold w, Rv64.field, Asm.EncodeU, u32. bits. Qed.
Lemma U_imm : Rv64.field w 12 20 = imm mod 2 ^ 20.
Proof. unfold w, Rv64.field, Asm.EncodeU, u32. bits. Qed.

Lemma decode_EncodeU :
  Rv64.decode w
  = Rv64.decode_fields opcode rd (Rv64.field w 12 3) (Rv64.field w 15 5)
      (Rv64.field w 20 5) (Rv64.field w 25 7)
      (Rv64.immI w) (sext 32 (Z.shiftl (imm mod 2 ^ 20) 12))
      (Rv64.immB w) (Rv64.immJ w).
Proof.
  unfold Rv64.decode, Rv64.immU.
  rewrite U_opcode, U_rd, U_imm. reflexivity.
Qed.
End FormatU.

Section FormatB.
Variables imm rs2 rs1 funct3 opcode : Z.
Hypothesis Himm : 0 <= imm < 2 ^ 13.
Hypothesis Hrs2 : 0 <= rs2 < 2 ^ 5.
Hypothesis Hrs1 : 0 <= rs1 < 2 ^ 5.
Hypothesis Hf3 : 0 <= funct3 < 2 ^ 3.
Hypothesis Hop : 0 <= opcode < 2 ^ 7.
Let w := Asm.EncodeB imm rs2 rs1 funct3 opcode.

Lemma B_opcode : Rv64.field w 0 7 = opcode.
Proof. unfold w, Rv64.field, Asm.EncodeB, u32. masks. bits. Qed.
Lemma B_funct3 : Rv64.field w 12 3 = funct3.
Proof. unfold w, Rv64.field, Asm.EncodeB, u32. masks. bits. Qed.
Lemma B_rs1 : Rv64.field w 15 5 = rs1.
Proof. unfold w, Rv64.field, Asm.EncodeB, u32. masks. bits. Qed.
Lemma B_rs2 : Rv64.field w 20 5 = rs2.
Proof. unfold w, Rv64.field, Asm.EncodeB, u32. masks. bits. Qed.
Lemma B_b12 : Rv64.field w 31 1 = Rv64.field imm 12 1.
Proof. unfold w, Rv64.field, Asm.EncodeB, u32. masks. bits. Qed.
Lemma B_b11 : Rv64.field w 7 1 = Rv64.field imm 11 1.
Proof. unfold w, Rv64.field, Asm.EncodeB, u32. masks. bits. Qed.
Lemma B_hi : Rv64.field w 25 6 = Rv64.field imm 5 6.
Proof. unfold w, Rv64.field, Asm.EncodeB, u32. masks. bits. Qed.
Lemma B_lo : Rv64.field w 8 4 = Rv64.field imm 1 4.
Proof. unfold w, Rv64.field, Asm.EncodeB, u32. masks. bits. Qed.
Lemma B_join :
  Z.lor (Z.lor (Z.lor (Z.shiftl (Rv64.field imm 12 1) 12)
                      (Z.shiftl (Rv64.field imm 11 1) 11))
               (Z.shiftl (Rv64.field imm 5 6) 5))
        (Z.shiftl (Rv64.field imm 1 4) 1)
  = Z.shiftl (Z.shiftr imm 1) 1.
Proof. unfold Rv64.field. bits. Qed.

(** The branch immediate the hardware reads off the word: the encoded
    offset without its lowest bit, sign-extended from 13 bits. *)
Lemma B_imm : Rv64.immB w = sext 13 (Z.shiftl (Z.shiftr imm 1) 1).
Proof.
  unfold Rv64.immB. rewrite B_b12, B_b11, B_hi, B_lo, B_join. reflexivity.
Qed.

Lemma decode_EncodeB :
  Rv64.decode w
  = Rv64.decode_fields opcode (Rv64.field w 7 5) funct3 rs1 rs2
      (Rv64.field w 25 7)
      (Rv64.immI w) (Rv64.immU w)
      (sext 13 (Z.shiftl (Z.shiftr imm 1) 1)) (Rv64.immJ w).
Proof.
  unfold Rv64.decode.
  rewrite B_opcode, B_funct3, B_rs1, B_rs2, B_imm. reflexivity.
Qed.
End FormatB.

Section FormatJ.
Variables imm20 rd opcode : Z.
Hypothesis Himm : 0 <= imm20 < 2 ^ 21.
Hypothesis Hrd : 0 <= rd < 2 ^ 5.
Hypothesis Hop : 0 <= opcode < 2 ^ 7.
Let w := Asm.EncodeJ imm20 rd opcode.

Lemma J_opcode : Rv64.field w 0 7 = opcode.
Proof. unfold w, Rv64.field, Asm.EncodeJ, u32. masks. bits. Qed.
Lemma J_rd : Rv64.field w 7 5 = rd.
Proof. unfold w, Rv64.field, Asm.EncodeJ, u32. masks. bits. Qed.
Lemma J_b20 : Rv64.field w 31 1 = Rv64.field imm20 20 1.
Proof. unfold w, Rv64.field, Asm.EncodeJ, u32. masks. bits. Qed.
Lemma J_mid : Rv64.field w 12 8 = Rv64.field imm20 12 8.
Proof. unfold w, Rv64.field, Asm.EncodeJ, u32. masks. bits. Qed.
Lemma J_b11 : Rv64.field w 20 1 = Rv64.field imm20 11 1.
Proof. unfold w, Rv64.field, Asm.EncodeJ, u32. masks. bits. Qed.
Lemma J_lo : Rv64.field w 21 10 = Rv64.field imm20 1 10.
Proof. unfold w, Rv64.field, Asm.EncodeJ, u32. masks. bits. Qed.
Lemma J_join :
  Z.lor (Z.lor (Z.lor (Z.shiftl (Rv64.field imm20 20 1) 20)
                      (Z.shiftl (Rv64.field imm20 12 8) 12))
               (Z.shiftl (Rv64.field imm20 11 1) 11))
        (Z.shiftl (Rv64.field imm20 1 10) 1)
  = Z.shiftl (Z.shiftr imm20 1) 1.
Proof. unfold Rv64.field. bits. Qed.

Lemma J_imm : Rv64.immJ w = sext 21 (Z.shiftl (Z.shiftr imm20 1) 1).
Proof.
  unfold Rv64.immJ. rewrite J_b20, J_mid, J_b11, J_lo, J_join. reflexivity.
Qed.

Lemma decode_EncodeJ :
  Rv64.decode w
  = Rv64.decode_fields opcode rd (Rv64.field w 12 3) (Rv64.field w 15 5)
      (Rv64.field w 20 5) (Rv64.field w 25 7)
      (Rv64.immI w) (Rv64.immU w) (Rv64.immB w)
      (sext 21 (Z.shiftl (Z.shiftr imm20 1) 1)).
Proof.
  unfold Rv64.decode.
  rewrite J_opcode, J_rd, J_imm. reflexivity.
Qed.
End FormatJ.

(** ** Running emitted words *)

(** The bytes of a sequence of instruction words, as Emit lays them out. *)
Definition words (ws : list Z) : list Z :=
  flat_map (fun w => Asm.le32 (u32 w)) ws.

Lemma words_cons (w : Z) (ws : list Z) :
  words (w :: ws) = Asm.le32 (u32 w) ++ words ws.
Proof. reflexivity. Qed.

Lemma words_app (ws1 ws2 : list Z) : words (ws1 ++ ws2) = words ws1 ++ words ws2.
Proof. unfold words. apply flat_map_app. Qed.

Lemma words_size (ws : list Z) :
  Asm.buf_Size (words ws) = 4 * Z.of_nat (List.length ws).
Proof.
  unfold Asm.buf_Size. induction ws as [|w ws IH]; [reflexivity|].
  rewrite words_cons, length_app. cbn [Asm.le32 List.length].
  rewrite Nat2Z.inj_add, IH. cbn [List.length]. lia.
Qed.

Lemma load_le32 (w : Z) (rest : list Z) :
  0 <= w < 2 ^ 32 -> Asm.buf_Load32 (Asm.le32 w ++ rest) 0 = w.
Proof.
  intros Hw.
  change (Asm.buf_Load32 (Asm.le32 w ++ rest) 0)
    with (w mod 256 + 2 ^ 8 * ((w / 2 ^ 8) mod 256)
          + 2 ^ 16 * ((w / 2 ^ 16) mod 256) + 2 ^ 24 * ((w / 2 ^ 24) mod 256)).
  change (2 ^ 8) with 256. change (2 ^ 16) with 65536.
  change (2 ^ 24) with 16777216. change (2 ^ 32) with 4294967296 in Hw.
  Z.div_mod_to_equations. lia.
Qed.

Lemma byte_at_skip (pre rest : list Z) (p : Z) :
  0 <= p ->
  Asm.byte_at (pre ++ rest) (Z.of_nat (List.length pre) + p) = Asm.byte_at rest p.
Proof.
  intros Hp. unfold Asm.byte_at.
  destruct (Z.ltb_spec (Z.of_nat (List.length pre) + p) 0); [lia|].
  destruct (Z.ltb_spec p 0); [lia|].
  rewrite app_nth2 by lia. f_equal. lia.
Qed.

Lemma load_skip (pre rest : list Z) (p : Z) :
  0 <= p ->
  Asm.buf_Load32 (pre ++ rest) (Z.of_nat (List.length pre) + p)
  = Asm.buf_Load32 rest p.
Proof.
  intros Hp. unfold Asm.buf_Load32.
  rewrite <- !Z.add_assoc, !byte_at_skip by lia. reflexivity.
Qed.

Lemma u32_range (w : Z) : 0 <= u32 w < 2 ^ 32.
Proof. unfold u32. apply Z.mod_pos_bound. lia. Qed.

Lemma u32_small (v : Z) : 0 <= v < 2 ^ 32 -> u32 v = v.
Proof. intros H. unfold u32. apply Z.mod_small. exact H. Qed.

Lemma Load32_other (buf buf' : list Z) (pos : Z) :
  (forall p, pos <= p < pos + 4 -> Asm.byte_at buf' p = Asm.byte_at buf p) ->
  Asm.buf_Load32 buf' pos = Asm.buf_Load32 buf pos.
Proof.
  intros H. unfold Asm.buf_Load32. rewrite !H by lia. reflexivity.
Qed.

Lemma Some_inj {A : Type} (x y : A) : Some x = Some y -> x = y.
Proof. intros H. congruence. Qed.

Lemma fetch_words (ws : list Z) (i : nat) (w : Z) :
  nth_error ws i = Some w ->
  Rv64.fetch (words ws) (4 * Z.of_nat i) = Some (u32 w).
Proof.
  intros Hn. unfold Rv64.fetch.
  assert (Hlt : (i < List.length ws)%nat) by (apply nth_error_Some; congruence).
  rewrite words_size.
  replace ((0 <=? 4 * Z.of_nat i) && (4 * Z.of_nat i + 4 <=? 4 * Z.of_nat (List.length ws)))
    with true by (symmetry; apply andb_true_iff; split; apply Z.leb_le; lia).
  f_equal.
  destruct (nth_error_split ws i Hn) as (l1 & l2 & -> & Hl).
  rewrite words_app, words_cons.
  replace (4 * Z.of_nat i) with (Z.of_nat (List.length (words l1)) + 0).
  - rewrite load_skip by lia. apply load_le32, u32_range.
  - pose proof (words_size l1) as S. unfold Asm.buf_Size in S. lia.
Qed.

(** Running a program given as decoded instructions, one per word. *)
Fixpoint run_decoded (fuel : nat) (prog : list Rv64.Instr) (s : Rv64.State)
  : option Rv64.State :=
  if Rv64.pc s =? 4 * Z.of_nat (List.length prog) then Some s
  else match fuel with
       | O => None
       | S fuel' =>
           if (0 <=? Rv64.pc s) && (Rv64.pc s mod 4 =? 0) then
             match nth_error prog (Z.to_nat (Rv64.pc s / 4)) with
             | Some i =>
                 match Rv64.step_instr i s with
                 | Some s' => run_decoded fuel' prog s'
                 | None => None
                 end
             | None => None
             end
           else None
       end.

Lemma run_words (ws : list Z) (prog : list Rv64.Instr) :
  Forall2 (fun w i => Rv64.decode (u32 w) = Some i) ws prog ->
  forall fuel s s',
    run_decoded fuel prog s = Some s' -> Rv64.run fuel (words ws) s = Some s'.
Proof.
  intros HD. assert (HL := Forall2_length HD).
  induction fuel as [|fuel IH]; intros s s'; cbn [run_decoded Rv64.run];
    rewrite words_size, HL.
  - destruct (Rv64.pc s =? _); [auto|discriminate].
  - destruct (Rv64.pc s =? _); [auto|].
    destruct ((0 <=? Rv64.pc s) && (Rv64.pc s mod 4 =? 0)) eqn:A; [|discriminate].
    apply andb_true_iff in A. destruct A as [A1 A2].
    apply Z.leb_le in A1. apply Z.eqb_eq in A2.
    destruct (nth_error prog (Z.to_nat (Rv64.pc s / 4))) as [i|] eqn:N; [|discriminate].
    assert (exists w, nth_error ws (Z.to_nat (Rv64.pc s / 4)) = Some w
                      /\ Rv64.decode (u32 w) = Some i) as (w & Hw & Hd).
    { clear - HD N. revert N. generalize (Z.to_nat (Rv64.pc s / 4)).
      induction HD as [|w0 i0 ws' prog' H0 HD IH]; intros [|n] N; try discriminate.
      - injection N as <-. exists w0. split; [reflexivity|exact H0].
      - apply IH in N. exact N. }
    unfold Rv64.step.
    replace (Rv64.pc s) with (4 * Z.of_nat (Z.to_nat (Rv64.pc s / 4))) at 1
      by (rewrite Z2Nat.id by (apply Z.div_pos; lia);
          pose proof (Z.div_mod (Rv64.pc s) 4); lia).
    rewrite (fetch_words ws _ w Hw), Hd.
    destruct (Rv64.step_instr i s); [apply IH|discriminate].
Qed.

(** *** The instructions the macros emit, decoded *)

Ltac reg_bounds :=
  first [ apply gpu_num_range | apply fpu_num_range | lia | cbn; lia ].

Lemma encode_R_u32 (funct7 rs2 rs1 funct3 rd opcode : Z) :
  0 <= opcode < 2 ^ 7 ->
  u32 (Asm.EncodeR funct7 rs2 rs1 funct3 rd opcode)
  = Asm.EncodeR funct7 rs2 rs1 funct3 rd opcode.
Proof. intros. unfold Asm.EncodeR, u32. bits. Qed.

Lemma encode_I_u32 (imm rs1 funct3 rd opcode : Z) :
  0 <= opcode < 2 ^ 7 ->
  u32 (Asm.EncodeI imm rs1 funct3 rd opcode) = Asm.EncodeI imm rs1 funct3 rd opcode.
Proof. intros. unfold Asm.EncodeI, u32, u16. bits. Qed.

Lemma encode_I6_u32 (f6 imm rs1 funct3 rd opcode : Z) :
  0 <= opcode < 2 ^ 7 ->
  u32 (Asm.EncodeI6 f6 imm rs1 funct3 rd opcode) = Asm.EncodeI6 f6 imm rs1 funct3 rd opcode.
Proof. intros. unfold Asm.EncodeI6, u32, u16. masks. bits. Qed.

Lemma encode_U_u32 (imm rd opcode : Z) :
  0 <= opcode < 2 ^ 7 ->
  u32 (Asm.EncodeU imm rd opcode) = Asm.EncodeU imm rd opcode.
Proof. intros. unfold Asm.EncodeU, u32. bits. Qed.

Lemma encode_B_u32 (imm rs2 rs1 funct3 opcode : Z) :
  0 <= opcode < 2 ^ 7 ->
  u32 (Asm.EncodeB imm rs2 rs1 funct3 opcode) = Asm.EncodeB imm rs2 rs1 funct3 opcode.
Proof. intros. unfold Asm.EncodeB, u32. masks. bits. Qed.

Lemma encode_J_u32 (imm rd opcode : Z) :
  0 <= opcode < 2 ^ 7 ->
  u32 (Asm.EncodeJ imm rd opcode) = Asm.EncodeJ imm rd opcode.
Proof. intros. unfold Asm.EncodeJ, u32. masks. bits. Qed.

Lemma decode_xor (rd rs1 rs2 : GpuRegister) :
  Rv64.decode (u32 (Asm.EncodeR 0 (gpu_num rs2) (gpu_num rs1) 4 (gpu_num rd) 0x33))
  = Some (Rv64.XOR rd rs1 rs2).
Proof.
  rewrite encode_R_u32, decode_EncodeR by reg_bounds.
  transitivity (Some (Rv64.XOR (gpu_of_num (gpu_num rd)) (gpu_of_num (gpu_num rs1))
                               (gpu_of_num (gpu_num rs2)))); [reflexivity|].
  rewrite !gpu_of_num_num. reflexivity.
Qed.

Lemma decode_or (rd rs1 rs2 : GpuRegister) :
  Rv64.decode (u32 (Asm.EncodeR 0 (gpu_num rs2) (gpu_num rs1) 6 (gpu_num rd) 0x33))
  = Some (Rv64.OR rd rs1 rs2).
Proof.
  rewrite encode_R_u32, decode_EncodeR by reg_bounds.
  transitivity (Some (Rv64.OR (gpu_of_num (gpu_num rd)) (gpu_of_num (gpu_num rs1))
                              (gpu_of_num (gpu_num rs2)))); [reflexivity|].
  rewrite !gpu_of_num_num. reflexivity.
Qed.

Definition fmt_bit (fmt : Rv64.FFmt) : Z :=
  match fmt with Rv64.FmtS => 0 | Rv64.FmtD => 1 end.

Lemma decode_feq (fmt : Rv64.FFmt) (rd : GpuRegister) (rs1 rs2 : FpuRegister) :
  Rv64.decode (u32 (Asm.EncodeR (0x50 + fmt_bit fmt) (fpu_num rs2) (fpu_num rs1) 2
                                (gpu_num rd) 0x53))
  = Some (Rv64.FEQ fmt rd rs1 rs2).
Proof.
  rewrite encode_R_u32, decode_EncodeR by (destruct fmt; reg_bounds).
  transitivity (Some (Rv64.FEQ fmt (gpu_of_num (gpu_num rd)) (fpu_of_num (fpu_num rs1))
                               (fpu_of_num (fpu_num rs2)))); [destruct fmt; reflexivity|].
  rewrite gpu_of_num_num, !fpu_of_num_num. reflexivity.
Qed.

Lemma decode_fcvt_w (fmt : Rv64.FFmt) (rd : GpuRegister) (rs1 : FpuRegister) :
  Rv64.decode (u32 (Asm.EncodeR (0x60 + fmt_bit fmt) 0 (fpu_num rs1) 1 (gpu_num rd) 0x53))
  = Some (Rv64.FCVT_W fmt rd rs1 1).
Proof.
  rewrite encode_R_u32, decode_EncodeR by (destruct fmt; reg_bounds).
  transitivity (Some (Rv64.FCVT_W fmt (gpu_of_num (gpu_num rd))
                                  (fpu_of_num (fpu_num rs1)) 1));
    [destruct fmt; reflexivity|].
  rewrite gpu_of_num_num, !fpu_of_num_num. reflexivity.
Qed.

Lemma decode_fcvt_l (fmt : Rv64.FFmt) (rd : GpuRegister) (rs1 : FpuRegister) :
  Rv64.decode (u32 (Asm.EncodeR (0x60 + fmt_bit fmt) 2 (fpu_num rs1) 1 (gpu_num rd) 0x53))
  = Some (Rv64.FCVT_L fmt rd rs1 1).
Proof.
  rewrite encode_R_u32, decode_EncodeR by (destruct fmt; reg_bounds).
  transitivity (Some (Rv64.FCVT_L fmt (gpu_of_num (gpu_num rd))
                                  (fpu_of_num (fpu_num rs1)) 1));
    [destruct fmt; reflexivity|].
  rewrite gpu_of_num_num, !fpu_of_num_num. reflexivity.
Qed.

Lemma decode_fmin (fmt : Rv64.FFmt) (rd rs1 rs2 : FpuRegister) :
  Rv64.decode (u32 (Asm.EncodeR (0x14 + fmt_bit fmt) (fpu_num rs2) (fpu_num rs1) 0
                                (fpu_num rd) 0x53))
  = Some (Rv64.FMIN fmt rd rs1 rs2).
Proof.
  rewrite encode_R_u32, decode_EncodeR by (destruct fmt; reg_bounds).
  transitivity (Some (Rv64.FMIN fmt (fpu_of_num (fpu_num rd)) (fpu_of_num (fpu_num rs1))
                                (fpu_of_num (fpu_num rs2)))); [destruct fmt; reflexivity|].
  rewrite !fpu_of_num_num. reflexivity.
Qed.

Lemma decode_fmax (fmt : Rv64.FFmt) (rd rs1 rs2 : FpuRegister) :
  Rv64.decode (u32 (Asm.EncodeR (0x14 + fmt_bit fmt) (fpu_num rs2) (fpu_num rs1) 1
                                (fpu_num rd) 0x53))
  = Some (Rv64.FMAX fmt rd rs1 rs2).
Proof.
  rewrite encode_R_u32, decode_EncodeR by (destruct fmt; reg_bounds).
  transitivity (Some (Rv64.FMAX fmt (fpu_of_num (fpu_num rd)) (fpu_of_num (fpu_num rs1))
                                (fpu_of_num (fpu_num rs2)))); [destruct fmt; reflexivity|].
  rewrite !fpu_of_num_num. reflexivity.
Qed.

Lemma decode_fsgnj (fmt : Rv64.FFmt) (rd rs1 rs2 : FpuRegister) :
  Rv64.decode (u32 (Asm.EncodeR (0x10 + fmt_bit fmt) (fpu_num rs2) (fpu_num rs1) 0
                                (fpu_num rd) 0x53))
  = Some (Rv64.FSGNJ fmt rd rs1 rs2).
Proof.
  rewrite encode_R_u32, decode_EncodeR by (destruct fmt; reg_bounds).
  transitivity (Some (Rv64.FSGNJ fmt (fpu_of_num (fpu_num rd)) (fpu_of_num (fpu_num rs1))
                                 (fpu_of_num (fpu_num rs2)))); [destruct fmt; reflexivity|].
  rewrite !fpu_of_num_num. reflexivity.
Qed.

Lemma decode_addi (rd rs1 : GpuRegister) (imm : Z) :
  Rv64.decode (u32 (Asm.EncodeI imm (gpu_num rs1) 0 (gpu_num rd) 0x13))
  = Some (Rv64.ADDI rd rs1 (sext 12 imm)).
Proof.
  rewrite encode_I_u32, decode_EncodeI by reg_bounds.
  transitivity (Some (Rv64.ADDI (gpu_of_num (gpu_num rd)) (gpu_of_num (gpu_num rs1))
                                (sext 12 imm))); [reflexivity|].
  rewrite !gpu_of_num_num. reflexivity.
Qed.

Lemma decode_addiw (rd rs1 : GpuRegister) (imm : Z) :
  Rv64.decode (u32 (Asm.EncodeI imm (gpu_num rs1) 0 (gpu_num rd) 0x1b))
  = Some (Rv64.ADDIW rd rs1 (sext 12 imm)).
Proof.
  rewrite encode_I_u32, decode_EncodeI by reg_bounds.
  transitivity (Some (Rv64.ADDIW (gpu_of_num (gpu_num rd)) (gpu_of_num (gpu_num rs1))
                                 (sext 12 imm))); [reflexivity|].
  rewrite !gpu_of_num_num. reflexivity.
Qed.

Lemma decode_jalr (rd rs1 : GpuRegister) (imm : Z) :
  Rv64.decode (u32 (Asm.EncodeI imm (gpu_num rs1) 0 (gpu_num rd) 0x67))
  = Some (Rv64.JALR rd rs1 (sext 12 imm)).
Proof.
  rewrite encode_I_u32, decode_EncodeI by reg_bounds.
  transitivity (Some (Rv64.JALR (gpu_of_num (gpu_num rd)) (gpu_of_num (gpu_num rs1))
                                (sext 12 imm))); [reflexivity|].
  rewrite !gpu_of_num_num. reflexivity.
Qed.

Lemma decode_slli32 (rd rs1 : GpuRegister) :
  Rv64.decode (u32 (Asm.EncodeI6 0 32 (gpu_num rs1) 1 (gpu_num rd) 0x13))
  = Some (Rv64.SLLI rd rs1 32).
Proof.
  rewrite encode_I6_u32, decode_EncodeI6 by reg_bounds.
  transitivity (Some (Rv64.SLLI (gpu_of_num (gpu_num rd)) (gpu_of_num (gpu_num rs1)) 32));
    [reflexivity|].
  rewrite !gpu_of_num_num. reflexivity.
Qed.

Lemma decode_srli32 (rd rs1 : GpuRegister) :
  Rv64.decode (u32 (Asm.EncodeI6 0 32 (gpu_num rs1) 5 (gpu_num rd) 0x13))
  = Some (Rv64.SRLI rd rs1 32).
Proof.
  rewrite encode_I6_u32, decode_EncodeI6 by reg_bounds.
  transitivity (Some (Rv64.SRLI (gpu_of_num (gpu_num rd)) (gpu_of_num (gpu_num rs1)) 32));
    [reflexivity|].
  rewrite !gpu_of_num_num. reflexivity.
Qed.

Lemma decode_lui (rd : GpuRegister) (imm : Z) :
  Rv64.decode (u32 (Asm.EncodeU imm (gpu_num rd) 0x37))
  = Some (Rv64.LUI rd (sext 32 (Z.shiftl (imm mod 2 ^ 20) 12))).
Proof.
  rewrite encode_U_u32, decode_EncodeU by reg_bounds.
  transitivity (Some (Rv64.LUI (gpu_of_num (gpu_num rd))
                               (sext 32 (Z.shiftl (imm mod 2 ^ 20) 12))));
    [reflexivity|].
  rewrite !gpu_of_num_num. reflexivity.
Qed.

Lemma decode_auipc (rd : GpuRegister) (imm : Z) :
  Rv64.decode (u32 (Asm.EncodeU imm (gpu_num rd) 0x17))
  = Some (Rv64.AUIPC rd (sext 32 (Z.shiftl (imm mod 2 ^ 20) 12))).
Proof.
  rewrite encode_U_u32, decode_EncodeU by reg_bounds.
  transitivity (Some (Rv64.AUIPC (gpu_of_num (gpu_num rd))
                                 (sext 32 (Z.shiftl (imm mod 2 ^ 20) 12))));
    [reflexivity|].
  rewrite !gpu_of_num_num. reflexivity.
Qed.

Lemma decode_jal (rd : GpuRegister) (imm : Z) :
  0 <= imm < 2 ^ 21 ->
  Rv64.decode (u32 (Asm.EncodeJ imm (gpu_num rd) 0x6F))
  = Some (Rv64.JAL rd (sext 21 (Z.shiftl (Z.shiftr imm 1) 1))).
Proof.
  intros H.
  rewrite encode_J_u32, decode_EncodeJ by reg_bounds.
  transitivity (Some (Rv64.JAL (gpu_of_num (gpu_num rd))
                               (sext 21 (Z.shiftl (Z.shiftr imm 1) 1))));
    [reflexivity|].
  rewrite !gpu_of_num_num. reflexivity.
Qed.

Definition brop_funct3 (op : Rv64.BrOp) : Z :=
  match op with
  | Rv64.BEQ => 0 | Rv64.BNE => 1 | Rv64.BLT => 4 | Rv64.BGE => 5
  | Rv64.BLTU => 6 | Rv64.BGEU => 7
  end.

Lemma decode_branch (op : Rv64.BrOp) (rs1 rs2 : GpuRegister) (imm : Z) :
  0 <= imm < 2 ^ 13 ->
  Rv64.decode (u32 (Asm.EncodeB imm (gpu_num rs2) (gpu_num rs1) (brop_funct3 op) 0x63))
  = Some (Rv64.BRANCH op rs1 rs2 (sext 13 (Z.shiftl (Z.shiftr imm 1) 1))).
Proof.
  intros H.
  rewrite encode_B_u32, decode_EncodeB by (destruct op; reg_bounds).
  transitivity (Some (Rv64.BRANCH op (gpu_of_num (gpu_num rs1)) (gpu_of_num (gpu_num rs2))
                                  (sext 13 (Z.shiftl (Z.shiftr imm 1) 1))));
    [destruct op; reflexivity|].
  rewrite !gpu_of_num_num. reflexivity.
Qed.

(** ** Assembling straight-line macros *)

(** The words a macro hands to Emit are kept abstract while the
    assembler pipeline is evaluated on the bytes. *)
Ltac abstract_words :=
  repeat match goal with
         | |- context [Asm.Emit ?w] =>
             assert_fails (is_var w); generalize w; intro
         end.

Ltac abstract_bytes :=
  cbv [words flat_map Asm.le32 app];
  unfold Asm.Emit, Asm.buf_Emit32, Asm.buf_Store32, Asm.le32;
  repeat match goal with
         | |- context [?v mod 256] =>
             match v with context [u32 ?x] => is_var x end;
             let b := fresh "b" in generalize (v mod 256); intro b
         end.

Ltac assembled := abstract_words; abstract_bytes; vm_compute; reflexivity.

Ltac each_scratch TMP H :=
  destruct TMP; try (exfalso; apply H; reflexivity).

(** *** Stepping through decoded code *)

Lemma run_decoded_at (prog : list Rv64.Instr) (fuel : nat) (s s1 : Rv64.State)
    (n : nat) (i : Rv64.Instr) :
  Rv64.pc s = 4 * Z.of_nat n ->
  nth_error prog n = Some i ->
  Rv64.step_instr i s = Some s1 ->
  run_decoded (S fuel) prog s = run_decoded fuel prog s1.
Proof.
  intros Hpc Hn Hs.
  assert (Hlt : (n < List.length prog)%nat) by (apply nth_error_Some; congruence).
  cbn [run_decoded]. rewrite Hpc.
  destruct (Z.eqb_spec (4 * Z.of_nat n) (4 * Z.of_nat (List.length prog))); [lia|].
  replace ((0 <=? 4 * Z.of_nat n) && ((4 * Z.of_nat n) mod 4 =? 0)) with true.
  - replace (Z.to_nat (4 * Z.of_nat n / 4)) with n.
    + rewrite Hn, Hs. reflexivity.
    + rewrite Z.mul_comm, Z.div_mul by lia. lia.
  - symmetry. apply andb_true_iff. split; [apply Z.leb_le; lia|].
    apply Z.eqb_eq. rewrite Z.mul_comm. apply Z.mod_mul. lia.
Qed.

Lemma run_decoded_end (prog : list Rv64.Instr) (fuel : nat) (s : Rv64.State) :
  Rv64.pc s = 4 * Z.of_nat (List.length prog) ->
  run_decoded fuel prog s = Some s.
Proof.
  intros H. destruct fuel; cbn [run_decoded]; rewrite H, Z.eqb_refl; reflexivity.
Qed.

Lemma getx_ZERO (s : Rv64.State) : Rv64.getx s ZERO = 0.
Proof. reflexivity. Qed.

Lemma getx_setx_same (s : Rv64.State) (r : GpuRegister) (v : Z) :
  r <> ZERO -> Rv64.getx (Rv64.setx s r v) r = sext 64 v.
Proof.
  intros H. unfold Rv64.getx, Rv64.setx. cbn [Rv64.x].
  rewrite (gpu_eqb_neq _ _ H), gpu_eqb_refl. reflexivity.
Qed.

Lemma getx_setx_other (s : Rv64.State) (r r' : GpuRegister) (v : Z) :
  r' <> r -> Rv64.getx (Rv64.setx s r v) r' = Rv64.getx s r'.
Proof.
  intros H. unfold Rv64.getx, Rv64.setx. cbn [Rv64.x].
  rewrite (gpu_eqb_neq _ _ H). reflexivity.
Qed.

Lemma getx_goto (s : Rv64.State) (t : Z) (r : GpuRegister) :
  Rv64.getx (Rv64.goto s t) r = Rv64.getx s r.
Proof. reflexivity. Qed.

Lemma getx_next (s : Rv64.State) (r : GpuRegister) :
  Rv64.getx (Rv64.next s) r = Rv64.getx s r.
Proof. reflexivity. Qed.

Lemma sext_0 : sext 64 0 = 0.
Proof. reflexivity. Qed.

Lemma sext_1 : sext 64 1 = 1.
Proof. reflexivity. Qed.

(** *** Floating-point facts *)

Lemma SFcompare_refl (v : spec_float) :
  SFcompare v v = if Rv64.is_nan v then None else Some Eq.
Proof.
  destruct v as [s|s| |s m e]; cbn [SFcompare Rv64.is_nan]; try reflexivity;
    destruct s; try reflexivity;
    rewrite Z.compare_refl, Pos.compare_cont_refl; reflexivity.
Qed.

Lemma feq_refl (v : spec_float) : Rv64.feq v v = if Rv64.is_nan v then 0 else 1.
Proof.
  unfold Rv64.feq, SFeqb. rewrite SFcompare_refl. destruct (Rv64.is_nan v); reflexivity.
Qed.

Lemma fsgnj_same (v : spec_float) : Rv64.fsgnj v v = v.
Proof. destruct v; reflexivity. Qed.

Lemma fcvt_rtz_range (bits : Z) (v : spec_float) :
  0 < bits -> - 2 ^ (bits - 1) <= Rv64.fcvt_rtz bits v < 2 ^ (bits - 1).
Proof.
  intros Hb. assert (0 < 2 ^ (bits - 1)) by (apply Z.pow_pos_nonneg; lia).
  unfold Rv64.fcvt_rtz. destruct v as [s|s| |s m e]; try destruct s; lia.
Qed.

Lemma sext_fcvt (bits : Z) (v : spec_float) :
  0 < bits <= 64 -> sext 64 (Rv64.fcvt_rtz bits v) = Rv64.fcvt_rtz bits v.
Proof.
  intros Hb. apply sext_small; [lia|].
  pose proof (fcvt_rtz_range bits v ltac:(lia)).
  assert (2 ^ (bits - 1) <= 2 ^ (64 - 1)) by (apply Z.pow_le_mono_r; lia).
  lia.
Qed.

(** ** Truncation and NaN-aware min/max *)

Definition trunc_words (fmt : Rv64.FFmt) (long : bool)
    (TMP rd : GpuRegister) (fs : FpuRegister) : list Z :=
  [Asm.EncodeR 0 (gpu_num rd) (gpu_num rd) 4 (gpu_num rd) 0x33;
   Asm.EncodeR (0x50 + fmt_bit fmt) (fpu_num fs) (fpu_num fs) 2 (gpu_num TMP) 0x53;
   Asm.EncodeB 8 (gpu_num ZERO) (gpu_num TMP) 0 0x63;
   Asm.EncodeR (0x60 + fmt_bit fmt) (if long then 2 else 0) (fpu_num fs) 1
               (gpu_num rd) 0x53].

Definition trunc_prog (fmt : Rv64.FFmt) (long : bool)
    (TMP rd : GpuRegister) (fs : FpuRegister) : list Rv64.Instr :=
  [Rv64.XOR rd rd rd;
   Rv64.FEQ fmt TMP fs fs;
   Rv64.BRANCH Rv64.BEQ TMP ZERO 8;
   if long then Rv64.FCVT_L fmt rd fs 1 else Rv64.FCVT_W fmt rd fs 1].

Definition Trunc (fmt : Rv64.FFmt) (long : bool)
    (TMP rd : GpuRegister) (fs : FpuRegister) : Asm.M unit :=
  match fmt, long with
  | Rv64.FmtS, true => Asm.TruncLS TMP rd fs
  | Rv64.FmtS, false => Asm.TruncWS TMP rd fs
  | Rv64.FmtD, true => Asm.TruncLD TMP rd fs
  | Rv64.FmtD, false => Asm.TruncWD TMP rd fs
  end.

Lemma Trunc_code (fmt : Rv64.FFmt) (long : bool)
    (AT TMP rd : GpuRegister) (fs : FpuRegister) :
  TMP <> ZERO ->
  Asm.assemble AT (Trunc fmt long TMP rd fs)
  = Some (words (trunc_words fmt long TMP rd fs)).
Proof.
  intros H.
  destruct fmt, long;
    cbv [Trunc trunc_words fmt_bit Asm.TruncLS Asm.TruncLD Asm.TruncWS Asm.TruncWD
         Asm.Xor Asm.FEqS Asm.FEqD Asm.FCvtLS Asm.FCvtLD Asm.FCvtWS Asm.FCvtWD
         Asm.EmitR Asm.kFPRoundingModeRTZ];
    change (80 + 0) with 80; change (80 + 1) with 81;
    change (96 + 0) with 96; change (96 + 1) with 97;
    abstract_words; each_scratch TMP H; abstract_bytes; vm_compute; reflexivity.
Qed.

Lemma trunc_decodes (fmt : Rv64.FFmt) (long : bool)
    (TMP rd : GpuRegister) (fs : FpuRegister) :
  Forall2 (fun w i => Rv64.decode (u32 w) = Some i)
          (trunc_words fmt long TMP rd fs) (trunc_prog fmt long TMP rd fs).
Proof.
  unfold trunc_words, trunc_prog. repeat apply Forall2_cons; try apply Forall2_nil.
  - apply decode_xor.
  - apply decode_feq.
  - apply (decode_branch Rv64.BEQ TMP ZERO 8). lia.
  - destruct long; [apply decode_fcvt_l | apply decode_fcvt_w].
Qed.

Definition trunc_bits (long : bool) : Z := if long then 64 else 32.

Lemma trunc_runs (fmt : Rv64.FFmt) (long : bool)
    (TMP rd : GpuRegister) (fs : FpuRegister) (s : Rv64.State) :
  TMP <> ZERO -> rd <> ZERO -> Rv64.pc s = 0 ->
  exists s',
    run_decoded 4 (trunc_prog fmt long TMP rd fs) s = Some s'
    /\ Rv64.getx s' rd
       = if Rv64.is_nan (Rv64.f s fs) then 0
         else Rv64.fcvt_rtz (trunc_bits long) (Rv64.f s fs).
Proof.
  intros HT Hrd Hpc. destruct s as [p x f]. cbn in Hpc. subst p.
  set (s0 := {| Rv64.pc := 0; Rv64.x := x; Rv64.f := f |}).
  set (s1 := Rv64.next (Rv64.setx s0 rd (Z.lxor (Rv64.getx s0 rd) (Rv64.getx s0 rd)))).
  set (s2 := Rv64.next (Rv64.setx s1 TMP (Rv64.feq (f fs) (f fs)))).
  rewrite (run_decoded_at (trunc_prog fmt long TMP rd fs) _ s0 s1 0 _ eq_refl eq_refl eq_refl).
  rewrite (run_decoded_at (trunc_prog fmt long TMP rd fs) _ s1 s2 1 _ eq_refl eq_refl eq_refl).
  assert (HX : Rv64.getx s2 TMP = if Rv64.is_nan (f fs) then 0 else 1).
  { unfold s2. rewrite getx_next, getx_setx_same, feq_refl by exact HT.
    destruct (Rv64.is_nan (f fs)); reflexivity. }
  cbn [Rv64.f s0].
  destruct (Rv64.is_nan (f fs)) eqn:N.
  - exists (Rv64.goto s2 16). split.
    + rewrite (run_decoded_at (trunc_prog fmt long TMP rd fs) _ s2 (Rv64.goto s2 16) 2 _ eq_refl eq_refl).
      * apply run_decoded_end. reflexivity.
      * cbn [Rv64.step_instr]. rewrite HX. reflexivity.
    + rewrite getx_goto. unfold s2. rewrite getx_next.
      destruct (gpu_eqb rd TMP) eqn:E.
      * apply gpu_eqb_eq in E. subst rd.
        rewrite getx_setx_same, feq_refl, N by exact HT. reflexivity.
      * rewrite getx_setx_other
          by (intros ->; rewrite gpu_eqb_refl in E; discriminate).
        unfold s1. rewrite getx_next, getx_setx_same, Z.lxor_nilpotent by exact Hrd.
        reflexivity.
  - set (v := Rv64.fcvt_rtz (trunc_bits long) (f fs)).
    exists (Rv64.next (Rv64.setx (Rv64.next s2) rd v)). split.
    + rewrite (run_decoded_at (trunc_prog fmt long TMP rd fs) _ s2 (Rv64.next s2) 2 _ eq_refl eq_refl).
      * rewrite (run_decoded_at (trunc_prog fmt long TMP rd fs) _ (Rv64.next s2) (Rv64.next (Rv64.setx (Rv64.next s2) rd v)) 3
                   (if long then Rv64.FCVT_L fmt rd fs 1 else Rv64.FCVT_W fmt rd fs 1)
                   eq_refl eq_refl).
        -- apply run_decoded_end. reflexivity.
        -- destruct long; reflexivity.
      * cbn [Rv64.step_instr]. rewrite HX. reflexivity.
    + rewrite getx_next, getx_setx_same by exact Hrd.
      apply sext_fcvt. destruct long; cbn; lia.
Qed.

Definition minmax_words (fmt : Rv64.FFmt) (is_min : bool)
    (TMP : GpuRegister) (fd fs ft : FpuRegister) : list Z :=
  [Asm.EncodeR (0x50 + fmt_bit fmt) (fpu_num fs) (fpu_num fs) 2 (gpu_num TMP) 0x53;
   Asm.EncodeB 20 (gpu_num ZERO) (gpu_num TMP) 0 0x63;
   Asm.EncodeR (0x50 + fmt_bit fmt) (fpu_num ft) (fpu_num ft) 2 (gpu_num TMP) 0x53;
   Asm.EncodeB 20 (gpu_num ZERO) (gpu_num TMP) 0 0x63;
   Asm.EncodeR (0x14 + fmt_bit fmt) (fpu_num ft) (fpu_num fs)
               (if is_min then 0 else 1) (fpu_num fd) 0x53;
   Asm.EncodeJ 16 (gpu_num ZERO) 0x6F;
   Asm.EncodeR (0x10 + fmt_bit fmt) (fpu_num fs) (fpu_num fs) 0 (fpu_num fd) 0x53;
   Asm.EncodeJ 8 (gpu_num ZERO) 0x6F;
   Asm.EncodeR (0x10 + fmt_bit fmt) (fpu_num ft) (fpu_num ft) 0 (fpu_num fd) 0x53].

Definition minmax_prog (fmt : Rv64.FFmt) (is_min : bool)
    (TMP : GpuRegister) (fd fs ft : FpuRegister) : list Rv64.Instr :=
  [Rv64.FEQ fmt TMP fs fs;
   Rv64.BRANCH Rv64.BEQ TMP ZERO 20;
   Rv64.FEQ fmt TMP ft ft;
   Rv64.BRANCH Rv64.BEQ TMP ZERO 20;
   if is_min then Rv64.FMIN fmt fd fs ft else Rv64.FMAX fmt fd fs ft;
   Rv64.JAL ZERO 16;
   Rv64.FSGNJ fmt fd fs fs;
   Rv64.JAL ZERO 8;
   Rv64.FSGNJ fmt fd ft ft].

Definition FJMaxMin (fmt : Rv64.FFmt) (TMP : GpuRegister) (fd fs ft : FpuRegister)
    (is_min : bool) : Asm.M unit :=
  match fmt with
  | Rv64.FmtS => Asm.FJMaxMinS TMP fd fs ft is_min
  | Rv64.FmtD => Asm.FJMaxMinD TMP fd fs ft is_min
  end.

Lemma FJMaxMin_code (fmt : Rv64.FFmt) (is_min : bool)
    (AT TMP : GpuRegister) (fd fs ft : FpuRegister) :
  TMP <> ZERO ->
  Asm.assemble AT (FJMaxMin fmt TMP fd fs ft is_min)
  = Some (words (minmax_words fmt is_min TMP fd fs ft)).
Proof.
  intros H.
  destruct fmt, is_min;
    cbv [FJMaxMin minmax_words fmt_bit Asm.FJMaxMinS Asm.FJMaxMinD
         Asm.FEqS Asm.FEqD Asm.FMinS Asm.FMinD Asm.FMaxS Asm.FMaxD
         Asm.MovS Asm.MovD Asm.FSgnjS Asm.FSgnjD Asm.EmitR];
    change (80 + 0) with 80; change (80 + 1) with 81;
    change (20 + 0) with 20; change (20 + 1) with 21;
    change (16 + 0) with 16; change (16 + 1) with 17;
    abstract_words; each_scratch TMP H; abstract_bytes; vm_compute; reflexivity.
Qed.

Lemma minmax_decodes (fmt : Rv64.FFmt) (is_min : bool)
    (TMP : GpuRegister) (fd fs ft : FpuRegister) :
  Forall2 (fun w i => Rv64.decode (u32 w) = Some i)
          (minmax_words fmt is_min TMP fd fs ft) (minmax_prog fmt is_min TMP fd fs ft).
Proof.
  unfold minmax_words, minmax_prog. repeat apply Forall2_cons; try apply Forall2_nil.
  - apply decode_feq.
  - apply (decode_branch Rv64.BEQ TMP ZERO 20). lia.
  - apply decode_feq.
  - apply (decode_branch Rv64.BEQ TMP ZERO 20). lia.
  - destruct is_min; [apply decode_fmin | apply decode_fmax].
  - apply (decode_jal ZERO 16). lia.
  - apply decode_fsgnj.
  - apply (decode_jal ZERO 8). lia.
  - apply decode_fsgnj.
Qed.

Lemma beqz_after_feq (s : Rv64.State) (TMP : GpuRegister) (v : spec_float) :
  TMP <> ZERO ->
  let s' := Rv64.next (Rv64.setx s TMP (Rv64.feq v v)) in
  Rv64.taken Rv64.BEQ (Rv64.getx s' TMP) (Rv64.getx s' ZERO) = Rv64.is_nan v.
Proof.
  intros H s'. unfold s'.
  rewrite getx_next, getx_setx_same, feq_refl by exact H.
  destruct (Rv64.is_nan v); reflexivity.
Qed.

Ltac run_step P n :=
  erewrite (run_decoded_at P _ _ _ n);
  [ | reflexivity | reflexivity | cbn [Rv64.step_instr]; try reflexivity ].

Lemma minmax_runs (fmt : Rv64.FFmt) (is_min : bool)
    (TMP : GpuRegister) (fd fs ft : FpuRegister) (s : Rv64.State) :
  TMP <> ZERO -> Rv64.pc s = 0 ->
  exists s',
    run_decoded 6 (minmax_prog fmt is_min TMP fd fs ft) s = Some s'
    /\ Rv64.f s' fd
       = if Rv64.is_nan (Rv64.f s fs) then Rv64.f s fs
         else if Rv64.is_nan (Rv64.f s ft) then Rv64.f s ft
         else if is_min then Rv64.fmin (Rv64.f s fs) (Rv64.f s ft)
         else Rv64.fmax (Rv64.f s fs) (Rv64.f s ft).
Proof.
  intros HT Hpc. destruct s as [p x f]. cbn in Hpc. subst p.
  set (P := minmax_prog fmt is_min TMP fd fs ft).
  cbn [Rv64.f].
  pose proof (fun s => beqz_after_feq s TMP (f fs) HT) as B1.
  pose proof (fun s => beqz_after_feq s TMP (f ft) HT) as B2.
  cbv zeta in B1, B2.
  destruct (Rv64.is_nan (f fs)) eqn:N1; [|destruct (Rv64.is_nan (f ft)) eqn:N2];
    [| |destruct is_min].
  - eexists. split.
    + run_step P 0%nat. run_step P 1%nat.
      2:{ cbn [Rv64.f]. rewrite B1. reflexivity. }
      run_step P 6%nat. run_step P 7%nat.
      apply run_decoded_end. reflexivity.
    + cbn [Rv64.f Rv64.goto Rv64.next Rv64.setx Rv64.setf].
      rewrite fpu_eqb_refl. apply fsgnj_same.
  - eexists. split.
    + run_step P 0%nat. run_step P 1%nat.
      2:{ cbn [Rv64.f]. rewrite B1. reflexivity. }
      run_step P 2%nat. run_step P 3%nat.
      2:{ cbn [Rv64.f Rv64.next Rv64.goto Rv64.setx]. rewrite B2. reflexivity. }
      run_step P 8%nat. apply run_decoded_end. reflexivity.
    + cbn [Rv64.f Rv64.goto Rv64.next Rv64.setx Rv64.setf].
      rewrite fpu_eqb_refl. apply fsgnj_same.
  - eexists. split.
    + run_step P 0%nat. run_step P 1%nat.
      2:{ cbn [Rv64.f]. rewrite B1. reflexivity. }
      run_step P 2%nat. run_step P 3%nat.
      2:{ cbn [Rv64.f Rv64.next Rv64.goto Rv64.setx]. rewrite B2. reflexivity. }
      run_step P 4%nat. run_step P 5%nat. apply run_decoded_end. reflexivity.
    + cbn [Rv64.f Rv64.goto Rv64.next Rv64.setx Rv64.setf].
      rewrite fpu_eqb_refl. reflexivity.
  - eexists. split.
    + run_step P 0%nat. run_step P 1%nat.
      2:{ cbn [Rv64.f]. rewrite B1. reflexivity. }
      run_step P 2%nat. run_step P 3%nat.
      2:{ cbn [Rv64.f Rv64.next Rv64.goto Rv64.setx]. rewrite B2. reflexivity. }
      run_step P 4%nat. run_step P 5%nat. apply run_decoded_end. reflexivity.
    + cbn [Rv64.f Rv64.goto Rv64.next Rv64.setx Rv64.setf].
      rewrite fpu_eqb_refl. reflexivity.
Qed.

(** What the claim asks of a truncation helper: the code assembles, runs
    to its end from its first instruction and leaves 0 for a NaN source,
    the conversion rounded towards zero otherwise. *)
Definition truncates (code : option (list Z)) (rd : GpuRegister) (fs : FpuRegister)
    (bits : Z) (s : Rv64.State) : Prop :=
  exists bytes s',
    code = Some bytes
    /\ Rv64.run 4 bytes s = Some s'
    /\ Rv64.getx s' rd
       = if Rv64.is_nan (Rv64.f s fs) then 0 else Rv64.fcvt_rtz bits (Rv64.f s fs).

(** And of a min/max helper: a NaN operand, in either position, is the
    result; otherwise the result is the minimum or maximum. *)
Definition selects (code : option (list Z)) (fd fs ft : FpuRegister)
    (is_min : bool) (s : Rv64.State) : Prop :=
  exists bytes s',
    code = Some bytes
    /\ Rv64.run 6 bytes s = Some s'
    /\ Rv64.f s' fd
       = if Rv64.is_nan (Rv64.f s fs) then Rv64.f s fs
         else if Rv64.is_nan (Rv64.f s ft) then Rv64.f s ft
         else if is_min then Rv64.fmin (Rv64.f s fs) (Rv64.f s ft)
         else Rv64.fmax (Rv64.f s fs) (Rv64.f s ft).

Lemma Trunc_truncates (fmt : Rv64.FFmt) (long : bool)
    (AT TMP rd : GpuRegister) (fs : FpuRegister) (s : Rv64.State) :
  TMP <> ZERO -> rd <> ZERO -> Rv64.pc s = 0 ->
  truncates (Asm.assemble AT (Trunc fmt long TMP rd fs)) rd fs (trunc_bits long) s.
Proof.
  intros HT Hrd Hpc.
  destruct (trunc_runs fmt long TMP rd fs s HT Hrd Hpc) as (s' & Hrun & Hres).
  exists (words (trunc_words fmt long TMP rd fs)), s'. split; [|split].
  - apply Trunc_code, HT.
  - apply (run_words _ _ (trunc_decodes fmt long TMP rd fs)), Hrun.
  - exact Hres.
Qed.

Lemma FJMaxMin_selects (fmt : Rv64.FFmt) (is_min : bool)
    (AT TMP : GpuRegister) (fd fs ft : FpuRegister) (s : Rv64.State) :
  TMP <> ZERO -> Rv64.pc s = 0 ->
  selects (Asm.assemble AT (FJMaxMin fmt TMP fd fs ft is_min)) fd fs ft is_min s.
Proof.
  intros HT Hpc.
  destruct (minmax_runs fmt is_min TMP fd fs ft s HT Hpc) as (s' & Hrun & Hres).
  exists (words (minmax_words fmt is_min TMP fd fs ft)), s'. split; [|split].
  - apply FJMaxMin_code, HT.
  - apply (run_words _ _ (minmax_decodes fmt is_min TMP fd fs ft)), Hrun.
  - exact Hres.
Qed.

(** C5. With a scratch register TMP and a destination rd other than the
    hard-wired zero register, the code assembled for TruncLS, TruncWS,
    TruncLD and TruncWD runs to its end and leaves in rd exactly 0 when the
    source is NaN and the round-toward-zero conversion (64 or 32 bits)
    otherwise; the code assembled for FJMaxMinS and FJMaxMinD leaves in fd
    the NaN operand when the first or the second operand is NaN, and the
    ordinary minimum or maximum otherwise. *)
Theorem truncation_and_minmax_handle_nan
    (AT TMP rd : GpuRegister) (fd fs ft : FpuRegister) (s : Rv64.State) :
  TMP <> ZERO -> rd <> ZERO -> Rv64.pc s = 0 ->
  truncates (Asm.assemble AT (Asm.TruncLS TMP rd fs)) rd fs 64 s
  /\ truncates (Asm.assemble AT (Asm.TruncWS TMP rd fs)) rd fs 32 s
  /\ truncates (Asm.assemble AT (Asm.TruncLD TMP rd fs)) rd fs 64 s
  /\ truncates (Asm.assemble AT (Asm.TruncWD TMP rd fs)) rd fs 32 s
  /\ (forall is_min,
        selects (Asm.assemble AT (Asm.FJMaxMinS TMP fd fs ft is_min)) fd fs ft is_min s
        /\ selects (Asm.assemble AT (Asm.FJMaxMinD TMP fd fs ft is_min)) fd fs ft is_min s).
Proof.
  intros HT Hrd Hpc. repeat split.
  - exact (Trunc_truncates Rv64.FmtS true AT TMP rd fs s HT Hrd Hpc).
  - exact (Trunc_truncates Rv64.FmtS false AT TMP rd fs s HT Hrd Hpc).
  - exact (Trunc_truncates Rv64.FmtD true AT TMP rd fs s HT Hrd Hpc).
  - exact (Trunc_truncates Rv64.FmtD false AT TMP rd fs s HT Hrd Hpc).
  - exact (FJMaxMin_selects Rv64.FmtS is_min AT TMP fd fs ft s HT Hpc).
  - exact (FJMaxMin_selects Rv64.FmtD is_min AT TMP fd fs ft s HT Hpc).
Qed.

(** A hart about to run the code, NaN in FA1 and 1.0 in FA2. *)
Definition sample_state : Rv64.State :=
  {| Rv64.pc := 0;
     Rv64.x := fun _ => 7;
     Rv64.f := fun r => if fpu_eqb r FA1 then S754_nan else S754_finite false 1 0 |}.

Lemma truncation_and_minmax_handle_nan_witness :
  T6 <> ZERO /\ A0 <> ZERO /\ Rv64.pc sample_state = 0
  /\ truncates (Asm.assemble T4 (Asm.TruncLS T6 A0 FA1)) A0 FA1 64 sample_state
  /\ selects (Asm.assemble T4 (Asm.FJMaxMinD T6 FA0 FA1 FA2 true)) FA0 FA1 FA2 true
       sample_state.
Proof.
  assert (H1 : T6 <> ZERO) by discriminate.
  assert (H2 : A0 <> ZERO) by discriminate.
  split; [exact H1|]. split; [exact H2|]. split; [reflexivity|].
  destruct (truncation_and_minmax_handle_nan T4 T6 A0 FA0 FA1 FA2 sample_state
              H1 H2 eq_refl) as (A & _ & _ & _ & B).
  split; [exact A | exact (proj2 (B true))].
Defined.

(** ** Straight-line code *)

(** [emits m ws]: while code is appended, [m] appends the words [ws] and
    does nothing else. *)
Definition emits (m : Asm.M unit) (ws : list Z) : Prop :=
  forall a, Asm.overwriting_ a = false ->
    m a = Some (tt, Asm.with_buffer a (Asm.buffer_ a ++ words ws)).

Lemma emits_ret : emits (Asm.ret tt) [].
Proof.
  intros a _. unfold Asm.ret, words. cbn [flat_map]. rewrite app_nil_r.
  destruct a; reflexivity.
Qed.

Lemma emits_Emit (w : Z) : emits (Asm.Emit w) [w].
Proof.
  intros a H. unfold Asm.Emit, Asm.bind, Asm.get, Asm.put. rewrite H.
  unfold Asm.buf_Emit32, words. cbn [flat_map]. rewrite app_nil_r. reflexivity.
Qed.

Lemma emits_bind (m1 m2 : Asm.M unit) (ws1 ws2 : list Z) :
  emits m1 ws1 -> emits m2 ws2 ->
  emits (Asm.bind m1 (fun _ => m2)) (ws1 ++ ws2).
Proof.
  intros H1 H2 a Ha. unfold Asm.bind. rewrite (H1 a Ha).
  rewrite H2 by exact Ha. destruct a; cbn.
  rewrite words_app, app_assoc. reflexivity.
Qed.

Lemma assemble_emits (AT : GpuRegister) (m : Asm.M unit) (ws : list Z) :
  emits m ws -> Asm.assemble AT m = Some (words ws).
Proof.
  intros H. unfold Asm.assemble, Asm.bind at 1.
  rewrite (H Asm.new_assembler eq_refl).
  cbn [Asm.buffer_ Asm.new_assembler app].
  generalize (words ws). intros b. reflexivity.
Qed.

(** *** Constants: the words and the instructions *)

Definition lo12 (value : Z) : Z := Z.land value 0xFFF.
Definition hi20 (value : Z) : Z :=
  let h := Z.shiftr value 12 in
  if negb (Z.land (lo12 value) 0x800 =? 0) then sext 32 (h + 1) else h.

Definition LoadConst32_words (rd : GpuRegister) (value : Z) : list Z :=
  let value := sext 32 value in
  if IsInt 12 value then [Asm.EncodeI (u16 value) (gpu_num ZERO) 0 (gpu_num rd) 0x13]
  else
    Asm.EncodeU (u32 (u32 (hi20 value))) (gpu_num rd) 0x37
    :: (if negb (lo12 value =? 0)
        then [Asm.EncodeI (u16 (lo12 value)) (gpu_num rd) 0 (gpu_num rd) 0x1b]
        else []).

Definition LoadConst32_prog (rd : GpuRegister) (value : Z) : list Rv64.Instr :=
  let value := sext 32 value in
  if IsInt 12 value then [Rv64.ADDI rd ZERO (sext 12 (u16 value))]
  else
    Rv64.LUI rd (sext 32 (Z.shiftl (u32 (u32 (hi20 value)) mod 2 ^ 20) 12))
    :: (if negb (lo12 value =? 0)
        then [Rv64.ADDIW rd rd (sext 12 (u16 (lo12 value)))]
        else []).

Definition combine_words (TMP2 rd : GpuRegister) : list Z :=
  [Asm.EncodeI6 0 32 (gpu_num rd) 1 (gpu_num rd) 0x13;
   Asm.EncodeI6 0 32 (gpu_num TMP2) 1 (gpu_num TMP2) 0x13;
   Asm.EncodeI6 0 32 (gpu_num TMP2) 5 (gpu_num TMP2) 0x13;
   Asm.EncodeR 0 (gpu_num TMP2) (gpu_num rd) 6 (gpu_num rd) 0x33].

Definition combine_prog (TMP2 rd : GpuRegister) : list Rv64.Instr :=
  [Rv64.SLLI rd rd 32; Rv64.SLLI TMP2 TMP2 32; Rv64.SRLI TMP2 TMP2 32;
   Rv64.OR rd rd TMP2].

Definition LoadConst64_words (TMP2 rd : GpuRegister) (value : Z) : list Z :=
  let value := sext 64 value in
  if IsInt 32 value then LoadConst32_words rd value
  else LoadConst32_words TMP2 (sext 32 value)
       ++ LoadConst32_words rd (sext 32 (Z.shiftr value 32))
       ++ combine_words TMP2 rd.

Definition LoadConst64_prog (TMP2 rd : GpuRegister) (value : Z) : list Rv64.Instr :=
  let value := sext 64 value in
  if IsInt 32 value then LoadConst32_prog rd value
  else LoadConst32_prog TMP2 (sext 32 value)
       ++ LoadConst32_prog rd (sext 32 (Z.shiftr value 32))
       ++ combine_prog TMP2 rd.

Lemma emits_LoadConst32 (rd : GpuRegister) (value : Z) :
  emits (Asm.LoadConst32 rd value) (LoadConst32_words rd value).
Proof.
  unfold Asm.LoadConst32, LoadConst32_words.
  fold (lo12 (sext 32 value)). fold (hi20 (sext 32 value)).
  destruct (IsInt 12 (sext 32 value)).
  - apply emits_Emit.
  - destruct (negb (lo12 (sext 32 value) =? 0)).
    + apply (emits_bind _ _ [_] [_]); apply emits_Emit.
    + apply (emits_bind _ _ [_] []); [apply emits_Emit | apply emits_ret].
Qed.

Lemma emits_LoadConst64 (TMP2 rd : GpuRegister) (value : Z) :
  emits (Asm.LoadConst64 TMP2 rd value) (LoadConst64_words TMP2 rd value).
Proof.
  unfold Asm.LoadConst64, LoadConst64_words.
  destruct (IsInt 32 (sext 64 value)).
  - apply emits_LoadConst32.
  - apply emits_bind; [apply emits_LoadConst32|].
    apply emits_bind; [apply emits_LoadConst32|].
    unfold Asm.Slli, Asm.Srli.
    change (u16 32 =? 0) with false. rewrite !orb_true_r.
    apply (emits_bind _ _ [_] [_; _; _]); [apply emits_Emit|].
    apply (emits_bind _ _ [_] [_; _]); [apply emits_Emit|].
    apply (emits_bind _ _ [_] [_]); apply emits_Emit.
Qed.

Lemma LoadConst32_decodes (rd : GpuRegister) (value : Z) :
  Forall2 (fun w i => Rv64.decode (u32 w) = Some i)
          (LoadConst32_words rd value) (LoadConst32_prog rd value).
Proof.
  unfold LoadConst32_words, LoadConst32_prog.
  destruct (IsInt 12 (sext 32 value)).
  - repeat apply Forall2_cons; try apply Forall2_nil. apply decode_addi.
  - apply Forall2_cons; [apply decode_lui|].
    destruct (negb (lo12 (sext 32 value) =? 0)); [|apply Forall2_nil].
    apply Forall2_cons; [apply decode_addiw | apply Forall2_nil].
Qed.

Lemma LoadConst64_decodes (TMP2 rd : GpuRegister) (value : Z) :
  Forall2 (fun w i => Rv64.decode (u32 w) = Some i)
          (LoadConst64_words TMP2 rd value) (LoadConst64_prog TMP2 rd value).
Proof.
  unfold LoadConst64_words, LoadConst64_prog.
  destruct (IsInt 32 (sext 64 value)); [apply LoadConst32_decodes|].
  apply Forall2_app; [apply LoadConst32_decodes|].
  apply Forall2_app; [apply LoadConst32_decodes|].
  unfold combine_words, combine_prog.
  repeat apply Forall2_cons; try apply Forall2_nil.
  - apply decode_slli32.
  - apply decode_slli32.
  - apply decode_srli32.
  - apply decode_or.
Qed.

Ltac pow_consts :=
  change (2 ^ 64) with 18446744073709551616 in *;
  change (2 ^ (64 - 1)) with 9223372036854775808 in *;
  change (2 ^ 63) with 9223372036854775808 in *;
  change (2 ^ 32) with 4294967296 in *;
  change (2 ^ (32 - 1)) with 2147483648 in *;
  change (2 ^ 31) with 2147483648 in *;
  change (2 ^ 20) with 1048576 in *;
  change (2 ^ 16) with 65536 in *;
  change (2 ^ 12) with 4096 in *;
  change (2 ^ (12 - 1)) with 2048 in *;
  change (2 ^ 11) with 2048 in *.

Lemma sext12_u16 (v : Z) : sext 12 (u16 v) = sext 12 v.
Proof. unfold sext, u16. pow_consts. Z.div_mod_to_equations. lia. Qed.

Lemma lo12_mod (v : Z) : lo12 v = v mod 4096.
Proof. unfold lo12. change 4095 with (Z.ones 12). apply Z.land_ones. lia. Qed.

Lemma bit11_test (l : Z) :
  0 <= l < 4096 -> (Z.land l 0x800 =? 0) = (l <? 2048).
Proof.
  intros H.
  pose proof (has_testbit l 11 ltac:(lia)) as T.
  unfold Features.has in T. change (Z.shiftl 1 11) with 2048 in T.
  rewrite <- (negb_involutive (Z.land l 2048 =? 0)), T.
  destruct (Z.testbit l 11) eqn:B.
  - apply Z.testbit_true in B; [|lia]. change (2 ^ 11) with 2048 in B.
    destruct (Z.ltb_spec l 2048); [|reflexivity].
    exfalso. Z.div_mod_to_equations. lia.
  - destruct (Z.ltb_spec l 2048); [reflexivity|]. exfalso.
    assert (B' : Z.testbit l 11 = true); [|congruence].
    apply Z.testbit_true; [lia|]. change (2 ^ 11) with 2048.
    Z.div_mod_to_equations. lia.
Qed.

Lemma addi_value (v : Z) :
  IsInt 12 v = true -> sext 64 (0 + sext 12 (u16 v)) = v.
Proof.
  unfold IsInt. intros H. apply andb_true_iff in H. destruct H as [H1 H2].
  apply Z.leb_le in H1. apply Z.ltb_lt in H2.
  rewrite sext12_u16. unfold sext in *. pow_consts. Z.div_mod_to_equations. lia.
Qed.

Lemma lui_value (v : Z) :
  - 2 ^ 31 <= v < 2 ^ 31 ->
  sext 32 (Z.shiftl (u32 (u32 (hi20 v)) mod 2 ^ 20) 12)
  = sext 32 (v - sext 12 (lo12 v)).
Proof.
  intros Hv. unfold hi20. rewrite bit11_test, lo12_mod
    by (rewrite lo12_mod; apply Z.mod_pos_bound; lia).
  rewrite Z.shiftl_mul_pow2, Z.shiftr_div_pow2 by lia.
  unfold u32, sext. pow_consts.
  destruct (Z.ltb_spec (v mod 4096) 2048); cbn [negb];
    Z.div_mod_to_equations; lia.
Qed.

Lemma lui_only_value (v : Z) :
  - 2 ^ 31 <= v < 2 ^ 31 -> lo12 v = 0 ->
  sext 64 (sext 32 (v - sext 12 (lo12 v))) = v.
Proof.
  intros Hv H0. rewrite H0. unfold sext. pow_consts.
  Z.div_mod_to_equations. lia.
Qed.

Lemma addiw_value (v : Z) :
  - 2 ^ 31 <= v < 2 ^ 31 ->
  sext 64 (sext 32 (sext 64 (sext 32 (v - sext 12 (lo12 v)))
                    + sext 12 (u16 (lo12 v)))) = v.
Proof.
  intros Hv. rewrite sext12_u16.
  generalize (sext 12 (lo12 v)). intros d.
  unfold sext. pow_consts. Z.div_mod_to_equations. lia.
Qed.

(** *** Running straight-line code *)

Definition straight (i : Rv64.Instr) : bool :=
  match i with
  | Rv64.JAL _ _ | Rv64.JALR _ _ _ | Rv64.BRANCH _ _ _ _ => false
  | _ => true
  end.

Fixpoint exec_seq (prog : list Rv64.Instr) (s : Rv64.State) : option Rv64.State :=
  match prog with
  | [] => Some s
  | i :: rest =>
      match Rv64.step_instr i s with
      | Some s' => exec_seq rest s'
      | None => None
      end
  end.

Lemma step_straight (i : Rv64.Instr) (s s' : Rv64.State) :
  straight i = true -> Rv64.step_instr i s = Some s' -> Rv64.pc s' = Rv64.pc s + 4.
Proof.
  destruct i; cbn [straight Rv64.step_instr]; intros H E; try discriminate;
    try (injection E as <-; reflexivity);
    destruct (rm =? 1); try discriminate; injection E as <-; reflexivity.
Qed.

Lemma exec_seq_app (p1 p2 : list Rv64.Instr) (s : Rv64.State) :
  exec_seq (p1 ++ p2) s
  = match exec_seq p1 s with Some s1 => exec_seq p2 s1 | None => None end.
Proof.
  revert s. induction p1 as [|i p1 IH]; intros s; cbn [exec_seq app]; [reflexivity|].
  destruct (Rv64.step_instr i s); [apply IH|reflexivity].
Qed.

Lemma run_decoded_straight (post pre : list Rv64.Instr) (fuel : nat)
    (s s' : Rv64.State) :
  forallb straight post = true ->
  Rv64.pc s = 4 * Z.of_nat (List.length pre) ->
  (List.length post <= fuel)%nat ->
  exec_seq post s = Some s' ->
  run_decoded fuel (pre ++ post) s = Some s'.
Proof.
  revert pre fuel s. induction post as [|i post IH]; intros pre fuel s HS Hpc Hf HE.
  - injection HE as <-. apply run_decoded_end. rewrite app_nil_r. exact Hpc.
  - cbn [forallb] in HS. apply andb_true_iff in HS. destruct HS as [Hi HS].
    cbn [exec_seq] in HE.
    destruct (Rv64.step_instr i s) as [s1|] eqn:E1; [|discriminate].
    destruct fuel as [|fuel]; [cbn in Hf; lia|].
    rewrite (run_decoded_at (pre ++ i :: post) fuel s s1 (List.length pre) i Hpc).
    + change (i :: post) with ([i] ++ post). rewrite app_assoc.
      apply IH; [exact HS| |cbn [List.length] in Hf; lia|exact HE].
      rewrite (step_straight i s s1 Hi E1), Hpc, length_app. cbn [List.length]. lia.
    + rewrite nth_error_app2 by lia. rewrite Nat.sub_diag. reflexivity.
    + exact E1.
Qed.

Lemma run_straight (ws : list Z) (prog : list Rv64.Instr) (fuel : nat)
    (s s' : Rv64.State) :
  Forall2 (fun w i => Rv64.decode (u32 w) = Some i) ws prog ->
  forallb straight prog = true ->
  Rv64.pc s = 0 ->
  (List.length prog <= fuel)%nat ->
  exec_seq prog s = Some s' ->
  Rv64.run fuel (words ws) s = Some s'.
Proof.
  intros HD HS Hpc Hf HE.
  apply (run_words ws prog HD).
  apply (run_decoded_straight prog [] fuel s s' HS); assumption.
Qed.

(** *** What the constant loaders compute *)

Lemma LoadConst32_exec (rd : GpuRegister) (value : Z) (s : Rv64.State) :
  rd <> ZERO ->
  exists s',
    exec_seq (LoadConst32_prog rd value) s = Some s'
    /\ Rv64.getx s' rd = sext 32 value
    /\ (forall r, r <> rd -> Rv64.getx s' r = Rv64.getx s r).
Proof.
  intros Hrd. unfold LoadConst32_prog.
  pose proof (sext_range 32 value ltac:(lia)) as R.
  change (2 ^ (32 - 1)) with (2 ^ 31) in R.
  set (v := sext 32 value) in *.
  destruct (IsInt 12 v) eqn:I.
  - eexists. split; [reflexivity|]. split.
    + rewrite getx_next, getx_setx_same by exact Hrd. apply addi_value, I.
    + intros r Hr. rewrite getx_next, getx_setx_other by exact Hr. reflexivity.
  - rewrite lui_value by exact R.
    destruct (lo12 v =? 0) eqn:L; cbn [negb].
    + apply Z.eqb_eq in L.
      eexists. split; [reflexivity|]. split.
      * rewrite getx_next, getx_setx_same by exact Hrd. apply lui_only_value; assumption.
      * intros r Hr. rewrite getx_next, getx_setx_other by exact Hr. reflexivity.
    + eexists. split; [reflexivity|]. split.
      * rewrite getx_next, getx_setx_same by exact Hrd.
        rewrite getx_next, getx_setx_same by exact Hrd.
        apply addiw_value, R.
      * intros r Hr. rewrite getx_next, getx_setx_other by exact Hr.
        rewrite getx_next, getx_setx_other by exact Hr. reflexivity.
Qed.

Lemma LoadConst32_straight (rd : GpuRegister) (value : Z) :
  forallb straight (LoadConst32_prog rd value) = true
  /\ (1 <= List.length (LoadConst32_prog rd value) <= 2)%nat.
Proof.
  unfold LoadConst32_prog.
  destruct (IsInt 12 (sext 32 value)); [split; [reflexivity|cbn; lia]|].
  destruct (negb (lo12 (sext 32 value) =? 0)); split; try reflexivity; cbn; lia.
Qed.

Lemma halves_join (v : Z) :
  Z.lor (Z.shiftl (Z.shiftr v 32) 32) (Z.land v (Z.ones 32)) = v.
Proof. Z.bitblast. Qed.

Lemma combine_value (v : Z) :
  - 2 ^ 63 <= v < 2 ^ 63 ->
  let hi := sext 32 (sext 32 (Z.shiftr v 32)) in
  let lo := sext 32 (sext 32 v) in
  sext 64 (Z.lor (sext 64 (Z.shiftl hi 32))
                 (sext 64 (Z.shiftr (u64 (sext 64 (Z.shiftl lo 32))) 32))) = v.
Proof.
  intros Hv hi lo.
  assert (Hhi : sext 64 (Z.shiftl hi 32) = Z.shiftl (Z.shiftr v 32) 32).
  { unfold hi. rewrite !Z.shiftl_mul_pow2, Z.shiftr_div_pow2 by lia.
    unfold sext. pow_consts. Z.div_mod_to_equations. lia. }
  assert (Hlo : sext 64 (Z.shiftr (u64 (sext 64 (Z.shiftl lo 32))) 32)
                = Z.land v (Z.ones 32)).
  { unfold lo. rewrite Z.land_ones, Z.shiftl_mul_pow2, Z.shiftr_div_pow2 by lia.
    unfold sext, u64. pow_consts. Z.div_mod_to_equations. lia. }
  rewrite Hhi, Hlo, halves_join. apply sext_small; [lia|exact Hv].
Qed.

Lemma IsInt_range (n v : Z) :
  IsInt n v = true <-> - 2 ^ (n - 1) <= v < 2 ^ (n - 1).
Proof.
  unfold IsInt. rewrite andb_true_iff, Z.leb_le, Z.ltb_lt. reflexivity.
Qed.

Lemma combine_exec (TMP2 rd : GpuRegister) (s : Rv64.State) :
  rd <> ZERO -> TMP2 <> ZERO -> rd <> TMP2 ->
  exists s',
    exec_seq (combine_prog TMP2 rd) s = Some s'
    /\ Rv64.getx s' rd
       = sext 64 (Z.lor (sext 64 (Z.shiftl (Rv64.getx s rd) 32))
                        (sext 64 (Z.shiftr
                                    (u64 (sext 64 (Z.shiftl (Rv64.getx s TMP2) 32)))
                                    32))).
Proof.
  intros Hrd HT Hne. assert (Hne' : TMP2 <> rd) by congruence.
  eexists. split; [reflexivity|].
  rewrite getx_next, getx_setx_same by exact Hrd.
  repeat first [ rewrite getx_next
               | rewrite getx_setx_same by assumption
               | rewrite getx_setx_other by assumption ].
  reflexivity.
Qed.

Lemma LoadConst64_straight (TMP2 rd : GpuRegister) (value : Z) :
  forallb straight (LoadConst64_prog TMP2 rd value) = true
  /\ (List.length (LoadConst64_prog TMP2 rd value) <= 8)%nat
  /\ if IsInt 32 (sext 64 value)
     then (1 <= List.length (LoadConst64_prog TMP2 rd value) <= 2)%nat
     else (6 <= List.length (LoadConst64_prog TMP2 rd value) <= 8)%nat.
Proof.
  unfold LoadConst64_prog.
  destruct (IsInt 32 (sext 64 value)).
  - destruct (LoadConst32_straight rd (sext 64 value)) as [H1 H2].
    split; [exact H1|]. split; [lia|exact H2].
  - destruct (LoadConst32_straight TMP2 (sext 32 (sext 64 value))) as [H1 H2].
    destruct (LoadConst32_straight rd (sext 32 (Z.shiftr (sext 64 value) 32)))
      as [H3 H4].
    rewrite !forallb_app, H1, H3, !length_app. cbn [combine_prog List.length forallb straight andb].
    split; [reflexivity|]. lia.
Qed.

Lemma LoadConst64_exec (TMP2 rd : GpuRegister) (v : Z) (s : Rv64.State) :
  - 2 ^ 63 <= v < 2 ^ 63 ->
  rd <> ZERO ->
  (IsInt 32 v = false -> rd <> TMP2 /\ TMP2 <> ZERO) ->
  exists s',
    exec_seq (LoadConst64_prog TMP2 rd v) s = Some s' /\ Rv64.getx s' rd = v.
Proof.
  intros Hv Hrd HT. unfold LoadConst64_prog.
  rewrite (sext_small 64 v) by (change (2 ^ (64 - 1)) with (2 ^ 63); lia).
  destruct (IsInt 32 v) eqn:I.
  - destruct (LoadConst32_exec rd v s Hrd) as (s' & E & G & _).
    exists s'. split; [exact E|]. rewrite G. apply sext_small; [lia|].
    apply IsInt_range, I.
  - destruct (HT eq_refl) as [Hne HT2].
    destruct (LoadConst32_exec TMP2 (sext 32 v) s HT2) as (s1 & E1 & G1 & _).
    destruct (LoadConst32_exec rd (sext 32 (Z.shiftr v 32)) s1 Hrd)
      as (s2 & E2 & G2 & F2).
    destruct (combine_exec TMP2 rd s2 Hrd HT2 Hne) as (s3 & E3 & G3).
    exists s3. split.
    + rewrite exec_seq_app, E1, exec_seq_app, E2. exact E3.
    + rewrite G3, G2, F2, G1 by congruence. apply combine_value, Hv.
Qed.


Definition idle_state : Rv64.State :=
  {| Rv64.pc := 0; Rv64.x := fun _ => 0; Rv64.f := fun _ => S754_zero false |}.



(** ** Branches on one register *)

Definition set_regs (b : Asm.Branch) (lhs rhs : GpuRegister) : Asm.Branch :=
  {| Asm.old_location_ := Asm.old_location_ b; Asm.location_ := Asm.location_ b;
     Asm.target_ := Asm.target_ b; Asm.lhs_reg_ := lhs; Asm.rhs_reg_ := rhs;
     Asm.condition_ := Asm.condition_ b; Asm.type_ := Asm.type_ b;
     Asm.old_type_ := Asm.old_type_ b |}.

(** A branch over two words to a label bound right after them. *)
Definition skip_two (is_bare : bool) (cond : Asm.BranchCondition)
    (lhs rhs : GpuRegister) (w1 w2 : Z) : Asm.M unit :=
  Asm.bind (Asm.Bcond Asm.new_label is_bare cond lhs rhs) (fun label =>
  Asm.bind (Asm.Emit w1) (fun _ =>
  Asm.bind (Asm.Emit w2) (fun _ =>
  Asm.bind (Asm.Bind label) (fun _ => Asm.ret tt)))).

Lemma Bcond_nop (label : Asm.Riscv64Label) (is_bare : bool)
    (cond : Asm.BranchCondition) (r : GpuRegister) (a : Asm.Assembler) :
  In cond [Asm.kCondLT; Asm.kCondGT; Asm.kCondNE; Asm.kCondLTU] ->
  Asm.Bcond label is_bare cond r r a = Some (label, a).
Proof.
  intros H. unfold Asm.Bcond.
  assert (E : Asm.IsNop cond r r = true).
  { cbn [In] in H. destruct H as [<-|[<-|[<-|[<-|[]]]]];
      cbn [Asm.IsNop]; apply gpu_eqb_refl. }
  rewrite E. reflexivity.
Qed.

Lemma Branch_cond_same (location target : Z) (cond : Asm.BranchCondition)
    (r : GpuRegister) (is_bare : bool) :
  In cond [Asm.kCondGE; Asm.kCondLE; Asm.kCondEQ; Asm.kCondGEU] ->
  r <> ZERO ->
  Asm.Branch_cond location target cond r r is_bare
  = option_map (fun b => set_regs b r r)
      (Asm.Branch_uncond location target false is_bare).
Proof.
  intros H Hr. unfold Asm.Branch_cond, Asm.Branch_uncond.
  cbn [In] in H.
  destruct H as [<-|[<-|[<-|[<-|[]]]]];
    cbn [Asm.IsNop Asm.IsUncond];
    rewrite (gpu_eqb_neq _ _ Hr), gpu_eqb_refl; cbn [negb andb];
    unfold Asm.InitializeType; cbn [Asm.condition_ Asm.location_ Asm.target_];
    destruct is_bare;
    repeat match goal with
           | |- context [if ?c then _ else _] => destruct c
           end; reflexivity.
Qed.

Lemma Bcond_ZERO_aborts (label : Asm.Riscv64Label) (is_bare : bool)
    (cond : Asm.BranchCondition) (a : Asm.Assembler) :
  In cond [Asm.kCondGE; Asm.kCondLE; Asm.kCondEQ; Asm.kCondGEU] ->
  Asm.Bcond label is_bare cond ZERO ZERO a = None.
Proof.
  intros H. unfold Asm.Bcond, Asm.bind.
  assert (E : Asm.IsNop cond ZERO ZERO = false)
    by (cbn [In] in H; destruct H as [<-|[<-|[<-|[<-|[]]]]]; reflexivity).
  rewrite E.
  destruct (Asm.label_target label a) as [[target a']|]; [|reflexivity].
  cbn [Asm.get].
  assert (B : forall loc, Asm.Branch_cond loc target cond ZERO ZERO is_bare = None)
    by (intros loc; cbn [In] in H; destruct H as [<-|[<-|[<-|[<-|[]]]]]; reflexivity).
  rewrite B. reflexivity.
Qed.

Lemma skip_two_code (AT : GpuRegister) (is_bare : bool) (cond : Asm.BranchCondition)
    (r : GpuRegister) (w1 w2 : Z) :
  In cond [Asm.kCondGE; Asm.kCondLE; Asm.kCondEQ; Asm.kCondGEU] ->
  r <> ZERO ->
  Asm.assemble AT (skip_two is_bare cond r r w1 w2)
  = Some (words [Asm.EncodeJ 12 (gpu_num ZERO) 0x6F; w1; w2]).
Proof.
  intros H Hr. unfold skip_two. cbn [In] in H.
  destruct H as [<-|[<-|[<-|[<-|[]]]]];
    destruct is_bare; each_scratch r Hr; abstract_bytes; vm_compute; reflexivity.
Qed.

Lemma skip_two_runs (w1 w2 : Z) (s : Rv64.State) :
  Rv64.pc s = 0 ->
  Rv64.run 1 (words [Asm.EncodeJ 12 (gpu_num ZERO) 0x6F; w1; w2]) s
  = Some (Rv64.goto (Rv64.setx s ZERO 4) 12).
Proof.
  intros Hpc. cbn [Rv64.run]. rewrite words_size. cbn [List.length].
  rewrite Hpc. change (0 =? 4 * Z.of_nat 3) with false. cbv iota.
  unfold Rv64.step. rewrite Hpc.
  pose proof (fetch_words [Asm.EncodeJ 12 (gpu_num ZERO) 0x6F; w1; w2] 0 _ eq_refl)
    as F.
  change (4 * Z.of_nat 0) with 0 in F. rewrite F.
  change (Rv64.decode (u32 (Asm.EncodeJ 12 (gpu_num ZERO) 111)))
    with (Some (Rv64.JAL ZERO 12)).
  cbn [Rv64.step_instr Rv64.pc Rv64.goto]. rewrite Hpc. reflexivity.
Qed.

(** A branch back to a label bound one word earlier. *)
Definition loop_back (is_bare : bool) (cond : Asm.BranchCondition)
    (lhs rhs : GpuRegister) (w1 : Z) : Asm.M unit :=
  Asm.bind (Asm.Bind Asm.new_label) (fun label =>
  Asm.bind (Asm.Emit w1) (fun _ =>
  Asm.bind (Asm.Bcond label is_bare cond lhs rhs) (fun _ => Asm.ret tt))).

Lemma loop_back_code (AT : GpuRegister) (is_bare : bool) (cond : Asm.BranchCondition)
    (r : GpuRegister) (w1 : Z) :
  In cond [Asm.kCondGE; Asm.kCondLE; Asm.kCondEQ; Asm.kCondGEU] ->
  r <> ZERO ->
  Asm.assemble AT (loop_back is_bare cond r r w1)
  = Some (words [w1; Asm.EncodeJ 0x1FFFFC (gpu_num ZERO) 0x6F]).
Proof.
  intros H Hr. unfold loop_back. cbn [In] in H.
  destruct H as [<-|[<-|[<-|[<-|[]]]]];
    destruct is_bare; each_scratch r Hr; abstract_bytes; vm_compute; reflexivity.
Qed.

Lemma loop_back_steps (w1 : Z) (s : Rv64.State) :
  Rv64.pc s = 4 ->
  Rv64.step (words [w1; Asm.EncodeJ 0x1FFFFC (gpu_num ZERO) 0x6F]) s
  = Some (Rv64.goto (Rv64.setx s ZERO 8) 0).
Proof.
  intros Hpc. unfold Rv64.step. rewrite Hpc.
  pose proof (fetch_words [w1; Asm.EncodeJ 0x1FFFFC (gpu_num ZERO) 0x6F] 1 _ eq_refl)
    as F.
  change (4 * Z.of_nat 1) with 4 in F. rewrite F.
  change (Rv64.decode (u32 (Asm.EncodeJ 2097148 (gpu_num ZERO) 111)))
    with (Some (Rv64.JAL ZERO (-4))).
  cbn [Rv64.step_instr Rv64.pc Rv64.goto]. rewrite Hpc. reflexivity.
Qed.

Lemma getx_after_jump (s : Rv64.State) (t : Z) (r : GpuRegister) :
  Rv64.getx (Rv64.goto (Rv64.setx s ZERO 4) t) r = Rv64.getx s r.
Proof.
  rewrite getx_goto. destruct (gpu_eqb r ZERO) eqn:E.
  - apply gpu_eqb_eq in E. subst r. reflexivity.
  - apply getx_setx_other. intros ->. rewrite gpu_eqb_refl in E. discriminate.
Qed.

(** C10 as claimed does not hold for the zero register: the constructor of
    the branch checks its operands before it looks for an always-true
    condition, and the request stops the assembler. *)
Lemma Beqc_ZERO_ZERO_aborts :
  Asm.Beqc_label ZERO ZERO Asm.new_label false Asm.new_assembler = None.
Proof. reflexivity. Qed.

(** C10, as the code has it. A Bcond on one register twice: with LT, GT,
    NE or LTU it returns at once, leaving the label and the assembler (no
    instruction, no branch) as they were, whatever the register; with GE,
    LE, EQ or GEU and a register other than ZERO the branch it creates is
    the one Buncond creates, but for the two register fields, and the
    instruction emitted for it is a jump, so that control reaches the label
    whatever lies in between, forwards over two words or backwards over
    one; with GE, LE, EQ or GEU and ZERO a check of the constructor
    fails. *)
Theorem Bcond_same_register (label : Asm.Riscv64Label) (is_bare : bool)
    (cond : Asm.BranchCondition) (r : GpuRegister) (a : Asm.Assembler) :
  (In cond [Asm.kCondLT; Asm.kCondGT; Asm.kCondNE; Asm.kCondLTU] ->
     Asm.Bcond label is_bare cond r r a = Some (label, a))
  /\ (In cond [Asm.kCondGE; Asm.kCondLE; Asm.kCondEQ; Asm.kCondGEU] ->
      r <> ZERO ->
      (forall location target,
          Asm.Branch_cond location target cond r r is_bare
          = option_map (fun b => set_regs b r r)
              (Asm.Branch_uncond location target false is_bare))
      /\ (forall AT w1 w2 s,
             Rv64.pc s = 0 ->
             exists code s',
               Asm.assemble AT (skip_two is_bare cond r r w1 w2) = Some code
               /\ Rv64.run 1 code s = Some s'
               /\ Rv64.pc s' = Asm.buf_Size code
               /\ forall r', Rv64.getx s' r' = Rv64.getx s r')
      /\ (forall AT w1 s,
             Rv64.pc s = 4 ->
             exists code s',
               Asm.assemble AT (loop_back is_bare cond r r w1) = Some code
               /\ Rv64.step code s = Some s'
               /\ Rv64.pc s' = 0
               /\ forall r', Rv64.getx s' r' = Rv64.getx s r'))
  /\ (In cond [Asm.kCondGE; Asm.kCondLE; Asm.kCondEQ; Asm.kCondGEU] ->
      Asm.Bcond label is_bare cond ZERO ZERO a = None).
Proof.
  split; [apply Bcond_nop|]. split; [|apply Bcond_ZERO_aborts].
  intros H Hr. split; [|split].
  - intros location target. apply Branch_cond_same; assumption.
  - intros AT w1 w2 s Hpc.
    exists (words [Asm.EncodeJ 12 (gpu_num ZERO) 0x6F; w1; w2]),
           (Rv64.goto (Rv64.setx s ZERO 4) 12).
    split; [apply skip_two_code; assumption|].
    split; [apply skip_two_runs, Hpc|].
    split; [rewrite words_size; reflexivity|].
    intros r'. apply getx_after_jump.
  - intros AT w1 s Hpc.
    exists (words [w1; Asm.EncodeJ 0x1FFFFC (gpu_num ZERO) 0x6F]),
           (Rv64.goto (Rv64.setx s ZERO 8) 0).
    split; [apply loop_back_code; assumption|].
    split; [apply loop_back_steps, Hpc|].
    split; [reflexivity|].
    intros r'. rewrite getx_goto. destruct (gpu_eqb r' ZERO) eqn:E.
    + apply gpu_eqb_eq in E. subst r'. reflexivity.
    + apply getx_setx_other. intros ->. rewrite gpu_eqb_refl in E. discriminate.
Qed.

Lemma Bcond_same_register_witness :
  Asm.Bcond Asm.new_label false Asm.kCondNE A0 A0 Asm.new_assembler
  = Some (Asm.new_label, Asm.new_assembler)
  /\ exists code s',
       Asm.assemble T4 (skip_two false Asm.kCondEQ A0 A0 0 0) = Some code
       /\ Rv64.run 1 code idle_state = Some s'
       /\ Rv64.pc s' = Asm.buf_Size code
       /\ forall r', Rv64.getx s' r' = Rv64.getx idle_state r'.
Proof.
  split.
  - apply (Bcond_same_register Asm.new_label false Asm.kCondNE A0 Asm.new_assembler).
    cbn [In]. auto.
  - assert (H1 : In Asm.kCondEQ
                   [Asm.kCondGE; Asm.kCondLE; Asm.kCondEQ; Asm.kCondGEU])
      by (cbn [In]; auto).
    assert (H2 : A0 <> ZERO) by discriminate.
    destruct (Bcond_same_register Asm.new_label false Asm.kCondEQ A0
                Asm.new_assembler) as (_ & H & _).
    destruct (H H1 H2) as (_ & R & _).
    exact (R T4 0 0 idle_state eq_refl).
Defined.

(** ** The literal pools *)

(** What stays fixed while labels are bound and literals get their labels:
    everything but the branches and the labels of the literals. *)
Definition same_code (a a' : Asm.Assembler) : Prop :=
  Asm.buffer_ a' = Asm.buffer_ a
  /\ Asm.overwriting_ a' = Asm.overwriting_ a
  /\ Asm.overwrite_location_ a' = Asm.overwrite_location_ a.

Definition same_literals (a a' : Asm.Assembler) : Prop :=
  Asm.literals_ a' = Asm.literals_ a
  /\ Asm.long_literals_ a' = Asm.long_literals_ a.

Lemma GetBranch_state (id : Z) (a a' : Asm.Assembler) (b : Asm.Branch) :
  Asm.GetBranch id a = Some (b, a') -> a' = a.
Proof.
  unfold Asm.GetBranch, Asm.bind, Asm.get, Asm.CHECK, Asm.lift.
  destruct ((0 <=? id) && (id <? Z.of_nat (List.length (Asm.branches_ a))));
    [|discriminate].
  destruct (nth_error (Asm.branches_ a) (Z.to_nat id)); [|discriminate].
  intros H. injection H as _ <-. reflexivity.
Qed.

Lemma Bind_walk_same (fuel : nat) (pc : Z) (l l' : Asm.Riscv64Label)
    (a a' : Asm.Assembler) :
  Asm.Bind_walk fuel pc l a = Some (l', a') ->
  same_code a a' /\ same_literals a a'.
Proof.
  revert l a. induction fuel as [|fuel IH]; intros l a; cbn [Asm.Bind_walk].
  - destruct (Asm.IsLinked l); [discriminate|].
    intros H. injection H as _ <-. repeat split.
  - destruct (Asm.IsLinked l).
    + unfold Asm.bind at 1.
      destruct (Asm.GetBranch (u32 (Asm.Position l)) a) as [[b a1]|] eqn:G;
        [|discriminate].
      apply GetBranch_state in G. subst a1.
      unfold Asm.bind at 1, Asm.SetBranch, Asm.bind at 1, Asm.get at 1, Asm.put.
      unfold Asm.bind at 1, Asm.get at 1.
      intros H. apply IH in H. destruct a; exact H.
    + intros H. injection H as _ <-. repeat split.
Qed.

Lemma Bind_same (l l' : Asm.Riscv64Label) (a a' : Asm.Assembler) :
  Asm.Bind l a = Some (l', a') -> same_code a a' /\ same_literals a a'.
Proof.
  unfold Asm.Bind, Asm.bind at 1, Asm.CHECK.
  destruct (negb (Asm.IsBound l)); [|discriminate].
  unfold Asm.bind at 1, Asm.get at 1. unfold Asm.bind at 1.
  destruct (Asm.Bind_walk _ _ l a) as [[l1 a1]|] eqn:W; [|discriminate].
  apply Bind_walk_same in W.
  unfold Asm.bind at 1, Asm.get at 1.
  destruct (negb (u32 (Z.of_nat (List.length (Asm.branches_ a1))) =? 0)).
  - unfold Asm.bind.
    destruct (Asm.GetBranch _ a1) as [[b a2]|] eqn:G; [|discriminate].
    apply GetBranch_state in G. subst a2.
    intros H. injection H as _ <-. exact W.
  - intros H. injection H as _ <-. exact W.
Qed.

Definition pool_bytes (lits : list Asm.Literal) : list Z :=
  flat_map (fun l => map (fun b => b mod 256)
                         (firstn (Z.to_nat (Asm.size_ l)) (Asm.data_ l))) lits.

Definition pool_ref (long : bool) : nat -> Asm.LiteralRef :=
  if long then Asm.Lit8 else Asm.Lit4.

Definition pool_of (long : bool) (a : Asm.Assembler) : list Asm.Literal :=
  if long then Asm.long_literals_ a else Asm.literals_ a.

Definition other_pool (long : bool) (a : Asm.Assembler) : list Asm.Literal :=
  if long then Asm.literals_ a else Asm.long_literals_ a.

Lemma fold_Emit8 (data buf : list Z) :
  fold_left Asm.buf_Emit8 data buf = buf ++ map (fun b => b mod 256) data.
Proof.
  revert buf. induction data as [|d data IH]; intros buf; cbn [fold_left map].
  - rewrite app_nil_r. reflexivity.
  - rewrite IH. unfold Asm.buf_Emit8. rewrite <- app_assoc. reflexivity.
Qed.

Lemma skipn_list_update {A : Type} (l : list A) (i : nat) (x : A) :
  skipn (S i) (Asm.list_update l i x) = skipn (S i) l.
Proof.
  revert i. induction l as [|h t IH]; intros [|i]; cbn [Asm.list_update skipn];
    try reflexivity.
  apply IH.
Qed.

Lemma length_list_update {A : Type} (l : list A) (i : nat) (x : A) :
  List.length (Asm.list_update l i x) = List.length l.
Proof.
  revert i. induction l as [|h t IH]; intros [|i]; cbn [Asm.list_update List.length];
    try reflexivity.
  rewrite IH. reflexivity.
Qed.

Lemma skipn_nth_error {A : Type} (l : list A) (i : nat) (x : A) :
  nth_error l i = Some x -> skipn i l = x :: skipn (S i) l.
Proof.
  revert i. induction l as [|h t IH]; intros [|i] H; try discriminate.
  - injection H as <-. reflexivity.
  - cbn [skipn]. apply IH, H.
Qed.

Lemma EmitLiteralPool_layout (long : bool) (n i : nat) (a a' : Asm.Assembler) :
  Asm.EmitLiteralPool (pool_ref long) n i a = Some (tt, a') ->
  (i + n = List.length (pool_of long a))%nat ->
  Asm.buffer_ a' = Asm.buffer_ a ++ pool_bytes (skipn i (pool_of long a))
  /\ Asm.overwriting_ a' = Asm.overwriting_ a
  /\ other_pool long a' = other_pool long a
  /\ List.length (pool_of long a') = List.length (pool_of long a).
Proof.
  revert i a. induction n as [|n IH]; intros i a H L; cbn [Asm.EmitLiteralPool] in H.
  - injection H as <-. rewrite skipn_all2 by lia. cbn [pool_bytes flat_map].
    rewrite app_nil_r. repeat split.
  - unfold Asm.bind at 1 in H.
    destruct (Asm.GetLiteral (pool_ref long i) a) as [[lit a0]|] eqn:G; [|discriminate].
    assert (a0 = a /\ nth_error (pool_of long a) i = Some lit) as [-> N].
    { unfold Asm.GetLiteral, Asm.bind, Asm.get, Asm.lift in G.
      destruct long; cbn [pool_ref pool_of] in G |- *;
        (destruct (nth_error _ i) eqn:E; [|discriminate]);
        injection G as <- <-; split; reflexivity. }
    unfold Asm.bind at 1 in H.
    destruct (Asm.Bind (Asm.label_ lit) a) as [[label a1]|] eqn:B; [|discriminate].
    apply Bind_same in B. destruct B as [(B1 & B2 & B3) (B4 & B5)].
    unfold Asm.bind at 1 in H.
    destruct (Asm.SetLiteralLabel (pool_ref long i) label a1) as [[[] a2]|] eqn:S;
      [|discriminate].
    set (lit' := {| Asm.label_ := label; Asm.size_ := Asm.size_ lit;
                    Asm.data_ := Asm.data_ lit |}).
    assert (A2 : Asm.buffer_ a2 = Asm.buffer_ a
                 /\ Asm.overwriting_ a2 = Asm.overwriting_ a
                 /\ other_pool long a2 = other_pool long a
                 /\ pool_of long a2 = Asm.list_update (pool_of long a) i lit').
    { unfold Asm.SetLiteralLabel, Asm.bind at 1 in S.
      assert (G1 : Asm.GetLiteral (pool_ref long i) a1 = Some (lit, a1)).
      { unfold Asm.GetLiteral, Asm.bind, Asm.get, Asm.lift.
        destruct long; cbn [pool_ref pool_of] in *;
          [rewrite B5 | rewrite B4]; rewrite N; reflexivity. }
      rewrite G1 in S. unfold Asm.bind, Asm.get, Asm.put in S.
      destruct long; cbn [pool_ref pool_of other_pool] in *;
        injection S as <-; cbn; rewrite ?B4, ?B5; repeat split; assumption. }
    destruct A2 as (A21 & A22 & A23 & A24).
    unfold Asm.bind at 1, Asm.EmitBytes, Asm.bind at 1, Asm.get, Asm.put in H.
    apply IH in H.
    + cbn [Asm.buffer_ Asm.with_buffer Asm.overwriting_] in H.
      destruct H as (H1 & H2 & H3 & H4).
      assert (P : forall long a b, pool_of long (Asm.with_buffer a b) = pool_of long a)
        by (intros [] ? ?; reflexivity).
      assert (O : forall long a b, other_pool long (Asm.with_buffer a b)
                                   = other_pool long a)
        by (intros [] ? ?; reflexivity).
      rewrite P in H1, H4. rewrite O in H3.
      rewrite H1, fold_Emit8, A21, A24, skipn_list_update.
      rewrite (skipn_nth_error _ _ _ N). cbn [pool_bytes flat_map].
      rewrite <- app_assoc. split; [reflexivity|].
      split; [congruence|]. split; [congruence|].
      rewrite H4, A24. apply length_list_update.
    + assert (P : forall long a b, pool_of long (Asm.with_buffer a b) = pool_of long a)
        by (intros [] ? ?; reflexivity).
      rewrite P, A24, length_list_update. lia.
Qed.

Lemma EmitLiterals_layout (a a' : Asm.Assembler) :
  Asm.overwriting_ a = false ->
  Asm.EmitLiterals a = Some (tt, a') ->
  Asm.buffer_ a'
  = Asm.buffer_ a ++ pool_bytes (Asm.literals_ a)
    ++ match Asm.long_literals_ a with
       | [] => []
       | _ :: _ => Asm.le32 0 ++ pool_bytes (Asm.long_literals_ a)
       end.
Proof.
  intros Ho H. unfold Asm.EmitLiterals, Asm.bind at 1, Asm.get at 1 in H.
  unfold Asm.bind at 1 in H.
  destruct (Asm.EmitLiteralPool Asm.Lit4 _ 0 a) as [[[] a1]|] eqn:P1; [|discriminate].
  apply (EmitLiteralPool_layout false) in P1; [|reflexivity].
  cbn [pool_of other_pool skipn] in P1. destruct P1 as (B1 & O1 & L1 & _).
  destruct (Asm.long_literals_ a) as [|front rest] eqn:LL.
  - cbn [List.length Nat.eqb negb] in H. injection H as <-.
    rewrite B1, app_nil_r. reflexivity.
  - cbn [List.length Nat.eqb negb] in H.
    unfold Asm.bind at 1 in H.
    rewrite (emits_Emit 0 a1) in H by congruence.
    apply (EmitLiteralPool_layout true) in H.
    + cbn [pool_of other_pool skipn Asm.buffer_ Asm.with_buffer] in H.
      destruct H as (B2 & _).
      replace (Asm.long_literals_ (Asm.with_buffer a1 (Asm.buffer_ a1 ++ words [0])))
        with (front :: rest) in B2 by (destruct a1; cbn in *; congruence).
      rewrite B2, B1, <- !app_assoc. reflexivity.
    + cbn [pool_of].
      replace (Asm.long_literals_ (Asm.with_buffer a1 (Asm.buffer_ a1 ++ words [0])))
        with (front :: rest) by (destruct a1; cbn in *; congruence).
      reflexivity.
Qed.

(** *** Binding the labels of the literals succeeds *)

(** The walk of Bind along the references to a label, as a check: every
    reference names a branch that exists, and the walk ends within the
    fuel. Only the buffer and the locations of the branches matter. *)
Fixpoint walk_ok (fuel : nat) (buf locs : list Z) (position : Z) : bool :=
  if 0 <? position then
    match fuel with
    | O => false
    | S fuel' =>
        let id := u32 (position - Asm.kPointerSize) in
        (id <? Z.of_nat (List.length locs))
        && match nth_error locs (Z.to_nat id) with
           | Some loc => walk_ok fuel' buf locs (sext 32 (Asm.buf_Load32 buf loc))
           | None => false
           end
    end
  else true.

Definition locations (a : Asm.Assembler) : list Z :=
  map Asm.location_ (Asm.branches_ a).

Lemma map_list_update {A B : Type} (f : A -> B) (l : list A) (i : nat) (x y : A) :
  nth_error l i = Some y -> f x = f y ->
  map f (Asm.list_update l i x) = map f l.
Proof.
  revert i. induction l as [|h t IH]; intros [|i] H E; cbn [Asm.list_update map];
    try reflexivity.
  - apply Some_inj in H. subst h. rewrite E. reflexivity.
  - f_equal. apply IH; assumption.
Qed.

Lemma Bind_walk_total (fuel : nat) (pc : Z) (l : Asm.Riscv64Label) (a : Asm.Assembler) :
  walk_ok fuel (Asm.buffer_ a) (locations a) (Asm.position_ l) = true ->
  exists l' a',
    Asm.Bind_walk fuel pc l a = Some (l', a') /\ locations a' = locations a.
Proof.
  revert l a. induction fuel as [|fuel IH]; intros l a H;
    cbn [walk_ok Asm.Bind_walk] in *; unfold Asm.IsLinked.
  - destruct (0 <? Asm.position_ l); [discriminate|].
    exists l, a. split; reflexivity.
  - destruct (0 <? Asm.position_ l) eqn:P; [|exists l, a; split; reflexivity].
    apply andb_true_iff in H. destruct H as [H1 H2].
    assert (Pos : Asm.Position l = Asm.position_ l - Asm.kPointerSize).
    { unfold Asm.Position, Asm.IsBound. apply Z.ltb_lt in P.
      destruct (Z.ltb_spec (Asm.position_ l) 0); [lia|reflexivity]. }
    rewrite Pos. set (id := u32 (Asm.position_ l - Asm.kPointerSize)) in *.
    unfold locations in H2. rewrite nth_error_map in H2.
    destruct (nth_error (Asm.branches_ a) (Z.to_nat id)) as [b|] eqn:N;
      [|discriminate].
    cbn [option_map] in H2.
    assert (G : Asm.GetBranch id a = Some (b, a)).
    { unfold Asm.GetBranch, Asm.bind, Asm.get, Asm.CHECK, Asm.lift.
      unfold locations in H1. rewrite length_map in H1. rewrite H1.
      replace (0 <=? id) with true
        by (symmetry; apply Z.leb_le; apply u32_range).
      cbn [andb]. rewrite N. reflexivity. }
    unfold Asm.bind at 1. rewrite G.
    unfold Asm.bind at 1, Asm.SetBranch, Asm.bind at 1, Asm.get at 1, Asm.put.
    unfold Asm.bind at 1, Asm.get at 1.
    set (a1 := Asm.with_branches a
                 (Asm.list_update (Asm.branches_ a) (Z.to_nat id) (Asm.Resolve b pc))).
    assert (L1 : locations a1 = locations a).
    { unfold locations, a1. destruct a; cbn [Asm.branches_ Asm.with_branches].
      apply (map_list_update Asm.location_ _ _ _ b); [exact N|reflexivity]. }
    assert (B1 : Asm.buffer_ a1 = Asm.buffer_ a) by (destruct a; reflexivity).
    destruct (IH (Asm.set_position l (sext 32 (Asm.buf_Load32 (Asm.buffer_ a1)
                                                  (Asm.location_ b)))) a1)
      as (l' & a' & W & L').
    + rewrite L1, B1. exact H2.
    + exists l', a'. split; [exact W|congruence].
Qed.

Lemma Bind_total (l : Asm.Riscv64Label) (a : Asm.Assembler) :
  Asm.IsBound l = false ->
  walk_ok (S (List.length (Asm.branches_ a))) (Asm.buffer_ a) (locations a)
          (Asm.position_ l) = true ->
  Z.of_nat (List.length (Asm.branches_ a)) < 2 ^ 32 ->
  exists l' a',
    Asm.Bind l a = Some (l', a') /\ locations a' = locations a.
Proof.
  intros B W L. unfold Asm.Bind, Asm.bind at 1, Asm.CHECK. rewrite B. cbn [negb].
  unfold Asm.bind at 1, Asm.get at 1. unfold Asm.bind at 1.
  destruct (Bind_walk_total _ (u32 (Asm.buf_Size (Asm.buffer_ a))) l a W)
    as (l1 & a1 & W1 & L1).
  rewrite W1. unfold Asm.bind at 1, Asm.get at 1.
  assert (Len : List.length (Asm.branches_ a1) = List.length (Asm.branches_ a)).
  { unfold locations in L1. apply (f_equal (@List.length Z)) in L1.
    rewrite !length_map in L1. exact L1. }
  rewrite Len, u32_small by lia.
  destruct (Z.of_nat (List.length (Asm.branches_ a)) =? 0) eqn:E; cbn [negb].
  - eexists _, a1. split; [reflexivity|exact L1].
  - apply Z.eqb_neq in E. unfold Asm.bind.
    assert (N : exists b, nth_error (Asm.branches_ a1)
                  (Z.to_nat (Z.of_nat (List.length (Asm.branches_ a)) - 1)) = Some b).
    { destruct (nth_error (Asm.branches_ a1)
                  (Z.to_nat (Z.of_nat (List.length (Asm.branches_ a)) - 1))) eqn:N;
        [eauto|]. apply nth_error_None in N. lia. }
    destruct N as [b N].
    assert (G : Asm.GetBranch (Z.of_nat (List.length (Asm.branches_ a)) - 1) a1
                = Some (b, a1)).
    { unfold Asm.GetBranch, Asm.bind, Asm.get, Asm.CHECK, Asm.lift. rewrite Len.
      replace ((0 <=? Z.of_nat (List.length (Asm.branches_ a)) - 1)
               && (Z.of_nat (List.length (Asm.branches_ a)) - 1
                   <? Z.of_nat (List.length (Asm.branches_ a)))) with true
        by (symmetry; apply andb_true_iff; split;
            [apply Z.leb_le | apply Z.ltb_lt]; lia).
      rewrite N. reflexivity. }
    rewrite G. eexists _, a1. split; [reflexivity|exact L1].
Qed.

Definition in_buffer (buf locs : list Z) : Prop :=
  Forall (fun loc => 0 <= loc /\ loc + 4 <= Asm.buf_Size buf) locs.

Lemma byte_at_app (buf extra : list Z) (p : Z) :
  p < Asm.buf_Size buf -> Asm.byte_at (buf ++ extra) p = Asm.byte_at buf p.
Proof.
  unfold Asm.buf_Size, Asm.byte_at. intros H.
  destruct (Z.ltb_spec p 0); [reflexivity|]. apply app_nth1. lia.
Qed.

Lemma walk_ok_app (fuel : nat) (buf extra locs : list Z) (p : Z) :
  in_buffer buf locs ->
  walk_ok fuel (buf ++ extra) locs p = walk_ok fuel buf locs p.
Proof.
  intros HB. revert p. induction fuel as [|fuel IH]; intros p; cbn [walk_ok];
    [reflexivity|].
  destruct (0 <? p); [|reflexivity]. f_equal.
  destruct (nth_error locs (Z.to_nat (u32 (p - Asm.kPointerSize)))) as [loc|] eqn:N;
    [|reflexivity].
  apply nth_error_In in N.
  destruct (proj1 (Forall_forall _ _) HB loc N) as [H0 H1].
  rewrite (Load32_other buf (buf ++ extra))
    by (intros q Hq; apply byte_at_app; lia).
  apply IH.
Qed.

Lemma in_buffer_app (buf extra locs : list Z) :
  in_buffer buf locs -> in_buffer (buf ++ extra) locs.
Proof.
  unfold in_buffer, Asm.buf_Size. intros H.
  apply Forall_forall. intros loc Hin.
  destruct (proj1 (Forall_forall _ _) H loc Hin) as [H0 H1].
  rewrite length_app. lia.
Qed.

(** A literal whose label can be bound. *)
Definition bindable (nb : nat) (buf locs : list Z) (lit : Asm.Literal) : Prop :=
  Asm.IsBound (Asm.label_ lit) = false
  /\ walk_ok (S nb) buf locs (Asm.position_ (Asm.label_ lit)) = true.

Lemma nth_error_list_update_other {A : Type} (l : list A) (i j : nat) (x : A) :
  i <> j -> nth_error (Asm.list_update l i x) j = nth_error l j.
Proof.
  revert i j. induction l as [|h t IH]; intros [|i] [|j] H;
    cbn [Asm.list_update nth_error]; try reflexivity; try lia.
  apply IH. lia.
Qed.

Lemma locations_length (a a' : Asm.Assembler) :
  locations a' = locations a ->
  List.length (Asm.branches_ a') = List.length (Asm.branches_ a).
Proof.
  unfold locations. intros H. apply (f_equal (@List.length Z)) in H.
  rewrite !length_map in H. exact H.
Qed.

Lemma EmitLiteralPool_total (long : bool) (n i : nat) (a : Asm.Assembler) :
  (i + n = List.length (pool_of long a))%nat ->
  (forall j lit, (i <= j)%nat -> nth_error (pool_of long a) j = Some lit ->
     bindable (List.length (Asm.branches_ a)) (Asm.buffer_ a) (locations a) lit) ->
  in_buffer (Asm.buffer_ a) (locations a) ->
  Z.of_nat (List.length (Asm.branches_ a)) < 2 ^ 32 ->
  exists a',
    Asm.EmitLiteralPool (pool_ref long) n i a = Some (tt, a')
    /\ locations a' = locations a.
Proof.
  revert i a. induction n as [|n IH]; intros i a L HB HI HN; cbn [Asm.EmitLiteralPool].
  - exists a. split; reflexivity.
  - destruct (nth_error (pool_of long a) i) as [lit|] eqn:N;
      [|apply nth_error_None in N; lia].
    assert (G : forall a0, pool_of long a0 = pool_of long a ->
                Asm.GetLiteral (pool_ref long i) a0 = Some (lit, a0)).
    { intros a0 E. unfold Asm.GetLiteral, Asm.bind, Asm.get, Asm.lift.
      destruct long; cbn [pool_ref pool_of] in *; rewrite E, N; reflexivity. }
    unfold Asm.bind at 1. rewrite (G a eq_refl).
    destruct (HB i lit (le_n i) N) as [B W].
    destruct (Bind_total (Asm.label_ lit) a B W HN) as (label & a1 & Bd & L1).
    unfold Asm.bind at 1. rewrite Bd.
    destruct (Bind_same _ _ _ _ Bd) as [(S1 & S2 & S3) (S4 & S5)].
    assert (P1 : pool_of long a1 = pool_of long a) by (destruct long; assumption).
    unfold Asm.bind at 1, Asm.SetLiteralLabel, Asm.bind at 1. rewrite (G a1 P1).
    unfold Asm.bind at 1, Asm.get at 1.
    set (lit' := {| Asm.label_ := label; Asm.size_ := Asm.size_ lit;
                    Asm.data_ := Asm.data_ lit |}).
    set (a2 := if long
               then Asm.with_literals a1 (Asm.literals_ a1)
                      (Asm.list_update (Asm.long_literals_ a1) i lit')
               else Asm.with_literals a1
                      (Asm.list_update (Asm.literals_ a1) i lit')
                      (Asm.long_literals_ a1)).
    assert (E2 : match pool_ref long i with
                 | Asm.Lit4 i0 =>
                     Asm.put (Asm.with_literals a1
                                (Asm.list_update (Asm.literals_ a1) i0 lit')
                                (Asm.long_literals_ a1))
                 | Asm.Lit8 i0 =>
                     Asm.put (Asm.with_literals a1 (Asm.literals_ a1)
                                (Asm.list_update (Asm.long_literals_ a1) i0 lit'))
                 end a1 = Some (tt, a2))
      by (unfold a2; destruct long; reflexivity).
    rewrite E2.
    unfold Asm.bind at 1, Asm.EmitBytes, Asm.bind at 1, Asm.get at 1, Asm.put.
    set (a3 := Asm.with_buffer a2 _).
    assert (F3 : locations a3 = locations a
                 /\ pool_of long a3 = Asm.list_update (pool_of long a) i lit'
                 /\ exists extra, Asm.buffer_ a3 = Asm.buffer_ a ++ extra).
    { unfold a3, a2. rewrite <- L1, <- S1. unfold locations.
      destruct long; cbn [pool_of] in *; rewrite <- ?S4, <- ?S5;
        (split; [reflexivity|split; [reflexivity|]]);
        rewrite fold_Emit8; eexists; reflexivity. }
    destruct F3 as (L3 & P3 & extra & B3).
    destruct (IH (S i) a3) as (a' & R & L').
    + rewrite P3, length_list_update. lia.
    + intros j lit2 Hj Hn. rewrite P3, nth_error_list_update_other in Hn by lia.
      destruct (HB j lit2 ltac:(lia) Hn) as [B2 W2].
      split; [exact B2|].
      rewrite (locations_length _ _ L3), L3, B3, walk_ok_app by exact HI. exact W2.
    + rewrite L3, B3. apply in_buffer_app, HI.
    + rewrite (locations_length _ _ L3). exact HN.
    + exists a'. split; [exact R|congruence].
Qed.

(** What EmitLiterals needs in order to return: append mode, every
    recorded branch inside the buffer, and every literal label unbound with
    a chain of uses that ends. *)
Definition pools_bindable (a : Asm.Assembler) : Prop :=
  Asm.overwriting_ a = false
  /\ Z.of_nat (List.length (Asm.branches_ a)) < 2 ^ 32
  /\ in_buffer (Asm.buffer_ a) (locations a)
  /\ Forall (bindable (List.length (Asm.branches_ a)) (Asm.buffer_ a) (locations a))
            (Asm.literals_ a ++ Asm.long_literals_ a).

Lemma EmitLiterals_total (a : Asm.Assembler) :
  pools_bindable a -> exists a', Asm.EmitLiterals a = Some (tt, a').
Proof.
  intros (Ho & HN & HI & HB).
  apply Forall_app in HB. destruct HB as [HB4 HB8].
  unfold Asm.EmitLiterals, Asm.bind at 1, Asm.get at 1.
  destruct (EmitLiteralPool_total false (List.length (Asm.literals_ a)) 0 a)
    as (a1 & P1 & L1); try assumption; [reflexivity| |].
  { intros j lit _ Hn. apply nth_error_In in Hn.
    exact (proj1 (Forall_forall _ _) HB4 lit Hn). }
  cbn [pool_ref] in P1. unfold Asm.bind at 1. rewrite P1.
  destruct (EmitLiteralPool_layout false _ _ _ _ P1 eq_refl) as (B1 & O1 & T1 & _).
  cbn [other_pool] in T1.
  destruct (negb (List.length (Asm.long_literals_ a) =? 0)%nat);
    [|exists a1; reflexivity].
  unfold Asm.bind at 1. rewrite (emits_Emit 0 a1) by congruence.
  set (a2 := Asm.with_buffer a1 _).
  assert (L2 : locations a2 = locations a) by (rewrite <- L1; reflexivity).
  assert (B2 : Asm.buffer_ a2
               = (Asm.buffer_ a ++ pool_bytes (skipn 0 (pool_of false a))) ++ words [0])
    by (unfold a2; cbn [Asm.buffer_ Asm.with_buffer]; rewrite B1; reflexivity).
  assert (T2 : pool_of true a2 = Asm.long_literals_ a)
    by (rewrite <- T1; reflexivity).
  destruct (EmitLiteralPool_total true (List.length (Asm.long_literals_ a)) 0 a2)
    as (a' & P2 & _).
  - rewrite T2. reflexivity.
  - intros j lit _ Hn. rewrite T2 in Hn. apply nth_error_In in Hn.
    destruct (proj1 (Forall_forall _ _) HB8 lit Hn) as [Bd W].
    split; [exact Bd|].
    rewrite (locations_length _ _ L2), L2, B2.
    rewrite !walk_ok_app by (try apply in_buffer_app; exact HI). exact W.
  - rewrite L2, B2. apply in_buffer_app, in_buffer_app, HI.
  - rewrite (locations_length _ _ L2). exact HN.
  - exists a'. exact P2.
Qed.


(** The same conditions as a check that can be run on a state. *)
Definition can_emit_literals (a : Asm.Assembler) : bool :=
  let nb := List.length (Asm.branches_ a) in
  negb (Asm.overwriting_ a)
  && (Z.of_nat nb <? 2 ^ 32)
  && forallb (fun loc => (0 <=? loc) && (loc + 4 <=? Asm.buf_Size (Asm.buffer_ a)))
             (locations a)
  && forallb (fun lit =>
                negb (Asm.IsBound (Asm.label_ lit))
                && walk_ok (S nb) (Asm.buffer_ a) (locations a)
                     (Asm.position_ (Asm.label_ lit)))
             (Asm.literals_ a ++ Asm.long_literals_ a).

Lemma can_emit_literals_spec (a : Asm.Assembler) :
  can_emit_literals a = true -> pools_bindable a.
Proof.
  unfold can_emit_literals, pools_bindable, in_buffer, bindable. cbv zeta.
  rewrite !andb_true_iff, negb_true_iff, Z.ltb_lt, !forallb_forall.
  intros [[[Ho HN] HI] HB]. split; [exact Ho|]. split; [exact HN|].
  split; apply Forall_forall; intros x Hx.
  - specialize (HI x Hx). apply andb_true_iff in HI. lia.
  - specialize (HB x Hx). apply andb_true_iff in HB.
    rewrite negb_true_iff in HB. exact HB.
Qed.

(** *** Aligning the pool of 64-bit literals *)

Definition lower_targets (first_literal_location : Z) (bs : list Asm.Branch)
  : list Asm.Branch :=
  map (fun branch =>
         if first_literal_location <=? Asm.target_ branch
         then Asm.Resolve branch (u32 (Asm.target_ branch - 4)) else branch) bs.

Definition lower_labels (lits : list Asm.Literal) : list Asm.Literal :=
  map (fun lit =>
         {| Asm.label_ := Asm.set_position (Asm.label_ lit)
                            (Asm.position_ (Asm.label_ lit) + 4);
            Asm.size_ := Asm.size_ lit; Asm.data_ := Asm.data_ lit |}) lits.

Lemma move_pool_down (buf : list Z) (loc size : Z) :
  4 <= loc -> 0 <= size -> loc + size = Asm.buf_Size buf ->
  Asm.buf_Resize (Asm.buf_Move buf (loc - 4) loc size) (Asm.buf_Size buf - 4)
  = firstn (Z.to_nat (loc - 4)) buf ++ skipn (Z.to_nat loc) buf.
Proof.
  intros H4 H0 HS. unfold Asm.buf_Size in *. unfold Asm.buf_Move, Asm.buf_Resize.
  assert (E1 : firstn (Z.to_nat size) (skipn (Z.to_nat loc) buf)
               = skipn (Z.to_nat loc) buf).
  { apply firstn_all2. rewrite length_skipn. lia. }
  rewrite E1.
  set (l := firstn (Z.to_nat (loc - 4)) buf ++ skipn (Z.to_nat loc) buf).
  assert (Ll : List.length l = Z.to_nat (Z.of_nat (List.length buf) - 4)).
  { unfold l. rewrite length_app, length_firstn, length_skipn. lia. }
  rewrite app_assoc. fold l.
  rewrite firstn_app, (firstn_all2 l) by lia.
  rewrite length_app, length_skipn.
  replace (Z.to_nat (Z.of_nat (List.length buf) - 4) - List.length l)%nat with 0%nat
    by lia.
  cbn [firstn]. rewrite app_nil_r.
  replace (Z.to_nat (Z.of_nat (List.length buf) - 4)
           - (List.length l + (List.length buf - Z.to_nat (loc - 4 + size))))%nat
    with 0%nat by lia.
  cbn [repeat]. rewrite app_nil_r. reflexivity.
Qed.

Lemma GetLabelLocation_state (l : Asm.Riscv64Label) (a a' : Asm.Assembler) (loc : Z) :
  Asm.GetLabelLocation l a = Some (loc, a') -> a' = a.
Proof.
  unfold Asm.GetLabelLocation, Asm.bind at 1, Asm.CHECK.
  destruct (Asm.IsBound l); [|discriminate].
  destruct (negb (Asm.prev_branch_id_plus_one_ l =? 0)).
  - unfold Asm.bind.
    destruct (Asm.GetBranch _ a) as [[b a1]|] eqn:G; [|discriminate].
    apply GetBranch_state in G. subst a1.
    intros H. injection H as _ <-. reflexivity.
  - intros H. injection H as _ <-. reflexivity.
Qed.

Definition aligned_state (a : Asm.Assembler) (loc : Z) : Asm.Assembler :=
  Asm.with_literals
    (Asm.with_branches
       (Asm.with_buffer a (firstn (Z.to_nat (loc - 4)) (Asm.buffer_ a)
                           ++ skipn (Z.to_nat loc) (Asm.buffer_ a)))
       (lower_targets loc (Asm.branches_ a)))
    (Asm.literals_ a) (lower_labels (Asm.long_literals_ a)).

Lemma AlignLongLiterals_spec (a a0 : Asm.Assembler) (front : Asm.Literal)
    (rest : list Asm.Literal) (loc : Z) :
  Asm.long_literals_ a = front :: rest ->
  Asm.GetLabelLocation (Asm.label_ front) a = Some (loc, a0) ->
  4 <= loc ->
  loc + Z.of_nat (List.length (front :: rest)) * 8 = Asm.buf_Size (Asm.buffer_ a) ->
  Asm.AlignLongLiterals a
  = Some (tt, if loc mod 8 =? 0 then a else aligned_state a loc).
Proof.
  intros HL HG H4 HS.
  assert (a0 = a) by (apply GetLabelLocation_state in HG; exact HG). subst a0.
  unfold Asm.AlignLongLiterals, Asm.bind at 1, Asm.get at 1.
  rewrite HL. unfold Asm.bind at 1. rewrite HG.
  unfold Asm.bind at 1, Asm.CHECK. rewrite (proj2 (Z.eqb_eq _ _) HS).
  destruct (loc mod 8 =? 0); cbn [negb]; [reflexivity|].
  unfold Asm.put. rewrite move_pool_down; [|lia|lia|exact HS].
  unfold aligned_state, lower_targets, lower_labels. rewrite HL. reflexivity.
Qed.

Lemma u32_sub4 (p e : Z) : u32 (u32 (p - 4) + e) = u32 (u32 (u32 p + e) - 4).
Proof.
  unfold u32. change (2 ^ 32) with 4294967296.
  Z.div_mod_to_equations. lia.
Qed.

Lemma lowered_label_location (a : Asm.Assembler) (loc x : Z) (l : Asm.Riscv64Label) :
  Asm.GetLabelLocation l a = Some (x, a) ->
  Asm.position_ l + 4 < 0 ->
  Asm.GetLabelLocation (Asm.set_position l (Asm.position_ l + 4)) (aligned_state a loc)
  = Some (u32 (x - 4), aligned_state a loc).
Proof.
  unfold Asm.GetLabelLocation, Asm.bind at 1 3, Asm.CHECK.
  intros H Hp.
  assert (B : Asm.IsBound l = true) by (unfold Asm.IsBound; apply Z.ltb_lt; lia).
  assert (B' : Asm.IsBound (Asm.set_position l (Asm.position_ l + 4)) = true)
    by (unfold Asm.IsBound; cbn; apply Z.ltb_lt; lia).
  rewrite B in H. rewrite B'.
  assert (P : Asm.Position (Asm.set_position l (Asm.position_ l + 4))
              = Asm.Position l - 4).
  { unfold Asm.Position. rewrite B, B'. cbn. lia. }
  rewrite P. cbn [Asm.prev_branch_id_plus_one_ Asm.set_position].
  destruct (negb (Asm.prev_branch_id_plus_one_ l =? 0)).
  - unfold Asm.bind in *. unfold Asm.GetBranch, Asm.bind, Asm.get, Asm.CHECK, Asm.lift in *.
    assert (HB : Asm.branches_ (aligned_state a loc)
                 = lower_targets loc (Asm.branches_ a)) by reflexivity.
    rewrite !HB. unfold lower_targets. rewrite length_map, nth_error_map.
    destruct ((0 <=? Asm.prev_branch_id_plus_one_ l - 1)
              && (Asm.prev_branch_id_plus_one_ l - 1
                  <? Z.of_nat (List.length (Asm.branches_ a)))); [|discriminate].
    destruct (nth_error (Asm.branches_ a) _) as [b|]; [|discriminate].
    cbn [option_map]. unfold Asm.ret in *. injection H as <-.
    f_equal. f_equal.
    replace (Asm.GetEndLocation
               (if loc <=? Asm.target_ b
                then Asm.Resolve b (u32 (Asm.target_ b - 4)) else b))
      with (Asm.GetEndLocation b) by (destruct (loc <=? Asm.target_ b); reflexivity).
    apply u32_sub4.
  - unfold Asm.ret in *. injection H as <-. f_equal. f_equal.
    unfold u32. change (2 ^ 32) with 4294967296. Z.div_mod_to_equations. lia.
Qed.

Lemma aligned_bytes (buf : list Z) (loc : Z) :
  4 <= loc <= Asm.buf_Size buf ->
  let buf' := firstn (Z.to_nat (loc - 4)) buf ++ skipn (Z.to_nat loc) buf in
  Asm.buf_Size buf' = Asm.buf_Size buf - 4
  /\ (forall p, 0 <= p < loc - 4 -> Asm.byte_at buf' p = Asm.byte_at buf p)
  /\ (forall p, loc <= p < Asm.buf_Size buf ->
        Asm.byte_at buf' (p - 4) = Asm.byte_at buf p).
Proof.
  intros H buf'. unfold Asm.buf_Size in *.
  assert (LF : List.length (firstn (Z.to_nat (loc - 4)) buf) = Z.to_nat (loc - 4))
    by (rewrite length_firstn; lia).
  split; [|split].
  - unfold buf'. rewrite length_app, LF, length_skipn. lia.
  - intros p Hp. unfold Asm.byte_at, buf'.
    destruct (Z.ltb_spec p 0); [lia|].
    rewrite app_nth1 by lia.
    rewrite <- (firstn_skipn (Z.to_nat (loc - 4)) buf) at 2.
    rewrite app_nth1 by lia. reflexivity.
  - intros p Hp. unfold Asm.byte_at, buf'.
    destruct (Z.ltb_spec (p - 4) 0); [lia|]. destruct (Z.ltb_spec p 0); [lia|].
    rewrite app_nth2 by lia. rewrite LF.
    rewrite <- (firstn_skipn (Z.to_nat loc) buf) at 2.
    rewrite app_nth2 by (rewrite length_firstn; lia).
    rewrite length_firstn. f_equal. lia.
Qed.

(** The steps of the literal pools. EmitLiterals lays the literals out
    after the code: the 4-byte literals, then, when there are 8-byte
    literals, one reserved word of 4 bytes and the 8-byte literals; and it
    does return on a state in append mode whose branches lie in the buffer
    and whose literal labels are unbound with chains of uses that end. At
    the end of PromoteBranches, with the 8-byte pool at the end of the
    buffer and starting at loc: if loc is a multiple of 8 nothing changes;
    otherwise the pool is moved down by 4 bytes over the reserved word,
    the buffer is 4 bytes shorter, every branch with a target at or beyond
    loc has its target reduced by 4, and the labels of the 8-byte literals
    follow, so that each literal is found 4 bytes lower. *)
Lemma literal_pool_steps :
  (forall a a',
      Asm.overwriting_ a = false ->
      Asm.EmitLiterals a = Some (tt, a') ->
      Asm.buffer_ a'
      = Asm.buffer_ a ++ pool_bytes (Asm.literals_ a)
        ++ match Asm.long_literals_ a with
           | [] => []
           | _ :: _ => Asm.le32 0 ++ pool_bytes (Asm.long_literals_ a)
           end)
  /\ (forall a,
         can_emit_literals a = true ->
         exists a', Asm.EmitLiterals a = Some (tt, a'))
  /\ (forall a front loc,
         hd_error (Asm.long_literals_ a) = Some front ->
         Asm.GetLabelLocation (Asm.label_ front) a = Some (loc, a) ->
         4 <= loc ->
         loc + Z.of_nat (List.length (Asm.long_literals_ a)) * 8
         = Asm.buf_Size (Asm.buffer_ a) ->
         Asm.AlignLongLiterals a
         = Some (tt, if loc mod 8 =? 0 then a else aligned_state a loc)
         /\ Asm.buf_Size (Asm.buffer_ (aligned_state a loc))
            = Asm.buf_Size (Asm.buffer_ a) - 4
         /\ (forall p, 0 <= p < loc - 4 ->
               Asm.byte_at (Asm.buffer_ (aligned_state a loc)) p
               = Asm.byte_at (Asm.buffer_ a) p)
         /\ (forall p, loc <= p < Asm.buf_Size (Asm.buffer_ a) ->
               Asm.byte_at (Asm.buffer_ (aligned_state a loc)) (p - 4)
               = Asm.byte_at (Asm.buffer_ a) p)
         /\ Asm.branches_ (aligned_state a loc)
            = map (fun branch =>
                     if loc <=? Asm.target_ branch
                     then Asm.Resolve branch (u32 (Asm.target_ branch - 4))
                     else branch) (Asm.branches_ a)
         /\ (forall lit x,
               In lit (Asm.long_literals_ a) ->
               Asm.GetLabelLocation (Asm.label_ lit) a = Some (x, a) ->
               Asm.position_ (Asm.label_ lit) + 4 < 0 ->
               exists lit',
                 In lit' (Asm.long_literals_ (aligned_state a loc))
                 /\ Asm.data_ lit' = Asm.data_ lit
                 /\ Asm.GetLabelLocation (Asm.label_ lit') (aligned_state a loc)
                    = Some (u32 (x - 4), aligned_state a loc))).
Proof.
  split; [exact EmitLiterals_layout|].
  split; [intros a H; apply EmitLiterals_total, can_emit_literals_spec, H|].
  intros a front loc HF HG H4 HS.
  destruct (Asm.long_literals_ a) as [|front' rest] eqn:HL; [discriminate|].
  injection HF as ->.
  split; [apply (AlignLongLiterals_spec a a front rest); assumption|].
  assert (R : 4 <= loc <= Asm.buf_Size (Asm.buffer_ a)) by lia.
  destruct (aligned_bytes (Asm.buffer_ a) loc R) as (S1 & S2 & S3).
  split; [exact S1|]. split; [exact S2|]. split; [exact S3|].
  split; [reflexivity|].
  intros lit x Hin Hx Hp.
  exists {| Asm.label_ := Asm.set_position (Asm.label_ lit)
                            (Asm.position_ (Asm.label_ lit) + 4);
            Asm.size_ := Asm.size_ lit; Asm.data_ := Asm.data_ lit |}.
  split; [|split; [reflexivity|]].
  - change (Asm.long_literals_ (aligned_state a loc))
      with (lower_labels (Asm.long_literals_ a)).
    rewrite HL. unfold lower_labels.
    apply in_map_iff. exists lit. split; [reflexivity|exact Hin].
  - apply lowered_label_location; assumption.
Qed.

(** The state a method body leaves, from the new assembler. *)
Definition state_after (m : Asm.M unit) : Asm.Assembler :=
  match m Asm.new_assembler with
  | Some (_, a) => a
  | None => Asm.new_assembler
  end.


(** ** Promotion of branches *)

(** The distance as GetOffsetSizeNeeded measures it: 128 bytes further
    from zero. *)
Definition biased (distance : Z) : Z :=
  distance + (if 0 <=? distance then Asm.kMaxBranchSize else - Asm.kMaxBranchSize).

Definition distance_of (b : Asm.Branch) : Z := Asm.target_ b - Asm.location_ b.

Lemma IsInt_13_21 (v : Z) : IsInt 13 v = true -> IsInt 21 v = true.
Proof. rewrite !IsInt_range. cbn. lia. Qed.

Lemma needed_size (b : Asm.Branch) :
  Asm.IsResolved b = true -> Asm.IsLong b = false ->
  (Asm.GetOffsetSize b <? Asm.GetOffsetSizeNeeded (Asm.location_ b) (Asm.target_ b))
  = negb (IsInt (Asm.GetOffsetSize b) (biased (distance_of b))).
Proof.
  unfold Asm.IsResolved, Asm.GetOffsetSizeNeeded, Asm.GetOffsetSize, Asm.IsLong.
  intros R L. apply negb_true_iff in R. rewrite R.
  fold (distance_of b). fold (biased (distance_of b)).
  destruct (IsInt Asm.kOffset13 (biased (distance_of b))) eqn:I13.
  - pose proof (IsInt_13_21 _ I13) as I21.
    destruct (Asm.type_ b); try discriminate; cbn [Asm.branch_info_ Asm.offset_size];
      rewrite ?I13; unfold Asm.kOffset21 in *; rewrite ?I21; reflexivity.
  - destruct (IsInt Asm.kOffset21 (biased (distance_of b))) eqn:I21;
      destruct (Asm.type_ b); try discriminate; cbn [Asm.branch_info_ Asm.offset_size];
      rewrite ?I13, ?I21; reflexivity.
Qed.

(** Under the default threshold a short branch stays as it is exactly when
    its biased distance fits its class. *)
Lemma PromoteIfNeeded_fits (b : Asm.Branch) :
  Asm.IsResolved b = true -> Asm.IsLong b = false ->
  IsInt (Asm.GetOffsetSize b) (biased (distance_of b)) = true ->
  Asm.PromoteIfNeeded b Asm.kDefaultMaxShortDistance = Some (0, b).
Proof.
  intros R L F. unfold Asm.PromoteIfNeeded.
  rewrite L, R, (needed_size b R L), F. reflexivity.
Qed.

Lemma PromoteIfNeeded_long (b : Asm.Branch) :
  Asm.IsLong b = true ->
  Asm.PromoteIfNeeded b Asm.kDefaultMaxShortDistance = Some (0, b).
Proof. intros L. unfold Asm.PromoteIfNeeded. rewrite L. reflexivity. Qed.

Lemma sizes_small (b : Asm.Branch) :
  0 < Asm.GetSize b <= 12 /\ 0 < Asm.GetOldSize b <= 12.
Proof.
  unfold Asm.GetSize, Asm.GetOldSize, Asm.GetLength, Asm.GetOldLength.
  split; [destruct (Asm.type_ b) | destruct (Asm.old_type_ b)]; cbn; lia.
Qed.

(** What a call of PromoteIfNeeded can return. *)
Lemma PromoteIfNeeded_cases (b b' : Asm.Branch) (delta : Z) :
  Asm.PromoteIfNeeded b Asm.kDefaultMaxShortDistance = Some (delta, b') ->
  (delta = 0 /\ b' = b
   /\ (Asm.IsResolved b = true -> Asm.IsLong b = false ->
       IsInt (Asm.GetOffsetSize b) (biased (distance_of b)) = true))
  \/ (0 < delta < 2 ^ 32 /\ Asm.IsLong b = false /\ Asm.IsLong b' = true
      /\ Asm.IsResolved b = true
      /\ IsInt (Asm.GetOffsetSize b) (biased (distance_of b)) = false
      /\ Asm.location_ b' = Asm.location_ b /\ Asm.target_ b' = Asm.target_ b
      /\ delta = Asm.GetSize b' - Asm.GetOldSize b').
Proof.
  unfold Asm.PromoteIfNeeded.
  destruct (Asm.IsLong b) eqn:L; cbn [orb].
  - intros H. injection H as <- <-. left. repeat split. discriminate.
  - destruct (Asm.IsResolved b) eqn:R; cbn [negb].
    + rewrite (needed_size b R L).
      destruct (IsInt (Asm.GetOffsetSize b) (biased (distance_of b))) eqn:F; cbn [negb].
      * change (negb (Asm.kDefaultMaxShortDistance =? Asm.kDefaultMaxShortDistance))
          with false. cbn [andb].
        intros H. injection H as <- <-. left. repeat split.
      * destruct (Asm.PromoteToLong b) as [b1|] eqn:P; [|discriminate].
        destruct (Asm.GetOldSize b1 <? Asm.GetSize b1) eqn:S; [|discriminate].
        intros H. injection H as <- <-. right.
        apply Z.ltb_lt in S. destruct (sizes_small b1) as [S1 S2].
        rewrite u32_small by lia.
        unfold Asm.PromoteToLong in P.
        destruct (Asm.IsBare b); [discriminate|].
        destruct (Asm.IsLong (match Asm.type_ b with
                              | Asm.kUncondBranch => _ | Asm.kCondBranch => _
                              | Asm.kCall => _ | _ => b end)) eqn:L1; [|discriminate].
        injection P as <-.
        split; [lia|]. split; [reflexivity|]. split; [exact L1|].
        split; [reflexivity|]. split; [reflexivity|].
        destruct (Asm.type_ b); repeat split; reflexivity.
    + intros H. injection H as <- <-. left. repeat split. discriminate.
Qed.

(** *** The loop reaches a fixed point *)

Definition is_short (b : Asm.Branch) : bool := negb (Asm.IsLong b).

Lemma short_count_cons (b : Asm.Branch) (bs : list Asm.Branch) :
  Asm.short_count (b :: bs)
  = ((if is_short b then 1 else 0) + Asm.short_count bs)%nat.
Proof.
  unfold Asm.short_count, is_short. cbn [filter].
  destruct (negb (Asm.IsLong b)); reflexivity.
Qed.

Lemma list_update_same {A : Type} (l : list A) (i : nat) (x : A) :
  nth_error l i = Some x -> Asm.list_update l i x = l.
Proof.
  revert i. induction l as [|h t IH]; intros [|i] H; cbn [Asm.list_update];
    try reflexivity.
  - injection H as ->. reflexivity.
  - f_equal. apply IH, H.
Qed.

Lemma short_count_update (bs : list Asm.Branch) (i : nat) (b b' : Asm.Branch) :
  nth_error bs i = Some b ->
  (Asm.short_count (Asm.list_update bs i b') + (if is_short b then 1 else 0)
   = Asm.short_count bs + (if is_short b' then 1 else 0))%nat.
Proof.
  revert i. induction bs as [|h t IH]; intros [|i] H; try discriminate;
    cbn [Asm.list_update]; rewrite !short_count_cons.
  - injection H as ->. lia.
  - specialize (IH i H). lia.
Qed.

Lemma short_count_Relocate (bs : list Asm.Branch) (e d : Z) :
  Asm.short_count (map (fun b => Asm.Relocate b e d) bs) = Asm.short_count bs.
Proof.
  induction bs as [|h t IH]; [reflexivity|].
  cbn [map]. rewrite !short_count_cons, IH. reflexivity.
Qed.

Lemma PromotePass_measure (todo i : nat) (bs bs' : list Asm.Branch) (c c' : bool) :
  Asm.PromotePass todo i bs c = Some (bs', c') ->
  (Asm.short_count bs' <= Asm.short_count bs)%nat
  /\ (c' = true -> c = true \/ (Asm.short_count bs' < Asm.short_count bs)%nat)
  /\ (c' = false -> c = false /\ bs' = bs).
Proof.
  revert i bs c. induction todo as [|todo IH]; intros i bs c; cbn [Asm.PromotePass].
  - intros H. injection H as <- <-. repeat split; auto.
  - destruct (nth_error bs i) as [b|] eqn:N.
    + destruct (negb (Asm.IsResolved b)); [discriminate|].
      destruct (Asm.PromoteIfNeeded b Asm.kDefaultMaxShortDistance) as [[delta b1]|] eqn:P;
        [|discriminate].
      destruct (PromoteIfNeeded_cases b b1 delta P)
        as [(-> & -> & _)|(D & L & L1 & _)].
      * cbn [Z.eqb]. rewrite (list_update_same bs i b N). apply IH.
      * replace (delta =? 0) with false by (symmetry; apply Z.eqb_neq; lia).
        intros H. apply IH in H. destruct H as (H1 & H2 & H3).
        rewrite short_count_Relocate in H1, H2.
        pose proof (short_count_update bs i b b1 N) as U.
        unfold is_short in U. rewrite L, L1 in U. cbn [negb] in U.
        split; [lia|]. split.
        -- intros _. right. lia.
        -- intros E. apply H3 in E. destruct E as [E _]. discriminate.
    + intros H. injection H as <- <-. repeat split; auto.
Qed.

Lemma PromoteLoop_terminates (fuel : nat) (bs : list Asm.Branch) :
  (Asm.short_count bs < fuel)%nat -> Asm.PromoteLoop fuel bs <> Asm.OutOfFuel.
Proof.
  revert bs. induction fuel as [|fuel IH]; intros bs H; [lia|].
  cbn [Asm.PromoteLoop].
  destruct (Asm.PromotePass (List.length bs) 0 bs false) as [[bs' c']|] eqn:P;
    [|discriminate].
  destruct c'; [|discriminate].
  apply PromotePass_measure in P. destruct P as (_ & P & _).
  destruct (P eq_refl) as [|P']; [discriminate|].
  apply IH. lia.
Qed.

Lemma PromotePass_length (todo i : nat) (bs bs' : list Asm.Branch) (c c' : bool) :
  Asm.PromotePass todo i bs c = Some (bs', c') -> List.length bs' = List.length bs.
Proof.
  revert i bs c. induction todo as [|todo IH]; intros i bs c; cbn [Asm.PromotePass].
  - intros H. injection H as <- _. reflexivity.
  - destruct (nth_error bs i) as [b|].
    + destruct (negb (Asm.IsResolved b)); [discriminate|].
      destruct (Asm.PromoteIfNeeded b Asm.kDefaultMaxShortDistance) as [[delta b1]|];
        [|discriminate].
      destruct (delta =? 0); intros H; apply IH in H; rewrite H;
        rewrite ?length_map; apply length_list_update.
    + intros H. injection H as <- _. reflexivity.
Qed.

(** A turn that changes nothing has found every branch resolved and in
    no need of promotion. *)
Lemma PromotePass_settled (todo i : nat) (bs : list Asm.Branch) :
  Asm.PromotePass todo i bs false = Some (bs, false) ->
  forall j b, (i <= j < i + todo)%nat -> nth_error bs j = Some b ->
    Asm.IsResolved b = true
    /\ Asm.PromoteIfNeeded b Asm.kDefaultMaxShortDistance = Some (0, b).
Proof.
  revert i. induction todo as [|todo IH]; intros i H j b Hj N; [lia|].
  cbn [Asm.PromotePass] in H.
  destruct (nth_error bs i) as [bi|] eqn:Ni.
  - destruct (Asm.IsResolved bi) eqn:R; cbn [negb] in H; [|discriminate].
    destruct (Asm.PromoteIfNeeded bi Asm.kDefaultMaxShortDistance) as [[delta b1]|] eqn:P;
      [|discriminate].
    destruct (PromoteIfNeeded_cases bi b1 delta P)
      as [(-> & -> & _)|(D & _)].
    + cbn [Z.eqb] in H. rewrite (list_update_same bs i bi Ni) in H.
      destruct (Nat.eq_dec j i) as [->|Hne].
      * rewrite Ni in N. injection N as <-. split; assumption.
      * apply (IH (S i) H j b); [lia|exact N].
    + replace (delta =? 0) with false in H by (symmetry; apply Z.eqb_neq; lia).
      apply PromotePass_measure in H. destruct H as (_ & _ & H).
      destruct (H eq_refl) as [H' _]. discriminate.
  - apply nth_error_None in Ni.
    assert (nth_error bs j <> None) by congruence.
    apply nth_error_Some in H0. lia.
Qed.

Lemma PromoteLoop_fixed_point (fuel : nat) (bs bs' : list Asm.Branch) :
  Asm.PromoteLoop fuel bs = Asm.Settled bs' ->
  Asm.PromotePass (List.length bs') 0 bs' false = Some (bs', false)
  /\ List.length bs' = List.length bs.
Proof.
  revert bs. induction fuel as [|fuel IH]; intros bs; cbn [Asm.PromoteLoop];
    [discriminate|].
  destruct (Asm.PromotePass (List.length bs) 0 bs false) as [[bs1 c1]|] eqn:P;
    [|discriminate].
  pose proof (PromotePass_length _ _ _ _ _ _ P) as L.
  destruct c1.
  - intros H. apply IH in H. destruct H as [H1 H2]. split; [exact H1|congruence].
  - intros H. injection H as <-.
    pose proof (PromotePass_measure _ _ _ _ _ _ P) as (_ & _ & M).
    destruct (M eq_refl) as [_ ->]. split; [exact P|reflexivity].
Qed.

(** ** Patching the placeholders *)

Lemma Store32_size (buf : list Z) (pos v : Z) :
  0 <= pos -> pos + 4 <= Asm.buf_Size buf ->
  Asm.buf_Size (Asm.buf_Store32 buf pos v) = Asm.buf_Size buf.
Proof.
  unfold Asm.buf_Size, Asm.buf_Store32. intros H0 H1.
  rewrite !length_app, length_firstn, length_skipn. cbn [Asm.le32 List.length]. lia.
Qed.

Lemma Store32_other (buf : list Z) (pos v p : Z) :
  0 <= pos -> pos + 4 <= Asm.buf_Size buf ->
  p < pos \/ pos + 4 <= p ->
  Asm.byte_at (Asm.buf_Store32 buf pos v) p = Asm.byte_at buf p.
Proof.
  unfold Asm.buf_Size, Asm.buf_Store32, Asm.byte_at. intros H0 H1 Hp.
  destruct (Z.ltb_spec p 0); [reflexivity|].
  assert (LF : List.length (firstn (Z.to_nat pos) buf) = Z.to_nat pos)
    by (rewrite length_firstn; lia).
  destruct Hp as [Hp|Hp].
  - rewrite app_nth1 by lia.
    rewrite <- (firstn_skipn (Z.to_nat pos) buf) at 2.
    rewrite app_nth1 by lia. reflexivity.
  - rewrite app_nth2 by lia. rewrite app_nth2 by (cbn [Asm.le32 List.length]; lia).
    rewrite LF. cbn [Asm.le32 List.length].
    rewrite <- (firstn_skipn (Z.to_nat (pos + 4)) buf) at 2.
    rewrite app_nth2 by (rewrite length_firstn; lia).
    rewrite length_firstn. f_equal. lia.
Qed.

Lemma Store32_load (buf : list Z) (pos v : Z) :
  0 <= pos -> pos + 4 <= Asm.buf_Size buf -> 0 <= v < 2 ^ 32 ->
  Asm.buf_Load32 (Asm.buf_Store32 buf pos v) pos = v.
Proof.
  intros H0 H1 Hv. unfold Asm.buf_Store32, Asm.buf_Size in *.
  assert (LF : List.length (firstn (Z.to_nat pos) buf) = Z.to_nat pos)
    by (rewrite length_firstn; lia).
  replace pos with (Z.of_nat (List.length (firstn (Z.to_nat pos) buf)) + 0) at 3 by lia.
  rewrite load_skip by lia. apply load_le32, Hv.
Qed.

(** One word written over the buffer at the overwrite location. *)
Definition patch (a : Asm.Assembler) (w : Z) : Asm.Assembler :=
  Asm.with_overwrite_location
    (Asm.with_buffer a (Asm.buf_Store32 (Asm.buffer_ a) (Asm.overwrite_location_ a)
                                        (u32 w)))
    (u32 (Asm.overwrite_location_ a + 4)).

Lemma Emit_overwrites (w : Z) (a : Asm.Assembler) :
  Asm.overwriting_ a = true -> Asm.Emit w a = Some (tt, patch a w).
Proof.
  intros H. unfold Asm.Emit, Asm.bind, Asm.get. rewrite H. reflexivity.
Qed.

(** [writes m w]: where it does not stop at a check, [m] overwrites one
    word with [w]. *)
Definition writes (m : Asm.M unit) (w : Z) : Prop :=
  forall a, Asm.overwriting_ a = true ->
    m a = None \/ m a = Some (tt, patch a w).

Lemma writes_Emit (w : Z) : writes (Asm.Emit w) w.
Proof. intros a H. right. apply Emit_overwrites, H. Qed.

Lemma writes_CHECK (c : bool) (m : Asm.M unit) (w : Z) :
  writes m w -> writes (Asm.bind (Asm.CHECK c) (fun _ => m)) w.
Proof.
  intros H a Ha. unfold Asm.bind, Asm.CHECK. destruct c; [apply H, Ha|left; reflexivity].
Qed.

Lemma writes_fatal (w : Z) : writes Asm.fatal w.
Proof. intros a _. left. reflexivity. Qed.

Lemma u16_small (v : Z) : 0 <= v < 2 ^ 16 -> u16 v = v.
Proof. intros H. unfold u16. apply Z.mod_small. exact H. Qed.

Lemma writes_EmitB (imm rs2 rs1 funct3 opcode : Z) :
  0 <= imm < 2 ^ 13 ->
  writes (Asm.EmitB imm rs2 rs1 funct3 opcode) (Asm.EncodeB imm rs2 rs1 funct3 opcode).
Proof.
  intros H. unfold Asm.EmitB. rewrite u16_small by lia.
  apply writes_CHECK, writes_Emit.
Qed.

Definition branch_word (imm : Z) (w : Z) : Prop :=
  exists rs2 rs1 funct3,
    0 <= rs2 < 2 ^ 5 /\ 0 <= rs1 < 2 ^ 5 /\ 0 <= funct3 < 2 ^ 3
    /\ w = Asm.EncodeB imm rs2 rs1 funct3 0x63.

Lemma writes_EmitBcond (cond : Asm.BranchCondition) (rs rt : GpuRegister) (imm : Z) :
  0 <= imm < 2 ^ 13 ->
  exists w, branch_word imm w /\ writes (Asm.EmitBcond cond rs rt imm) w.
Proof.
  intros H.
  assert (B : forall r1 r2 f3, 0 <= f3 < 2 ^ 3 ->
            branch_word imm (Asm.EncodeB imm (gpu_num r2) (gpu_num r1) f3 0x63)).
  { intros r1 r2 f3 Hf. exists (gpu_num r2), (gpu_num r1), f3.
    repeat split; try apply gpu_num_range; lia. }
  assert (U : u16 imm = imm) by (apply u16_small; lia).
  assert (U' : u32 imm = imm) by (apply u32_small; lia).
  destruct cond; cbn [Asm.EmitBcond];
    unfold Asm.Bltc, Asm.Bgec, Asm.Bltzc, Asm.Bgezc, Asm.Blezc, Asm.Bgtzc,
           Asm.Beqc, Asm.Bnec, Asm.Beqzc, Asm.Bnezc, Asm.Bltuc, Asm.Bgeuc,
           Asm.Blt, Asm.Bge, Asm.Beq, Asm.Bne, Asm.Bltu, Asm.Bgeu;
    rewrite ?U', ?U;
    try (eexists; split;
         [|repeat apply writes_CHECK; rewrite ?U; apply writes_Emit];
         apply B; cbn; lia).
  exists (Asm.EncodeB imm 0 0 0 0x63). split; [|apply writes_fatal].
  exists 0, 0, 0. repeat split; lia.
Qed.

Lemma writes_Bc (imm : Z) :
  0 <= imm < 2 ^ 21 ->
  writes (Asm.Bc imm) (Asm.EncodeJ imm (gpu_num ZERO) 0x6F).
Proof.
  intros H. unfold Asm.Bc, Asm.Jal, Asm.EmitJ.
  rewrite !(u32_small imm) by lia. apply writes_CHECK, writes_Emit.
Qed.

Lemma writes_Balc (imm : Z) :
  0 <= imm < 2 ^ 21 ->
  writes (Asm.Balc imm) (Asm.EncodeJ imm (gpu_num RA) 0x6F).
Proof.
  intros H. unfold Asm.Balc, Asm.Jal, Asm.EmitJ.
  rewrite !(u32_small imm) by lia. apply writes_CHECK, writes_Emit.
Qed.

(** *** Taking a successful run apart *)

Lemma bind_Some {A B : Type} (m : Asm.M A) (k : A -> Asm.M B)
    (a : Asm.Assembler) (r : B * Asm.Assembler) :
  Asm.bind m k a = Some r ->
  exists x a1, m a = Some (x, a1) /\ k x a1 = Some r.
Proof.
  unfold Asm.bind. destruct (m a) as [[x a1]|]; [|discriminate].
  intros H. exists x, a1. split; [reflexivity|exact H].
Qed.

Lemma CHECK_Some (c : bool) (a a1 : Asm.Assembler) (x : unit) :
  Asm.CHECK c a = Some (x, a1) -> c = true /\ a1 = a.
Proof.
  unfold Asm.CHECK. destruct c; [|discriminate].
  intros H. injection H as _ <-. split; reflexivity.
Qed.

Lemma get_Some (a a1 x : Asm.Assembler) :
  Asm.get a = Some (x, a1) -> x = a /\ a1 = a.
Proof. unfold Asm.get. intros H. injection H as <- <-. split; reflexivity. Qed.

Lemma put_Some (a0 a a1 : Asm.Assembler) (x : unit) :
  Asm.put a0 a = Some (x, a1) -> a1 = a0.
Proof. unfold Asm.put. intros H. injection H as _ <-. reflexivity. Qed.

Lemma lift_Some {A : Type} (o : option A) (a a1 : Asm.Assembler) (x : A) :
  Asm.lift o a = Some (x, a1) -> o = Some x /\ a1 = a.
Proof.
  unfold Asm.lift. destruct o; [|discriminate].
  intros H. injection H as <- <-. split; reflexivity.
Qed.

Lemma ret_Some {A : Type} (x y : A) (a a1 : Asm.Assembler) :
  Asm.ret x a = Some (y, a1) -> y = x /\ a1 = a.
Proof. unfold Asm.ret. intros H. split; congruence. Qed.

Ltac inv_run :=
  repeat match goal with
         | H : Asm.bind _ _ _ = Some _ |- _ =>
             let x := fresh "x" in let a := fresh "a" in
             let H1 := fresh "R" in let H2 := fresh "R" in
             apply bind_Some in H; destruct H as (x & a & H1 & H2)
         | H : Asm.CHECK _ _ = Some _ |- _ =>
             let H1 := fresh "C" in
             apply CHECK_Some in H; destruct H as [H1 ->]
         | H : Asm.get _ = Some _ |- _ =>
             apply get_Some in H; destruct H as [-> ->]
         | H : Asm.put _ _ = Some _ |- _ => apply put_Some in H; subst
         | H : Asm.lift _ _ = Some _ |- _ =>
             let H1 := fresh "L" in
             apply lift_Some in H; destruct H as [H1 ->]
         | H : Asm.ret _ _ = Some _ |- _ =>
             apply ret_Some in H; destruct H as [? ?]; subst
         end.

Definition jump_word (imm w : Z) : Prop :=
  exists rd, 0 <= rd < 2 ^ 5 /\ w = Asm.EncodeJ imm rd 0x6F.

Definition upper_word (imm w : Z) : Prop :=
  exists rd, 0 <= rd < 2 ^ 5 /\ w = Asm.EncodeU imm rd 0x17.

Definition lower_word (imm w : Z) : Prop :=
  exists rs1 funct3 rd opcode,
    0 <= rs1 < 2 ^ 5 /\ 0 <= funct3 < 2 ^ 3 /\ 0 <= rd < 2 ^ 5
    /\ 0 <= opcode < 2 ^ 7
    /\ w = Asm.EncodeI imm rs1 funct3 rd opcode.

(** The words that hold the offset of a branch. *)
Definition offset_words (b : Asm.Branch) (offset : Z) (ws : list Z) : Prop :=
  match Asm.GetOffsetSize b with
  | 13 => exists w, ws = [w] /\ branch_word offset w
  | 21 => exists w, ws = [w] /\ jump_word offset w
  | _ =>
      exists w1 w2,
        ws = [w1; w2]
        /\ upper_word (u32 (u32 (Asm.High20Bits (Asm.AdjustOffset offset)))) w1
        /\ lower_word (Asm.Low12Bits (Asm.AdjustOffset offset)) w2
  end.

Definition at_location (a : Asm.Assembler) (l : Z) : Asm.Assembler :=
  Asm.with_overwrite_location a l.

Lemma GetOffset_range (b : Asm.Branch) (offset : Z) :
  Asm.GetOffset b = Some offset ->
  0 <= offset < 2 ^ Asm.GetOffsetSize b.
Proof.
  unfold Asm.GetOffset. destruct (negb (Asm.IsResolved b)); [discriminate|].
  intros H. apply Some_inj in H. subst offset.
  assert (S : Asm.GetOffsetSize b = 13 \/ Asm.GetOffsetSize b = 21
              \/ Asm.GetOffsetSize b = 32)
    by (unfold Asm.GetOffsetSize; destruct (Asm.type_ b); cbn; auto).
  assert (Z0 : Asm.offset_shift (Asm.branch_info_ (Asm.type_ b)) = 0)
    by (destruct (Asm.type_ b); reflexivity).
  rewrite Z0, Z.shiftr_0_r.
  destruct S as [-> | [-> | ->]].
  - change (Z.shiftr 4294967295 (32 - 13)) with (Z.ones 13).
    rewrite Z.land_ones by lia. apply Z.mod_pos_bound. lia.
  - change (Z.shiftr 4294967295 (32 - 21)) with (Z.ones 21).
    rewrite Z.land_ones by lia. apply Z.mod_pos_bound. lia.
  - change (Z.shiftr 4294967295 (32 - 32)) with (Z.ones 32).
    rewrite Z.land_ones by lia. apply Z.mod_pos_bound. lia.
Qed.

Lemma lower_word_I (imm : Z) (rs1 rd : GpuRegister) (funct3 opcode : Z) :
  0 <= funct3 < 2 ^ 3 -> 0 <= opcode < 2 ^ 7 ->
  lower_word imm (Asm.EncodeI imm (gpu_num rs1) funct3 (gpu_num rd) opcode).
Proof.
  intros H1 H2. exists (gpu_num rs1), funct3, (gpu_num rd), opcode.
  repeat split; try apply gpu_num_range; lia.
Qed.

Lemma upper_word_U (imm : Z) (rd : GpuRegister) :
  upper_word imm (Asm.EncodeU imm (gpu_num rd) 0x17).
Proof. exists (gpu_num rd). split; [apply gpu_num_range|reflexivity]. Qed.

Lemma jump_word_J (imm : Z) (rd : GpuRegister) :
  jump_word imm (Asm.EncodeJ imm (gpu_num rd) 0x6F).
Proof. exists (gpu_num rd). split; [apply gpu_num_range|reflexivity]. Qed.

Lemma u16_Low12Bits (v : Z) : u16 (Asm.Low12Bits v) = Asm.Low12Bits v.
Proof. unfold Asm.Low12Bits, u16. apply Z.mod_mod. lia. Qed.

Ltac one_word W :=
  match goal with
  | Ho : Asm.overwriting_ ?a = true,
    R : ?m (at_location ?a ?l) = Some (_, ?a') |- _ =>
      let N := fresh "N" in
      destruct (W (at_location a l) Ho) as [N|N];
      rewrite N in R; [discriminate|]; apply Some_inj in R;
      apply (f_equal snd) in R; cbn [snd] in R; subst a'
  end.

Ltac emitted R :=
  rewrite Emit_overwrites in R by assumption;
  apply Some_inj in R; apply (f_equal snd) in R; cbn [snd] in R.

Ltac two_words :=
  match goal with
  | Ho : Asm.overwriting_ ?a = true,
    R1 : Asm.Auipc _ _ (at_location ?a ?l) = Some (_, ?a1),
    R2 : _ ?a1 = Some (_, ?a2) |- _ =>
      unfold Asm.Auipc, Asm.EmitU in R1; emitted R1; subst a1;
      unfold Asm.Addi, Asm.Lw, Asm.Lwu, Asm.Ld, Asm.Jic, Asm.Jialc, Asm.Jalr,
             Asm.EmitI in R2;
      rewrite ?u16_Low12Bits in R2;
      emitted R2; subst a2
  end.

Lemma EmitBranch_writes (AT : GpuRegister) (b : Asm.Branch) (a a' : Asm.Assembler) :
  Asm.overwriting_ a = true ->
  Asm.EmitBranch AT b a = Some (tt, a') ->
  exists offset pre ws,
    Asm.GetOffset b = Some offset
    /\ a' = fold_left patch (pre ++ ws) (at_location a (Asm.location_ b))
    /\ Z.of_nat (List.length pre) = Asm.instr_offset (Asm.branch_info_ (Asm.type_ b))
    /\ Z.of_nat (List.length (pre ++ ws)) = Asm.GetLength b
    /\ offset_words b offset ws.
Proof.
  intros Ho H. unfold Asm.EmitBranch in H. inv_run.
  fold (at_location a (Asm.location_ b)) in *.
  match goal with L : Asm.GetOffset b = Some ?o |- _ =>
    pose proof (GetOffset_range b o L) as Rng; exists o end.
  unfold offset_words, Asm.GetLength.
  unfold Asm.GetOffsetSize in *.
  destruct (Asm.type_ b) eqn:T; inv_run;
    cbn [Asm.branch_info_ Asm.offset_size Asm.instr_offset Asm.length] in *.
  - one_word (writes_Bc _ Rng).
    eexists [], [_]. repeat split; try reflexivity; [assumption|].
    eexists. split; [reflexivity | apply jump_word_J].
  - destruct (writes_EmitBcond (Asm.condition_ b) (Asm.lhs_reg_ b) (Asm.rhs_reg_ b) _ Rng)
      as (w & BW & W).
    one_word W.
    eexists [], [_]. repeat split; try reflexivity; [assumption|].
    eexists. split; [reflexivity | exact BW].
  - one_word (writes_Balc _ Rng).
    eexists [], [_]. repeat split; try reflexivity; [assumption|].
    eexists. split; [reflexivity | apply jump_word_J].
  - one_word (writes_Bc _ Rng).
    eexists [], [_]. repeat split; try reflexivity; [assumption|].
    eexists. split; [reflexivity | apply jump_word_J].
  - destruct (writes_EmitBcond (Asm.condition_ b) (Asm.lhs_reg_ b) (Asm.rhs_reg_ b) _ Rng)
      as (w & BW & W).
    one_word W.
    eexists [], [_]. repeat split; try reflexivity; [assumption|].
    eexists. split; [reflexivity | exact BW].
  - one_word (writes_Balc _ Rng).
    eexists [], [_]. repeat split; try reflexivity; [assumption|].
    eexists. split; [reflexivity | apply jump_word_J].
  - two_words.
    eexists [], [_; _]. repeat split; try reflexivity; [assumption|].
    eexists _, _. split; [reflexivity|].
    split; [apply upper_word_U | apply lower_word_I; lia].
  - two_words.
    eexists [], [_; _]. repeat split; try reflexivity; [assumption|].
    eexists _, _. split; [reflexivity|].
    split; [apply upper_word_U | apply lower_word_I; lia].
  - two_words.
    eexists [], [_; _]. repeat split; try reflexivity; [assumption|].
    eexists _, _. split; [reflexivity|].
    split; [apply upper_word_U | apply lower_word_I; lia].
  - two_words.
    eexists [], [_; _]. repeat split; try reflexivity; [assumption|].
    eexists _, _. split; [reflexivity|].
    split; [apply upper_word_U | apply lower_word_I; lia].
  - two_words.
    eexists [], [_; _]. repeat split; try reflexivity; [assumption|].
    eexists _, _. split; [reflexivity|].
    split; [apply upper_word_U | apply lower_word_I; lia].
  - destruct (writes_EmitBcond x (Asm.lhs_reg_ b) (Asm.rhs_reg_ b) 12 ltac:(lia))
      as (w & BW & W).
    one_word W.
    unfold Asm.Auipc, Asm.EmitU in R2. emitted R2. subst a3.
    unfold Asm.Jic, Asm.Jalr, Asm.EmitI in R4. rewrite ?u16_Low12Bits in R4.
    emitted R4. subst a4.
    eexists [_], [_; _]. repeat split; try reflexivity; [assumption|].
    eexists _, _. split; [reflexivity|].
    split; [apply upper_word_U | apply lower_word_I; lia].
  - two_words.
    eexists [], [_; _]. repeat split; try reflexivity; [assumption|].
    eexists _, _. split; [reflexivity|].
    split; [apply upper_word_U | apply lower_word_I; lia].
Qed.

(** *** The offset read back from the words *)

Definition words_field (size : Z) (ws : list Z) : Z :=
  match ws with
  | [] => 0
  | w1 :: rest =>
      if size =? Asm.kOffset13 then Rv64.immB (u32 w1)
      else if size =? Asm.kOffset21 then Rv64.immJ (u32 w1)
      else Rv64.immU (u32 w1)
           + match rest with w2 :: _ => Rv64.immI (u32 w2) | [] => 0 end
  end.

(** The distances an encoding of 13, 21 or 32 bits reaches: even ones in
    the signed range for the jump and branch instructions, those of
    auipc with a 12-bit signed immediate for the pairs. *)
Definition reaches (size distance : Z) : Prop :=
  if size =? Asm.kOffset32
  then - 2 ^ 31 - 2 ^ 11 <= distance < 2 ^ 31 - 2 ^ 11
  else - 2 ^ (size - 1) <= distance < 2 ^ (size - 1) /\ distance mod 2 = 0.

Lemma clear_bit0 (o : Z) : o mod 2 = 0 -> Z.shiftl (Z.shiftr o 1) 1 = o.
Proof.
  intros H. rewrite Z.shiftl_mul_pow2, Z.shiftr_div_pow2 by lia.
  change (2 ^ 1) with 2. Z.div_mod_to_equations. lia.
Qed.

Lemma short_field (size d : Z) :
  size = 13 \/ size = 21 ->
  - 2 ^ (size - 1) <= d < 2 ^ (size - 1) -> d mod 2 = 0 ->
  sext size (Z.shiftl (Z.shiftr (Z.land (u32 d) (Z.shiftr 0xFFFFFFFF (32 - size))) 1) 1)
  = d.
Proof.
  intros S R E.
  assert (M : Z.land (u32 d) (Z.shiftr 0xFFFFFFFF (32 - size)) = d mod 2 ^ size).
  { destruct S as [-> | ->].
    - change (Z.shiftr 4294967295 (32 - 13)) with (Z.ones 13).
      rewrite Z.land_ones by lia. unfold u32.
      change (2 ^ 32) with 4294967296. change (2 ^ 13) with 8192.
      Z.div_mod_to_equations. lia.
    - change (Z.shiftr 4294967295 (32 - 21)) with (Z.ones 21).
      rewrite Z.land_ones by lia. unfold u32.
      change (2 ^ 32) with 4294967296. change (2 ^ 21) with 2097152.
      Z.div_mod_to_equations. lia. }
  rewrite M, clear_bit0.
  - apply sext_mod; [lia|exact R].
  - destruct S as [-> | ->].
    + change (2 ^ 13) with 8192. Z.div_mod_to_equations. lia.
    + change (2 ^ 21) with 2097152. Z.div_mod_to_equations. lia.
Qed.

Lemma land_0x800 (o : Z) : Z.land o 0x800 = 2048 * ((o / 2048) mod 2).
Proof.
  assert (E : Z.land o 2048 = if Z.testbit o 11 then 2048 else 0).
  { apply Z.bits_inj'. intros n Hn. rewrite Z.land_spec.
    change 2048 with (2 ^ 11) at 1. rewrite Z.pow2_bits_eqb by lia.
    destruct (Z.eqb_spec 11 n) as [<-|Hne].
    - rewrite andb_true_r. destruct (Z.testbit o 11) eqn:T; [reflexivity|].
      rewrite Z.bits_0. reflexivity.
    - rewrite andb_false_r. destruct (Z.testbit o 11).
      + change 2048 with (2 ^ 11). rewrite Z.pow2_bits_false by lia. reflexivity.
      + rewrite Z.bits_0. reflexivity. }
  rewrite E. destruct (Z.testbit o 11) eqn:T.
  - apply Z.testbit_true in T; [|lia]. change (2 ^ 11) with 2048 in T.
    rewrite T. reflexivity.
  - assert (N : (o / 2048) mod 2 <> 1).
    { intros C. assert (T' : Z.testbit o 11 = true)
        by (apply Z.testbit_true; [lia|exact C]). congruence. }
    assert ((o / 2048) mod 2 = 0) by (Z.div_mod_to_equations; lia).
    lia.
Qed.

Lemma long_field (d : Z) :
  - 2 ^ 31 - 2 ^ 11 <= d < 2 ^ 31 - 2 ^ 11 ->
  let o := Asm.AdjustOffset (u32 d) in
  sext 32 (Z.shiftl (u32 (u32 (Asm.High20Bits o)) mod 2 ^ 20) 12)
  + sext 12 (Asm.Low12Bits o) = d.
Proof.
  intros R o. unfold o, Asm.AdjustOffset, Asm.High20Bits, Asm.Low12Bits.
  rewrite land_0x800. change 4095 with (Z.ones 12).
  rewrite Z.land_ones, !Z.shiftl_mul_pow2, Z.shiftr_div_pow2 by lia.
  unfold sext, u32, u16.
  change (2 ^ 1) with 2. change (2 ^ 12) with 4096. change (2 ^ (12 - 1)) with 2048.
  change (2 ^ 16) with 65536. change (2 ^ 20) with 1048576.
  change (2 ^ 32) with 4294967296. change (2 ^ (32 - 1)) with 2147483648.
  change (2 ^ 31) with 2147483648 in R. change (2 ^ 11) with 2048 in R.
  Z.div_mod_to_equations. lia.
Qed.

Lemma GetOffset_value (b : Asm.Branch) (offset : Z) :
  Asm.GetOffset b = Some offset ->
  offset = Z.land (u32 (Asm.target_ b - Asm.GetOffsetLocation b))
                  (Z.shiftr 0xFFFFFFFF (32 - Asm.GetOffsetSize b)).
Proof.
  unfold Asm.GetOffset. destruct (negb (Asm.IsResolved b)); [discriminate|].
  intros H. apply Some_inj in H. subst offset.
  assert (Z0 : Asm.offset_shift (Asm.branch_info_ (Asm.type_ b)) = 0)
    by (destruct (Asm.type_ b); reflexivity).
  assert (P0 : Asm.pc_org (Asm.branch_info_ (Asm.type_ b)) = 0)
    by (destruct (Asm.type_ b); reflexivity).
  rewrite Z0, P0, Z.shiftr_0_r, Z.sub_0_r. reflexivity.
Qed.

Lemma field_of_words (b : Asm.Branch) (offset : Z) (ws : list Z) :
  Asm.GetOffset b = Some offset ->
  offset_words b offset ws ->
  reaches (Asm.GetOffsetSize b) (Asm.target_ b - Asm.GetOffsetLocation b) ->
  words_field (Asm.GetOffsetSize b) ws = Asm.target_ b - Asm.GetOffsetLocation b.
Proof.
  intros G W R. pose proof (GetOffset_range b offset G) as Rng.
  apply GetOffset_value in G.
  set (d := Asm.target_ b - Asm.GetOffsetLocation b) in *.
  unfold offset_words in W. unfold reaches in R.
  assert (S : Asm.GetOffsetSize b = 13 \/ Asm.GetOffsetSize b = 21
              \/ Asm.GetOffsetSize b = 32)
    by (unfold Asm.GetOffsetSize; destruct (Asm.type_ b); cbn; auto).
  destruct S as [S | [S | S]]; rewrite S in *.
  - destruct W as (w & -> & rs2 & rs1 & f3 & H2 & H1 & H3 & ->).
    cbn [words_field Z.eqb Asm.kOffset13 Pos.eqb]. destruct R as [R E].
    rewrite encode_B_u32, B_imm by lia. subst offset.
    apply (short_field 13); auto.
  - destruct W as (w & -> & rd & Hrd & ->).
    change (words_field 21 [Asm.EncodeJ offset rd 111])
      with (Rv64.immJ (u32 (Asm.EncodeJ offset rd 111))).
    destruct R as [R E].
    rewrite encode_J_u32, J_imm by lia. subst offset.
    apply (short_field 21); auto.
  - destruct W as (w1 & w2 & -> & (rd & Hrd & ->) & (rs1 & f3 & rd2 & op & A1 & A2 & A3 & A4 & ->)).
    change (words_field 32 [?x; ?y]) with (Rv64.immU (u32 x) + Rv64.immI (u32 y)).
    cbv beta.
    rewrite encode_U_u32, encode_I_u32 by lia.
    unfold Rv64.immU, Rv64.immI. rewrite U_imm, I_imm by lia.
    rewrite sext_mod_idem by lia.
    change (Z.shiftr 4294967295 (32 - 32)) with (Z.ones 32) in G.
    rewrite Z.land_ones in G by lia.
    assert (G' : offset = u32 d).
    { rewrite G. unfold u32. apply Z.mod_mod. lia. }
    rewrite G'. apply long_field. exact R.
Qed.

Lemma patch_chain (ws : list Z) (a0 : Asm.Assembler) :
  0 <= Asm.overwrite_location_ a0 ->
  Asm.overwrite_location_ a0 + 4 * Z.of_nat (List.length ws)
  <= Asm.buf_Size (Asm.buffer_ a0) ->
  Asm.buf_Size (Asm.buffer_ a0) < 2 ^ 32 ->
  Asm.buf_Size (Asm.buffer_ (fold_left patch ws a0)) = Asm.buf_Size (Asm.buffer_ a0)
  /\ (forall i w, nth_error ws i = Some w ->
        Asm.buf_Load32 (Asm.buffer_ (fold_left patch ws a0))
                       (Asm.overwrite_location_ a0 + 4 * Z.of_nat i) = u32 w)
  /\ (forall p, p < Asm.overwrite_location_ a0
                \/ Asm.overwrite_location_ a0 + 4 * Z.of_nat (List.length ws) <= p ->
        Asm.byte_at (Asm.buffer_ (fold_left patch ws a0)) p
        = Asm.byte_at (Asm.buffer_ a0) p)
  /\ Asm.overwriting_ (fold_left patch ws a0) = Asm.overwriting_ a0
  /\ Asm.branches_ (fold_left patch ws a0) = Asm.branches_ a0.
Proof.
  revert a0. induction ws as [|w ws IH]; intros a0 H0 H1 H2; cbn [fold_left].
  - repeat split. intros [|i] w Hn; discriminate.
  - cbn [List.length] in H1. rewrite Nat2Z.inj_succ in H1.
    set (loc := Asm.overwrite_location_ a0) in *.
    assert (L1 : Asm.overwrite_location_ (patch a0 w) = loc + 4).
    { unfold patch. cbn. fold loc. apply u32_small. lia. }
    assert (B1 : Asm.buffer_ (patch a0 w)
                 = Asm.buf_Store32 (Asm.buffer_ a0) loc (u32 w)) by reflexivity.
    assert (S1 : Asm.buf_Size (Asm.buffer_ (patch a0 w)) = Asm.buf_Size (Asm.buffer_ a0))
      by (rewrite B1; apply Store32_size; lia).
    destruct (IH (patch a0 w)) as (I1 & I2 & I3 & I4 & I5); rewrite ?L1, ?S1; try lia.
    rewrite L1 in I2, I3.
    split; [congruence|]. split; [|split; [|split]].
    + intros [|i] w' Hn; cbn [nth_error] in Hn.
      * apply Some_inj in Hn. subst w'. rewrite Z.mul_0_r, Z.add_0_r.
        rewrite (Load32_other (Asm.buffer_ (patch a0 w))).
        -- rewrite B1. apply Store32_load; [lia|lia|apply u32_range].
        -- intros p Hp. apply I3. lia.
      * rewrite Nat2Z.inj_succ.
        replace (loc + 4 * Z.succ (Z.of_nat i)) with (loc + 4 + 4 * Z.of_nat i) by lia.
        apply I2, Hn.
    + intros p Hp. cbn [List.length] in Hp. rewrite Nat2Z.inj_succ in Hp.
      rewrite I3 by lia. rewrite B1. apply Store32_other; lia.
    + rewrite I4. reflexivity.
    + rewrite I5. reflexivity.
Qed.

(** The offset a hart reads from the code at the place of a branch. *)
Definition offset_field (code : list Z) (b : Asm.Branch) : Z :=
  let at_ := Asm.GetOffsetLocation b in
  if Asm.GetOffsetSize b =? Asm.kOffset13 then Rv64.immB (Asm.buf_Load32 code at_)
  else if Asm.GetOffsetSize b =? Asm.kOffset21 then Rv64.immJ (Asm.buf_Load32 code at_)
  else Rv64.immU (Asm.buf_Load32 code at_)
       + Rv64.immI (Asm.buf_Load32 code (at_ + 4)).

Definition origin_distance (b : Asm.Branch) : Z :=
  Asm.target_ b - Asm.GetOffsetLocation b.

Lemma EmitBranch_offset (AT : GpuRegister) (b : Asm.Branch) (a a' : Asm.Assembler) :
  Asm.overwriting_ a = true ->
  Asm.EmitBranch AT b a = Some (tt, a') ->
  0 <= Asm.location_ b ->
  Asm.location_ b + Asm.GetSize b <= Asm.buf_Size (Asm.buffer_ a) ->
  Asm.buf_Size (Asm.buffer_ a) < 2 ^ 32 ->
  (reaches (Asm.GetOffsetSize b) (origin_distance b) ->
   offset_field (Asm.buffer_ a') b = origin_distance b)
  /\ Asm.buf_Size (Asm.buffer_ a') = Asm.buf_Size (Asm.buffer_ a)
  /\ (forall p, p < Asm.location_ b \/ Asm.location_ b + Asm.GetSize b <= p ->
        Asm.byte_at (Asm.buffer_ a') p = Asm.byte_at (Asm.buffer_ a) p)
  /\ Asm.overwriting_ a' = true
  /\ Asm.branches_ a' = Asm.branches_ a.
Proof.
  intros Ho H H0 H1 H2.
  destruct (EmitBranch_writes AT b a a' Ho H) as (offset & pre & ws & G & -> & P & L & W).
  assert (SZ : Asm.GetSize b = 4 * Z.of_nat (List.length (pre ++ ws))).
  { unfold Asm.GetSize. rewrite L.
    unfold Asm.GetLength. destruct (Asm.type_ b); reflexivity. }
  assert (OL : Asm.GetOffsetLocation b = Asm.location_ b + 4 * Z.of_nat (List.length pre)).
  { unfold Asm.GetOffsetLocation. rewrite P, (Z.mul_comm 4).
    rewrite length_app in SZ. apply u32_small.
    assert (0 <= Asm.instr_offset (Asm.branch_info_ (Asm.type_ b)) <= 1)
      by (destruct (Asm.type_ b); cbn; lia).
    lia. }
  destruct (patch_chain (pre ++ ws) (at_location a (Asm.location_ b)))
    as (C1 & C2 & C3 & C4 & C5);
    try (cbn [at_location Asm.with_overwrite_location Asm.overwrite_location_
              Asm.buffer_]; lia).
  cbn [at_location Asm.with_overwrite_location Asm.overwrite_location_
       Asm.buffer_ Asm.overwriting_ Asm.branches_] in C1, C2, C3, C4, C5.
  split; [|split; [exact C1|split; [|split; [congruence|exact C5]]]].
  - unfold origin_distance. intros R. rewrite <- (field_of_words b offset ws G W R).
    unfold offset_field, words_field, offset_words in *. rewrite OL.
    assert (Sz : Asm.GetOffsetSize b = 13 \/ Asm.GetOffsetSize b = 21
                \/ Asm.GetOffsetSize b = 32)
      by (unfold Asm.GetOffsetSize; destruct (Asm.type_ b); cbn; auto).
    destruct Sz as [Sz | [Sz | Sz]]; rewrite Sz in *.
    + destruct W as (w & -> & _). cbn [Z.eqb Pos.eqb Asm.kOffset13].
      rewrite (C2 (List.length pre) w); [reflexivity|].
      rewrite nth_error_app2, Nat.sub_diag by lia. reflexivity.
    + destruct W as (w & -> & _).
      change (13 =? Asm.kOffset13) with true.
      change (21 =? Asm.kOffset13) with false. change (21 =? Asm.kOffset21) with true.
      cbv iota.
      rewrite (C2 (List.length pre) w); [reflexivity|].
      rewrite nth_error_app2, Nat.sub_diag by lia. reflexivity.
    + destruct W as (w1 & w2 & -> & _).
      change (32 =? Asm.kOffset13) with false. change (32 =? Asm.kOffset21) with false.
      cbv iota.
      rewrite (C2 (List.length pre) w1)
        by (rewrite nth_error_app2, Nat.sub_diag by lia; reflexivity).
      replace (Asm.location_ b + 4 * Z.of_nat (List.length pre) + 4)
        with (Asm.location_ b + 4 * Z.of_nat (S (List.length pre))) by lia.
      rewrite (C2 (S (List.length pre)) w2); [reflexivity|].
      rewrite nth_error_app2 by lia.
      replace (S (List.length pre) - List.length pre)%nat with 1%nat by lia.
      reflexivity.
  - intros p Hp. apply C3. rewrite <- SZ. exact Hp.
Qed.

(** *** All the branches of a method *)

Definition in_code (size : Z) (b : Asm.Branch) : Prop :=
  0 <= Asm.location_ b /\ Asm.location_ b + Asm.GetSize b <= size.

Definition apart (b1 b2 : Asm.Branch) : Prop :=
  Asm.location_ b1 + Asm.GetSize b1 <= Asm.location_ b2
  \/ Asm.location_ b2 + Asm.GetSize b2 <= Asm.location_ b1.

Lemma offset_field_ext (code code' : list Z) (b : Asm.Branch) :
  0 <= Asm.location_ b < 2 ^ 32 - 12 ->
  (forall p, Asm.location_ b <= p < Asm.location_ b + Asm.GetSize b ->
     Asm.byte_at code' p = Asm.byte_at code p) ->
  offset_field code' b = offset_field code b.
Proof.
  intros H0 H. unfold offset_field, Asm.GetOffsetLocation, Asm.GetOffsetSize.
  unfold Asm.GetSize, Asm.GetLength in H.
  destruct (Asm.type_ b);
    cbn [Asm.branch_info_ Asm.offset_size Asm.instr_offset Asm.length] in *;
    rewrite u32_small in * by lia;
    match goal with
    | |- context [if ?c then _ else _] =>
        let v := eval vm_compute in c in change c with v; cbv iota
    end;
    repeat match goal with
    | |- context [if ?c then _ else _] =>
        let v := eval vm_compute in c in change c with v; cbv iota
    end;
    rewrite ?(Load32_other code code') by (intros p Hp; apply H; lia);
    reflexivity.
Qed.

Lemma EmitBranchList_offsets (AT : GpuRegister) (bs : list Asm.Branch)
    (a a' : Asm.Assembler) :
  Asm.overwriting_ a = true ->
  Asm.EmitBranchList AT bs a = Some (tt, a') ->
  Forall (in_code (Asm.buf_Size (Asm.buffer_ a))) bs ->
  ForallOrdPairs apart bs ->
  Asm.buf_Size (Asm.buffer_ a) < 2 ^ 32 - 12 ->
  (forall b, In b bs -> reaches (Asm.GetOffsetSize b) (origin_distance b) ->
     offset_field (Asm.buffer_ a') b = origin_distance b)
  /\ Asm.buf_Size (Asm.buffer_ a') = Asm.buf_Size (Asm.buffer_ a)
  /\ (forall p, (forall b, In b bs ->
                   p < Asm.location_ b \/ Asm.location_ b + Asm.GetSize b <= p) ->
        Asm.byte_at (Asm.buffer_ a') p = Asm.byte_at (Asm.buffer_ a) p)
  /\ Asm.overwriting_ a' = true
  /\ Asm.branches_ a' = Asm.branches_ a.
Proof.
  revert a. induction bs as [|b bs IH]; intros a Ho H HI HA HS; cbn [Asm.EmitBranchList] in H.
  - unfold Asm.ret in H. apply Some_inj in H. apply (f_equal snd) in H. cbn in H.
    subst a'. repeat split; try assumption. intros b [].
  - apply bind_Some in H. destruct H as ([] & a1 & H1 & H2).
    inversion HI as [|? ? [I0 I1] HI']. subst.
    inversion HA as [|? ? HA1 HA2]. subst.
    destruct (sizes_small b) as [SB _].
    destruct (EmitBranch_offset AT b a a1 Ho H1 I0 I1 ltac:(lia))
      as (E1 & E2 & E3 & E4 & E5).
    destruct (IH a1 E4 H2) as (J1 & J2 & J3 & J4 & J5);
      rewrite ?E2; try assumption.
    split; [|split; [congruence|split; [|split; [exact J4|congruence]]]].
    + intros b' [<-|Hin] R.
      * rewrite (offset_field_ext (Asm.buffer_ a1)); [apply E1, R|lia|].
        intros p Hp. apply J3. intros b2 Hin2.
        pose proof (proj1 (Forall_forall _ _) HA1 b2 Hin2) as [A|A]; lia.
      * apply J1; assumption.
    + intros p Hp. rewrite J3 by (intros b2 Hin2; apply Hp; right; exact Hin2).
      apply E3, Hp. left. reflexivity.
Qed.

Lemma EmitBranches_offsets (AT : GpuRegister) (a a' : Asm.Assembler) :
  Asm.EmitBranches AT a = Some (tt, a') ->
  Forall (in_code (Asm.buf_Size (Asm.buffer_ a))) (Asm.branches_ a) ->
  ForallOrdPairs apart (Asm.branches_ a) ->
  Asm.buf_Size (Asm.buffer_ a) < 2 ^ 32 - 12 ->
  forall b, In b (Asm.branches_ a) ->
    reaches (Asm.GetOffsetSize b) (origin_distance b) ->
    offset_field (Asm.buffer_ a') b = origin_distance b.
Proof.
  intros H HI HA HS b Hin R. unfold Asm.EmitBranches in H. inv_run.
  match goal with
  | E : Asm.EmitBranchList _ _ ?a0 = Some (_, ?a1) |- _ =>
      destruct (EmitBranchList_offsets AT (Asm.branches_ a) a0 a1 eq_refl) as (O & _)
  end; try assumption.
  - match goal with E : Asm.EmitBranchList _ _ _ = Some (?u, _) |- _ => destruct u end.
    assumption.
  - cbn. apply O; assumption.
Qed.

(** *** From the fixed point to the reach of the encodings *)

Lemma PromoteLoop_settled (bs bs' : list Asm.Branch) :
  Asm.PromoteLoop (S (Asm.short_count bs)) bs = Asm.Settled bs' ->
  forall b, In b bs' ->
    Asm.IsResolved b = true
    /\ (Asm.IsLong b = false ->
        IsInt (Asm.GetOffsetSize b) (biased (distance_of b)) = true).
Proof.
  intros H b Hin. apply PromoteLoop_fixed_point in H. destruct H as [H _].
  apply In_nth_error in Hin. destruct Hin as [j Hj].
  assert (Hlt : (j < List.length bs')%nat) by (apply nth_error_Some; congruence).
  destruct (PromotePass_settled _ 0 bs' H j b ltac:(lia) Hj) as [R P].
  split; [exact R|]. intros L.
  destruct (PromoteIfNeeded_cases b b 0 P) as [(_ & _ & F)|(D & _)]; [auto|lia].
Qed.

Lemma GetLabelLocation_nonneg (l : Asm.Riscv64Label) (a a' : Asm.Assembler) (loc : Z) :
  Asm.GetLabelLocation l a = Some (loc, a') -> 0 <= loc.
Proof.
  unfold Asm.GetLabelLocation. intros H. inv_run.
  match goal with
  | H : (if ?c then _ else _) _ = Some _ |- _ => destruct c
  end; inv_run; apply u32_range.
Qed.

Lemma AlignLongLiterals_branches (a a' : Asm.Assembler) :
  Asm.AlignLongLiterals a = Some (tt, a') ->
  Asm.buffer_ a' = Asm.buffer_ a /\ Asm.branches_ a' = Asm.branches_ a
  \/ exists loc, 0 <= loc /\ Asm.branches_ a' = lower_targets loc (Asm.branches_ a).
Proof.
  unfold Asm.AlignLongLiterals. intros H. inv_run.
  destruct (Asm.long_literals_ a) as [|front rest]; inv_run; [left; split; reflexivity|].
  match goal with
  | R : Asm.GetLabelLocation _ _ = Some _ |- _ =>
      pose proof (GetLabelLocation_state _ _ _ _ R); subst;
      pose proof (GetLabelLocation_nonneg _ _ _ _ R) as NN
  end.
  match goal with
  | H : (if ?c then _ else _) _ = Some _ |- _ => destruct c
  end; inv_run.
  - right. eexists. split; [exact NN|reflexivity].
  - left. split; reflexivity.
Qed.

Lemma PromoteBranches_branches (a a' : Asm.Assembler) :
  Asm.PromoteBranches a = Some (tt, a') ->
  exists bs,
    Asm.PromoteLoop (S (Asm.short_count (Asm.branches_ a))) (Asm.branches_ a)
    = Asm.Settled bs
    /\ (Asm.branches_ a' = bs
        \/ exists loc, 0 <= loc /\ Asm.branches_ a' = lower_targets loc bs).
Proof.
  unfold Asm.PromoteBranches. intros H. inv_run.
  destruct (Asm.PromoteLoop _ (Asm.branches_ a)) as [bs| |] eqn:P;
    try (unfold Asm.fatal in *; discriminate).
  inv_run. exists bs. split; [reflexivity|].
  match goal with
  | H : Asm.AlignLongLiterals ?s = Some (?u, _) |- _ =>
      destruct u; apply AlignLongLiterals_branches in H;
      assert (B : Asm.branches_ s = bs)
        by (destruct (rev bs); reflexivity);
      rewrite B in H; destruct H as [[_ H]|H]; [left|right]; exact H
  end.
Qed.

Lemma biased_fit (size d e : Z) :
  8 <= size -> IsInt size (biased d) = true -> - 128 <= e <= 128 ->
  IsInt size (d + e) = true.
Proof.
  rewrite !IsInt_range. unfold biased, Asm.kMaxBranchSize, Asm.kMaxBranchLength.
  intros Hs H He.
  assert (P : 2 ^ 7 <= 2 ^ (size - 1)) by (apply Z.pow_le_mono_r; lia).
  change (2 ^ 7) with 128 in P.
  destruct (Z.leb_spec 0 d); lia.
Qed.

Lemma short_sizes (b : Asm.Branch) :
  Asm.IsLong b = false ->
  (Asm.GetOffsetSize b = 13 \/ Asm.GetOffsetSize b = 21)
  /\ Asm.instr_offset (Asm.branch_info_ (Asm.type_ b)) = 0.
Proof.
  unfold Asm.IsLong, Asm.GetOffsetSize.
  destruct (Asm.type_ b); intros H; try discriminate; cbn; auto.
Qed.

Lemma final_short_fit (a a1 : Asm.Assembler) (b : Asm.Branch) :
  Asm.PromoteBranches a = Some (tt, a1) ->
  In b (Asm.branches_ a1) ->
  Asm.IsLong b = false ->
  0 <= Asm.location_ b < 2 ^ 31 ->
  Asm.target_ b < 2 ^ 32 - 4 ->
  IsInt (Asm.GetOffsetSize b) (distance_of b) = true.
Proof.
  intros H Hin L Hl Ht.
  destruct (PromoteBranches_branches a a1 H) as (bs & P & [E|(loc & Hloc & E)]);
    rewrite E in Hin.
  - destruct (PromoteLoop_settled _ _ P b Hin) as [_ F].
    destruct (short_sizes b L) as [S _].
    rewrite <- (Z.add_0_r (distance_of b)).
    apply biased_fit; [destruct S; lia|apply F, L|lia].
  - unfold lower_targets in Hin. apply in_map_iff in Hin.
    destruct Hin as (b0 & Eb & Hin0).
    destruct (PromoteLoop_settled _ _ P b0 Hin0) as [_ F].
    destruct (loc <=? Asm.target_ b0) eqn:C.
    + apply Z.leb_le in C. subst b.
      change (Asm.IsLong (Asm.Resolve b0 (u32 (Asm.target_ b0 - 4))))
        with (Asm.IsLong b0) in L.
      change (Asm.GetOffsetSize (Asm.Resolve b0 (u32 (Asm.target_ b0 - 4))))
        with (Asm.GetOffsetSize b0).
      cbn [Asm.target_ Asm.location_ Asm.Resolve] in Ht, Hl.
      destruct (short_sizes b0 L) as [S _].
      assert (T : u32 (Asm.target_ b0 - 4) = Asm.target_ b0 - 4).
      { pose proof (F L) as F'. apply IsInt_range in F'.
        unfold biased, distance_of, Asm.kMaxBranchSize, Asm.kMaxBranchLength in F'.
        assert (2 ^ (Asm.GetOffsetSize b0 - 1) <= 2 ^ 20)
          by (apply Z.pow_le_mono_r; destruct S; lia).
        change (2 ^ 20) with 1048576 in *. change (2 ^ 31) with 2147483648 in *.
        unfold u32 in *. change (2 ^ 32) with 4294967296 in *.
        destruct (0 <=? Asm.target_ b0 - Asm.location_ b0);
          Z.div_mod_to_equations; lia. }
      unfold distance_of. cbn [Asm.target_ Asm.location_ Asm.Resolve]. rewrite T.
      replace (Asm.target_ b0 - 4 - Asm.location_ b0)
        with (distance_of b0 + (-4)) by (unfold distance_of; lia).
      apply biased_fit; [destruct S; lia|apply F, L|lia].
    + subst b. destruct (short_sizes b0 L) as [S _].
      rewrite <- (Z.add_0_r (distance_of b0)).
      apply biased_fit; [destruct S; lia|apply F, L|lia].
Qed.

Lemma short_reaches (b : Asm.Branch) :
  Asm.IsLong b = false ->
  0 <= Asm.location_ b < 2 ^ 32 ->
  IsInt (Asm.GetOffsetSize b) (distance_of b) = true ->
  origin_distance b mod 2 = 0 ->
  reaches (Asm.GetOffsetSize b) (origin_distance b).
Proof.
  intros L H0 F E. destruct (short_sizes b L) as [S I0].
  assert (O : origin_distance b = distance_of b).
  { unfold origin_distance, distance_of, Asm.GetOffsetLocation.
    rewrite I0, Z.mul_0_l, Z.add_0_r, u32_small by lia. reflexivity. }
  rewrite O in *. apply IsInt_range in F. unfold reaches.
  destruct S as [S | S]; rewrite S in *;
    (split; [exact F|exact E]).
Qed.

Lemma long_reaches (b : Asm.Branch) (size : Z) :
  Asm.IsLong b = true ->
  in_code size b -> 0 <= Asm.target_ b <= size -> size < 2 ^ 31 - 2 ^ 11 ->
  reaches (Asm.GetOffsetSize b) (origin_distance b).
Proof.
  intros L [I0 I1] T S.
  assert (G : Asm.GetOffsetSize b = 32
              /\ 0 <= Asm.instr_offset (Asm.branch_info_ (Asm.type_ b)) * 4
                 <= Asm.GetSize b).
  { unfold Asm.IsLong, Asm.GetOffsetSize, Asm.GetSize, Asm.GetLength in *.
    destruct (Asm.type_ b); try discriminate; cbn; split; try reflexivity; lia. }
  destruct G as [G1 G2]. unfold reaches. rewrite G1.
  change (32 =? Asm.kOffset32) with true. cbv iota.
  unfold origin_distance, Asm.GetOffsetLocation.
  change (2 ^ 31) with 2147483648 in *. change (2 ^ 11) with 2048 in *.
  rewrite u32_small by (change (2 ^ 32) with 4294967296; lia). lia.
Qed.

Lemma offsets_after_finalization (AT : GpuRegister) (a a1 a2 : Asm.Assembler) :
  Asm.PromoteBranches a = Some (tt, a1) ->
  Asm.EmitBranches AT a1 = Some (tt, a2) ->
  Asm.buf_Size (Asm.buffer_ a1) < 2 ^ 31 - 2 ^ 11 ->
  Forall (in_code (Asm.buf_Size (Asm.buffer_ a1))) (Asm.branches_ a1) ->
  ForallOrdPairs apart (Asm.branches_ a1) ->
  (forall b, In b (Asm.branches_ a1) ->
     0 <= Asm.target_ b <= Asm.buf_Size (Asm.buffer_ a1)
     /\ origin_distance b mod 2 = 0) ->
  forall b, In b (Asm.branches_ a1) ->
    offset_field (Asm.buffer_ a2) b = origin_distance b.
Proof.
  intros HP HE HS HI HA HT b Hin.
  change (2 ^ 31) with 2147483648 in HS. change (2 ^ 11) with 2048 in HS.
  apply (EmitBranches_offsets AT a1 a2 HE HI HA); [|exact Hin|].
  - change (2 ^ 32) with 4294967296. lia.
  - destruct (HT b Hin) as [T E].
    pose proof (proj1 (Forall_forall _ _) HI b Hin) as IC.
    destruct (Asm.IsLong b) eqn:L.
    + apply (long_reaches b _ L IC T).
      change (2 ^ 31) with 2147483648. change (2 ^ 11) with 2048. exact HS.
    + destruct IC as [I0 I1]. destruct (sizes_small b) as [SB _].
      apply short_reaches; [exact L| | |exact E].
      * change (2 ^ 32) with 4294967296. lia.
      * apply (final_short_fit a a1 b HP Hin L).
        -- change (2 ^ 31) with 2147483648. lia.
        -- change (2 ^ 32) with 4294967296. lia.
Qed.

(** A conditional branch at 0 with its target 4000 bytes ahead: what a
    forward Beqc over 999 instructions is once its label is bound. *)
Definition fitting_branch : Asm.Branch :=
  {| Asm.old_location_ := 0; Asm.location_ := 0; Asm.target_ := 4000;
     Asm.lhs_reg_ := A0; Asm.rhs_reg_ := A1; Asm.condition_ := Asm.kCondEQ;
     Asm.type_ := Asm.kCondBranch; Asm.old_type_ := Asm.kCondBranch |}.

Definition far_branch : Asm.M unit :=
  Asm.bind (Asm.Beqc_label A0 A1 Asm.new_label false) (fun label =>
  Asm.bind (Asm.Nops 999) (fun _ =>
  Asm.bind (Asm.Bind label) (fun _ => Asm.ret tt))).


(** The rule of promotion and the end of the loop. Under the default
    threshold PromoteIfNeeded leaves a resolved short branch alone when
    its distance, taken 128 bytes (kMaxBranchSize) further from zero, fits
    its offset-size class, and promotes it only when that biased distance
    does not fit. The loop of PromoteBranches ends, and at its fixed point
    every branch is resolved and every short branch fits in this sense. *)
Lemma promotion_rule :
  (forall b delta b',
      Asm.PromoteIfNeeded b Asm.kDefaultMaxShortDistance = Some (delta, b') ->
      (Asm.IsResolved b = true -> Asm.IsLong b = false ->
       IsInt (Asm.GetOffsetSize b) (biased (distance_of b)) = true ->
       delta = 0 /\ b' = b)
      /\ (delta <> 0 ->
          Asm.IsLong b = false /\ Asm.IsLong b' = true
          /\ IsInt (Asm.GetOffsetSize b) (biased (distance_of b)) = false)
      /\ (Asm.IsResolved b = true -> Asm.IsLong b = false ->
          IsInt (Asm.GetOffsetSize b) (biased (distance_of b)) = false ->
          delta <> 0 /\ Asm.IsLong b' = true))
  /\ (forall bs,
         Asm.PromoteLoop (S (Asm.short_count bs)) bs <> Asm.OutOfFuel
         /\ forall bs',
              Asm.PromoteLoop (S (Asm.short_count bs)) bs = Asm.Settled bs' ->
              forall b, In b bs' ->
                Asm.IsResolved b = true
                /\ (Asm.IsLong b = false ->
                    IsInt (Asm.GetOffsetSize b) (biased (distance_of b)) = true)).
Proof.
  split.
  - intros b delta b' H. split; [|split].
    + intros R L F. rewrite (PromoteIfNeeded_fits b R L F) in H.
      apply Some_inj in H. split; congruence.
    + intros D. destruct (PromoteIfNeeded_cases b b' delta H)
        as [(E & _)|(_ & L & L' & _ & F & _)]; [contradiction|].
      repeat split; assumption.
    + intros R L F. destruct (PromoteIfNeeded_cases b b' delta H)
        as [(_ & _ & F')|(D & _ & L' & _)].
      * rewrite (F' R L) in F. discriminate.
      * split; [lia|exact L'].
  - intros bs. split; [apply PromoteLoop_terminates; lia|].
    intros bs' H. apply (PromoteLoop_settled bs bs' H).
Qed.


(** * More of the code

    The functions around the ones studied above, embedded the same way. *)

(** ** Instruction-set features: construction and comparison *)

Module Detection.
Local Open Scope string_scope.

(** What a factory function hands back: the [bits_] of the new object and
    whether a line went to [LOG(WARNING)]. *)
Record Built : Set := { features : Z; warned : bool }.

Definition default_bits : Z :=
  Z.lor (Z.lor (Z.lor (Z.lor (Z.lor Features.kIBitfield Features.kMBitfield)
                             Features.kABitfield)
                      Features.kFBitfield) Features.kDBitfield)
        Features.kCBitfield.

Definition FromVariant (variant : string) : Built :=
  let warned := negb (String.eqb variant "generic") in
  let bits := default_bits in
  {| features := Features.FromBitmap bits; warned := warned |}.

(** The scan of /proc/cpuinfo is compiled out ([#if 0]). *)
Definition FromCpuInfo : Built :=
  let bits := 0 in
  let bits := default_bits in
  {| features := Features.FromBitmap bits; warned := false |}.

(** [UNIMPLEMENTED(WARNING)], then the compile-time defaults. *)
Definition FromHwcap : Built :=
  {| features := Features.FromCppDefines; warned := true |}.
Definition FromAssembly : Built :=
  {| features := Features.FromCppDefines; warned := true |}.
Definition FromCpuFeatures : Built :=
  {| features := Features.FromCppDefines; warned := true |}.

(** Both arguments are [ATTRIBUTE_UNUSED], and [bits_] is not read. *)
Definition AddFeaturesFromSplitString (bits_ : Z) (features : list string) : Z :=
  let bits := default_bits in
  Features.FromBitmap bits.

(** The argument of [Equals]: an object of this class, or the features of
    another instruction set. *)
Inductive InstructionSetFeatures : Set :=
| Riscv64Features (bits_ : Z)
| OtherFeatures.

Definition IsRiscv64 (other : InstructionSetFeatures) : bool :=
  match other with Riscv64Features _ => true | OtherFeatures => false end.

Definition Equals (bits_ : Z) (other : InstructionSetFeatures) : bool :=
  if negb (IsRiscv64 other) then false
  else match other with
       | Riscv64Features other_bits => (bits_ =? other_bits)%Z
       | OtherFeatures => false
       end.

End Detection.

(** ** JNI calling convention: spill masks and the rest of the interface *)

Module JniSpill.

Definition IsGpuRegister (r : Jni.ManagedRegister) : bool :=
  match r with Jni.FromGpuRegister _ => true | _ => false end.
Definition IsFpuRegister (r : Jni.ManagedRegister) : bool :=
  match r with Jni.FromFpuRegister _ => true | _ => false end.

(** The two [constexpr] loops, over the table they are given. *)
Definition CoreCalleeSpillMask_of (regs : list Jni.ManagedRegister) : Z :=
  (* RA is a special callee save which is not reported by CalleeSaveRegisters(). *)
  let result := u32 (Z.shiftl 1 (gpu_num RA)) in
  fold_left (fun result r =>
               match r with
               | Jni.FromGpuRegister g => u32 (Z.lor result (Z.shiftl 1 (gpu_num g)))
               | _ => result
               end) regs result.

Definition FpCalleeSpillMask_of (regs : list Jni.ManagedRegister) : Z :=
  let result := 0 in
  fold_left (fun result r =>
               match r with
               | Jni.FromFpuRegister f => u32 (Z.lor result (Z.shiftl 1 (fpu_num f)))
               | _ => result
               end) regs result.

Definition CalculateCoreCalleeSpillMask : Z :=
  CoreCalleeSpillMask_of Jni.kCalleeSaveRegisters.
Definition CalculateFpCalleeSpillMask : Z :=
  FpCalleeSpillMask_of Jni.kCalleeSaveRegisters.

Definition kCoreCalleeSpillMask : Z := CalculateCoreCalleeSpillMask.
Definition kFpCalleeSpillMask : Z := CalculateFpCalleeSpillMask.

Definition CoreSpillMask (m : Jni.Method) : Z :=
  if Jni.is_critical_native_ m then 0 else kCoreCalleeSpillMask.
Definition FpSpillMask (m : Jni.Method) : Z :=
  if Jni.is_critical_native_ m then 0 else kFpCalleeSpillMask.

(** The first character of the shorty decides. *)
Definition ReturnRegisterForShorty (shorty : string) : Jni.ManagedRegister :=
  match shorty with
  | String c _ =>
      if Ascii.eqb c "F" || Ascii.eqb c "D" then Jni.FromFpuRegister FA0
      else if Ascii.eqb c "V" then Jni.NoRegister
      else Jni.FromGpuRegister A0
  | EmptyString => Jni.FromGpuRegister A0   (* the terminating NUL *)
  end.

Definition IntReturnRegister : Jni.ManagedRegister := Jni.FromGpuRegister A0.
Definition ReturnScratchRegister : Jni.ManagedRegister := Jni.NoRegister.

Definition SavedLocalReferenceCookieRegister : Jni.ManagedRegister :=
  Jni.FromGpuRegister S10.

(** [None] is the failed [CHECK(IsCriticalNative())]. *)
Definition HiddenArgumentRegister (m : Jni.Method) : option Jni.ManagedRegister :=
  if negb (Jni.is_critical_native_ m) then None
  else Some (Jni.FromGpuRegister T0).

(** The number of bits set among the low 32. *)
Definition popcount (v : Z) : Z :=
  Z.of_nat (List.length (filter (Z.testbit v) (map Z.of_nat (seq 0 32)))).

End JniSpill.

(** ** JNI calling convention: stack offsets *)

Module JniStack.

(** [displacement_] belongs to the base class and [OutFrameSize()] to the
    method; both are given. [size_t] arithmetic wraps at 64 bits. [None]
    is a failed CHECK. *)
Definition CurrentParamStackOffset (k : Jni.ParamKind) (it : Jni.Iterator)
    (displacement_ out_frame_size : Z) : option Z :=
  if negb (Jni.IsCurrentParamOnStack k it) then None
  else
    let gp_args := u32 (Jni.itr_args_ it - Jni.itr_float_and_doubles_ it) in
    let can_spilled_to_gp := 0 in
    let args_on_stack :=
      u64 (Jni.itr_args_ it - Z.min Jni.kMaxIntLikeRegisterArguments gp_args) in
    let can_spilled_to_gp :=
      if gp_args <? 8 then u32 (can_spilled_to_gp + u32 (8 - gp_args))
      else can_spilled_to_gp in
    let args_on_stack :=
      u64 (args_on_stack
           - Z.min (u64 (Jni.kMaxFloatOrDoubleRegisterArguments + can_spilled_to_gp))
                   (Jni.itr_float_and_doubles_ it)) in
    let offset :=
      u64 (u64 (u64 displacement_ - out_frame_size)
           + u64 (args_on_stack * Jni.kFramePointerSize)) in
    if negb (offset <? out_frame_size) then None
    else Some offset.

(** The parameters of a list that go to the stack, counted. *)
Definition on_stack (p : Jni.Placement) : bool :=
  match p with Jni.OnStack => true | _ => false end.

Definition stack_args (ks : list Jni.ParamKind) : Z :=
  Z.of_nat (List.length (filter on_stack (Jni.placements ks Jni.ResetIterator))).

End JniStack.

(** ** Managed runtime calling convention *)

Module Managed.

Definition MethodRegister : Jni.ManagedRegister := Jni.FromGpuRegister A0.

Definition IsCurrentParamInRegister (k : Jni.ParamKind) (it : Jni.Iterator) : bool :=
  let gp_args := u32 (Jni.itr_args_ it - Jni.itr_float_and_doubles_ it) in
  if Jni.IsCurrentParamAFloatOrDouble k then
    let can_spilled_to_gp := 0 in
    let can_spilled_to_gp :=
      if gp_args <? u32 (8 - 1) (* method *)
      then u32 (can_spilled_to_gp + u32 (u32 (8 - gp_args) - 1))
      else can_spilled_to_gp in
    Jni.itr_float_and_doubles_ it
      <? Jni.kMaxFloatOrDoubleRegisterArguments + can_spilled_to_gp
  else
    let spilled_to_gp := 0 in
    let spilled_to_gp :=
      if gp_args <? u32 (8 - 1) then
        u32 (spilled_to_gp +
             (if Jni.kMaxFloatOrDoubleRegisterArguments <=? Jni.itr_float_and_doubles_ it
              then Jni.itr_float_and_doubles_ it - Jni.kMaxFloatOrDoubleRegisterArguments
              else 0))
      else spilled_to_gp in
    u32 (u32 (1 + gp_args) + spilled_to_gp) <? Jni.kMaxIntLikeRegisterArguments.

Definition IsCurrentParamOnStack (k : Jni.ParamKind) (it : Jni.Iterator) : bool :=
  negb (IsCurrentParamInRegister k it).

(** [None] stands for a failed CHECK (or a read past the table). *)
Definition CurrentParamRegister (k : Jni.ParamKind) (it : Jni.Iterator)
  : option Jni.ManagedRegister :=
  if negb (IsCurrentParamInRegister k it) then None
  else
    let gp_reg := sext 32 (Jni.itr_args_ it - Jni.itr_float_and_doubles_ it) in
    if Jni.IsCurrentParamAFloatOrDouble k then
      if Jni.itr_float_and_doubles_ it <? Jni.kMaxFloatOrDoubleRegisterArguments then
        option_map Jni.FromFpuRegister
          (Jni.index Jni.kFpuArgumentRegisters (Jni.itr_float_and_doubles_ it))
      else
        let spilled_to_gp :=
          u32 (Jni.itr_float_and_doubles_ it - Jni.kMaxFloatOrDoubleRegisterArguments) in
        if negb (u32 (u32 (1 + gp_reg) + spilled_to_gp)
                 <? Jni.kMaxIntLikeRegisterArguments)
        then None
        else option_map Jni.FromGpuRegister
               (Jni.index Jni.kGpuArgumentRegisters
                          (u32 (u32 (1 + gp_reg) + spilled_to_gp)))
    else
      let spilled_to_gp := 0 in
      let spilled_to_gp :=
        u32 (spilled_to_gp +
             (if Jni.kMaxFloatOrDoubleRegisterArguments <=? Jni.itr_float_and_doubles_ it
              then Jni.itr_float_and_doubles_ it - Jni.kMaxFloatOrDoubleRegisterArguments
              else 0)) in
      if negb (u32 (u32 (1 + gp_reg) + spilled_to_gp)
               <? Jni.kMaxIntLikeRegisterArguments)
      then None
      else option_map Jni.FromGpuRegister
             (Jni.index Jni.kGpuArgumentRegisters
                        (u32 (u32 (1 + gp_reg) + spilled_to_gp))).

(** [itr_slots_] belongs to the base class and is given. *)
Definition CurrentParamStackOffset (displacement_ itr_slots_ : Z) : Z :=
  u64 (u64 (u64 displacement_ + Jni.kFramePointerSize) + u64 (itr_slots_ * 4)).

Definition place (k : Jni.ParamKind) (it : Jni.Iterator) : Jni.Placement :=
  if IsCurrentParamOnStack k it then Jni.OnStack
  else match CurrentParamRegister k it with
       | Some r => Jni.InRegister r
       | None => Jni.Aborts
       end.

Fixpoint placements (ks : list Jni.ParamKind) (it : Jni.Iterator)
  : list Jni.Placement :=
  match ks with
  | [] => []
  | k :: ks' => place k it :: placements ks' (Jni.Next k it)
  end.

End Managed.

(** ** Positions after branch promotion *)

Module Adjust.

(** The three fields [GetAdjustedPosition] keeps between calls. *)
Record Cache : Set := {
  last_position_adjustment_ : Z;   (* uint32_t *)
  last_old_position_ : Z;          (* uint32_t *)
  last_branch_id_ : Z              (* uint32_t *)
}.

(** As the constructor leaves them. *)
Definition fresh : Cache :=
  {| last_position_adjustment_ := 0; last_old_position_ := 0;
     last_branch_id_ := 0 |}.

(** The [while] loop. It stops at the latest when [last_branch_id_] has
    run through the branches, which bounds it; [None] is the failed
    CHECK_LT of [GetBranch]. *)
Fixpoint advance (fuel : nat) (branches_ : list Asm.Branch) (old_position : Z)
    (c : Cache) : option Cache :=
  if negb (last_branch_id_ c =? Z.of_nat (List.length branches_)) then
    match fuel with
    | O => None
    | S fuel' =>
        if negb (last_branch_id_ c <? Z.of_nat (List.length branches_)) then None
        else
          match nth_error branches_ (Z.to_nat (last_branch_id_ c)) with
          | None => None
          | Some branch =>
              if u32 (old_position + last_position_adjustment_ c)
                 <=? Asm.location_ branch
              then Some c
              else
                advance fuel' branches_ old_position
                  {| last_position_adjustment_ :=
                       u32 (last_position_adjustment_ c
                            + u32 (Asm.GetSize branch - Asm.GetOldSize branch));
                     last_old_position_ := last_old_position_ c;
                     last_branch_id_ := u32 (last_branch_id_ c + 1) |}
          end
    end
  else Some c.

Definition GetAdjustedPosition (branches_ : list Asm.Branch) (c : Cache)
    (old_position : Z) : option (Z * Cache) :=
  let c := if old_position <? last_old_position_ c then fresh else c in
  match advance (S (List.length branches_)) branches_ old_position c with
  | None => None
  | Some c =>
      let c := {| last_position_adjustment_ := last_position_adjustment_ c;
                  last_old_position_ := old_position;
                  last_branch_id_ := last_branch_id_ c |} in
      Some (u32 (old_position + last_position_adjustment_ c), c)
  end.

(** A caller's loop over positions, as in [PatchCFI]. *)
Fixpoint adjust_all (branches_ : list Asm.Branch) (c : Cache) (positions : list Z)
  : option (list Z) :=
  match positions with
  | [] => Some []
  | p :: rest =>
      match GetAdjustedPosition branches_ c p with
      | None => None
      | Some (q, c') =>
          match adjust_all branches_ c' rest with
          | None => None
          | Some qs => Some (q :: qs)
          end
      end
  end.

(** What the branches were expanded by, in all. *)
Fixpoint growth (branches_ : list Asm.Branch) : Z :=
  match branches_ with
  | [] => 0
  | b :: rest => (Asm.GetSize b - Asm.GetOldSize b) + growth rest
  end.

(** How far the loop gets for a position when nothing wraps: the number
    of leading branches it passes, [adj] being the adjustment on entry. *)
Fixpoint reach (branches_ : list Asm.Branch) (old_position adj : Z) : nat :=
  match branches_ with
  | [] => O
  | b :: rest =>
      if old_position + adj <=? Asm.location_ b then O
      else S (reach rest old_position (adj + (Asm.GetSize b - Asm.GetOldSize b)))
  end.

(** The adjusted position, computed from the start of the branches. *)
Definition adjusted (branches_ : list Asm.Branch) (old_position : Z) : Z :=
  old_position + growth (firstn (reach branches_ old_position 0) branches_).

End Adjust.

(** ** Labels: the branches that wait for a label *)

Module Links.

(** The list [Bind] walks: the ids of the branches that refer to a label
    that is not bound yet, the most recent first. Each branch keeps the
    link to the one before it in its placeholder. *)
Fixpoint uses (fuel : nat) (buf locs : list Z) (position : Z) : list Z :=
  if 0 <? position then
    match fuel with
    | O => []
    | S fuel' =>
        let id := u32 (position - Asm.kPointerSize) in
        match nth_error locs (Z.to_nat id) with
        | Some loc => id :: uses fuel' buf locs (sext 32 (Asm.buf_Load32 buf loc))
        | None => []
        end
    end
  else [].

Definition uses_of (a : Asm.Assembler) (label : Asm.Riscv64Label) : list Z :=
  uses (S (List.length (Asm.branches_ a))) (Asm.buffer_ a)
       (map Asm.location_ (Asm.branches_ a)) (Asm.position_ label).

Definition is_use (ids : list Z) (i : nat) : bool :=
  existsb (Z.eqb (Z.of_nat i)) ids.

End Links.

(** ** More of the assembler: integer instructions and macro
    instructions (the build without RISCV64_VARIANTS_THEAD) *)

Module Macro.
Import Asm.
Local Open Scope asm_scope.

(** *** Instructions *)

Definition Slti (rd rs1 : GpuRegister) (offset : Z) : M unit :=
  EmitI (u16 offset) (gpu_num rs1) 0x2 (gpu_num rd) 0x13.

Definition Sltiu (rd rs1 : GpuRegister) (offset : Z) : M unit :=
  EmitI (u16 offset) (gpu_num rs1) 0x3 (gpu_num rd) 0x13.

Definition Xori (rd rs1 : GpuRegister) (offset : Z) : M unit :=
  EmitI (u16 offset) (gpu_num rs1) 0x4 (gpu_num rd) 0x13.

Definition Srai (rd rs1 : GpuRegister) (offset : Z) : M unit :=
  EmitI6 0x10 (u16 offset) (gpu_num rs1) 0x5 (gpu_num rd) 0x13.

Definition Andi (rd rs1 : GpuRegister) (offset : Z) : M unit :=
  EmitI (u16 offset) (gpu_num rs1) 0x7 (gpu_num rd) 0x13.

Definition Add (rd rs1 rs2 : GpuRegister) : M unit :=
  EmitR 0x0 (gpu_num rs2) (gpu_num rs1) 0x0 (gpu_num rd) 0x33.

Definition Sll (rd rs1 rs2 : GpuRegister) : M unit :=
  EmitR 0x0 (gpu_num rs2) (gpu_num rs1) 0x01 (gpu_num rd) 0x33.

Definition Slt (rd rs1 rs2 : GpuRegister) : M unit :=
  EmitR 0x0 (gpu_num rs2) (gpu_num rs1) 0x02 (gpu_num rd) 0x33.

Definition Sltu (rd rs1 rs2 : GpuRegister) : M unit :=
  EmitR 0x0 (gpu_num rs2) (gpu_num rs1) 0x03 (gpu_num rd) 0x33.

Definition Srl (rd rs1 rs2 : GpuRegister) : M unit :=
  EmitR 0x0 (gpu_num rs2) (gpu_num rs1) 0x05 (gpu_num rd) 0x33.

Definition And (rd rs1 rs2 : GpuRegister) : M unit :=
  EmitR 0x0 (gpu_num rs2) (gpu_num rs1) 0x07 (gpu_num rd) 0x33.

Definition Mul (rd rs1 rs2 : GpuRegister) : M unit :=
  EmitR 0x1 (gpu_num rs2) (gpu_num rs1) 0x0 (gpu_num rd) 0x33.

Definition Sub (rd rs1 rs2 : GpuRegister) : M unit :=
  EmitR 0x20 (gpu_num rs2) (gpu_num rs1) 0x0 (gpu_num rd) 0x33.

Definition Sra (rd rs1 rs2 : GpuRegister) : M unit :=
  EmitR 0x20 (gpu_num rs2) (gpu_num rs1) 0x05 (gpu_num rd) 0x33.

(** The shift amount is an [int16_t]; it takes the place of [rs2]. *)
Definition Slliw (rd rs1 : GpuRegister) (shamt : Z) : M unit :=
  let shamt := sext 16 shamt in
  CHECK (u16 shamt <? 32) ;;
  EmitR 0x0 (u32 shamt) (gpu_num rs1) 0x1 (gpu_num rd) 0x1b.

Definition Srliw (rd rs1 : GpuRegister) (shamt : Z) : M unit :=
  let shamt := sext 16 shamt in
  CHECK (u16 shamt <? 32) ;;
  EmitR 0x0 (u32 shamt) (gpu_num rs1) 0x5 (gpu_num rd) 0x1b.

Definition Sraiw (rd rs1 : GpuRegister) (shamt : Z) : M unit :=
  let shamt := sext 16 shamt in
  CHECK (u16 shamt <? 32) ;;
  EmitR 0x20 (u32 shamt) (gpu_num rs1) 0x5 (gpu_num rd) 0x1b.

Definition Addw (rd rs1 rs2 : GpuRegister) : M unit :=
  EmitR 0x0 (gpu_num rs2) (gpu_num rs1) 0x0 (gpu_num rd) 0x3b.

Definition Mulw (rd rs1 rs2 : GpuRegister) : M unit :=
  EmitR 0x1 (gpu_num rs2) (gpu_num rs1) 0x0 (gpu_num rd) 0x3b.

Definition Subw (rd rs1 rs2 : GpuRegister) : M unit :=
  EmitR 0x20 (gpu_num rs2) (gpu_num rs1) 0x0 (gpu_num rd) 0x3b.

Definition Sllw (rd rs1 rs2 : GpuRegister) : M unit :=
  EmitR 0x0 (gpu_num rs2) (gpu_num rs1) 0x1 (gpu_num rd) 0x3b.

Definition Srlw (rd rs1 rs2 : GpuRegister) : M unit :=
  EmitR 0x0 (gpu_num rs2) (gpu_num rs1) 0x5 (gpu_num rd) 0x3b.

Definition Sraw (rd rs1 rs2 : GpuRegister) : M unit :=
  EmitR 0x20 (gpu_num rs2) (gpu_num rs1) 0x5 (gpu_num rd) 0x3b.

(** *** Macro instructions *)

Definition Move (rd rs : GpuRegister) : M unit := Or rd rs ZERO.
Definition Clear (rd : GpuRegister) : M unit := Or rd ZERO ZERO.
Definition Not (rd rs : GpuRegister) : M unit := Xori rd rs (-1).

Section Scratch.
Variables TMP TMP2 : GpuRegister.

Definition Addiuw (rd rs : GpuRegister) (imm16 : Z) : M unit :=
  let imm16 := sext 16 imm16 in
  if IsInt 12 imm16 then Addiw rd rs imm16
  else
    let l := Z.land imm16 0xFFF in
    let h := Z.shiftr imm16 12 in
    let h := if negb (Z.land l 0x800 =? 0) then sext 32 (h + 1) else h in
    Lui TMP2 h ;;
    (if negb (l =? 0) then Addiw TMP2 TMP2 l else ret tt) ;;
    Addw rd TMP2 rs.

Definition Addiu (rd rs : GpuRegister) (imm16 : Z) : M unit :=
  let imm16 := sext 16 imm16 in
  if IsInt 12 imm16 then Addi rd rs imm16
  else
    let l := Z.land imm16 0xFFF in
    let h := Z.shiftr imm16 12 in
    let h := if negb (Z.land l 0x800 =? 0) then sext 32 (h + 1) else h in
    Lui TMP2 h ;;
    (if negb (l =? 0) then Addiw TMP2 TMP2 l else ret tt) ;;
    Add rd TMP2 rs.

Definition Addiuw32 (rt rs : GpuRegister) (value : Z) : M unit :=
  let value := sext 32 value in
  if IsInt 12 value then Addiw rt rs value
  else LoadConst32 TMP2 value ;; Addw rt rs TMP2.

Definition Addiu64 (rt rs : GpuRegister) (value : Z) (rtmp : GpuRegister) : M unit :=
  let value := sext 64 value in
  CHECK (negb (gpu_eqb rs rtmp)) ;;
  if IsInt 12 value then Addi rt rs value
  else LoadConst64 TMP2 rtmp value ;; Add rt rs rtmp.

(** [CHECK(0 <= imm5 < 32)] compares the truth value of [0 <= imm5] with
    32; the same in [Srri]. *)
Definition Srriw (rd rs1 : GpuRegister) (imm5 : Z) : M unit :=
  let imm5 := sext 32 imm5 in
  CHECK ((if 0 <=? imm5 then 1 else 0) <? 32) ;;
  Srliw TMP rs1 imm5 ;;
  Slliw rd rs1 (sext 32 (32 - imm5)) ;;
  Or rd rd TMP.

Definition Srri (rd rs1 : GpuRegister) (imm6 : Z) : M unit :=
  let imm6 := sext 32 imm6 in
  CHECK ((if 0 <=? imm6 then 1 else 0) <? 64) ;;
  Srli TMP rs1 imm6 ;;
  Slli rd rs1 (sext 32 (64 - imm6)) ;;
  Or rd rd TMP.

Definition Srrw (rd rt rs : GpuRegister) : M unit :=
  Srlw TMP rt rs ;;
  Subw TMP2 ZERO rs ;;
  Addiw TMP2 TMP2 32 ;;
  Andi TMP2 TMP2 0x1F ;;
  Sllw rd rt TMP2 ;;
  Or rd rd TMP.

Definition Srr (rd rt rs : GpuRegister) : M unit :=
  Srl TMP rt rs ;;
  Sub TMP2 ZERO rs ;;
  Addi TMP2 TMP2 64 ;;
  Sll rd rt TMP2 ;;
  Or rd rd TMP.

Definition Muhh (rd rs rt : GpuRegister) : M unit :=
  Slli TMP2 rs 32 ;;
  Slli T6 rt 32 ;;
  Mul rd TMP2 T6 ;;
  Srai rd rd 32.

Definition Aui (rt rs : GpuRegister) (imm16 : Z) : M unit :=
  let imm16 := u16 imm16 in
  let l := Z.land imm16 0xFFF in
  let h := Z.shiftr imm16 12 in
  let h := if negb (Z.land l 0x800 =? 0) then sext 32 (h + 1) else h in
  Lui TMP2 h ;;
  (if negb (l =? 0) then Addi TMP2 TMP2 l else ret tt) ;;
  Slli TMP2 TMP2 16 ;;
  Add rt rs TMP2.

Definition Ahi (rs : GpuRegister) (imm16 : Z) : M unit :=
  let imm16 := u16 imm16 in
  let l := Z.land imm16 0xFFF in
  let h := Z.shiftr imm16 12 in
  let h := if negb (Z.land l 0x800 =? 0) then sext 32 (h + 1) else h in
  Lui TMP2 h ;;
  (if negb (l =? 0) then Addi TMP2 TMP2 l else ret tt) ;;
  Slli TMP2 TMP2 32 ;;
  Add rs rs TMP2.

Definition Ati (rs : GpuRegister) (imm16 : Z) : M unit :=
  let imm16 := u16 imm16 in
  let l := Z.land imm16 0xFFF in
  let h := Z.shiftr imm16 12 in
  let h := if negb (Z.land l 0x800 =? 0) then sext 32 (h + 1) else h in
  Lui TMP2 h ;;
  (if negb (l =? 0) then Addi TMP2 TMP2 l else ret tt) ;;
  Slli TMP2 TMP2 48 ;;
  Add rs rs TMP2.

Definition Addsl (rd rs rt : GpuRegister) (saPlusOne : Z) : M unit :=
  let saPlusOne := sext 32 saPlusOne in
  CHECK ((1 <=? saPlusOne) && (saPlusOne <? 4)) ;;
  Slli TMP2 rs saPlusOne ;;
  Add rd TMP2 rt.

Definition Extb (rt rs : GpuRegister) (pos size : Z) : M unit :=
  let pos := sext 32 pos in
  let size := sext 32 size in
  CHECK (IsUint 6 pos) ;;
  CHECK (IsUint 6 (sext 32 (size - 1))) ;;
  Srli rt rs pos ;;
  Slli rt rs (sext 32 (64 - size)) ;;
  Srai rt rt (sext 32 (64 - size)).

Definition Extub (rt rs : GpuRegister) (pos size : Z) : M unit :=
  let pos := sext 32 pos in
  let size := sext 32 size in
  CHECK (IsUint 6 pos) ;;
  CHECK (IsUint 6 (sext 32 (size - 1))) ;;
  Srli rt rs pos ;;
  Slli rt rt (sext 32 (64 - size)) ;;
  Srli rt rt (sext 32 (64 - size)).

Definition Seleqz (rd rs rt : GpuRegister) : M unit :=
  if gpu_eqb rt rd then
    Move TMP2 rt ;; Move rd rs ;; Beq TMP2 ZERO 8 ;; Move rd ZERO
  else
    Move rd rs ;; Beq rt ZERO 8 ;; Move rd ZERO.

Definition Selnez (rd rs rt : GpuRegister) : M unit :=
  if gpu_eqb rt rd then
    Move TMP2 rt ;; Move rd rs ;; Bne TMP2 ZERO 8 ;; Move rd ZERO
  else
    Move rd rs ;; Bne rt ZERO 8 ;; Move rd ZERO.

End Scratch.

(** *** Heap poisoning (assembler_riscv64.h) *)

Definition PoisonHeapReference (dst src : GpuRegister) : M unit :=
  Sub dst ZERO src ;;
  Extub dst dst 0 32.

Definition UnpoisonHeapReference (reg : GpuRegister) : M unit :=
  Sub reg ZERO reg ;;
  Addiw reg reg 0.

End Macro.

(** ** The integer instructions of the machine

    The machine of [Rv64], with the integer instructions the macro
    instructions above are made of, and with the floating-point
    comparisons FLT and FLE and the classification FCLASS. A word [Rv64]
    decodes is that instruction here. *)

Module Rv64I.

Inductive ROp : Set := ADD | SUB | SLL | SLT | SLTU | SRL | SRA | AND | MUL.
Inductive RWOp : Set := ADDW | SUBW | SLLW | SRLW | SRAW | MULW.
Inductive IOp : Set := SLTI | SLTIU | XORI | ANDI.
Inductive SWOp : Set := SLLIW | SRLIW | SRAIW.
Inductive FOp : Set := FLT | FLE.

Inductive Instr : Set :=
| Base (i : Rv64.Instr)
| OP (op : ROp) (rd rs1 rs2 : GpuRegister)
| OP32 (op : RWOp) (rd rs1 rs2 : GpuRegister)
| OPIMM (op : IOp) (rd rs1 : GpuRegister) (imm : Z)
| SRAI (rd rs1 : GpuRegister) (shamt : Z)
| SHIFTW (op : SWOp) (rd rs1 : GpuRegister) (shamt : Z)
| FCMP (op : FOp) (fmt : Rv64.FFmt) (rd : GpuRegister) (fs1 fs2 : FpuRegister)
| FCLASS (fmt : Rv64.FFmt) (rd : GpuRegister) (fs1 : FpuRegister).

Definition decode_fields (opcode rd funct3 rs1 rs2 funct7 iI : Z) : option Instr :=
  let xd := gpu_of_num rd in
  let x1 := gpu_of_num rs1 in
  let x2 := gpu_of_num rs2 in
  let f1 := fpu_of_num rs1 in
  let f2 := fpu_of_num rs2 in
  if opcode =? 0x33 then
    if funct7 =? 0 then
      if funct3 =? 0 then Some (OP ADD xd x1 x2)
      else if funct3 =? 1 then Some (OP SLL xd x1 x2)
      else if funct3 =? 2 then Some (OP SLT xd x1 x2)
      else if funct3 =? 3 then Some (OP SLTU xd x1 x2)
      else if funct3 =? 5 then Some (OP SRL xd x1 x2)
      else if funct3 =? 7 then Some (OP AND xd x1 x2)
      else None
    else if funct7 =? 0x20 then
      if funct3 =? 0 then Some (OP SUB xd x1 x2)
      else if funct3 =? 5 then Some (OP SRA xd x1 x2)
      else None
    else if funct7 =? 1 then
      if funct3 =? 0 then Some (OP MUL xd x1 x2) else None
    else None
  else if opcode =? 0x3b then
    if funct7 =? 0 then
      if funct3 =? 0 then Some (OP32 ADDW xd x1 x2)
      else if funct3 =? 1 then Some (OP32 SLLW xd x1 x2)
      else if funct3 =? 5 then Some (OP32 SRLW xd x1 x2)
      else None
    else if funct7 =? 0x20 then
      if funct3 =? 0 then Some (OP32 SUBW xd x1 x2)
      else if funct3 =? 5 then Some (OP32 SRAW xd x1 x2)
      else None
    else if funct7 =? 1 then
      if funct3 =? 0 then Some (OP32 MULW xd x1 x2) else None
    else None
  else if opcode =? 0x13 then
    if funct3 =? 2 then Some (OPIMM SLTI xd x1 iI)
    else if funct3 =? 3 then Some (OPIMM SLTIU xd x1 iI)
    else if funct3 =? 4 then Some (OPIMM XORI xd x1 iI)
    else if funct3 =? 7 then Some (OPIMM ANDI xd x1 iI)
    else if (funct3 =? 5) && (Z.shiftr funct7 1 =? 0x10)
      then Some (SRAI xd x1 (rs2 + 32 * Z.land funct7 1))
    else None
  else if opcode =? 0x1b then
    if (funct3 =? 1) && (funct7 =? 0) then Some (SHIFTW SLLIW xd x1 rs2)
    else if (funct3 =? 5) && (funct7 =? 0) then Some (SHIFTW SRLIW xd x1 rs2)
    else if (funct3 =? 5) && (funct7 =? 0x20) then Some (SHIFTW SRAIW xd x1 rs2)
    else None
  else if opcode =? 0x53 then
    let fmt := if Z.land funct7 3 =? 0 then Rv64.FmtS else Rv64.FmtD in
    let op := Z.shiftr funct7 2 in
    if 2 <=? Z.land funct7 3 then None
    else if (op =? 0x14) && (funct3 =? 1) then Some (FCMP FLT fmt xd f1 f2)
    else if (op =? 0x14) && (funct3 =? 0) then Some (FCMP FLE fmt xd f1 f2)
    else if (op =? 0x1c) && (rs2 =? 0) && (funct3 =? 1) then Some (FCLASS fmt xd f1)
    else None
  else None.

Definition decode (w : Z) : option Instr :=
  match Rv64.decode w with
  | Some i => Some (Base i)
  | None =>
      decode_fields (Rv64.field w 0 7) (Rv64.field w 7 5) (Rv64.field w 12 3)
                    (Rv64.field w 15 5) (Rv64.field w 20 5) (Rv64.field w 25 7)
                    (Rv64.immI w)
  end.

(** The operations, on the 64-bit patterns of the operands; [setx] keeps
    the low 64 bits of a result as a signed number. *)
Definition alu (op : ROp) (a b : Z) : Z :=
  match op with
  | ADD => a + b
  | SUB => a - b
  | SLL => Z.shiftl a (Z.land b 63)
  | SLT => if sext 64 a <? sext 64 b then 1 else 0
  | SLTU => if u64 a <? u64 b then 1 else 0
  | SRL => Z.shiftr (u64 a) (Z.land b 63)
  | SRA => Z.shiftr (sext 64 a) (Z.land b 63)
  | AND => Z.land a b
  | MUL => a * b
  end.

Definition alu32 (op : RWOp) (a b : Z) : Z :=
  match op with
  | ADDW => sext 32 (a + b)
  | SUBW => sext 32 (a - b)
  | SLLW => sext 32 (Z.shiftl a (Z.land b 31))
  | SRLW => sext 32 (Z.shiftr (u32 a) (Z.land b 31))
  | SRAW => Z.shiftr (sext 32 a) (Z.land b 31)
  | MULW => sext 32 (a * b)
  end.

Definition alu_imm (op : IOp) (a imm : Z) : Z :=
  match op with
  | SLTI => if sext 64 a <? imm then 1 else 0
  | SLTIU => if u64 a <? u64 imm then 1 else 0
  | XORI => Z.lxor a imm
  | ANDI => Z.land a imm
  end.

Definition shift32 (op : SWOp) (a shamt : Z) : Z :=
  match op with
  | SLLIW => sext 32 (Z.shiftl a shamt)
  | SRLIW => sext 32 (Z.shiftr (u32 a) shamt)
  | SRAIW => Z.shiftr (sext 32 a) shamt
  end.

(** FLT and FLE: 0 when an operand is NaN. *)
Definition fcmp (op : FOp) (a b : spec_float) : Z :=
  match op with
  | FLT => if SFltb a b then 1 else 0
  | FLE => if SFleb a b then 1 else 0
  end.

(** The precision of a format, and the numbers below its normal range:
    their significand has fewer digits than the precision. *)
Definition prec (fmt : Rv64.FFmt) : Z :=
  match fmt with Rv64.FmtS => 24 | Rv64.FmtD => 53 end.

Definition subnormal (fmt : Rv64.FFmt) (m : positive) : bool :=
  Z.pos (SpecFloat.digits2_pos m) <? prec fmt.

(** FCLASS: one bit for the class of the operand, from bit 0 for minus
    infinity to bit 7 for plus infinity; the model has one NaN, classed
    as the quiet one of bit 9 (a signaling NaN would set bit 8). *)
Definition fclass (fmt : Rv64.FFmt) (v : spec_float) : Z :=
  match v with
  | S754_infinity true => 1
  | S754_finite true m _ => if subnormal fmt m then 4 else 2
  | S754_zero true => 8
  | S754_zero false => 16
  | S754_finite false m _ => if subnormal fmt m then 32 else 64
  | S754_infinity false => 128
  | S754_nan => 512
  end.

Definition step_instr (i : Instr) (s : Rv64.State) : option Rv64.State :=
  match i with
  | Base i => Rv64.step_instr i s
  | OP op rd rs1 rs2 =>
      Some (Rv64.next (Rv64.setx s rd (alu op (Rv64.getx s rs1) (Rv64.getx s rs2))))
  | OP32 op rd rs1 rs2 =>
      Some (Rv64.next (Rv64.setx s rd (alu32 op (Rv64.getx s rs1) (Rv64.getx s rs2))))
  | OPIMM op rd rs1 imm =>
      Some (Rv64.next (Rv64.setx s rd (alu_imm op (Rv64.getx s rs1) imm)))
  | SRAI rd rs1 shamt =>
      Some (Rv64.next (Rv64.setx s rd (Z.shiftr (sext 64 (Rv64.getx s rs1)) shamt)))
  | SHIFTW op rd rs1 shamt =>
      Some (Rv64.next (Rv64.setx s rd (shift32 op (Rv64.getx s rs1) shamt)))
  | FCMP op _ rd fs1 fs2 =>
      Some (Rv64.next (Rv64.setx s rd (fcmp op (Rv64.f s fs1) (Rv64.f s fs2))))
  | FCLASS fmt rd fs1 =>
      Some (Rv64.next (Rv64.setx s rd (fclass fmt (Rv64.f s fs1))))
  end.

Definition step (code : list Z) (s : Rv64.State) : option Rv64.State :=
  match Rv64.fetch code (Rv64.pc s) with
  | None => None
  | Some w =>
      match decode w with
      | None => None
      | Some i => step_instr i s
      end
  end.

(** Running the code placed at address 0 until control leaves it at its
    end. [None]: a fault, or the fuel ran out. *)
Fixpoint run (fuel : nat) (code : list Z) (s : Rv64.State) : option Rv64.State :=
  if Rv64.pc s =? Asm.buf_Size code then Some s
  else match fuel with
       | O => None
       | S fuel' =>
           match step code s with
           | None => None
           | Some s' => run fuel' code s'
           end
       end.

End Rv64I.

(** ** Offsets of loads and stores, and the size of the frame *)

Module Offsets.
Import Asm.
Local Open Scope asm_scope.

Definition kRiscv64WordSize : Z := 4.
Definition kRiscv64DoublewordSize : Z := 8.
Definition kFramePointerSize : Z := 8.

Section Scratch.
Variables AT TMP2 : GpuRegister.

(** [base] and [offset] are passed by reference: the result is the pair
    of their values on return. *)
Definition AdjustBaseAndOffset (base : GpuRegister) (offset : Z)
    (is_doubleword : bool) : M (GpuRegister * Z) :=
  let offset := sext 32 offset in
  CHECK (negb (gpu_eqb base AT)) ;;
  let doubleword_aligned := Z.land offset (kRiscv64DoublewordSize - 1) =? 0 in
  let two_accesses := is_doubleword && negb doubleword_aligned in
  if IsInt 12 offset
     && (negb two_accesses || IsInt 12 (sext 32 (offset + kRiscv64WordSize)))
  then ret (base, offset)
  else
    let misalignment := u32 (Z.land offset (kRiscv64DoublewordSize - 1)) in
    let kMinOffsetForSimpleAdjustment := 0x7f8 in
    let kMaxOffsetForSimpleAdjustment := 2 * kMinOffsetForSimpleAdjustment in
    offset <-
      (if (0 <=? offset) && (offset <=? kMaxOffsetForSimpleAdjustment) then
         Addi AT base kMinOffsetForSimpleAdjustment ;;
         ret (offset - kMinOffsetForSimpleAdjustment)
       else if (- kMaxOffsetForSimpleAdjustment <=? offset) && (offset <? 0) then
         Addi AT base (- kMinOffsetForSimpleAdjustment) ;;
         ret (offset + kMinOffsetForSimpleAdjustment)
       else
         let offset_low12 := Z.land 0xFFF offset in
         let offset_high20 := Z.shiftr offset 12 in
         let sign := negb (Z.land offset_low12 0x800 =? 0) in
         let offset_high20 :=
           if sign then sext 32 (offset_high20 + 1) else offset_high20 in
         let offset_low12 :=
           if sign then sext 32 (Z.lor offset_low12 0xFFFFF000) else offset_low12 in
         Lui AT offset_high20 ;;
         Macro.Add AT base AT ;;
         if two_accesses
            && negb (IsInt 12 (sext 32 (offset_low12 + kRiscv64WordSize)))
         then
           Addi AT AT kRiscv64DoublewordSize ;;
           ret (sext 32 (offset_low12 - kRiscv64DoublewordSize))
         else ret offset_low12) ;;
    let base := AT in
    CHECK (IsInt 12 offset) ;;
    (if two_accesses
     then CHECK (IsInt 12 (sext 32 (offset + kRiscv64WordSize)))
     else ret tt) ;;
    CHECK (misalignment =? Z.land offset (kRiscv64DoublewordSize - 1)) ;;
    ret (base, offset).

(** [adjust] is a [size_t]; its negation is narrowed to [int32_t]. The
    changes to the CFI state are not modelled. *)
Definition IncreaseFrameSize (adjust : Z) : M unit :=
  let adjust := u64 adjust in
  CHECK (Z.land adjust (kFramePointerSize - 1) =? 0) ;;
  Macro.Addiu64 TMP2 SP SP (sext 32 (u64 (- adjust))) AT.

Definition DecreaseFrameSize (adjust : Z) : M unit :=
  let adjust := u64 adjust in
  CHECK (Z.land adjust (kFramePointerSize - 1) =? 0) ;;
  Macro.Addiu64 TMP2 SP SP (sext 32 adjust) AT.

End Scratch.

End Offsets.

(** ** Floating-point comparisons *)

Module Compare.
Import Asm.
Local Open Scope asm_scope.

Definition FLtS (rd : GpuRegister) (rs1 rs2 : FpuRegister) : M unit :=
  EmitR 0x50 (fpu_num rs2) (fpu_num rs1) 0x1 (gpu_num rd) 0x53.
Definition FLeS (rd : GpuRegister) (rs1 rs2 : FpuRegister) : M unit :=
  EmitR 0x50 (fpu_num rs2) (fpu_num rs1) 0x0 (gpu_num rd) 0x53.
Definition FClassS (rd : GpuRegister) (rs1 : FpuRegister) : M unit :=
  EmitR 0x70 0x0 (fpu_num rs1) 0x1 (gpu_num rd) 0x53.
Definition FLeD (rd : GpuRegister) (rs1 rs2 : FpuRegister) : M unit :=
  EmitR 0x51 (fpu_num rs2) (fpu_num rs1) 0x0 (gpu_num rd) 0x53.
Definition FLtD (rd : GpuRegister) (rs1 rs2 : FpuRegister) : M unit :=
  EmitR 0x51 (fpu_num rs2) (fpu_num rs1) 0x1 (gpu_num rd) 0x53.
Definition FClassD (rd : GpuRegister) (rs1 : FpuRegister) : M unit :=
  EmitR 0x71 0x0 (fpu_num rs1) 0x1 (gpu_num rd) 0x53.

Section Scratch.
Variable TMP : GpuRegister.

Definition CmpUltS (rd : GpuRegister) (fs ft : FpuRegister) : M unit :=
  FClassS TMP fs ;;
  Srli TMP TMP 8 ;;
  Bne TMP ZERO 24 ;;
  FClassS TMP ft ;;
  Srli TMP TMP 8 ;;
  Bne TMP ZERO 12 ;;
  FLtS rd fs ft ;;
  Jal ZERO 8 ;;
  Addi rd ZERO 1.

Definition CmpLeS (rd : GpuRegister) (fs ft : FpuRegister) : M unit :=
  FLeS rd fs ft.

Definition CmpUleS (rd : GpuRegister) (fs ft : FpuRegister) : M unit :=
  FClassS TMP fs ;;
  Srli TMP TMP 8 ;;
  Bne TMP ZERO 24 ;;
  FClassS TMP ft ;;
  Srli TMP TMP 8 ;;
  Bne TMP ZERO 12 ;;
  FLeS rd fs ft ;;
  Jal ZERO 8 ;;
  Addi rd ZERO 1.

Definition CmpUneS (rd : GpuRegister) (fs ft : FpuRegister) : M unit :=
  FClassS TMP fs ;;
  Srli TMP TMP 8 ;;
  Bne TMP ZERO 28 ;;
  FClassS TMP ft ;;
  Srli TMP TMP 8 ;;
  Bne TMP ZERO 16 ;;
  FEqS TMP fs ft ;;
  Macro.Sltiu rd TMP 1 ;;
  Jal ZERO 8 ;;
  Addi rd ZERO 1.

Definition CmpNeS (rd : GpuRegister) (fs ft : FpuRegister) : M unit :=
  FEqS rd fs ft ;;
  Macro.Sltiu rd rd 1.

Definition CmpUnD (rd : GpuRegister) (fs ft : FpuRegister) : M unit :=
  FClassD TMP fs ;;
  Srli TMP TMP 8 ;;
  Bne TMP ZERO 24 ;;
  FClassD TMP ft ;;
  Srli TMP TMP 8 ;;
  Bne TMP ZERO 12 ;;
  Addi rd ZERO 0 ;;
  Jal ZERO 8 ;;
  Addi rd ZERO 1.

Definition CmpEqD (rd : GpuRegister) (fs ft : FpuRegister) : M unit :=
  FEqD rd fs ft.

Definition CmpUeqD (rd : GpuRegister) (fs ft : FpuRegister) : M unit :=
  FClassD TMP fs ;;
  Srli TMP TMP 8 ;;
  Bne TMP ZERO 24 ;;
  FClassD TMP ft ;;
  Srli TMP TMP 8 ;;
  Bne TMP ZERO 12 ;;
  FEqD rd fs ft ;;
  Jal ZERO 8 ;;
  Addi rd ZERO 1.

Definition CmpLtD (rd : GpuRegister) (fs ft : FpuRegister) : M unit :=
  FLtD rd fs ft.

Definition CmpUltD (rd : GpuRegister) (fs ft : FpuRegister) : M unit :=
  FClassD TMP fs ;;
  Srli TMP TMP 8 ;;
  Bne TMP ZERO 24 ;;
  FClassD TMP ft ;;
  Srli TMP TMP 8 ;;
  Bne TMP ZERO 12 ;;
  FLtD rd fs ft ;;
  Jal ZERO 8 ;;
  Addi rd ZERO 1.

Definition CmpLeD (rd : GpuRegister) (fs ft : FpuRegister) : M unit :=
  FLeD rd fs ft.

Definition CmpUleD (rd : GpuRegister) (fs ft : FpuRegister) : M unit :=
  FClassD TMP fs ;;
  Srli TMP TMP 8 ;;
  Bne TMP ZERO 24 ;;
  FClassD TMP ft ;;
  Srli TMP TMP 8 ;;
  Bne TMP ZERO 12 ;;
  FLeD rd fs ft ;;
  Jal ZERO 8 ;;
  Addi rd ZERO 1.

Definition CmpOrD (rd : GpuRegister) (fs ft : FpuRegister) : M unit :=
  CmpUnD rd fs ft ;;
  Macro.Sltiu rd rd 1.

Definition CmpUneD (rd : GpuRegister) (fs ft : FpuRegister) : M unit :=
  FClassD TMP fs ;;
  Srli TMP TMP 8 ;;
  Bne TMP ZERO 28 ;;
  FClassD TMP ft ;;
  Srli TMP TMP 8 ;;
  Bne TMP ZERO 16 ;;
  FEqD TMP fs ft ;;
  Macro.Sltiu rd rd 1 ;;
  Jal ZERO 8 ;;
  Addi rd ZERO 1.

Definition CmpNeD (rd : GpuRegister) (fs ft : FpuRegister) : M unit :=
  FEqD rd fs ft ;;
  Macro.Sltiu rd rd 1.

End Scratch.

End Compare.

(** ** Loads and stores at an offset, and the frame of a method *)

Module Mem.
Import Asm.
Local Open Scope asm_scope.

Definition EncodeS (imm rs2 rs1 funct3 opcode : Z) : Z :=
  Z.lor (Z.lor (Z.lor (Z.lor (Z.lor (u32 (Z.shiftl (Z.land (u16 imm) 0xFE0) 20))
                                    (u32 (Z.shiftl rs2 20)))
                             (u32 (Z.shiftl rs1 15)))
                      (u32 (Z.shiftl funct3 12)))
               (u32 (Z.shiftl (Z.land (u16 imm) 0x1F) 7)))
        opcode.

Definition EmitS (imm rs2 rs1 funct3 opcode : Z) : M unit :=
  Emit (EncodeS imm rs2 rs1 funct3 opcode).

Definition Lb (rd rs1 : GpuRegister) (offset : Z) : M unit :=
  EmitI (u16 offset) (gpu_num rs1) 0x0 (gpu_num rd) 0x03.
Definition Lh (rd rs1 : GpuRegister) (offset : Z) : M unit :=
  EmitI (u16 offset) (gpu_num rs1) 0x1 (gpu_num rd) 0x03.
Definition Lbu (rd rs1 : GpuRegister) (offset : Z) : M unit :=
  EmitI (u16 offset) (gpu_num rs1) 0x4 (gpu_num rd) 0x03.
Definition Lhu (rd rs1 : GpuRegister) (offset : Z) : M unit :=
  EmitI (u16 offset) (gpu_num rs1) 0x5 (gpu_num rd) 0x03.
Definition Sb (rs2 rs1 : GpuRegister) (offset : Z) : M unit :=
  EmitS (u16 offset) (gpu_num rs2) (gpu_num rs1) 0x0 0x23.
Definition Sh (rs2 rs1 : GpuRegister) (offset : Z) : M unit :=
  EmitS (u16 offset) (gpu_num rs2) (gpu_num rs1) 0x1 0x23.
Definition Sw (rs2 rs1 : GpuRegister) (offset : Z) : M unit :=
  EmitS (u16 offset) (gpu_num rs2) (gpu_num rs1) 0x2 0x23.
Definition Sd (rs2 rs1 : GpuRegister) (offset : Z) : M unit :=
  EmitS (u16 offset) (gpu_num rs2) (gpu_num rs1) 0x3 0x23.

Definition FLw (rd : FpuRegister) (rs1 : GpuRegister) (offset : Z) : M unit :=
  EmitI (u16 offset) (gpu_num rs1) 0x2 (fpu_num rd) 0x07.
Definition FLd (rd : FpuRegister) (rs1 : GpuRegister) (offset : Z) : M unit :=
  EmitI (u16 offset) (gpu_num rs1) 0x3 (fpu_num rd) 0x07.
Definition FSw (rs2 : FpuRegister) (rs1 : GpuRegister) (offset : Z) : M unit :=
  EmitS (u16 offset) (fpu_num rs2) (gpu_num rs1) 0x2 0x27.
Definition FSd (rs2 : FpuRegister) (rs1 : GpuRegister) (offset : Z) : M unit :=
  EmitS (u16 offset) (fpu_num rs2) (gpu_num rs1) 0x3 0x27.

Definition Jr (rs : GpuRegister) : M unit := Jalr ZERO rs 0.

Inductive LoadOperandType : Set :=
| kLoadSignedByte | kLoadUnsignedByte | kLoadSignedHalfword
| kLoadUnsignedHalfword | kLoadWord | kLoadUnsignedWord | kLoadDoubleword
| kLoadQuadword.

Inductive StoreOperandType : Set :=
| kStoreByte | kStoreHalfword | kStoreWord | kStoreDoubleword | kStoreQuadword.

Definition is_kLoadDoubleword (type : LoadOperandType) : bool :=
  match type with kLoadDoubleword => true | _ => false end.
Definition is_kStoreDoubleword (type : StoreOperandType) : bool :=
  match type with kStoreDoubleword => true | _ => false end.

(** [CHECK_ALIGNED(value, alignment)], for a power of two. *)
Definition CHECK_ALIGNED (value alignment : Z) : M unit :=
  CHECK (Z.land value (alignment - 1) =? 0).

Section Scratch.
Variables AT TMP2 : GpuRegister.
Variable kStackAlignment : Z.

(** The loads and stores with the default null checker, which does
    nothing. *)
Definition LoadFromOffset (type : LoadOperandType) (reg base : GpuRegister)
    (offset : Z) : M unit :=
  p <- Offsets.AdjustBaseAndOffset AT base offset (is_kLoadDoubleword type) ;;
  let base := fst p in
  let offset := snd p in
  match type with
  | kLoadSignedByte => Lb reg base offset
  | kLoadUnsignedByte => Lbu reg base offset
  | kLoadSignedHalfword => Lh reg base offset
  | kLoadUnsignedHalfword => Lhu reg base offset
  | kLoadWord =>
      CHECK_ALIGNED offset Offsets.kRiscv64WordSize ;; Lw reg base offset
  | kLoadUnsignedWord =>
      CHECK_ALIGNED offset Offsets.kRiscv64WordSize ;; Lwu reg base offset
  | kLoadDoubleword => Ld reg base offset
  | kLoadQuadword => fatal
  end.

Definition LoadFpuFromOffset (type : LoadOperandType) (reg : FpuRegister)
    (base : GpuRegister) (offset : Z) : M unit :=
  p <- (match type with
        | kLoadQuadword => ret (base, sext 32 offset)
        | _ => Offsets.AdjustBaseAndOffset AT base offset (is_kLoadDoubleword type)
        end) ;;
  let base := fst p in
  let offset := snd p in
  match type with
  | kLoadWord =>
      CHECK_ALIGNED offset Offsets.kRiscv64WordSize ;; FLw reg base offset
  | kLoadDoubleword => FLd reg base offset
  | _ => fatal
  end.

Definition StoreToOffset (type : StoreOperandType) (reg base : GpuRegister)
    (offset : Z) : M unit :=
  CHECK (negb (gpu_eqb reg AT)) ;;
  p <- Offsets.AdjustBaseAndOffset AT base offset (is_kStoreDoubleword type) ;;
  let base := fst p in
  let offset := snd p in
  match type with
  | kStoreByte => Sb reg base offset
  | kStoreHalfword => Sh reg base offset
  | kStoreWord =>
      CHECK_ALIGNED offset Offsets.kRiscv64WordSize ;; Sw reg base offset
  | kStoreDoubleword => Sd reg base offset
  | kStoreQuadword => fatal
  end.

Definition StoreFpuToOffset (type : StoreOperandType) (reg : FpuRegister)
    (base : GpuRegister) (offset : Z) : M unit :=
  p <- (match type with
        | kStoreQuadword => ret (base, sext 32 offset)
        | _ => Offsets.AdjustBaseAndOffset AT base offset (is_kStoreDoubleword type)
        end) ;;
  let base := fst p in
  let offset := snd p in
  match type with
  | kStoreWord =>
      CHECK_ALIGNED offset Offsets.kRiscv64WordSize ;; FSw reg base offset
  | kStoreDoubleword => FSd reg base offset
  | _ => fatal
  end.

(** The loop of BuildFrame over the callee saves, last one first: the
    offset goes down before each register, also before RA, which has been
    stored already. A register that is neither a core nor a floating-point
    one fails the check of AsFpuRegister. *)
Fixpoint spill (regs : list Jni.ManagedRegister) (stack_offset : Z) : M unit :=
  match regs with
  | [] => ret tt
  | r :: rest =>
      let stack_offset := sext 32 (stack_offset - Offsets.kFramePointerSize) in
      (match r with
       | Jni.FromGpuRegister reg =>
           if gpu_eqb reg RA then ret tt
           else StoreToOffset kStoreDoubleword reg SP stack_offset
       | Jni.FromFpuRegister reg =>
           StoreFpuToOffset kStoreDoubleword reg SP stack_offset
       | Jni.NoRegister => fatal
       end) ;;
      spill rest stack_offset
  end.

(** The changes to the CFI state are not modelled, here and in
    RemoveFrame. *)
Definition BuildFrame (frame_size : Z) (method_reg : Jni.ManagedRegister)
    (callee_save_regs : list Jni.ManagedRegister) : M unit :=
  let frame_size := u64 frame_size in
  CHECK_ALIGNED frame_size kStackAlignment ;;
  Offsets.IncreaseFrameSize AT TMP2 frame_size ;;
  (if (0 <? Z.of_nat (List.length callee_save_regs)) then
     let stack_offset := sext 32 (frame_size - Offsets.kFramePointerSize) in
     StoreToOffset kStoreDoubleword RA SP stack_offset ;;
     spill (rev callee_save_regs) stack_offset
   else ret tt) ;;
  match method_reg with
  | Jni.NoRegister => ret tt
  | Jni.FromGpuRegister reg => StoreToOffset kStoreDoubleword reg SP 0
  | Jni.FromFpuRegister _ => fatal
  end.

(** The loop of RemoveFrame, first register first; [continue] for RA
    skips the increment of the offset as well. The result is the offset
    after the loop. *)
Fixpoint unspill (regs : list Jni.ManagedRegister) (stack_offset : Z) : M Z :=
  match regs with
  | [] => ret stack_offset
  | r :: rest =>
      match r with
      | Jni.FromGpuRegister reg =>
          if gpu_eqb reg RA then unspill rest stack_offset
          else
            LoadFromOffset kLoadDoubleword reg SP stack_offset ;;
            unspill rest (sext 32 (stack_offset + Offsets.kFramePointerSize))
      | Jni.FromFpuRegister reg =>
          LoadFpuFromOffset kLoadDoubleword reg SP stack_offset ;;
          unspill rest (sext 32 (stack_offset + Offsets.kFramePointerSize))
      | Jni.NoRegister => fatal
      end
  end.

Definition RemoveFrame (frame_size : Z)
    (callee_save_regs : list Jni.ManagedRegister) (may_suspend : bool) : M unit :=
  let frame_size := u64 frame_size in
  let size := Z.of_nat (List.length callee_save_regs) in
  CHECK_ALIGNED frame_size kStackAlignment ;;
  (if 0 <? size then
     let stack_offset := sext 32 (frame_size - Offsets.kFramePointerSize) in
     let stack_offset :=
       if 1 <? size
       then sext 32 (stack_offset - size * Offsets.kFramePointerSize)
       else stack_offset in
     stack_offset <- unspill callee_save_regs stack_offset ;;
     LoadFromOffset kLoadDoubleword RA SP stack_offset
   else ret tt) ;;
  Offsets.DecreaseFrameSize AT TMP2 frame_size ;;
  Jr RA ;;
  Nop.

End Scratch.

End Mem.

(** ** The machine with a memory

    The machine of [Rv64I] with a memory of doublewords, each holding an
    integer or a floating-point value as the registers do. Only the
    doubleword loads and stores at addresses that are multiples of 8 are
    in the model, and a load reads what a store of its own kind has
    written: for the others, and for the other loads and stores, [step]
    is [None]. *)

Module Rv64M.

Inductive Cell : Set :=
| VInt (v : Z)
| VFloat (v : spec_float).

Record State : Type := {
  core : Rv64.State;
  mem : Z -> Cell
}.

Inductive Instr : Set :=
| Core (i : Rv64I.Instr)
| LD (rd rs1 : GpuRegister) (imm : Z)
| SD (rs2 rs1 : GpuRegister) (imm : Z)
| FLD (fd : FpuRegister) (rs1 : GpuRegister) (imm : Z)
| FSD (fs2 : FpuRegister) (rs1 : GpuRegister) (imm : Z).

Definition immS (w : Z) : Z :=
  sext 12 (Z.lor (Z.shiftl (Rv64.field w 25 7) 5) (Rv64.field w 7 5)).

Definition decode_fields (opcode rd funct3 rs1 rs2 iI iS : Z) : option Instr :=
  if opcode =? 0x03 then
    if funct3 =? 3 then Some (LD (gpu_of_num rd) (gpu_of_num rs1) iI) else None
  else if opcode =? 0x23 then
    if funct3 =? 3 then Some (SD (gpu_of_num rs2) (gpu_of_num rs1) iS) else None
  else if opcode =? 0x07 then
    if funct3 =? 3 then Some (FLD (fpu_of_num rd) (gpu_of_num rs1) iI) else None
  else if opcode =? 0x27 then
    if funct3 =? 3 then Some (FSD (fpu_of_num rs2) (gpu_of_num rs1) iS) else None
  else None.

Definition decode (w : Z) : option Instr :=
  match Rv64I.decode w with
  | Some i => Some (Core i)
  | None =>
      decode_fields (Rv64.field w 0 7) (Rv64.field w 7 5) (Rv64.field w 12 3)
                    (Rv64.field w 15 5) (Rv64.field w 20 5)
                    (Rv64.immI w) (immS w)
  end.

Definition with_core (s : State) (c : Rv64.State) : State :=
  {| core := c; mem := mem s |}.

Definition store (s : State) (a : Z) (v : Cell) : State :=
  {| core := Rv64.next (core s);
     mem := fun a' => if a' =? a then v else mem s a' |}.

(** The address of an access, as an unsigned 64-bit number. *)
Definition address (s : State) (rs1 : GpuRegister) (imm : Z) : Z :=
  u64 (Rv64.getx (core s) rs1 + imm).

Definition step_instr (i : Instr) (s : State) : option State :=
  match i with
  | Core i =>
      match Rv64I.step_instr i (core s) with
      | Some c => Some (with_core s c)
      | None => None
      end
  | LD rd rs1 imm =>
      let a := address s rs1 imm in
      if a mod 8 =? 0 then
        match mem s a with
        | VInt v => Some (with_core s (Rv64.next (Rv64.setx (core s) rd v)))
        | VFloat _ => None
        end
      else None
  | SD rs2 rs1 imm =>
      let a := address s rs1 imm in
      if a mod 8 =? 0
      then Some (store s a (VInt (Rv64.getx (core s) rs2)))
      else None
  | FLD fd rs1 imm =>
      let a := address s rs1 imm in
      if a mod 8 =? 0 then
        match mem s a with
        | VFloat v => Some (with_core s (Rv64.next (Rv64.setf (core s) fd v)))
        | VInt _ => None
        end
      else None
  | FSD fs2 rs1 imm =>
      let a := address s rs1 imm in
      if a mod 8 =? 0
      then Some (store s a (VFloat (Rv64.f (core s) fs2)))
      else None
  end.

Definition step (code : list Z) (s : State) : option State :=
  match Rv64.fetch code (Rv64.pc (core s)) with
  | None => None
  | Some w =>
      match decode w with
      | None => None
      | Some i => step_instr i s
      end
  end.

(** [n] steps of the code placed at address 0. *)
Fixpoint steps (n : nat) (code : list Z) (s : State) : option State :=
  match n with
  | O => Some s
  | S n' =>
      match step code s with
      | None => None
      | Some s' => steps n' code s'
      end
  end.

End Rv64M.

(** ** Instruction-set features: what the factories build *)

Lemma GetFeatureString_cases (bits_ : Z) :
  Features.GetFeatureString bits_
  = ((("rv64imaf"
      ++ (if Features.has bits_ Features.kDBitfield then "d" else EmptyString))
      ++ (if Features.has bits_ Features.kCBitfield then "c" else EmptyString))
      ++ (if Features.has bits_ Features.kVBitfield then "v" else EmptyString))%string.
Proof.
  unfold Features.GetFeatureString.
  destruct (Features.has bits_ Features.kDBitfield),
    (Features.has bits_ Features.kCBitfield),
    (Features.has bits_ Features.kVBitfield); reflexivity.
Qed.

(** X1. Every way of building a feature set other than FromBitmap gives
    the same set {I,M,A,F,D,C}, whatever the variant name, the receiver or
    the feature list: it is equal to FromCppDefines, renders as
    rv64imafdc, and never has the vector bit, even when the receiver of
    AddFeaturesFromSplitString had it. FromVariant warns exactly for a
    variant other than generic. *)
Theorem factories_build_the_default (variant : string) (bits_ : Z)
    (requested : list string) :
  let built :=
    [Detection.features (Detection.FromVariant variant);
     Features.FromCppDefines;
     Detection.features Detection.FromCpuInfo;
     Detection.features Detection.FromHwcap;
     Detection.features Detection.FromAssembly;
     Detection.features Detection.FromCpuFeatures;
     Detection.AddFeaturesFromSplitString bits_ requested] in
  Forall (fun f =>
            Detection.Equals f (Detection.Riscv64Features Features.FromCppDefines)
            = true
            /\ Features.AsBitmap f = 63
            /\ Features.GetFeatureString f = "rv64imafdc"%string
            /\ Features.has f Features.kVBitfield = false) built
  /\ (Detection.warned (Detection.FromVariant variant) = true
      <-> variant <> "generic"%string).
Proof.
  split.
  - repeat apply Forall_cons; try apply Forall_nil; repeat split; reflexivity.
  - unfold Detection.FromVariant. cbn [Detection.warned].
    rewrite negb_true_iff. split.
    + intros H E. apply String.eqb_eq in E. congruence.
    + intros H. apply String.eqb_neq. exact H.
Qed.

(** X2. Equals holds exactly for an object of this class with the same
    bitmap, and never for the features of another instruction set. Two
    feature sets render as the same string exactly when they agree on the
    D, C and V bits, so equal sets render alike while sets that differ
    only in other bits (I, M, A, F, S, U) are unequal and render alike. *)
Theorem Equals_and_feature_string (a b : Z) :
  (forall other, Detection.Equals a other = true
                 <-> other = Detection.Riscv64Features a)
  /\ (Features.GetFeatureString a = Features.GetFeatureString b
      <-> Features.has a Features.kDBitfield = Features.has b Features.kDBitfield
          /\ Features.has a Features.kCBitfield = Features.has b Features.kCBitfield
          /\ Features.has a Features.kVBitfield = Features.has b Features.kVBitfield)
  /\ (Detection.Equals a (Detection.Riscv64Features b) = true ->
      Features.GetFeatureString a = Features.GetFeatureString b)
  /\ Detection.Equals (Z.lor a Features.kSBitfield)
       (Detection.Riscv64Features (Z.land a (Z.lnot Features.kSBitfield))) = false.
Proof.
  split; [|split; [|split]].
  - intros [other_bits|]; unfold Detection.Equals; cbn [Detection.IsRiscv64 negb].
    + rewrite Z.eqb_eq. split; [intros ->; reflexivity|intros H; congruence].
    + split; discriminate.
  - rewrite !GetFeatureString_cases.
    destruct (Features.has a Features.kDBitfield),
      (Features.has a Features.kCBitfield),
      (Features.has a Features.kVBitfield),
      (Features.has b Features.kDBitfield),
      (Features.has b Features.kCBitfield),
      (Features.has b Features.kVBitfield);
      cbn; split; intros H; try discriminate; try reflexivity;
      try (repeat split; reflexivity);
      destruct H as (H1 & H2 & H3); discriminate.
  - unfold Detection.Equals. cbn [Detection.IsRiscv64 negb].
    intros H. apply Z.eqb_eq in H. subst b. reflexivity.
  - unfold Detection.Equals. cbn [Detection.IsRiscv64 negb].
    apply Z.eqb_neq. intros H.
    apply (f_equal (fun v => Z.testbit v 7)) in H.
    rewrite Z.lor_spec, Z.land_spec, Z.lnot_spec in H by lia.
    change (Z.testbit Features.kSBitfield 7) with true in H.
    rewrite orb_true_r, andb_false_r in H. discriminate.
Qed.

(** ** JNI calling convention: the spill masks against the register table *)

Lemma u32_testbit (v i : Z) :
  0 <= i < 32 -> Z.testbit (u32 v) i = Z.testbit v i.
Proof.
  intros H. unfold u32. rewrite Z.mod_pow2_bits_low by lia. reflexivity.
Qed.

Lemma gpu_num_inj (a b : GpuRegister) : gpu_num a = gpu_num b -> a = b.
Proof.
  intros H. rewrite <- (gpu_of_num_num a), <- (gpu_of_num_num b), H. reflexivity.
Qed.

Lemma fpu_num_inj (a b : FpuRegister) : fpu_num a = fpu_num b -> a = b.
Proof.
  intros H. rewrite <- (fpu_of_num_num a), <- (fpu_of_num_num b), H. reflexivity.
Qed.

Lemma core_mask_fold (regs : list Jni.ManagedRegister) (start : Z) (r : GpuRegister) :
  Z.testbit
    (fold_left (fun result r =>
                  match r with
                  | Jni.FromGpuRegister g =>
                      u32 (Z.lor result (Z.shiftl 1 (gpu_num g)))
                  | _ => result
                  end) regs start) (gpu_num r)
  = Z.testbit start (gpu_num r)
    || existsb (fun m => match m with
                         | Jni.FromGpuRegister g => gpu_eqb g r
                         | _ => false
                         end) regs.
Proof.
  pose proof (gpu_num_range r) as R. change (2 ^ 5) with 32 in R.
  revert start. induction regs as [|m regs IH]; intros start; cbn [fold_left existsb].
  - rewrite orb_false_r. reflexivity.
  - rewrite IH. destruct m as [|g|f]; cbn [orb]; try reflexivity.
    pose proof (gpu_num_range g) as G.
    rewrite u32_testbit, Z.lor_spec, Z.shiftl_1_l, Z.pow2_bits_eqb by lia.
    unfold gpu_eqb. rewrite <- orb_assoc. reflexivity.
Qed.

Lemma fp_mask_fold (regs : list Jni.ManagedRegister) (start : Z) (r : FpuRegister) :
  Z.testbit
    (fold_left (fun result r =>
                  match r with
                  | Jni.FromFpuRegister f =>
                      u32 (Z.lor result (Z.shiftl 1 (fpu_num f)))
                  | _ => result
                  end) regs start) (fpu_num r)
  = Z.testbit start (fpu_num r)
    || existsb (fun m => match m with
                         | Jni.FromFpuRegister f => fpu_eqb f r
                         | _ => false
                         end) regs.
Proof.
  pose proof (fpu_num_range r) as R. change (2 ^ 5) with 32 in R.
  revert start. induction regs as [|m regs IH]; intros start; cbn [fold_left existsb].
  - rewrite orb_false_r. reflexivity.
  - rewrite IH. destruct m as [|g|f]; cbn [orb]; try reflexivity.
    pose proof (fpu_num_range f) as G.
    rewrite u32_testbit, Z.lor_spec, Z.shiftl_1_l, Z.pow2_bits_eqb by lia.
    unfold fpu_eqb. rewrite <- orb_assoc. reflexivity.
Qed.

(** X3. Whatever table of callee saves the two mask loops are given, the
    core mask has the bit of a register set exactly when the register is RA
    or a core register of the table, and the floating-point mask exactly
    for the floating-point registers of the table. For the table of this
    convention: the register that keeps the local-reference cookie (S10) is
    in the core mask, and the hidden-argument register of a critical native
    call (T0) is in no mask, is no argument register and no return
    register; a critical native method reports empty masks. *)
Theorem spill_masks_match_callee_saves (regs : list Jni.ManagedRegister) :
  (forall r, Z.testbit (JniSpill.CoreCalleeSpillMask_of regs) (gpu_num r) = true
             <-> r = RA \/ In (Jni.FromGpuRegister r) regs)
  /\ (forall f, Z.testbit (JniSpill.FpCalleeSpillMask_of regs) (fpu_num f) = true
                <-> In (Jni.FromFpuRegister f) regs)
  /\ (exists r, JniSpill.SavedLocalReferenceCookieRegister = Jni.FromGpuRegister r
                /\ Z.testbit JniSpill.kCoreCalleeSpillMask (gpu_num r) = true
                /\ In (Jni.FromGpuRegister r) Jni.kCalleeSaveRegisters)
  /\ (forall m, Jni.is_critical_native_ m = true ->
        JniSpill.HiddenArgumentRegister m = Some (Jni.FromGpuRegister T0)
        /\ Z.testbit JniSpill.kCoreCalleeSpillMask (gpu_num T0) = false
        /\ ~ In T0 Jni.kGpuArgumentRegisters
        /\ (forall shorty,
              JniSpill.ReturnRegisterForShorty shorty <> Jni.FromGpuRegister T0)
        /\ JniSpill.CoreSpillMask m = 0 /\ JniSpill.FpSpillMask m = 0).
Proof.
  split; [|split; [|split]].
  - intros r. unfold JniSpill.CoreCalleeSpillMask_of. cbv zeta.
    rewrite core_mask_fold.
    pose proof (gpu_num_range r) as R. change (2 ^ 5) with 32 in R.
    rewrite u32_testbit, Z.shiftl_1_l, Z.pow2_bits_eqb by (cbn; lia).
    rewrite orb_true_iff, existsb_exists. split.
    + intros [H|(m & Hin & H)].
      * left. apply gpu_num_inj. apply Z.eqb_eq in H. symmetry. exact H.
      * right. destruct m as [|g|f]; try discriminate.
        apply gpu_eqb_eq in H. subst g. exact Hin.
    + intros [->|Hin].
      * left. reflexivity.
      * right. exists (Jni.FromGpuRegister r). split; [exact Hin|apply gpu_eqb_refl].
  - intros f. unfold JniSpill.FpCalleeSpillMask_of. cbv zeta.
    rewrite fp_mask_fold, Z.bits_0, orb_false_l, existsb_exists. split.
    + intros (m & Hin & H). destruct m as [|g|f']; try discriminate.
      apply fpu_eqb_eq in H. subst f'. exact Hin.
    + intros Hin. exists (Jni.FromFpuRegister f). split; [exact Hin|apply fpu_eqb_refl].
  - exists S10. split; [reflexivity|]. split; [reflexivity|].
    cbn. tauto.
  - intros m Hm. unfold JniSpill.HiddenArgumentRegister, JniSpill.CoreSpillMask,
      JniSpill.FpSpillMask. rewrite Hm. cbn [negb].
    split; [reflexivity|]. split; [reflexivity|].
    split; [cbn; intuition discriminate|].
    split; [|split; reflexivity].
    intros shorty. unfold JniSpill.ReturnRegisterForShorty.
    destruct shorty as [|c s]; [discriminate|].
    destruct (Ascii.eqb c "F" || Ascii.eqb c "D"); [discriminate|].
    destruct (Ascii.eqb c "V"); discriminate.
Qed.

(** ** JNI calling convention: frame sizes *)

Lemma RoundUp_spec (x n : Z) :
  0 < n -> RoundUp x n mod n = 0 /\ x <= RoundUp x n < x + n.
Proof.
  intros H. unfold RoundUp. split.
  - apply Z.mod_mul. lia.
  - pose proof (Z.div_mod (x + n - 1) n ltac:(lia)) as D.
    pose proof (Z.mod_pos_bound (x + n - 1) n H) as B. lia.
Qed.

(** X7. The managed frame of a method that is not critical native is the
    method pointer, one 8-byte slot for every register of the two spill
    masks (RA and the callee saves), and the return value when it is
    spilled, rounded up to the stack alignment: FrameSize returns a multiple
    of the alignment that covers exactly that area with less than one
    alignment unit of padding. The outgoing area is likewise the native
    out-args size (one more slot for a critical native method) rounded up
    to its alignment. *)
Theorem frame_sizes_cover_the_spill_area
    (kStackAlignment kRiscv64StackAlignment : Z)
    (GetNativeOutArgsSize : Z -> Z -> Z) (m : Jni.Method) :
  0 < kStackAlignment -> 0 < kRiscv64StackAlignment ->
  (Jni.is_critical_native_ m = false ->
   let needed :=
     Jni.kFramePointerSize
     + Jni.kFramePointerSize
       * (JniSpill.popcount (JniSpill.CoreSpillMask m)
          + JniSpill.popcount (JniSpill.FpSpillMask m))
     + (if Jni.SpillsReturnValue m then Jni.SizeOfReturnValue m else 0) in
   exists size,
     Jni.FrameSize kStackAlignment m = Some size
     /\ size mod kStackAlignment = 0
     /\ needed <= size < needed + kStackAlignment)
  /\ (let out := Jni.OutFrameSize kRiscv64StackAlignment GetNativeOutArgsSize m in
      let args :=
        GetNativeOutArgsSize (Jni.NumFloatOrDoubleArgs m)
          (Jni.NumberOfExtraArgumentsForJni m + Jni.NumArgs m
           - Jni.NumFloatOrDoubleArgs m)
        + (if Jni.is_critical_native_ m then Jni.kFramePointerSize else 0) in
      out mod kRiscv64StackAlignment = 0
      /\ args <= out < args + kRiscv64StackAlignment).
Proof.
  intros HA HB. split.
  - intros Hc needed.
    assert (P : JniSpill.popcount (JniSpill.CoreSpillMask m)
                + JniSpill.popcount (JniSpill.FpSpillMask m) = 23).
    { unfold JniSpill.CoreSpillMask, JniSpill.FpSpillMask. rewrite Hc.
      vm_compute. reflexivity. }
    unfold needed. rewrite P.
    unfold Jni.FrameSize, Jni.CalleeSaveRegisters, Jni.IsCriticalNative.
    rewrite Hc.
    change (Z.of_nat (List.length Jni.kCalleeSaveRegisters)) with 22.
    unfold Jni.kFramePointerSize.
    eexists. split; [reflexivity|].
    destruct (Jni.SpillsReturnValue m).
    + pose proof (RoundUp_spec (8 + (22 + 1) * 8 + Jni.SizeOfReturnValue m)
                               kStackAlignment HA) as R.
      split; [apply R|]. lia.
    + pose proof (RoundUp_spec (8 + (22 + 1) * 8) kStackAlignment HA) as R.
      split; [apply R|]. lia.
  - cbv zeta. unfold Jni.OutFrameSize, Jni.IsCriticalNative.
    destruct (Jni.is_critical_native_ m).
    + pose proof (RoundUp_spec
                    (GetNativeOutArgsSize (Jni.NumFloatOrDoubleArgs m)
                       (Jni.NumberOfExtraArgumentsForJni m + Jni.NumArgs m
                        - Jni.NumFloatOrDoubleArgs m) + Jni.kFramePointerSize)
                    kRiscv64StackAlignment HB) as R.
      split; [apply R|]. lia.
    + pose proof (RoundUp_spec
                    (GetNativeOutArgsSize (Jni.NumFloatOrDoubleArgs m)
                       (Jni.NumberOfExtraArgumentsForJni m + Jni.NumArgs m
                        - Jni.NumFloatOrDoubleArgs m))
                    kRiscv64StackAlignment HB) as R.
      split; [apply R|]. lia.
Qed.

Definition plain_method : Jni.Method :=
  {| Jni.is_critical_native_ := false; Jni.SpillsMethod := true;
     Jni.HasLocalReferenceSegmentState := true; Jni.SpillsReturnValue := true;
     Jni.SizeOfReturnValue := 8; Jni.NumberOfExtraArgumentsForJni := 2;
     Jni.NumArgs := 3; Jni.NumFloatOrDoubleArgs := 1;
     Jni.RequiresSmallResultTypeExtension := false |}.

Lemma frame_sizes_cover_the_spill_area_witness :
  exists size,
    Jni.FrameSize 16 plain_method = Some size
    /\ size mod 16 = 0 /\ 200 <= size < 200 + 16.
Proof.
  assert (H16 : 0 < 16) by lia.
  destruct (frame_sizes_cover_the_spill_area 16 16 (fun _ _ => 0) plain_method
              H16 H16) as [F _].
  exact (F eq_refl).
Defined.

(** ** JNI calling convention: registers and stack slots *)

Lemma placements_app (pre post : list Jni.ParamKind) (it : Jni.Iterator) :
  Jni.placements (pre ++ post) it
  = Jni.placements pre it ++ Jni.placements post (Jni.iterate pre it).
Proof.
  revert it. induction pre as [|k pre IH]; intros it; [reflexivity|].
  cbn [List.app Jni.placements]. rewrite IH. reflexivity.
Qed.

Lemma count_kind_app (k : Jni.ParamKind) (a b : list Jni.ParamKind) :
  Jni.count_kind k (a ++ b) = Jni.count_kind k a + Jni.count_kind k b.
Proof.
  induction a as [|k' a IH]; [unfold Jni.count_kind at 2; cbn; lia|].
  cbn [List.app]. rewrite !count_kind_cons, IH. lia.
Qed.

(** The iterator after a prefix, from the two counts. *)
Lemma iterate_Reset (pre : list Jni.ParamKind) :
  Jni.iterate pre Jni.ResetIterator
  = {| Jni.itr_args_ := Jni.count_kind Jni.IntLike pre
                        + Jni.count_kind Jni.FloatOrDouble pre;
       Jni.itr_float_and_doubles_ := Jni.count_kind Jni.FloatOrDouble pre |}.
Proof.
  rewrite iterate_counts. cbn [Jni.ResetIterator Jni.itr_args_
                                 Jni.itr_float_and_doubles_].
  rewrite !Z.add_0_l, <- count_kind_total. reflexivity.
Qed.

Lemma gpu_arg_number (i : Z) :
  0 <= i < 8 ->
  gpu_arg i = Jni.InRegister (Jni.FromGpuRegister (gpu_of_num (10 + i))).
Proof.
  intros H. assert (C : i = 0 \/ i = 1 \/ i = 2 \/ i = 3 \/ i = 4 \/ i = 5
                        \/ i = 6 \/ i = 7) by lia.
  repeat (destruct C as [->|C]; [reflexivity|]). subst. reflexivity.
Qed.

Lemma gpu_arg_inj (i j : Z) :
  0 <= i < 8 -> 0 <= j < 8 -> gpu_arg i = gpu_arg j -> i = j.
Proof.
  intros Hi Hj. rewrite !gpu_arg_number by assumption. intros H.
  assert (E : gpu_of_num (10 + i) = gpu_of_num (10 + j)) by congruence.
  apply (f_equal gpu_num) in E.
  assert (N : forall n, 0 <= n < 8 -> gpu_num (gpu_of_num (10 + n)) = 10 + n).
  { intros n Hn. assert (C : n = 0 \/ n = 1 \/ n = 2 \/ n = 3 \/ n = 4 \/ n = 5
                             \/ n = 6 \/ n = 7) by lia.
    repeat (destruct C as [->|C]; [reflexivity|]). subst. reflexivity. }
  rewrite !N in E by assumption. lia.
Qed.

Lemma fpu_arg_inj (i j : Z) :
  0 <= i < 8 -> 0 <= j < 8 -> fpu_arg i = fpu_arg j -> i = j.
Proof.
  intros Hi Hj.
  assert (N : forall n, 0 <= n < 8 ->
            fpu_arg n = Jni.InRegister (Jni.FromFpuRegister (fpu_of_num (10 + n)))
            /\ fpu_num (fpu_of_num (10 + n)) = 10 + n).
  { intros n Hn. assert (C : n = 0 \/ n = 1 \/ n = 2 \/ n = 3 \/ n = 4 \/ n = 5
                             \/ n = 6 \/ n = 7) by lia.
    repeat (destruct C as [->|C]; [split; reflexivity|]). subst. split; reflexivity. }
  destruct (N i Hi) as [Ei Ni]. destruct (N j Hj) as [Ej Nj].
  rewrite Ei, Ej. intros H.
  assert (E : fpu_of_num (10 + i) = fpu_of_num (10 + j)) by congruence.
  apply (f_equal fpu_num) in E. lia.
Qed.

Lemma gpu_arg_not_fpu_arg (i j : Z) : gpu_arg i <> fpu_arg j.
Proof. unfold gpu_arg, fpu_arg. discriminate. Qed.

(** X4. No two parameters of a list share a register: whatever the list
    (within the range of the 32-bit counters), the registers the JNI
    convention gives to two different positions differ. *)
Theorem jni_registers_are_distinct
    (pre mid post : list Jni.ParamKind) (k1 k2 : Jni.ParamKind)
    (r1 r2 : Jni.ManagedRegister) :
  let ks := pre ++ k1 :: mid ++ k2 :: post in
  Z.of_nat (List.length ks) < 2 ^ 32 ->
  nth_error (Jni.placements ks Jni.ResetIterator) (List.length pre)
  = Some (Jni.InRegister r1) ->
  nth_error (Jni.placements ks Jni.ResetIterator)
            (List.length (pre ++ k1 :: mid))
  = Some (Jni.InRegister r2) ->
  r1 <> r2.
Proof.
  intros ks L P1 P2 E. subst r2.
  unfold ks in *. clear ks.
  rewrite placements_at in P1.
  replace (pre ++ k1 :: mid ++ k2 :: post)
    with ((pre ++ k1 :: mid) ++ k2 :: post) in P2
    by (rewrite <- app_assoc; reflexivity).
  rewrite placements_at in P2.
  rewrite iterate_Reset in P1, P2.
  rewrite !count_kind_app, !count_kind_cons in P2.
  rewrite !length_app in L. cbn [List.length] in L. rewrite length_app in L.
  cbn [List.length] in L.
  pose proof (count_kind_total pre) as Tp.
  pose proof (count_kind_total mid) as Tm.
  pose proof (count_kind_nonneg Jni.IntLike pre) as Ip.
  pose proof (count_kind_nonneg Jni.FloatOrDouble pre) as Fp.
  pose proof (count_kind_nonneg Jni.IntLike mid) as Im.
  pose proof (count_kind_nonneg Jni.FloatOrDouble mid) as Fm.
  set (ni := Jni.count_kind Jni.IntLike pre) in *.
  set (nf := Jni.count_kind Jni.FloatOrDouble pre) in *.
  set (mi := Jni.count_kind Jni.IntLike mid) in *.
  set (mf := Jni.count_kind Jni.FloatOrDouble mid) in *.
  apply Some_inj in P1. apply Some_inj in P2.
  rewrite place_by_counts in P1 by lia.
  rewrite place_by_counts in P2 by (destruct k1; lia).
  destruct k1, k2;
    repeat match type of P1 with
           | context [if ?c <? ?d then _ else _] => destruct (Z.ltb_spec c d)
           end;
    try discriminate;
    repeat match type of P2 with
           | context [if ?c <? ?d then _ else _] => destruct (Z.ltb_spec c d)
           end;
    try discriminate;
    rewrite <- P1 in P2;
    try (apply gpu_arg_not_fpu_arg in P2; exact P2);
    try (symmetry in P2; apply gpu_arg_not_fpu_arg in P2; exact P2);
    try (apply gpu_arg_inj in P2; lia);
    try (apply fpu_arg_inj in P2; lia).
Qed.

Lemma jni_registers_are_distinct_witness :
  Jni.FromGpuRegister A0 <> Jni.FromGpuRegister A1.
Proof.
  apply (jni_registers_are_distinct (repeat Jni.FloatOrDouble 8) [] []
           Jni.FloatOrDouble Jni.IntLike).
  - cbn. lia.
  - reflexivity.
  - reflexivity.
Defined.


Lemma u64_small (v : Z) : 0 <= v < 2 ^ 64 -> u64 v = v.
Proof. intros H. unfold u64. apply Z.mod_small. exact H. Qed.

(** The number of parameters of a prefix that went to the stack, from the
    two counts. *)
Lemma stack_args_counts (pre : list Jni.ParamKind) :
  Z.of_nat (List.length pre) < 2 ^ 32 ->
  let ni := Jni.count_kind Jni.IntLike pre in
  let nf := Jni.count_kind Jni.FloatOrDouble pre in
  JniStack.stack_args pre
  = ni + nf - Z.min 8 ni - Z.min (8 + (if ni <? 8 then 8 - ni else 0)) nf.
Proof.
  induction pre as [|k pre IH] using rev_ind; intros L; [reflexivity|].
  rewrite length_app in L. cbn [List.length] in L.
  specialize (IH ltac:(lia)). cbv zeta in IH |- *.
  unfold JniStack.stack_args in *.
  rewrite placements_app, filter_app, length_app, Nat2Z.inj_add, IH.
  rewrite !count_kind_app, !count_kind_cons.
  cbn [Jni.placements filter]. rewrite iterate_Reset.
  pose proof (count_kind_total pre) as T.
  pose proof (count_kind_nonneg Jni.IntLike pre) as Ip.
  pose proof (count_kind_nonneg Jni.FloatOrDouble pre) as Fp.
  set (ni := Jni.count_kind Jni.IntLike pre) in *.
  set (nf := Jni.count_kind Jni.FloatOrDouble pre) in *.
  rewrite place_by_counts by lia.
  change (Jni.count_kind Jni.IntLike []) with 0.
  change (Jni.count_kind Jni.FloatOrDouble []) with 0.
  destruct k;
    repeat match goal with
           | |- context [if ?c <? ?d then _ else _] => destruct (Z.ltb_spec c d)
           end;
    cbn [JniStack.on_stack gpu_arg fpu_arg List.length];
    change (Z.of_nat 1) with 1; change (Z.of_nat 0) with 0; lia.
Qed.

(** X5. The JNI parameters that go to the stack get consecutive 8-byte
    slots in argument order: for a parameter on the stack, the offset is
    displacement - OutFrameSize + 8 * (the number of parameters before it
    that went to the stack), in 64-bit unsigned arithmetic, and the call
    aborts when that is not below OutFrameSize. For a parameter in a
    register the call aborts. *)
Theorem jni_stack_slots_are_consecutive
    (pre : list Jni.ParamKind) (k : Jni.ParamKind)
    (displacement_ out_frame_size : Z) :
  Z.of_nat (List.length pre) < 2 ^ 32 ->
  let it := Jni.iterate pre Jni.ResetIterator in
  let slot := JniStack.stack_args pre in
  let offset := u64 (displacement_ - out_frame_size + 8 * slot) in
  JniStack.CurrentParamStackOffset k it displacement_ out_frame_size
  = if JniStack.on_stack (Jni.place k it) && (offset <? out_frame_size)
    then Some offset else None.
Proof.
  intros L it slot offset.
  pose proof (stack_args_counts pre L) as S. cbv zeta in S. fold slot in S.
  unfold it in *. rewrite iterate_Reset.
  pose proof (count_kind_total pre) as T.
  pose proof (count_kind_nonneg Jni.IntLike pre) as Ip.
  pose proof (count_kind_nonneg Jni.FloatOrDouble pre) as Fp.
  set (ni := Jni.count_kind Jni.IntLike pre) in *.
  set (nf := Jni.count_kind Jni.FloatOrDouble pre) in *.
  unfold JniStack.CurrentParamStackOffset.
  assert (O : JniStack.on_stack
                (Jni.place k {| Jni.itr_args_ := ni + nf;
                                Jni.itr_float_and_doubles_ := nf |})
              = Jni.IsCurrentParamOnStack k
                  {| Jni.itr_args_ := ni + nf; Jni.itr_float_and_doubles_ := nf |}).
  { pose proof (place_by_counts k ni nf Ip Fp ltac:(lia)) as P.
    unfold Jni.place in *.
    destruct (Jni.IsCurrentParamOnStack k _); [reflexivity|].
    rewrite P. destruct k;
      repeat match goal with
             | |- context [if ?c <? ?d then _ else _] => destruct (Z.ltb_spec c d)
             end; try reflexivity;
      repeat match type of P with
             | context [if ?c <? ?d then _ else _] => destruct (Z.ltb_spec c d)
             end; try lia;
      destruct (Jni.CurrentParamRegister _ _); discriminate. }
  rewrite O.
  destruct (Jni.IsCurrentParamOnStack k _); cbn [negb andb]; [|reflexivity].
  cbn [Jni.itr_args_ Jni.itr_float_and_doubles_].
  unfold Jni.kMaxIntLikeRegisterArguments, Jni.kMaxFloatOrDoubleRegisterArguments,
    Jni.kFramePointerSize.
  replace (ni + nf - nf) with ni by lia.
  rewrite (u32_small ni) by lia.
  assert (C : u64 (8 + (if ni <? 8 then u32 (0 + u32 (8 - ni)) else 0))
              = 8 + (if ni <? 8 then 8 - ni else 0)).
  { destruct (Z.ltb_spec ni 8).
    - rewrite (u32_small (8 - ni)), (u32_small (0 + (8 - ni))) by lia.
      apply u64_small. lia.
    - apply u64_small. lia. }
  rewrite C.
  rewrite (u64_small (ni + nf - Z.min 8 ni)) by lia.
  assert (A : u64 (ni + nf - Z.min 8 ni
                   - Z.min (8 + (if ni <? 8 then 8 - ni else 0)) nf) = slot).
  { rewrite S. apply u64_small. destruct (Z.ltb_spec ni 8); lia. }
  rewrite A.
  assert (E : u64 (u64 (u64 displacement_ - out_frame_size) + u64 (slot * 8))
              = offset).
  { unfold offset, u64.
    rewrite Zplus_mod_idemp_l, Zplus_mod_idemp_r.
    replace (displacement_ mod 2 ^ 64 - out_frame_size + slot * 8)
      with (displacement_ mod 2 ^ 64 - (out_frame_size - slot * 8)) by lia.
    rewrite Zminus_mod_idemp_l. f_equal. lia. }
  rewrite E. destruct (offset <? out_frame_size); reflexivity.
Qed.

(** Ten integers: the ninth and the tenth go to the stack, the tenth one
    slot above the ninth. *)
Lemma jni_stack_slots_are_consecutive_witness :
  JniStack.CurrentParamStackOffset Jni.IntLike
    (Jni.iterate (repeat Jni.IntLike 9) Jni.ResetIterator) 32 32
  = Some 8.
Proof.
  apply (jni_stack_slots_are_consecutive (repeat Jni.IntLike 9) Jni.IntLike 32 32).
  cbn. lia.
Defined.


(** ** Managed runtime calling convention: parameter placement *)

Lemma managed_placements_at (pre post : list Jni.ParamKind) (k : Jni.ParamKind)
    (it : Jni.Iterator) :
  nth_error (Managed.placements (pre ++ k :: post) it) (List.length pre)
  = Some (Managed.place k (Jni.iterate pre it)).
Proof.
  revert it. induction pre as [|k' pre IH]; intros it; [reflexivity|].
  cbn [List.app Managed.placements List.length nth_error]. apply IH.
Qed.

Lemma managed_place_by_counts (k : Jni.ParamKind) (ni nf : Z) :
  0 <= ni -> 0 <= nf -> ni + nf < 2 ^ 32 - 1 ->
  Managed.place k {| Jni.itr_args_ := ni + nf; Jni.itr_float_and_doubles_ := nf |}
  = match k with
    | Jni.FloatOrDouble =>
        if nf <? 8 then fpu_arg nf
        else if 1 + ni + (nf - 8) <? 8 then gpu_arg (1 + ni + (nf - 8))
        else Jni.OnStack
    | Jni.IntLike =>
        if 1 + ni + Z.max 0 (nf - 8) <? 8 then gpu_arg (1 + ni + Z.max 0 (nf - 8))
        else Jni.OnStack
    end.
Proof.
  intros Hi Hf Hb.
  unfold Managed.place, Managed.IsCurrentParamOnStack, Managed.CurrentParamRegister,
    Managed.IsCurrentParamInRegister, gpu_arg, fpu_arg.
  cbn [Jni.itr_args_ Jni.itr_float_and_doubles_].
  unfold Jni.kMaxFloatOrDoubleRegisterArguments, Jni.kMaxIntLikeRegisterArguments.
  replace (ni + nf - nf) with ni by lia.
  assert (U : forall z, 0 <= z < 2 ^ 32 -> u32 z = z)
    by (intros z Hz; apply Z.mod_small; exact Hz).
  assert (SX : sext 32 ni = ni \/ 8 <= ni).
  { destruct (Z.ltb_spec ni 8); [left|right; assumption].
    apply sext_small; [lia|]. change (2 ^ (32 - 1)) with 2147483648. lia. }
  rewrite (U ni), (U (8 - 1)) by lia.
  change (8 - 1) with 7.
  destruct k; cbn [Jni.IsCurrentParamAFloatOrDouble].
  - (* integer-like *)
    rewrite !Z.add_0_l.
    destruct (Z.ltb_spec ni 7) as [Hn|Hn].
    + destruct SX as [SX|SX]; [rewrite SX|lia].
      rewrite (U (1 + ni)) by lia.
      destruct (Z.leb_spec 8 nf) as [H8|H8].
      * replace (Z.max 0 (nf - 8)) with (nf - 8) by lia.
        rewrite (U (nf - 8)) by lia.
        rewrite (U (1 + ni + (nf - 8))) by lia.
        destruct (Z.ltb_spec (1 + ni + (nf - 8)) 8) as [Hc|Hc]; cbn [negb].
        -- rewrite index_gpu_arg by lia. reflexivity.
        -- reflexivity.
      * replace (Z.max 0 (nf - 8)) with 0 by lia.
        rewrite (U 0) by lia. rewrite !Z.add_0_r, (U (1 + ni)) by lia.
        destruct (Z.ltb_spec (1 + ni) 8); [|lia]. cbn [negb].
        rewrite index_gpu_arg by lia. reflexivity.
    + rewrite (U (1 + ni)), Z.add_0_r, (U (1 + ni)) by lia.
      destruct (Z.ltb_spec (1 + ni) 8); [lia|]. cbn [negb].
      destruct (Z.ltb_spec (1 + ni + Z.max 0 (nf - 8)) 8); [lia|]. reflexivity.
  - (* float or double *)
    destruct (Z.ltb_spec nf 8) as [H8|H8].
    + assert (T : (nf <? 8 + (if ni <? 7 then u32 (0 + u32 (u32 (8 - ni) - 1)) else 0))
                  = true).
      { apply Z.ltb_lt. destruct (Z.ltb_spec ni 7).
        - rewrite (U (8 - ni)), (U (8 - ni - 1)), (U (0 + (8 - ni - 1))) by lia. lia.
        - lia. }
      rewrite T. cbn [negb]. rewrite index_fpu_arg by lia. reflexivity.
    + rewrite (U (nf - 8)) by lia.
      destruct (Z.ltb_spec ni 7) as [Hn|Hn].
      * destruct SX as [SX|SX]; [rewrite SX|lia].
        rewrite (U (8 - ni)), (U (8 - ni - 1)), (U (0 + (8 - ni - 1))) by lia.
        rewrite (U (1 + ni)) by lia.
        destruct (Z.ltb_spec (1 + ni + (nf - 8)) 8) as [Hc|Hc].
        -- replace (nf <? 8 + (0 + (8 - ni - 1))) with true
             by (symmetry; apply Z.ltb_lt; lia).
           cbn [negb]. rewrite (U (1 + ni + (nf - 8))) by lia.
           replace (1 + ni + (nf - 8) <? 8) with true
             by (symmetry; apply Z.ltb_lt; lia).
           cbn [negb]. rewrite index_gpu_arg by lia. reflexivity.
        -- replace (nf <? 8 + (0 + (8 - ni - 1))) with false
             by (symmetry; apply Z.ltb_ge; lia).
           reflexivity.
      * replace (nf <? 8 + 0) with false by (symmetry; apply Z.ltb_ge; lia).
        cbn [negb].
        destruct (Z.ltb_spec (1 + ni + (nf - 8)) 8); [lia|]. reflexivity.
Qed.

(** X6. In the managed runtime convention A0 holds the method and the
    parameters start at A1: with ni integer-like and nf floating-point
    parameters before it, a floating-point parameter goes to FA[nf] while
    nf < 8, then to integer register 1 + ni + (nf - 8) while that is below
    8, then to the stack; an integer-like parameter goes to integer
    register 1 + ni + max 0 (nf - 8) while that is below 8, then to the
    stack. No parameter is given the method register, and no CHECK of
    CurrentParamRegister fails for a parameter that is in a register. *)
Theorem managed_parameter_placement
    (pre post : list Jni.ParamKind) (k : Jni.ParamKind) :
  Z.of_nat (List.length pre) < 2 ^ 32 - 1 ->
  let ni := Jni.count_kind Jni.IntLike pre in
  let nf := Jni.count_kind Jni.FloatOrDouble pre in
  let placed :=
    nth_error (Managed.placements (pre ++ k :: post) Jni.ResetIterator)
              (List.length pre) in
  placed
  = Some (match k with
          | Jni.FloatOrDouble =>
              if nf <? 8 then fpu_arg nf
              else if 1 + ni + (nf - 8) <? 8 then gpu_arg (1 + ni + (nf - 8))
              else Jni.OnStack
          | Jni.IntLike =>
              if 1 + ni + Z.max 0 (nf - 8) <? 8
              then gpu_arg (1 + ni + Z.max 0 (nf - 8))
              else Jni.OnStack
          end)
  /\ placed <> Some (Jni.InRegister Managed.MethodRegister)
  /\ placed <> Some Jni.Aborts.
Proof.
  intros L ni nf placed.
  pose proof (count_kind_total pre) as T.
  pose proof (count_kind_nonneg Jni.IntLike pre) as Ip.
  pose proof (count_kind_nonneg Jni.FloatOrDouble pre) as Fp.
  fold ni in T, Ip. fold nf in T, Fp.
  assert (P : placed = Some (Managed.place k
                {| Jni.itr_args_ := ni + nf; Jni.itr_float_and_doubles_ := nf |})).
  { unfold placed. rewrite managed_placements_at, iterate_Reset. reflexivity. }
  rewrite managed_place_by_counts in P by lia.
  split; [exact P|]. rewrite P.
  assert (M : Jni.InRegister Managed.MethodRegister = gpu_arg 0) by reflexivity.
  rewrite M.
  split; intros E; apply Some_inj in E; destruct k;
    repeat match type of E with
           | context [if ?c <? ?d then _ else _] => destruct (Z.ltb_spec c d)
           end;
    try discriminate;
    try (apply gpu_arg_inj in E; lia);
    try (symmetry in E; apply gpu_arg_not_fpu_arg in E; exact E);
    try (rewrite gpu_arg_number in E by lia; discriminate).
Qed.

Lemma managed_parameter_placement_witness :
  nth_error (Managed.placements (repeat Jni.IntLike 7 ++ [Jni.IntLike])
                                Jni.ResetIterator) 7
  = Some Jni.OnStack.
Proof.
  assert (L : Z.of_nat (List.length (repeat Jni.IntLike 7)) < 2 ^ 32 - 1)
    by (cbn; lia).
  destruct (managed_parameter_placement (repeat Jni.IntLike 7) [] Jni.IntLike L)
    as [P _].
  exact P.
Defined.


(** ** The dex-overflow test: the generated members *)

Lemma decimal_inj (i j : nat) :
  DexOverflow.decimal i = DexOverflow.decimal j -> i = j.
Proof.
  unfold DexOverflow.decimal. intros H.
  apply (f_equal DecimalString.NilEmpty.uint_of_string) in H.
  rewrite !DecimalString.NilEmpty.usu in H.
  apply Some_inj in H. apply DecimalNat.Unsigned.to_uint_inj. exact H.
Qed.

Lemma list_ascii_of_append (a b : string) :
  list_ascii_of_string (a ++ b)
  = (list_ascii_of_string a ++ list_ascii_of_string b)%list.
Proof.
  induction a as [|c a IH]; [reflexivity|].
  cbn [String.append list_ascii_of_string List.app]. rewrite IH. reflexivity.
Qed.

Lemma list_ascii_of_string_inj (a b : string) :
  list_ascii_of_string a = list_ascii_of_string b -> a = b.
Proof.
  intros H. rewrite <- (string_of_list_ascii_of_string a),
              <- (string_of_list_ascii_of_string b), H. reflexivity.
Qed.

Lemma append_inv_head (pre a b : string) :
  (pre ++ a = pre ++ b)%string -> a = b.
Proof.
  intros H. apply (f_equal list_ascii_of_string) in H.
  rewrite !list_ascii_of_append in H. apply app_inv_head in H.
  apply list_ascii_of_string_inj. exact H.
Qed.

Lemma append_cancel (pre a b post : string) :
  (pre ++ a ++ post = pre ++ b ++ post)%string -> a = b.
Proof.
  intros H. apply append_inv_head in H.
  apply (f_equal list_ascii_of_string) in H.
  rewrite !list_ascii_of_append in H. apply app_inv_tail in H.
  apply list_ascii_of_string_inj. exact H.
Qed.

Lemma NoDup_map_inj {A B : Type} (f : A -> B) (l : list A) :
  (forall x y, f x = f y -> x = y) -> NoDup l -> NoDup (map f l).
Proof.
  intros Hf H. induction H as [|x l Hx H IH]; cbn [map]; constructor.
  - intros Hin. apply in_map_iff in Hin. destruct Hin as (y & E & Hy).
    apply Hf in E. subst y. exact (Hx Hy).
  - exact IH.
Qed.

(** X8. Whatever class name and member prefix the two awk functions are
    given, the members they write are pairwise different: member number i
    (from 1 to 65500) is the prefix followed by i in decimal, so the three
    generated classes declare 65,500 distinct static fields, instance
    fields and methods, under three different file names. *)
Theorem generated_members_are_distinct (name type : string) :
  NoDup (DexOverflow.members (DexOverflow.writeFileField name type))
  /\ NoDup (DexOverflow.members (DexOverflow.writeFileMethod name))
  /\ (forall i, (i < 65500)%nat ->
        nth_error (DexOverflow.members (DexOverflow.writeFileField name type)) i
        = Some ("    " ++ type ++ DexOverflow.decimal (S i) ++ ";"
                ++ DexOverflow.nl)%string
        /\ nth_error (DexOverflow.members (DexOverflow.writeFileMethod name)) i
           = Some ("    public void meth" ++ DexOverflow.decimal (S i) ++ "() { }"
                   ++ DexOverflow.nl)%string)
  /\ Forall (fun file => NoDup (DexOverflow.members file))
            DexOverflow.generated_sources
  /\ NoDup (map fst DexOverflow.generated_sources).
Proof.
  assert (ND : NoDup DexOverflow.member_numbers) by apply seq_NoDup.
  assert (F : forall name type,
            NoDup (DexOverflow.members (DexOverflow.writeFileField name type))).
  { intros n t. unfold DexOverflow.writeFileField. rewrite members_of_class.
    apply NoDup_map_inj; [|exact ND].
    intros x y H. apply decimal_inj.
    apply append_inv_head in H.
    apply (append_cancel t _ _ (";" ++ DexOverflow.nl)). exact H. }
  assert (M : forall name,
            NoDup (DexOverflow.members (DexOverflow.writeFileMethod name))).
  { intros n. unfold DexOverflow.writeFileMethod. rewrite members_of_class.
    apply NoDup_map_inj; [|exact ND].
    intros x y H. apply decimal_inj.
    apply (append_cancel "    public void meth" _ _ ("() { }" ++ DexOverflow.nl)).
    exact H. }
  split; [apply F|]. split; [apply M|]. split; [|split].
  - intros i Hi. unfold DexOverflow.writeFileField, DexOverflow.writeFileMethod.
    rewrite !members_of_class. unfold DexOverflow.member_numbers.
    assert (N : nth_error (seq 1 65500) i = Some (S i)).
    { rewrite nth_error_nth' with (d := O) by (rewrite length_seq; exact Hi).
      rewrite seq_nth by exact Hi. reflexivity. }
    split.
    + exact (map_nth_error _ _ _ N).
    + exact (map_nth_error _ _ _ N).
  - unfold DexOverflow.generated_sources.
    apply Forall_cons; [exact (F _ _)|].
    apply Forall_cons; [exact (F _ _)|].
    apply Forall_cons; [exact (M _)|].
    apply Forall_nil.
  - unfold DexOverflow.generated_sources, DexOverflow.writeFileField,
      DexOverflow.writeFileMethod.
    cbn [map fst].
    apply NoDup_cons; [|apply NoDup_cons; [|apply NoDup_cons; [|apply NoDup_nil]]].
    + intros [H|[H|[]]]; apply append_inv_head in H; discriminate.
    + intros [H|[]]; apply append_inv_head in H; discriminate.
    + intros [].
Qed.


(** ** Positions after branch promotion: the cache *)

Definition grown (b : Asm.Branch) : Prop := Asm.GetOldSize b <= Asm.GetSize b.

(** The state of the loop after the first [k] branches. *)
Definition passed (bs : list Asm.Branch) (old0 : Z) (k : nat) : Adjust.Cache :=
  {| Adjust.last_position_adjustment_ := Adjust.growth (firstn k bs);
     Adjust.last_old_position_ := old0;
     Adjust.last_branch_id_ := Z.of_nat k |}.

Lemma growth_firstn_S (bs : list Asm.Branch) (k : nat) (b : Asm.Branch) :
  nth_error bs k = Some b ->
  Adjust.growth (firstn (S k) bs)
  = Adjust.growth (firstn k bs) + (Asm.GetSize b - Asm.GetOldSize b).
Proof.
  revert k. induction bs as [|h t IH]; intros [|k] H; try discriminate.
  - apply Some_inj in H. subst h. cbn [firstn Adjust.growth]. lia.
  - cbn [nth_error] in H. specialize (IH k H).
    change (firstn (S (S k)) (h :: t)) with (h :: firstn (S k) t).
    change (firstn (S k) (h :: t)) with (h :: firstn k t).
    cbn [Adjust.growth]. rewrite IH. lia.
Qed.

Lemma growth_bounds (bs : list Asm.Branch) (k : nat) :
  Forall grown bs ->
  0 <= Adjust.growth (firstn k bs) <= Adjust.growth bs.
Proof.
  intros G. revert k. induction G as [|b bs Gb G IH]; intros [|k];
    cbn [firstn Adjust.growth]; try lia; unfold grown in Gb.
  - specialize (IH O). cbn [firstn Adjust.growth] in IH. lia.
  - specialize (IH k). lia.
Qed.

Lemma reach_le (bs : list Asm.Branch) (q adj : Z) :
  (Adjust.reach bs q adj <= List.length bs)%nat.
Proof.
  revert adj. induction bs as [|b bs IH]; intros adj; cbn [Adjust.reach List.length];
    [lia|].
  destruct (q + adj <=? Asm.location_ b); [lia|]. specialize (IH (adj + (Asm.GetSize b - Asm.GetOldSize b))). lia.
Qed.

(** A later position gets at least as far. *)
Lemma reach_mono (bs : list Asm.Branch) (q q' adj : Z) :
  q <= q' -> (Adjust.reach bs q adj <= Adjust.reach bs q' adj)%nat.
Proof.
  intros H. revert adj. induction bs as [|b bs IH]; intros adj; cbn [Adjust.reach];
    [lia|].
  destruct (Z.leb_spec (q + adj) (Asm.location_ b)); [lia|].
  destruct (Z.leb_spec (q' + adj) (Asm.location_ b)); [lia|].
  specialize (IH (adj + (Asm.GetSize b - Asm.GetOldSize b))). lia.
Qed.

(** Resuming after [k] branches that the position passes anyway. *)
Lemma reach_resume (bs : list Asm.Branch) (q adj : Z) (k : nat) :
  (k <= Adjust.reach bs q adj)%nat ->
  Adjust.reach bs q adj
  = (k + Adjust.reach (skipn k bs) q (adj + Adjust.growth (firstn k bs)))%nat.
Proof.
  revert bs adj. induction k as [|k IH]; intros bs adj H.
  - cbn [skipn firstn Adjust.growth Nat.add]. rewrite Z.add_0_r. reflexivity.
  - destruct bs as [|b bs]; [cbn [Adjust.reach] in H; lia|].
    cbn [Adjust.reach] in H |- *.
    destruct (q + adj <=? Asm.location_ b); [lia|].
    cbn [skipn firstn Adjust.growth Nat.add]. f_equal.
    rewrite (IH bs (adj + (Asm.GetSize b - Asm.GetOldSize b))) by lia.
    f_equal. f_equal. lia.
Qed.

Lemma nth_error_skipn_head {A : Type} (l : list A) (k : nat) :
  nth_error l k = hd_error (skipn k l).
Proof.
  revert l. induction k as [|k IH]; intros [|h t]; try reflexivity.
  cbn [nth_error skipn]. apply IH.
Qed.

Lemma advance_spec (fuel : nat) (bs : list Asm.Branch) (q old0 : Z) (k : nat) :
  Forall grown bs ->
  0 <= q -> q + Adjust.growth bs < 2 ^ 32 ->
  Z.of_nat (List.length bs) < 2 ^ 32 ->
  (k <= List.length bs)%nat ->
  (List.length bs - k < fuel)%nat ->
  Adjust.advance fuel bs q (passed bs old0 k)
  = Some (passed bs old0
            (k + Adjust.reach (skipn k bs) q (Adjust.growth (firstn k bs)))).
Proof.
  intros G Hq Hg Hn. revert k.
  induction fuel as [|fuel IH]; intros k Hk Hf; [lia|].
  cbn [Adjust.advance passed Adjust.last_branch_id_ Adjust.last_position_adjustment_
         Adjust.last_old_position_].
  destruct (Z.eqb_spec (Z.of_nat k) (Z.of_nat (List.length bs))) as [E|E];
    cbn [negb].
  - assert (k = List.length bs) by lia. subst k.
    rewrite skipn_all. cbn [Adjust.reach]. rewrite Nat.add_0_r. reflexivity.
  - destruct (Z.ltb_spec (Z.of_nat k) (Z.of_nat (List.length bs))); [|lia].
    cbn [negb]. rewrite Nat2Z.id.
    destruct (nth_error bs k) as [b|] eqn:N;
      [|apply nth_error_None in N; lia].
    pose proof (growth_bounds bs k G) as B.
    pose proof (growth_bounds bs (S k) G) as B'.
    pose proof (proj1 (Forall_forall _ _) G b (nth_error_In _ _ N)) as Gb.
    unfold grown in Gb.
    rewrite (growth_firstn_S bs k b N) in B'.
    rewrite (u32_small (q + _)) by lia.
    pose proof N as N'. rewrite nth_error_skipn_head in N'.
    destruct (skipn k bs) as [|b' rest] eqn:SK; [discriminate|].
    cbn [hd_error] in N'. apply Some_inj in N'. subst b'.
    cbn [Adjust.reach].
    destruct (Z.leb_spec (q + Adjust.growth (firstn k bs)) (Asm.location_ b)).
    + rewrite Nat.add_0_r. reflexivity.
    + assert (R : rest = skipn (S k) bs).
      { rewrite <- (Nat.add_1_l k), <- skipn_skipn, SK. reflexivity. }
      assert (P : {| Adjust.last_position_adjustment_ :=
                       u32 (Adjust.growth (firstn k bs)
                            + u32 (Asm.GetSize b - Asm.GetOldSize b));
                     Adjust.last_old_position_ := old0;
                     Adjust.last_branch_id_ := u32 (Z.of_nat k + 1) |}
                  = passed bs old0 (S k)).
      { unfold passed. rewrite (growth_firstn_S bs k b N).
        rewrite (u32_small (Asm.GetSize b - Asm.GetOldSize b)) by lia.
        rewrite (u32_small (_ + _)) by lia.
        rewrite (u32_small (Z.of_nat k + 1)) by lia.
        f_equal. lia. }
      rewrite P, (IH (S k)) by lia.
      rewrite R, (growth_firstn_S bs k b N). f_equal. f_equal. lia.
Qed.

(** One call, from any state the loop can have been left in for an
    earlier position. *)
Lemma GetAdjustedPosition_spec (bs : list Asm.Branch) (q old0 : Z) (k : nat) :
  Forall grown bs ->
  0 <= q -> q + Adjust.growth bs < 2 ^ 32 ->
  Z.of_nat (List.length bs) < 2 ^ 32 ->
  (k <= Adjust.reach bs old0 0)%nat ->
  Adjust.GetAdjustedPosition bs (passed bs old0 k) q
  = Some (Adjust.adjusted bs q, passed bs q (Adjust.reach bs q 0)).
Proof.
  intros G Hq Hg Hn Hk.
  pose proof (reach_le bs old0 0) as RL.
  unfold Adjust.GetAdjustedPosition. cbn [passed Adjust.last_old_position_].
  fold (passed bs old0 k).
  assert (F : Adjust.fresh = passed bs 0 0) by reflexivity.
  assert (A : forall o j, (j <= Adjust.reach bs q 0)%nat ->
            Adjust.advance (S (List.length bs)) bs q (passed bs o j)
            = Some (passed bs o (Adjust.reach bs q 0))).
  { intros o j Hj. pose proof (reach_le bs q 0).
    rewrite advance_spec by (try assumption; lia).
    rewrite (reach_resume bs q 0 j Hj), Z.add_0_l. reflexivity. }
  destruct (Z.ltb_spec q old0).
  - rewrite F, A by lia.
    cbn [passed Adjust.last_position_adjustment_ Adjust.last_branch_id_].
    pose proof (growth_bounds bs (Adjust.reach bs q 0) G).
    rewrite u32_small by lia. reflexivity.
  - rewrite A by (pose proof (reach_mono bs old0 q 0 ltac:(lia)); lia).
    cbn [passed Adjust.last_position_adjustment_ Adjust.last_branch_id_].
    pose proof (growth_bounds bs (Adjust.reach bs q 0) G).
    rewrite u32_small by lia. reflexivity.
Qed.

(** X9. The state GetAdjustedPosition keeps between calls never changes
    an answer. For branches that only grew and positions that stay within
    32 bits after adjustment, a series of calls in any order, each
    continuing from the state the previous call left, returns for every
    position what a first call on a fresh assembler returns for it: the
    position plus the growth of the leading branches the loop passes for
    it. No CHECK fails. *)
Theorem adjusted_positions_do_not_depend_on_the_cache
    (branches_ : list Asm.Branch) (positions : list Z) :
  Forall grown branches_ ->
  Z.of_nat (List.length branches_) < 2 ^ 32 ->
  Forall (fun p => 0 <= p /\ p + Adjust.growth branches_ < 2 ^ 32) positions ->
  Adjust.adjust_all branches_ Adjust.fresh positions
  = Some (map (Adjust.adjusted branches_) positions)
  /\ Forall (fun p =>
               option_map fst (Adjust.GetAdjustedPosition branches_ Adjust.fresh p)
               = Some (Adjust.adjusted branches_ p)) positions.
Proof.
  intros G Hn Hp. split.
  - assert (F : Adjust.fresh = passed branches_ 0 0) by reflexivity.
    rewrite F.
    assert (K : (0 <= Adjust.reach branches_ 0 0)%nat) by lia.
    revert K. generalize 0 at 1 3. generalize O.
    induction Hp as [|p ps [Hp0 Hp1] Hps IH]; intros k old0 K; [reflexivity|].
    cbn [Adjust.adjust_all map].
    rewrite GetAdjustedPosition_spec by assumption.
    rewrite IH by lia. reflexivity.
  - apply Forall_forall. intros p Hin.
    destruct (proj1 (Forall_forall _ _) Hp p Hin) as [Hp0 Hp1].
    assert (F : Adjust.fresh = passed branches_ 0 0) by reflexivity.
    rewrite F, GetAdjustedPosition_spec by (try assumption; lia).
    reflexivity.
Qed.


(** One conditional branch at 8 that was promoted (4 bytes became 12);
    positions asked out of order. *)
Definition one_promoted_branch : list Asm.Branch :=
  [{| Asm.old_location_ := 8; Asm.location_ := 8; Asm.target_ := 40000;
      Asm.lhs_reg_ := A0; Asm.rhs_reg_ := A1; Asm.condition_ := Asm.kCondEQ;
      Asm.type_ := Asm.kLongCondBranch; Asm.old_type_ := Asm.kCondBranch |}].

Lemma adjusted_positions_do_not_depend_on_the_cache_witness :
  Adjust.adjust_all one_promoted_branch Adjust.fresh [4; 100; 8; 12]
  = Some [4; 108; 8; 20].
Proof.
  destruct (adjusted_positions_do_not_depend_on_the_cache one_promoted_branch
              [4; 100; 8; 12]) as [H _].
  - repeat constructor. unfold grown. apply Z.leb_le. reflexivity.
  - reflexivity.
  - repeat (constructor; [split; [apply Z.leb_le|apply Z.ltb_lt]; reflexivity|]).
    constructor.
  - exact H.
Defined.


(** ** Labels: binding resolves the branches that wait *)

Lemma nth_error_list_update_same {A : Type} (l : list A) (i : nat) (x : A) :
  (i < List.length l)%nat -> nth_error (Asm.list_update l i x) i = Some x.
Proof.
  revert i. induction l as [|h t IH]; intros [|i] H; cbn [List.length] in H;
    try lia; cbn [Asm.list_update nth_error]; [reflexivity|].
  apply IH. lia.
Qed.

Lemma Bind_walk_effect (fuel : nat) (pc : Z) (l : Asm.Riscv64Label)
    (a : Asm.Assembler) :
  walk_ok fuel (Asm.buffer_ a) (locations a) (Asm.position_ l) = true ->
  exists l' a',
    Asm.Bind_walk fuel pc l a = Some (l', a')
    /\ locations a' = locations a
    /\ Asm.prev_branch_id_plus_one_ l' = Asm.prev_branch_id_plus_one_ l
    /\ forall i,
         nth_error (Asm.branches_ a') i
         = option_map
             (fun b => if Links.is_use
                            (Links.uses fuel (Asm.buffer_ a) (locations a)
                                        (Asm.position_ l)) i
                       then Asm.Resolve b pc else b)
             (nth_error (Asm.branches_ a) i).
Proof.
  revert l a. induction fuel as [|fuel IH]; intros l a H;
    cbn [walk_ok Asm.Bind_walk Links.uses] in *; unfold Asm.IsLinked.
  - destruct (0 <? Asm.position_ l); [discriminate|].
    exists l, a. repeat split. intros i.
    destruct (nth_error (Asm.branches_ a) i); reflexivity.
  - destruct (0 <? Asm.position_ l) eqn:P.
    2:{ exists l, a. repeat split. intros i.
        destruct (nth_error (Asm.branches_ a) i); reflexivity. }
    apply andb_true_iff in H. destruct H as [H1 H2].
    assert (Pos : Asm.Position l = Asm.position_ l - Asm.kPointerSize).
    { unfold Asm.Position, Asm.IsBound. apply Z.ltb_lt in P.
      destruct (Z.ltb_spec (Asm.position_ l) 0); [lia|reflexivity]. }
    rewrite Pos. set (id := u32 (Asm.position_ l - Asm.kPointerSize)) in *.
    pose proof (u32_range (Asm.position_ l - Asm.kPointerSize)) as Rid.
    fold id in Rid.
    unfold locations in H2 |- *. rewrite nth_error_map in H2 |- *.
    destruct (nth_error (Asm.branches_ a) (Z.to_nat id)) as [b|] eqn:N;
      [|discriminate].
    cbn [option_map] in H2 |- *.
    assert (G : Asm.GetBranch id a = Some (b, a)).
    { unfold Asm.GetBranch, Asm.bind, Asm.get, Asm.CHECK, Asm.lift.
      unfold locations in H1. rewrite length_map in H1. rewrite H1.
      replace (0 <=? id) with true by (symmetry; apply Z.leb_le; lia).
      cbn [andb]. rewrite N. reflexivity. }
    unfold Asm.bind at 1. rewrite G.
    unfold Asm.bind at 1, Asm.SetBranch, Asm.bind at 1, Asm.get at 1, Asm.put.
    unfold Asm.bind at 1, Asm.get at 1.
    set (a1 := Asm.with_branches a
                 (Asm.list_update (Asm.branches_ a) (Z.to_nat id) (Asm.Resolve b pc))).
    assert (L1 : locations a1 = locations a).
    { unfold locations, a1. destruct a; cbn [Asm.branches_ Asm.with_branches].
      apply (map_list_update Asm.location_ _ _ _ b); [exact N|reflexivity]. }
    assert (B1 : Asm.buffer_ a1 = Asm.buffer_ a) by (destruct a; reflexivity).
    destruct (IH (Asm.set_position l (sext 32 (Asm.buf_Load32 (Asm.buffer_ a1)
                                                  (Asm.location_ b)))) a1)
      as (l' & a' & W & L' & Pv & E).
    + rewrite L1, B1. exact H2.
    + exists l', a'. split; [exact W|]. split; [unfold locations in *; congruence|].
      split; [exact Pv|]. intros i. rewrite E.
      cbn [Asm.set_position Asm.position_]. rewrite L1, B1.
      fold (locations a).
      assert (Bs : Asm.branches_ a1
                   = Asm.list_update (Asm.branches_ a) (Z.to_nat id)
                                     (Asm.Resolve b pc))
        by (destruct a; reflexivity).
      rewrite Bs. unfold Links.is_use. cbn [existsb].
      destruct (Nat.eq_dec (Z.to_nat id) i) as [Ei|Ei].
      * subst i. rewrite nth_error_list_update_same, N
          by (apply nth_error_Some; congruence).
        cbn [option_map]. rewrite Z2Nat.id, Z.eqb_refl by lia. cbn [orb].
        destruct (existsb _ _); reflexivity.
      * rewrite nth_error_list_update_other by exact Ei.
        destruct (Z.eqb_spec (Z.of_nat i) id); [lia|]. cbn [orb]. reflexivity.
Qed.

(** What a label needs for [Bind]: it is not bound, its list of uses ends,
    the code so far is what 32 bits (and the sign of the stored position)
    can hold, and every branch lies within the code. *)
Definition can_bind (a : Asm.Assembler) (l : Asm.Riscv64Label) : Prop :=
  Asm.IsBound l = false
  /\ walk_ok (S (List.length (Asm.branches_ a))) (Asm.buffer_ a) (locations a)
             (Asm.position_ l) = true
  /\ Z.of_nat (List.length (Asm.branches_ a)) < 2 ^ 31
  /\ Asm.buf_Size (Asm.buffer_ a) < 2 ^ 31
  /\ Forall (fun b => 0 <= Asm.location_ b
                      /\ Asm.location_ b + Asm.GetSize b
                         <= Asm.buf_Size (Asm.buffer_ a))
            (Asm.branches_ a).

(** X10. Binding a label resolves exactly the branches that wait for it
    and makes the label answer its position: when the label is not bound
    and its list of uses ends, Bind returns; every branch on the list gets
    the end of the code as its target and every other branch is left as it
    was; the code and the literals are untouched; and GetLabelLocation then
    returns that same position for the label. *)
Theorem Bind_resolves_the_uses (a : Asm.Assembler) (l : Asm.Riscv64Label) :
  can_bind a l ->
  let bound_pc := Asm.buf_Size (Asm.buffer_ a) in
  exists l' a',
    Asm.Bind l a = Some (l', a')
    /\ (forall i,
          nth_error (Asm.branches_ a') i
          = option_map
              (fun b => if Links.is_use (Links.uses_of a l) i
                        then Asm.Resolve b bound_pc else b)
              (nth_error (Asm.branches_ a) i))
    /\ Asm.buffer_ a' = Asm.buffer_ a
    /\ Asm.literals_ a' = Asm.literals_ a
    /\ Asm.long_literals_ a' = Asm.long_literals_ a
    /\ Asm.IsBound l' = true
    /\ Asm.GetLabelLocation l' a' = Some (bound_pc, a').
Proof.
  intros (B & W & Ln & Sz & In) bound_pc.
  assert (S0 : 0 <= bound_pc) by (unfold bound_pc, Asm.buf_Size; lia).
  unfold Asm.Bind, Asm.bind at 1, Asm.CHECK. rewrite B. cbn [negb].
  unfold Asm.bind at 1, Asm.get at 1. unfold Asm.bind at 1.
  fold bound_pc. rewrite (u32_small bound_pc) by lia.
  destruct (Bind_walk_effect _ bound_pc l a W) as (l1 & a1 & W1 & L1 & Pv & E).
  rewrite W1. unfold Asm.bind at 1, Asm.get at 1.
  destruct (Bind_walk_same _ _ _ _ _ _ W1) as [(C1 & C2 & C3) (C4 & C5)].
  assert (Len : List.length (Asm.branches_ a1) = List.length (Asm.branches_ a)).
  { unfold locations in L1. apply (f_equal (@List.length Z)) in L1.
    rewrite !length_map in L1. exact L1. }
  rewrite Len, u32_small by lia.
  set (n := Z.of_nat (List.length (Asm.branches_ a))) in *.
  assert (Final : forall rel, 0 <= rel < 2 ^ 31 ->
            Asm.IsBound (Asm.BindTo {| Asm.position_ := Asm.position_ l1;
                                       Asm.prev_branch_id_plus_one_ := n |}
                                    (sext 32 rel)) = true
            /\ u32 (Asm.Position (Asm.BindTo
                      {| Asm.position_ := Asm.position_ l1;
                         Asm.prev_branch_id_plus_one_ := n |} (sext 32 rel)))
               = rel).
  { intros rel Hr. rewrite sext_small by (change (2 ^ (32 - 1)) with (2 ^ 31); lia).
    unfold Asm.Position, Asm.IsBound, Asm.BindTo, Asm.kPointerSize.
    cbn [Asm.position_].
    destruct (Z.ltb_spec (- rel - 8) 0); [|lia].
    split; [reflexivity|]. rewrite u32_small; lia. }
  destruct (Z.eqb_spec n 0) as [E0|E0]; cbn [negb].
  - destruct (Final bound_pc ltac:(lia)) as [F1 F2].
    eexists _, a1. split; [reflexivity|]. split; [exact E|].
    split; [exact C1|]. split; [exact C4|]. split; [exact C5|].
    split; [exact F1|].
    unfold Asm.GetLabelLocation, Asm.bind, Asm.CHECK. rewrite F1, F2.
    cbn [Asm.BindTo Asm.prev_branch_id_plus_one_]. rewrite E0. reflexivity.
  - unfold Asm.bind at 1.
    assert (N : exists b, nth_error (Asm.branches_ a) (Z.to_nat (n - 1)) = Some b).
    { destruct (nth_error (Asm.branches_ a) (Z.to_nat (n - 1))) eqn:N; [eauto|].
      apply nth_error_None in N. lia. }
    destruct N as [b N].
    pose proof (E (Z.to_nat (n - 1))) as Eb. rewrite N in Eb. cbn [option_map] in Eb.
    set (b1 := if Links.is_use _ _ then Asm.Resolve b bound_pc else b) in Eb.
    assert (G : Asm.GetBranch (n - 1) a1 = Some (b1, a1)).
    { unfold Asm.GetBranch, Asm.bind, Asm.get, Asm.CHECK, Asm.lift. rewrite Len.
      fold n.
      replace ((0 <=? n - 1) && (n - 1 <? n)) with true
        by (symmetry; apply andb_true_iff; split;
            [apply Z.leb_le | apply Z.ltb_lt]; lia).
      rewrite Eb. reflexivity. }
    rewrite G.
    assert (End : Asm.GetEndLocation b1 = Asm.GetEndLocation b)
      by (unfold b1; destruct (Links.is_use _ _); reflexivity).
    pose proof (proj1 (Forall_forall _ _) In b (nth_error_In _ _ N)) as [Lb0 Lb1].
    pose proof (sizes_small b) as [Sb _].
    assert (EndV : Asm.GetEndLocation b = Asm.location_ b + Asm.GetSize b).
    { unfold Asm.GetEndLocation. apply u32_small. lia. }
    fold bound_pc in Lb1.
    assert (Rel : u32 (bound_pc - Asm.GetEndLocation b1)
                  = bound_pc - Asm.GetEndLocation b).
    { rewrite End. apply u32_small. lia. }
    destruct (Final (bound_pc - Asm.GetEndLocation b) ltac:(lia)) as [F1 F2].
    eexists _, a1. split; [unfold Asm.ret; rewrite Rel; reflexivity|].
    split; [exact E|].
    split; [exact C1|]. split; [exact C4|]. split; [exact C5|].
    split; [exact F1|].
    unfold Asm.GetLabelLocation, Asm.bind at 1, Asm.CHECK. rewrite F1, F2.
    cbn [Asm.BindTo Asm.prev_branch_id_plus_one_].
    destruct (Z.eqb_spec n 0); [lia|]. cbn [negb].
    unfold Asm.bind. rewrite G. unfold Asm.ret. rewrite End.
    rewrite u32_small by lia. f_equal. f_equal. lia.
Qed.


(** A jump and a call to one label that is still to be bound. *)
Definition two_jumps : option (Asm.Riscv64Label * Asm.Assembler) :=
  Asm.bind (Asm.Buncond Asm.new_label false) (fun l => Asm.Call l false)
           Asm.new_assembler.

Definition after_two_jumps : Asm.Riscv64Label * Asm.Assembler :=
  match two_jumps with
  | Some p => p
  | None => (Asm.new_label, Asm.new_assembler)
  end.

Lemma Bind_resolves_the_uses_witness :
  can_bind (snd after_two_jumps) (fst after_two_jumps)
  /\ Links.uses_of (snd after_two_jumps) (fst after_two_jumps) = [1; 0]
  /\ exists l' a',
       Asm.Bind (fst after_two_jumps) (snd after_two_jumps) = Some (l', a')
       /\ nth_error (map Asm.target_ (Asm.branches_ a')) 1 = Some 8
       /\ Asm.GetLabelLocation l' a' = Some (8, a').
Proof.
  assert (C : can_bind (snd after_two_jumps) (fst after_two_jumps)).
  { split; [reflexivity|]. split; [vm_compute; reflexivity|].
    split; [vm_compute; reflexivity|]. split; [vm_compute; reflexivity|].
    repeat apply Forall_cons; try apply Forall_nil; split; vm_compute;
      discriminate. }
  split; [exact C|]. split; [vm_compute; reflexivity|].
  destruct (Bind_resolves_the_uses _ _ C) as (l' & a' & B & E & _ & _ & _ & _ & G).
  exists l', a'. split; [exact B|]. split; [|exact G].
  rewrite nth_error_map, (E 1%nat). reflexivity.
Defined.


(** ** Labels: a branch to an unbound label joins the list *)

Lemma walk_ok_fuel (fuel : nat) (buf locs : list Z) (p : Z) :
  walk_ok fuel buf locs p = true -> walk_ok (S fuel) buf locs p = true.
Proof.
  revert p. induction fuel as [|fuel IH]; intros p H.
  - cbn [walk_ok] in *. destruct (0 <? p); [discriminate|reflexivity].
  - remember (S fuel) as f eqn:F. cbn [walk_ok]. subst f. cbn [walk_ok] in H.
    destruct (0 <? p); [|reflexivity].
    apply andb_true_iff in H. destruct H as [H1 H2]. rewrite H1. cbn [andb].
    destruct (nth_error locs _); [|discriminate]. apply IH. exact H2.
Qed.

Lemma uses_fuel (fuel : nat) (buf locs : list Z) (p : Z) :
  walk_ok fuel buf locs p = true ->
  Links.uses (S fuel) buf locs p = Links.uses fuel buf locs p.
Proof.
  revert p. induction fuel as [|fuel IH]; intros p H.
  - cbn [walk_ok Links.uses] in *. destruct (0 <? p); [discriminate|reflexivity].
  - remember (S fuel) as f eqn:F. cbn [Links.uses]. subst f.
    cbn [walk_ok] in H. cbn [Links.uses].
    destruct (0 <? p); [|reflexivity].
    apply andb_true_iff in H. destruct H as [H1 H2].
    destruct (nth_error locs _); [|reflexivity]. f_equal.
    rewrite <- (IH _ H2). reflexivity.
Qed.

Lemma uses_app (fuel : nat) (buf extra locs : list Z) (p : Z) :
  in_buffer buf locs ->
  Links.uses fuel (buf ++ extra) locs p = Links.uses fuel buf locs p.
Proof.
  intros HB. revert p. induction fuel as [|fuel IH]; intros p; cbn [Links.uses];
    [reflexivity|].
  destruct (0 <? p); [|reflexivity].
  destruct (nth_error locs (Z.to_nat (u32 (p - Asm.kPointerSize)))) as [loc|] eqn:N;
    [|reflexivity].
  apply nth_error_In in N.
  destruct (proj1 (Forall_forall _ _) HB loc N) as [H0 H1].
  rewrite (Load32_other buf (buf ++ extra))
    by (intros q Hq; apply byte_at_app; lia).
  rewrite IH. reflexivity.
Qed.

Lemma walk_more_branches (fuel : nat) (buf locs more : list Z) (p : Z) :
  walk_ok fuel buf locs p = true ->
  walk_ok fuel buf (locs ++ more) p = true
  /\ Links.uses fuel buf (locs ++ more) p = Links.uses fuel buf locs p.
Proof.
  revert p. induction fuel as [|fuel IH]; intros p H;
    cbn [walk_ok Links.uses] in *.
  - destruct (0 <? p); [discriminate|]. split; reflexivity.
  - destruct (0 <? p); [|split; reflexivity].
    apply andb_true_iff in H. destruct H as [H1 H2].
    apply Z.ltb_lt in H1.
    pose proof (u32_range (p - Asm.kPointerSize)) as R.
    rewrite nth_error_app1 by lia.
    destruct (nth_error locs _) as [loc|]; [|discriminate].
    destruct (IH _ H2) as [W U]. rewrite W, U, andb_true_r. split; [|reflexivity].
    apply Z.ltb_lt. rewrite length_app. lia.
Qed.

Definition nop_word : Z := Asm.EncodeI (u16 0) (gpu_num ZERO) 0 (gpu_num ZERO) 0x13.

Lemma emits_Nops (n : nat) : emits (Asm.Nops n) (repeat nop_word n).
Proof.
  induction n as [|n IH]; cbn [Asm.Nops repeat]; [apply emits_ret|].
  apply (emits_bind _ _ [_] _); [apply emits_Emit|exact IH].
Qed.

(** The state after a branch [b] for the label [l] has been appended: the
    branch joins the list, and its place in the code holds the link the
    label had, followed by no-ops up to the length of the branch. *)
Definition linked (a : Asm.Assembler) (l : Asm.Riscv64Label) (b : Asm.Branch)
  : Asm.Assembler :=
  Asm.with_buffer (Asm.with_branches a (Asm.branches_ a ++ [b]))
    (Asm.buffer_ a
     ++ words (Asm.position_ l
               :: repeat nop_word (Z.to_nat (Asm.GetLength b - 1)))).

Lemma lengths_small (b : Asm.Branch) : 1 <= Asm.GetLength b <= 3.
Proof. unfold Asm.GetLength. destruct (Asm.type_ b); cbn; lia. Qed.

Lemma FinalizeLabeledBranch_links (a : Asm.Assembler) (l : Asm.Riscv64Label)
    (b : Asm.Branch) :
  Asm.overwriting_ a = false -> Asm.IsBound l = false ->
  Asm.bind (Asm.emplace_back (Some b)) (fun _ => Asm.FinalizeLabeledBranch l) a
  = Some (Asm.LinkTo l (Z.of_nat (List.length (Asm.branches_ a))), linked a l b).
Proof.
  intros O B.
  unfold Asm.bind at 1, Asm.emplace_back, Asm.bind at 1, Asm.lift.
  unfold Asm.bind at 1, Asm.get at 1, Asm.put.
  unfold Asm.FinalizeLabeledBranch, Asm.bind at 1, Asm.get at 1.
  set (a1 := Asm.with_branches a (Asm.branches_ a ++ [b])).
  assert (Bs : Asm.branches_ a1 = Asm.branches_ a ++ [b]) by (destruct a; reflexivity).
  assert (O1 : Asm.overwriting_ a1 = false) by (destruct a; exact O).
  unfold Asm.bind at 1, Asm.lift. rewrite Bs.
  replace (nth_error (Asm.branches_ a ++ [b])
                     (List.length (Asm.branches_ a ++ [b]) - 1)) with (Some b).
  2:{ rewrite length_app. cbn [List.length].
      replace (List.length (Asm.branches_ a) + 1 - 1)%nat
        with (List.length (Asm.branches_ a)) by lia.
      rewrite nth_error_app2, Nat.sub_diag by lia. reflexivity. }
  rewrite B. cbn [negb].
  pose proof (lengths_small b) as Lb.
  rewrite (u32_small (Asm.GetLength b - 1)) by lia.
  pose proof (emits_bind _ _ [Asm.position_ l] _ (emits_Emit (Asm.position_ l))
                (emits_Nops (Z.to_nat (Asm.GetLength b - 1))) a1 O1) as E.
  unfold Asm.bind at 1. unfold Asm.bind at 1 in E.
  destruct (Asm.Emit (Asm.position_ l) a1) as [[[] a2]|]; [|discriminate].
  unfold Asm.bind at 1. rewrite E. unfold Asm.ret.
  replace (Z.of_nat (List.length (Asm.branches_ a ++ [b])) - 1)
    with (Z.of_nat (List.length (Asm.branches_ a)))
    by (rewrite length_app; cbn [List.length]; lia).
  reflexivity.
Qed.

Lemma can_bind_in_buffer (a : Asm.Assembler) (l : Asm.Riscv64Label) :
  can_bind a l -> in_buffer (Asm.buffer_ a) (locations a).
Proof.
  intros (_ & _ & _ & _ & F). unfold in_buffer, locations.
  apply Forall_map. refine (Forall_impl _ _ F). intros b [H0 H1].
  pose proof (sizes_small b) as [S _].
  pose proof (lengths_small b) as Lb. unfold Asm.GetSize in *.
  rewrite u32_small in H1 by lia. lia.
Qed.

Lemma linked_walk (a : Asm.Assembler) (l m : Asm.Riscv64Label) (b : Asm.Branch) :
  can_bind a m ->
  let fuel := S (List.length (Asm.branches_ a)) in
  walk_ok fuel (Asm.buffer_ (linked a l b)) (locations (linked a l b))
          (Asm.position_ m) = true
  /\ Links.uses fuel (Asm.buffer_ (linked a l b)) (locations (linked a l b))
                (Asm.position_ m)
     = Links.uses_of a m.
Proof.
  intros C fuel. pose proof (can_bind_in_buffer a m C) as IB.
  destruct C as (B & W & _ & _ & F).
  set (extra := words (Asm.position_ l
                       :: repeat nop_word (Z.to_nat (Asm.GetLength b - 1)))).
  assert (Bf : Asm.buffer_ (linked a l b) = Asm.buffer_ a ++ extra)
    by (destruct a; reflexivity).
  assert (Ls : locations (linked a l b) = locations a ++ [Asm.location_ b]).
  { unfold locations. destruct a; cbn [linked Asm.branches_ Asm.with_buffer
      Asm.with_branches]. apply map_app. }
  assert (W0 : walk_ok fuel (Asm.buffer_ a ++ extra) (locations a)
                       (Asm.position_ m) = true)
    by (rewrite walk_ok_app by exact IB; exact W).
  destruct (walk_more_branches _ _ _ [Asm.location_ b] _ W0) as [W1 U1].
  rewrite Bf, Ls. split; [exact W1|]. rewrite U1. apply uses_app. exact IB.
Qed.

(** Appending a branch keeps what the other labels wait for. *)
Lemma linked_keeps (a : Asm.Assembler) (l m : Asm.Riscv64Label) (b : Asm.Branch) :
  can_bind a m ->
  Asm.location_ b = Asm.buf_Size (Asm.buffer_ a) ->
  Z.of_nat (List.length (Asm.branches_ a)) + 1 < 2 ^ 31 ->
  Asm.buf_Size (Asm.buffer_ a) + 12 < 2 ^ 31 ->
  can_bind (linked a l b) m
  /\ Links.uses_of (linked a l b) m = Links.uses_of a m.
Proof.
  intros C Lb Hn Hs. pose proof (can_bind_in_buffer a m C) as IB.
  destruct C as (B & W & Hn0 & Hs0 & F).
  set (extra := words (Asm.position_ l
                       :: repeat nop_word (Z.to_nat (Asm.GetLength b - 1)))).
  assert (Bf : Asm.buffer_ (linked a l b) = Asm.buffer_ a ++ extra)
    by (destruct a; reflexivity).
  assert (Bs : Asm.branches_ (linked a l b) = Asm.branches_ a ++ [b])
    by (destruct a; reflexivity).
  assert (Ls : locations (linked a l b) = locations a ++ [Asm.location_ b]).
  { unfold locations. rewrite Bs, map_app. reflexivity. }
  pose proof (lengths_small b) as Len.
  assert (Ex : Asm.buf_Size extra = Asm.GetSize b).
  { unfold extra. rewrite words_size. cbn [List.length].
    rewrite repeat_length. unfold Asm.GetSize. rewrite u32_small by lia. lia. }
  assert (Sz : Asm.buf_Size (Asm.buffer_ a ++ extra)
               = Asm.buf_Size (Asm.buffer_ a) + Asm.GetSize b).
  { unfold Asm.buf_Size in *. rewrite length_app. lia. }
  pose proof (sizes_small b) as [Sb _].
  destruct (linked_walk a l m b (conj B (conj W (conj Hn0 (conj Hs0 F))))) as [W1 U1].
  split.
  - split; [exact B|]. split.
    + rewrite Bs, Bf, Ls, length_app. cbn [List.length].
      replace (List.length (Asm.branches_ a) + 1)%nat
        with (S (List.length (Asm.branches_ a))) by lia.
      apply walk_ok_fuel. rewrite <- Bf, <- Ls. exact W1.
    + split; [rewrite Bs, length_app; cbn [List.length]; lia|].
      split; [rewrite Bf, Sz; lia|].
      rewrite Bs, Bf, Sz. apply Forall_app. split.
      * refine (Forall_impl _ _ F). intros x [X0 X1]. lia.
      * apply Forall_cons; [|apply Forall_nil]. unfold Asm.buf_Size in *. lia.
  - unfold Links.uses_of at 1. fold (locations (linked a l b)).
    rewrite Bs, length_app. cbn [List.length].
    replace (List.length (Asm.branches_ a) + 1)%nat
      with (S (List.length (Asm.branches_ a))) by lia.
    rewrite uses_fuel by exact W1. exact U1.
Qed.

Lemma walk_ok_S (fuel : nat) (buf locs : list Z) (p loc : Z) :
  0 < p ->
  nth_error locs (Z.to_nat (u32 (p - Asm.kPointerSize))) = Some loc ->
  walk_ok (S fuel) buf locs p
  = (u32 (p - Asm.kPointerSize) <? Z.of_nat (List.length locs))
    && walk_ok fuel buf locs (sext 32 (Asm.buf_Load32 buf loc)).
Proof.
  intros Hp N. change (walk_ok (S fuel) buf locs p)
    with (if 0 <? p
          then (u32 (p - Asm.kPointerSize) <? Z.of_nat (List.length locs))
               && match nth_error locs (Z.to_nat (u32 (p - Asm.kPointerSize))) with
                  | Some loc => walk_ok fuel buf locs
                                        (sext 32 (Asm.buf_Load32 buf loc))
                  | None => false
                  end
          else true).
  rewrite N. apply Z.ltb_lt in Hp. rewrite Hp. reflexivity.
Qed.

Lemma uses_S (fuel : nat) (buf locs : list Z) (p loc : Z) :
  0 < p ->
  nth_error locs (Z.to_nat (u32 (p - Asm.kPointerSize))) = Some loc ->
  Links.uses (S fuel) buf locs p
  = u32 (p - Asm.kPointerSize)
    :: Links.uses fuel buf locs (sext 32 (Asm.buf_Load32 buf loc)).
Proof.
  intros Hp N. change (Links.uses (S fuel) buf locs p)
    with (if 0 <? p
          then match nth_error locs (Z.to_nat (u32 (p - Asm.kPointerSize))) with
               | Some loc => u32 (p - Asm.kPointerSize)
                             :: Links.uses fuel buf locs
                                           (sext 32 (Asm.buf_Load32 buf loc))
               | None => []
               end
          else []).
  rewrite N. apply Z.ltb_lt in Hp. rewrite Hp. reflexivity.
Qed.

Lemma linked_self (a : Asm.Assembler) (l : Asm.Riscv64Label) (b : Asm.Branch) :
  can_bind a l ->
  Asm.position_ l < 2 ^ 31 ->
  Asm.location_ b = Asm.buf_Size (Asm.buffer_ a) ->
  Z.of_nat (List.length (Asm.branches_ a)) + 1 < 2 ^ 31 ->
  Asm.buf_Size (Asm.buffer_ a) + 12 < 2 ^ 31 ->
  let l' := Asm.LinkTo l (Z.of_nat (List.length (Asm.branches_ a))) in
  can_bind (linked a l b) l'
  /\ Links.uses_of (linked a l b) l'
     = Z.of_nat (List.length (Asm.branches_ a)) :: Links.uses_of a l.
Proof.
  intros C Hp Lb Hn Hs l'.
  destruct (linked_keeps a l l b C Lb Hn Hs) as [C' _].
  destruct (linked_walk a l l b C) as [W1 U1].
  assert (P0 : 0 <= Asm.position_ l).
  { destruct C as (B & _). unfold Asm.IsBound in B. apply Z.ltb_ge in B. exact B. }
  set (n := List.length (Asm.branches_ a)) in *.
  assert (Bf : Asm.buffer_ (linked a l b)
               = Asm.buffer_ a
                 ++ Asm.le32 (u32 (Asm.position_ l))
                 ++ words (repeat nop_word (Z.to_nat (Asm.GetLength b - 1))))
    by (destruct a; reflexivity).
  assert (Bs : Asm.branches_ (linked a l b) = Asm.branches_ a ++ [b])
    by (destruct a; reflexivity).
  assert (Id : u32 (Asm.position_ l' - Asm.kPointerSize) = Z.of_nat n).
  { unfold l', Asm.LinkTo. cbn [Asm.position_].
    replace (Z.of_nat n + Asm.kPointerSize - Asm.kPointerSize) with (Z.of_nat n)
      by lia.
    apply u32_small. lia. }
  assert (Pl : (0 <? Asm.position_ l') = true).
  { unfold l', Asm.LinkTo, Asm.kPointerSize. cbn [Asm.position_].
    apply Z.ltb_lt. lia. }
  assert (Nth : nth_error (locations (linked a l b)) (Z.to_nat (Z.of_nat n))
                = Some (Asm.location_ b)).
  { unfold locations. rewrite Bs, map_app, Nat2Z.id, nth_error_app2;
      rewrite length_map; [|fold n; lia].
    fold n. rewrite Nat.sub_diag. reflexivity. }
  assert (Ld : sext 32 (Asm.buf_Load32 (Asm.buffer_ (linked a l b))
                                       (Asm.location_ b))
               = Asm.position_ l).
  { rewrite Bf, Lb. unfold Asm.buf_Size.
    replace (Z.of_nat (List.length (Asm.buffer_ a)))
      with (Z.of_nat (List.length (Asm.buffer_ a)) + 0) by lia.
    rewrite load_skip, load_le32 by (try apply u32_range; lia).
    unfold u32. apply sext_mod; [lia|]. change (2 ^ (32 - 1)) with (2 ^ 31). lia. }
  assert (Len : List.length (Asm.branches_ (linked a l b)) = S n).
  { rewrite Bs, length_app. cbn [List.length]. fold n. lia. }
  destruct C' as (B' & _ & N' & S' & F').
  split.
  - split; [unfold Asm.IsBound; apply Z.ltb_ge; apply Z.ltb_lt in Pl; lia|].
    split; [|split; [exact N'|split; [exact S'|exact F']]].
    rewrite Len.
    rewrite (walk_ok_S _ _ _ _ (Asm.location_ b))
      by (try apply Z.ltb_lt; try rewrite Id; assumption).
    rewrite Id, Ld. apply andb_true_iff. split; [|exact W1].
    apply Z.ltb_lt. unfold locations. rewrite length_map, Len. lia.
  - unfold Links.uses_of at 1. rewrite Len. fold (locations (linked a l b)).
    rewrite <- U1.
    rewrite (uses_S _ _ _ _ (Asm.location_ b))
      by (try apply Z.ltb_lt; try rewrite Id; assumption).
    rewrite Id, Ld. reflexivity.
Qed.

Lemma Branch_uncond_unresolved (location : Z) (is_call is_bare : bool) :
  exists b,
    Asm.Branch_uncond location Asm.kUnresolved is_call is_bare = Some b
    /\ Asm.location_ b = location /\ Asm.target_ b = Asm.kUnresolved
    /\ Asm.GetLength b = 1.
Proof.
  destruct is_call, is_bare; eexists; (split; [reflexivity|]);
    repeat split; reflexivity.
Qed.

(** Where one more branch still fits: code is appended, and the counts
    stay within what the label's [int] and the 32-bit positions hold. *)
Definition room (a : Asm.Assembler) : Prop :=
  Asm.overwriting_ a = false
  /\ Z.of_nat (List.length (Asm.branches_ a)) + 9 < 2 ^ 31
  /\ Asm.buf_Size (Asm.buffer_ a) + 12 < 2 ^ 31.

(** X11. A jump or call to a label that is not bound yet puts itself in
    front of the label's list of uses: Buncond and Call return the label
    linked to the new branch, the branch is appended unresolved at the end
    of the code, its one word of code holds the link the label had before,
    and the uses of the label are the new branch followed by the old ones.
    The label can still be bound afterwards, and so can every other label
    that could, with the uses it had. *)
Theorem unbound_jump_joins_the_uses (a : Asm.Assembler) (l : Asm.Riscv64Label)
    (is_call is_bare : bool) :
  can_bind a l -> room a -> Asm.position_ l < 2 ^ 31 ->
  let branch_id := Z.of_nat (List.length (Asm.branches_ a)) in
  exists b a',
    (if is_call then Asm.Call l is_bare else Asm.Buncond l is_bare) a
    = Some (Asm.LinkTo l branch_id, a')
    /\ Asm.branches_ a' = Asm.branches_ a ++ [b]
    /\ Asm.location_ b = Asm.buf_Size (Asm.buffer_ a)
    /\ Asm.IsResolved b = false
    /\ Asm.buffer_ a' = Asm.buffer_ a ++ words [Asm.position_ l]
    /\ Links.uses_of a' (Asm.LinkTo l branch_id) = branch_id :: Links.uses_of a l
    /\ can_bind a' (Asm.LinkTo l branch_id)
    /\ Asm.position_ (Asm.LinkTo l branch_id) < 2 ^ 31
    /\ forall m, can_bind a m ->
         can_bind a' m /\ Links.uses_of a' m = Links.uses_of a m.
Proof.
  intros C (O & Hn & Hs) Hp. cbv zeta.
  set (branch_id := Z.of_nat (List.length (Asm.branches_ a))).
  assert (U : Asm.IsBound l = false) by (destruct C as [B _]; exact B).
  assert (S0 : 0 <= Asm.buf_Size (Asm.buffer_ a)) by (unfold Asm.buf_Size; lia).
  destruct (Branch_uncond_unresolved (Asm.buf_Size (Asm.buffer_ a)) is_call is_bare)
    as (b & Hb & Lb & Tb & Gb).
  assert (Run : (if is_call then Asm.Call l is_bare else Asm.Buncond l is_bare) a
                = Some (Asm.LinkTo l branch_id, linked a l b)).
  { unfold branch_id. rewrite <- (FinalizeLabeledBranch_links a l b O U).
    destruct is_call; unfold Asm.Call, Asm.Buncond, Asm.label_target;
      rewrite U; unfold Asm.bind at 1, Asm.ret at 1;
      unfold Asm.bind at 1, Asm.get at 1;
      rewrite (u32_small (Asm.buf_Size (Asm.buffer_ a))), Hb by lia;
      reflexivity. }
  destruct (linked_self a l b C Hp Lb ltac:(lia) ltac:(lia)) as [C' U'].
  exists b, (linked a l b). split; [exact Run|].
  split; [destruct a; reflexivity|]. split; [exact Lb|].
  split; [unfold Asm.IsResolved; rewrite Tb; reflexivity|].
  split; [unfold linked; rewrite Gb; destruct a; reflexivity|].
  split; [exact U'|]. split; [exact C'|].
  split; [unfold Asm.LinkTo, Asm.kPointerSize, branch_id; cbn [Asm.position_]; lia|].
  intros m Cm. apply linked_keeps; [exact Cm|exact Lb|lia|lia].
Qed.


(** One jump to a label that is still to be bound. *)
Definition one_jump : option (Asm.Riscv64Label * Asm.Assembler) :=
  Asm.Buncond Asm.new_label false Asm.new_assembler.

Definition after_one_jump : Asm.Riscv64Label * Asm.Assembler :=
  match one_jump with
  | Some p => p
  | None => (Asm.new_label, Asm.new_assembler)
  end.

Lemma unbound_jump_joins_the_uses_witness :
  can_bind (snd after_one_jump) (fst after_one_jump)
  /\ room (snd after_one_jump)
  /\ Asm.position_ (fst after_one_jump) < 2 ^ 31
  /\ exists l' a',
       Asm.Call (fst after_one_jump) true (snd after_one_jump) = Some (l', a')
       /\ Links.uses_of a' l' = [1; 0]
       /\ Links.uses_of a' Asm.new_label = [].
Proof.
  assert (C : can_bind (snd after_one_jump) (fst after_one_jump)).
  { split; [reflexivity|]. split; [vm_compute; reflexivity|].
    split; [vm_compute; reflexivity|]. split; [vm_compute; reflexivity|].
    repeat apply Forall_cons; try apply Forall_nil; split; vm_compute;
      discriminate. }
  assert (C0 : can_bind (snd after_one_jump) Asm.new_label).
  { split; [reflexivity|]. split; [vm_compute; reflexivity|].
    destruct C as (_ & _ & C). exact C. }
  assert (R : room (snd after_one_jump)).
  { split; [reflexivity|]. split; vm_compute; reflexivity. }
  assert (P : Asm.position_ (fst after_one_jump) < 2 ^ 31)
    by (vm_compute; reflexivity).
  split; [exact C|]. split; [exact R|]. split; [exact P|].
  destruct (unbound_jump_joins_the_uses _ _ true true C R P)
    as (b & a' & Run & _ & _ & _ & _ & U & _ & _ & K).
  eexists _, a'. split; [exact Run|]. split.
  - rewrite U. vm_compute. reflexivity.
  - rewrite (proj2 (K _ C0)). vm_compute. reflexivity.
Defined.


(** ** The integer instructions, decoded *)

Section FormatI6x.
Variables funct6 imm6 rs1 funct3 rd opcode : Z.
Hypothesis Hf6 : 0 <= funct6 < 2 ^ 6.
Hypothesis Himm : 0 <= imm6 < 2 ^ 6.
Hypothesis Hrs1 : 0 <= rs1 < 2 ^ 5.
Hypothesis Hf3 : 0 <= funct3 < 2 ^ 3.
Hypothesis Hrd : 0 <= rd < 2 ^ 5.
Hypothesis Hop : 0 <= opcode < 2 ^ 7.
Let w := Asm.EncodeI6 funct6 imm6 rs1 funct3 rd opcode.

Lemma I6x_opcode : Rv64.field w 0 7 = opcode.
Proof. unfold w, Rv64.field, Asm.EncodeI6, u32, u16. masks. bits. Qed.
Lemma I6x_rd : Rv64.field w 7 5 = rd.
Proof. unfold w, Rv64.field, Asm.EncodeI6, u32, u16. masks. bits. Qed.
Lemma I6x_funct3 : Rv64.field w 12 3 = funct3.
Proof. unfold w, Rv64.field, Asm.EncodeI6, u32, u16. masks. bits. Qed.
Lemma I6x_rs1 : Rv64.field w 15 5 = rs1.
Proof. unfold w, Rv64.field, Asm.EncodeI6, u32, u16. masks. bits. Qed.
Lemma I6x_lo : Rv64.field w 20 5 = imm6 mod 2 ^ 5.
Proof. unfold w, Rv64.field, Asm.EncodeI6, u32, u16. masks. bits. Qed.
Lemma I6x_hi : Rv64.field w 25 7 = Z.lor (Z.shiftl funct6 1) (imm6 / 2 ^ 5).
Proof. unfold w, Rv64.field, Asm.EncodeI6, u32, u16. masks. bits. Qed.
End FormatI6x.

Lemma decodeI_base (w : Z) (i : Rv64.Instr) :
  Rv64.decode w = Some i -> Rv64I.decode w = Some (Rv64I.Base i).
Proof. intros H. unfold Rv64I.decode. rewrite H. reflexivity. Qed.

Lemma decodeI_EncodeR (funct7 rs2 rs1 funct3 rd opcode : Z) :
  0 <= funct7 < 2 ^ 7 -> 0 <= rs2 < 2 ^ 5 -> 0 <= rs1 < 2 ^ 5 ->
  0 <= funct3 < 2 ^ 3 -> 0 <= rd < 2 ^ 5 -> 0 <= opcode < 2 ^ 7 ->
  let w := Asm.EncodeR funct7 rs2 rs1 funct3 rd opcode in
  Rv64I.decode (u32 w)
  = match Rv64.decode_fields opcode rd funct3 rs1 rs2 funct7
            (Rv64.immI w) (Rv64.immU w) (Rv64.immB w) (Rv64.immJ w) with
    | Some i => Some (Rv64I.Base i)
    | None => Rv64I.decode_fields opcode rd funct3 rs1 rs2 funct7 (Rv64.immI w)
    end.
Proof.
  intros H7 H2 H1 H3 Hd Ho w. unfold w.
  rewrite encode_R_u32 by assumption. unfold Rv64I.decode.
  rewrite decode_EncodeR by assumption.
  rewrite R_opcode, R_rd, R_funct3, R_rs1, R_rs2, R_funct7 by assumption.
  reflexivity.
Qed.

Lemma decodeI_EncodeI (imm rs1 funct3 rd opcode : Z) :
  0 <= rs1 < 2 ^ 5 -> 0 <= funct3 < 2 ^ 3 -> 0 <= rd < 2 ^ 5 ->
  0 <= opcode < 2 ^ 7 ->
  let w := Asm.EncodeI imm rs1 funct3 rd opcode in
  Rv64I.decode (u32 w)
  = match Rv64.decode_fields opcode rd funct3 rs1
            (Rv64.field w 20 5) (Rv64.field w 25 7)
            (sext 12 imm) (Rv64.immU w) (Rv64.immB w) (Rv64.immJ w) with
    | Some i => Some (Rv64I.Base i)
    | None => Rv64I.decode_fields opcode rd funct3 rs1
                (Rv64.field w 20 5) (Rv64.field w 25 7) (sext 12 imm)
    end.
Proof.
  intros H1 H3 Hd Ho w. unfold w.
  rewrite encode_I_u32 by assumption. unfold Rv64I.decode.
  rewrite decode_EncodeI by assumption. unfold Rv64.immI.
  rewrite I_opcode, I_rd, I_funct3, I_rs1, I_imm, sext_mod_idem
    by (assumption || lia).
  reflexivity.
Qed.

Ltac same_regs :=
  rewrite ?gpu_of_num_num; reflexivity.

Lemma decode_alu (f7 f3 : Z) (op : Rv64I.ROp) (rd rs1 rs2 : GpuRegister) :
  In (f7, f3, op)
     [(0, 0, Rv64I.ADD); (0, 1, Rv64I.SLL); (0, 2, Rv64I.SLT); (0, 3, Rv64I.SLTU);
      (0, 5, Rv64I.SRL); (0, 7, Rv64I.AND); (1, 0, Rv64I.MUL);
      (0x20, 0, Rv64I.SUB); (0x20, 5, Rv64I.SRA)] ->
  Rv64I.decode (u32 (Asm.EncodeR f7 (gpu_num rs2) (gpu_num rs1) f3 (gpu_num rd) 0x33))
  = Some (Rv64I.OP op rd rs1 rs2).
Proof.
  intros H. cbn [In] in H.
  repeat (destruct H as [H|H];
          [injection H as <- <- <-; rewrite decodeI_EncodeR by reg_bounds;
           match goal with
           | |- _ = Some (Rv64I.OP ?o _ _ _) =>
               transitivity (Some (Rv64I.OP o (gpu_of_num (gpu_num rd))
                                            (gpu_of_num (gpu_num rs1))
                                            (gpu_of_num (gpu_num rs2))))
           end; [reflexivity|same_regs]|]).
  destruct H.
Qed.

Lemma decode_alu32 (f7 f3 : Z) (op : Rv64I.RWOp) (rd rs1 rs2 : GpuRegister) :
  In (f7, f3, op)
     [(0, 0, Rv64I.ADDW); (0, 1, Rv64I.SLLW); (0, 5, Rv64I.SRLW);
      (1, 0, Rv64I.MULW); (0x20, 0, Rv64I.SUBW); (0x20, 5, Rv64I.SRAW)] ->
  Rv64I.decode (u32 (Asm.EncodeR f7 (gpu_num rs2) (gpu_num rs1) f3 (gpu_num rd) 0x3b))
  = Some (Rv64I.OP32 op rd rs1 rs2).
Proof.
  intros H. cbn [In] in H.
  repeat (destruct H as [H|H];
          [injection H as <- <- <-; rewrite decodeI_EncodeR by reg_bounds;
           match goal with
           | |- _ = Some (Rv64I.OP32 ?o _ _ _) =>
               transitivity (Some (Rv64I.OP32 o (gpu_of_num (gpu_num rd))
                                              (gpu_of_num (gpu_num rs1))
                                              (gpu_of_num (gpu_num rs2))))
           end; [reflexivity|same_regs]|]).
  destruct H.
Qed.

Lemma decode_alu_imm (f3 : Z) (op : Rv64I.IOp) (rd rs1 : GpuRegister) (imm : Z) :
  In (f3, op) [(2, Rv64I.SLTI); (3, Rv64I.SLTIU); (4, Rv64I.XORI); (7, Rv64I.ANDI)] ->
  Rv64I.decode (u32 (Asm.EncodeI imm (gpu_num rs1) f3 (gpu_num rd) 0x13))
  = Some (Rv64I.OPIMM op rd rs1 (sext 12 imm)).
Proof.
  intros H. cbn [In] in H.
  repeat (destruct H as [H|H];
          [injection H as <- <-; rewrite decodeI_EncodeI by reg_bounds;
           match goal with
           | |- _ = Some (Rv64I.OPIMM ?o _ _ _) =>
               transitivity (Some (Rv64I.OPIMM o (gpu_of_num (gpu_num rd))
                                               (gpu_of_num (gpu_num rs1))
                                               (sext 12 imm)))
           end; [reflexivity|same_regs]|]).
  destruct H.
Qed.

Lemma decode_shift32 (f7 f3 : Z) (op : Rv64I.SWOp) (rd rs1 : GpuRegister)
    (shamt : Z) :
  In (f7, f3, op) [(0, 1, Rv64I.SLLIW); (0, 5, Rv64I.SRLIW); (0x20, 5, Rv64I.SRAIW)] ->
  0 <= shamt < 32 ->
  Rv64I.decode (u32 (Asm.EncodeR f7 shamt (gpu_num rs1) f3 (gpu_num rd) 0x1b))
  = Some (Rv64I.SHIFTW op rd rs1 shamt).
Proof.
  intros H Hs. cbn [In] in H.
  repeat (destruct H as [H|H];
          [injection H as <- <- <-; rewrite decodeI_EncodeR by reg_bounds;
           match goal with
           | |- _ = Some (Rv64I.SHIFTW ?o _ _ _) =>
               transitivity (Some (Rv64I.SHIFTW o (gpu_of_num (gpu_num rd))
                                                (gpu_of_num (gpu_num rs1)) shamt))
           end; [reflexivity|same_regs]|]).
  destruct H.
Qed.

(** The six-bit shift amount of SLLI, SRLI and SRAI. *)
Lemma shamt_halves (n : Z) :
  0 <= n < 2 ^ 6 ->
  (n / 2 ^ 5 = 0 /\ n mod 2 ^ 5 = n) \/ (n / 2 ^ 5 = 1 /\ n mod 2 ^ 5 = n - 32).
Proof.
  intros H. change (2 ^ 6) with 64 in H. change (2 ^ 5) with 32.
  destruct (Z.ltb_spec n 32); [left|right]; Z.div_mod_to_equations; lia.
Qed.

Lemma decode_shift_imm (f3 : Z) (rd rs1 : GpuRegister) (n : Z) :
  0 <= n < 2 ^ 6 -> f3 = 1 \/ f3 = 5 ->
  Rv64.decode (u32 (Asm.EncodeI6 0 n (gpu_num rs1) f3 (gpu_num rd) 0x13))
  = Some ((if f3 =? 1 then Rv64.SLLI else Rv64.SRLI) rd rs1 n).
Proof.
  intros Hn Hf.
  rewrite encode_I6_u32, decode_EncodeI6 by (destruct Hf; subst; reg_bounds).
  destruct (shamt_halves n Hn) as [[-> ->]|[-> ->]]; destruct Hf as [-> | ->];
    cbn [Z.eqb Pos.eqb].
  - transitivity (Some (Rv64.SLLI (gpu_of_num (gpu_num rd))
                                  (gpu_of_num (gpu_num rs1)) (n + 32 * 0)));
      [reflexivity|]. rewrite !gpu_of_num_num. do 2 f_equal. lia.
  - transitivity (Some (Rv64.SRLI (gpu_of_num (gpu_num rd))
                                  (gpu_of_num (gpu_num rs1)) (n + 32 * 0)));
      [reflexivity|]. rewrite !gpu_of_num_num. do 2 f_equal. lia.
  - transitivity (Some (Rv64.SLLI (gpu_of_num (gpu_num rd))
                                  (gpu_of_num (gpu_num rs1)) (n - 32 + 32 * 1)));
      [reflexivity|]. rewrite !gpu_of_num_num. do 2 f_equal. lia.
  - transitivity (Some (Rv64.SRLI (gpu_of_num (gpu_num rd))
                                  (gpu_of_num (gpu_num rs1)) (n - 32 + 32 * 1)));
      [reflexivity|]. rewrite !gpu_of_num_num. do 2 f_equal. lia.
Qed.

Lemma decode_srai (rd rs1 : GpuRegister) (n : Z) :
  0 <= n < 2 ^ 6 ->
  Rv64I.decode (u32 (Asm.EncodeI6 0x10 n (gpu_num rs1) 5 (gpu_num rd) 0x13))
  = Some (Rv64I.SRAI rd rs1 n).
Proof.
  intros Hn. rewrite encode_I6_u32 by reg_bounds.
  unfold Rv64I.decode, Rv64.decode.
  rewrite I6x_opcode, I6x_rd, I6x_funct3, I6x_rs1, I6x_lo, I6x_hi by reg_bounds.
  destruct (shamt_halves n Hn) as [[-> ->]|[-> ->]].
  - transitivity (Some (Rv64I.SRAI (gpu_of_num (gpu_num rd))
                                   (gpu_of_num (gpu_num rs1)) (n + 32 * 0)));
      [reflexivity|]. rewrite !gpu_of_num_num. do 2 f_equal. lia.
  - transitivity (Some (Rv64I.SRAI (gpu_of_num (gpu_num rd))
                                   (gpu_of_num (gpu_num rs1)) (n - 32 + 32 * 1)));
      [reflexivity|]. rewrite !gpu_of_num_num. do 2 f_equal. lia.
Qed.

(** The encoder keeps the low six bits of the shift amount. *)
Lemma EncodeI6_low (f6 imm rs1 f3 rd op : Z) :
  Asm.EncodeI6 f6 imm rs1 f3 rd op
  = Asm.EncodeI6 f6 (Z.land (u16 imm) 0x3F) rs1 f3 rd op.
Proof.
  unfold Asm.EncodeI6. do 5 f_equal.
  assert (E : u16 (Z.land (u16 imm) 63) = Z.land (u16 imm) 63).
  { unfold u16. change 63 with (Z.ones 6). rewrite Z.land_ones by lia.
    apply Z.mod_small.
    pose proof (Z.mod_pos_bound (imm mod 2 ^ 16) (2 ^ 6) ltac:(lia)). lia. }
  rewrite E, <- Z.land_assoc. reflexivity.
Qed.

Lemma low6_range (v : Z) : 0 <= Z.land v 0x3F < 2 ^ 6.
Proof.
  change 63 with (Z.ones 6). rewrite Z.land_ones by lia.
  apply Z.mod_pos_bound. lia.
Qed.

(** ** Running macro code on the machine *)

Module Run.

(** Running a program given as decoded instructions, one per word. *)
Fixpoint run_decoded (fuel : nat) (prog : list Rv64I.Instr) (s : Rv64.State)
  : option Rv64.State :=
  if Rv64.pc s =? 4 * Z.of_nat (List.length prog) then Some s
  else match fuel with
       | O => None
       | S fuel' =>
           if (0 <=? Rv64.pc s) && (Rv64.pc s mod 4 =? 0) then
             match nth_error prog (Z.to_nat (Rv64.pc s / 4)) with
             | Some i =>
                 match Rv64I.step_instr i s with
                 | Some s' => run_decoded fuel' prog s'
                 | None => None
                 end
             | None => None
             end
           else None
       end.

Definition straight (i : Rv64I.Instr) : bool :=
  match i with
  | Rv64I.Base i => straight i
  | _ => true
  end.

Fixpoint exec_seq (prog : list Rv64I.Instr) (s : Rv64.State) : option Rv64.State :=
  match prog with
  | [] => Some s
  | i :: rest =>
      match Rv64I.step_instr i s with
      | Some s' => exec_seq rest s'
      | None => None
      end
  end.

(** [implements m prog]: while code is appended, [m] appends one word
    for each instruction of [prog], which decodes to it. *)
Definition implements (m : Asm.M unit) (prog : list Rv64I.Instr) : Prop :=
  exists ws, emits m ws
             /\ Forall2 (fun w i => Rv64I.decode (u32 w) = Some i) ws prog.

(** [runs_to AT m fuel s s']: the method whose body is [m] assembles, and
    its code takes the machine from [s] to [s'], where control leaves the
    code at its end, in at most [fuel] steps. *)
Definition runs_to (AT : GpuRegister) (m : Asm.M unit) (fuel : nat)
    (s s' : Rv64.State) : Prop :=
  exists code, Asm.assemble AT m = Some code
               /\ Rv64I.run fuel code s = Some s'.

End Run.

Lemma runI_words (ws : list Z) (prog : list Rv64I.Instr) :
  Forall2 (fun w i => Rv64I.decode (u32 w) = Some i) ws prog ->
  forall fuel s s',
    Run.run_decoded fuel prog s = Some s' -> Rv64I.run fuel (words ws) s = Some s'.
Proof.
  intros HD. assert (HL := Forall2_length HD).
  induction fuel as [|fuel IH]; intros s s'; cbn [Run.run_decoded Rv64I.run];
    rewrite words_size, HL.
  - destruct (Rv64.pc s =? _); [auto|discriminate].
  - destruct (Rv64.pc s =? _); [auto|].
    destruct ((0 <=? Rv64.pc s) && (Rv64.pc s mod 4 =? 0)) eqn:A; [|discriminate].
    apply andb_true_iff in A. destruct A as [A1 A2].
    apply Z.leb_le in A1. apply Z.eqb_eq in A2.
    destruct (nth_error prog (Z.to_nat (Rv64.pc s / 4))) as [i|] eqn:N; [|discriminate].
    assert (exists w, nth_error ws (Z.to_nat (Rv64.pc s / 4)) = Some w
                      /\ Rv64I.decode (u32 w) = Some i) as (w & Hw & Hd).
    { clear - HD N. revert N. generalize (Z.to_nat (Rv64.pc s / 4)).
      induction HD as [|w0 i0 ws' prog' H0 HD IH]; intros [|n] N; try discriminate.
      - injection N as <-. exists w0. split; [reflexivity|exact H0].
      - apply IH in N. exact N. }
    unfold Rv64I.step.
    replace (Rv64.pc s) with (4 * Z.of_nat (Z.to_nat (Rv64.pc s / 4))) at 1
      by (rewrite Z2Nat.id by (apply Z.div_pos; lia);
          pose proof (Z.div_mod (Rv64.pc s) 4); lia).
    rewrite (fetch_words ws _ w Hw), Hd.
    destruct (Rv64I.step_instr i s); [apply IH|discriminate].
Qed.

Lemma runI_decoded_at (prog : list Rv64I.Instr) (fuel : nat) (s s1 : Rv64.State)
    (n : nat) (i : Rv64I.Instr) :
  Rv64.pc s = 4 * Z.of_nat n ->
  nth_error prog n = Some i ->
  Rv64I.step_instr i s = Some s1 ->
  Run.run_decoded (S fuel) prog s = Run.run_decoded fuel prog s1.
Proof.
  intros Hpc Hn Hs.
  assert (Hlt : (n < List.length prog)%nat) by (apply nth_error_Some; congruence).
  cbn [Run.run_decoded]. rewrite Hpc.
  destruct (Z.eqb_spec (4 * Z.of_nat n) (4 * Z.of_nat (List.length prog))); [lia|].
  replace ((0 <=? 4 * Z.of_nat n) && ((4 * Z.of_nat n) mod 4 =? 0)) with true.
  - replace (Z.to_nat (4 * Z.of_nat n / 4)) with n.
    + rewrite Hn, Hs. reflexivity.
    + rewrite Z.mul_comm, Z.div_mul by lia. lia.
  - symmetry. apply andb_true_iff. split; [apply Z.leb_le; lia|].
    apply Z.eqb_eq. rewrite Z.mul_comm. apply Z.mod_mul. lia.
Qed.

Lemma runI_decoded_end (prog : list Rv64I.Instr) (fuel : nat) (s : Rv64.State) :
  Rv64.pc s = 4 * Z.of_nat (List.length prog) ->
  Run.run_decoded fuel prog s = Some s.
Proof.
  intros H. destruct fuel; cbn [Run.run_decoded]; rewrite H, Z.eqb_refl; reflexivity.
Qed.

Lemma stepI_straight (i : Rv64I.Instr) (s s' : Rv64.State) :
  Run.straight i = true -> Rv64I.step_instr i s = Some s' ->
  Rv64.pc s' = Rv64.pc s + 4.
Proof.
  destruct i; cbn [Run.straight Rv64I.step_instr]; intros H E;
    try (injection E as <-; reflexivity).
  exact (step_straight _ _ _ H E).
Qed.

Lemma execI_app (p1 p2 : list Rv64I.Instr) (s : Rv64.State) :
  Run.exec_seq (p1 ++ p2) s
  = match Run.exec_seq p1 s with Some s1 => Run.exec_seq p2 s1 | None => None end.
Proof.
  revert s. induction p1 as [|i p1 IH]; intros s; cbn [Run.exec_seq app];
    [reflexivity|].
  destruct (Rv64I.step_instr i s); [apply IH|reflexivity].
Qed.

Lemma runI_decoded_straight (post pre : list Rv64I.Instr) (fuel : nat)
    (s s' : Rv64.State) :
  forallb Run.straight post = true ->
  Rv64.pc s = 4 * Z.of_nat (List.length pre) ->
  (List.length post <= fuel)%nat ->
  Run.exec_seq post s = Some s' ->
  Run.run_decoded fuel (pre ++ post) s = Some s'.
Proof.
  revert pre fuel s. induction post as [|i post IH]; intros pre fuel s HS Hpc Hf HE.
  - injection HE as <-. apply runI_decoded_end. rewrite app_nil_r. exact Hpc.
  - cbn [forallb] in HS. apply andb_true_iff in HS. destruct HS as [Hi HS].
    cbn [Run.exec_seq] in HE.
    destruct (Rv64I.step_instr i s) as [s1|] eqn:E1; [|discriminate].
    destruct fuel as [|fuel]; [cbn in Hf; lia|].
    rewrite (runI_decoded_at (pre ++ i :: post) fuel s s1 (List.length pre) i Hpc).
    + change (i :: post) with ([i] ++ post). rewrite app_assoc.
      apply IH; [exact HS| |cbn [List.length] in Hf; lia|exact HE].
      rewrite (stepI_straight i s s1 Hi E1), Hpc, length_app. cbn [List.length]. lia.
    + rewrite nth_error_app2 by lia. rewrite Nat.sub_diag. reflexivity.
    + exact E1.
Qed.

Lemma implements_ret : Run.implements (Asm.ret tt) [].
Proof. exists []. split; [apply emits_ret|apply Forall2_nil]. Qed.

Lemma implements_bind (m1 m2 : Asm.M unit) (p1 p2 : list Rv64I.Instr) :
  Run.implements m1 p1 -> Run.implements m2 p2 ->
  Run.implements (Asm.bind m1 (fun _ => m2)) (p1 ++ p2).
Proof.
  intros (w1 & E1 & D1) (w2 & E2 & D2). exists (w1 ++ w2).
  split; [apply emits_bind; assumption|apply Forall2_app; assumption].
Qed.

Lemma implements_Emit (w : Z) (i : Rv64I.Instr) :
  Rv64I.decode (u32 w) = Some i -> Run.implements (Asm.Emit w) [i].
Proof.
  intros H. exists [w]. split; [apply emits_Emit|].
  apply Forall2_cons; [exact H|apply Forall2_nil].
Qed.

Lemma implements_CHECK (b : bool) (m : Asm.M unit) (prog : list Rv64I.Instr) :
  b = true -> Run.implements m prog ->
  Run.implements (Asm.bind (Asm.CHECK b) (fun _ => m)) prog.
Proof.
  intros -> (ws & E & D). exists ws. split; [|exact D].
  intros a Ha. unfold Asm.bind, Asm.CHECK. apply E, Ha.
Qed.

(** Code that implements a straight-line program assembles and runs as
    the program does. *)
Lemma implements_runs (AT : GpuRegister) (m : Asm.M unit)
    (prog : list Rv64I.Instr) (fuel : nat) (s s' : Rv64.State) :
  Run.implements m prog ->
  forallb Run.straight prog = true ->
  (List.length prog <= fuel)%nat ->
  Rv64.pc s = 0 ->
  Run.exec_seq prog s = Some s' ->
  Run.runs_to AT m fuel s s'.
Proof.
  intros (ws & E & D) HS Hf Hpc HE. exists (words ws).
  split; [apply assemble_emits, E|].
  apply (runI_words ws prog D).
  apply (runI_decoded_straight prog [] fuel s s' HS); assumption.
Qed.


(** *** One instruction each *)

Ltac listed := cbn [In]; repeat first [left; reflexivity | right].

Lemma implements_Add (rd rs1 rs2 : GpuRegister) :
  Run.implements (Macro.Add rd rs1 rs2) [Rv64I.OP Rv64I.ADD rd rs1 rs2].
Proof. apply implements_Emit, decode_alu. listed. Qed.

Lemma implements_Sub (rd rs1 rs2 : GpuRegister) :
  Run.implements (Macro.Sub rd rs1 rs2) [Rv64I.OP Rv64I.SUB rd rs1 rs2].
Proof. apply implements_Emit, decode_alu. listed. Qed.

Lemma implements_Sll (rd rs1 rs2 : GpuRegister) :
  Run.implements (Macro.Sll rd rs1 rs2) [Rv64I.OP Rv64I.SLL rd rs1 rs2].
Proof. apply implements_Emit, decode_alu. listed. Qed.

Lemma implements_Slt (rd rs1 rs2 : GpuRegister) :
  Run.implements (Macro.Slt rd rs1 rs2) [Rv64I.OP Rv64I.SLT rd rs1 rs2].
Proof. apply implements_Emit, decode_alu. listed. Qed.

Lemma implements_Sltu (rd rs1 rs2 : GpuRegister) :
  Run.implements (Macro.Sltu rd rs1 rs2) [Rv64I.OP Rv64I.SLTU rd rs1 rs2].
Proof. apply implements_Emit, decode_alu. listed. Qed.

Lemma implements_Srl (rd rs1 rs2 : GpuRegister) :
  Run.implements (Macro.Srl rd rs1 rs2) [Rv64I.OP Rv64I.SRL rd rs1 rs2].
Proof. apply implements_Emit, decode_alu. listed. Qed.

Lemma implements_Sra (rd rs1 rs2 : GpuRegister) :
  Run.implements (Macro.Sra rd rs1 rs2) [Rv64I.OP Rv64I.SRA rd rs1 rs2].
Proof. apply implements_Emit, decode_alu. listed. Qed.

Lemma implements_And (rd rs1 rs2 : GpuRegister) :
  Run.implements (Macro.And rd rs1 rs2) [Rv64I.OP Rv64I.AND rd rs1 rs2].
Proof. apply implements_Emit, decode_alu. listed. Qed.

Lemma implements_Mul (rd rs1 rs2 : GpuRegister) :
  Run.implements (Macro.Mul rd rs1 rs2) [Rv64I.OP Rv64I.MUL rd rs1 rs2].
Proof. apply implements_Emit, decode_alu. listed. Qed.

Lemma implements_Addw (rd rs1 rs2 : GpuRegister) :
  Run.implements (Macro.Addw rd rs1 rs2) [Rv64I.OP32 Rv64I.ADDW rd rs1 rs2].
Proof. apply implements_Emit, decode_alu32. listed. Qed.

Lemma implements_Subw (rd rs1 rs2 : GpuRegister) :
  Run.implements (Macro.Subw rd rs1 rs2) [Rv64I.OP32 Rv64I.SUBW rd rs1 rs2].
Proof. apply implements_Emit, decode_alu32. listed. Qed.

Lemma implements_Sllw (rd rs1 rs2 : GpuRegister) :
  Run.implements (Macro.Sllw rd rs1 rs2) [Rv64I.OP32 Rv64I.SLLW rd rs1 rs2].
Proof. apply implements_Emit, decode_alu32. listed. Qed.

Lemma implements_Srlw (rd rs1 rs2 : GpuRegister) :
  Run.implements (Macro.Srlw rd rs1 rs2) [Rv64I.OP32 Rv64I.SRLW rd rs1 rs2].
Proof. apply implements_Emit, decode_alu32. listed. Qed.

Lemma implements_Sraw (rd rs1 rs2 : GpuRegister) :
  Run.implements (Macro.Sraw rd rs1 rs2) [Rv64I.OP32 Rv64I.SRAW rd rs1 rs2].
Proof. apply implements_Emit, decode_alu32. listed. Qed.

Lemma implements_Mulw (rd rs1 rs2 : GpuRegister) :
  Run.implements (Macro.Mulw rd rs1 rs2) [Rv64I.OP32 Rv64I.MULW rd rs1 rs2].
Proof. apply implements_Emit, decode_alu32. listed. Qed.

Lemma implements_Slti (rd rs1 : GpuRegister) (imm : Z) :
  Run.implements (Macro.Slti rd rs1 imm) [Rv64I.OPIMM Rv64I.SLTI rd rs1 (sext 12 imm)].
Proof.
  apply implements_Emit. rewrite <- sext12_u16. apply decode_alu_imm. listed.
Qed.

Lemma implements_Sltiu (rd rs1 : GpuRegister) (imm : Z) :
  Run.implements (Macro.Sltiu rd rs1 imm) [Rv64I.OPIMM Rv64I.SLTIU rd rs1 (sext 12 imm)].
Proof.
  apply implements_Emit. rewrite <- sext12_u16. apply decode_alu_imm. listed.
Qed.

Lemma implements_Xori (rd rs1 : GpuRegister) (imm : Z) :
  Run.implements (Macro.Xori rd rs1 imm) [Rv64I.OPIMM Rv64I.XORI rd rs1 (sext 12 imm)].
Proof.
  apply implements_Emit. rewrite <- sext12_u16. apply decode_alu_imm. listed.
Qed.

Lemma implements_Andi (rd rs1 : GpuRegister) (imm : Z) :
  Run.implements (Macro.Andi rd rs1 imm) [Rv64I.OPIMM Rv64I.ANDI rd rs1 (sext 12 imm)].
Proof.
  apply implements_Emit. rewrite <- sext12_u16. apply decode_alu_imm. listed.
Qed.

Lemma implements_Or (rd rs1 rs2 : GpuRegister) :
  Run.implements (Asm.Or rd rs1 rs2) [Rv64I.Base (Rv64.OR rd rs1 rs2)].
Proof. apply implements_Emit, decodeI_base, decode_or. Qed.

Lemma implements_Xor (rd rs1 rs2 : GpuRegister) :
  Run.implements (Asm.Xor rd rs1 rs2) [Rv64I.Base (Rv64.XOR rd rs1 rs2)].
Proof. apply implements_Emit, decodeI_base, decode_xor. Qed.

Lemma implements_Addi (rd rs1 : GpuRegister) (imm : Z) :
  Run.implements (Asm.Addi rd rs1 imm) [Rv64I.Base (Rv64.ADDI rd rs1 (sext 12 imm))].
Proof.
  apply implements_Emit, decodeI_base. rewrite <- sext12_u16. apply decode_addi.
Qed.

Lemma implements_Addiw (rd rs1 : GpuRegister) (imm : Z) :
  Run.implements (Asm.Addiw rd rs1 imm)
                 [Rv64I.Base (Rv64.ADDIW rd rs1 (sext 12 imm))].
Proof.
  apply implements_Emit, decodeI_base. rewrite <- sext12_u16. apply decode_addiw.
Qed.

Lemma implements_Lui (rd : GpuRegister) (imm : Z) :
  Run.implements (Asm.Lui rd imm)
    [Rv64I.Base (Rv64.LUI rd (sext 32 (Z.shiftl (u32 (u32 imm) mod 2 ^ 20) 12)))].
Proof. apply implements_Emit, decodeI_base, decode_lui. Qed.

Lemma u16_u16 (v : Z) : u16 (u16 v) = u16 v.
Proof. unfold u16. apply Z.mod_mod. lia. Qed.

(** A shift by an immediate is left out when it would do nothing. *)
Definition shift_prog (left : bool) (rd rs1 : GpuRegister) (offset : Z)
  : list Rv64I.Instr :=
  if negb (gpu_eqb rd rs1) || negb (u16 offset =? 0)
  then [Rv64I.Base ((if left then Rv64.SLLI else Rv64.SRLI)
                      rd rs1 (Z.land (u16 offset) 0x3F))]
  else [].

Lemma implements_Slli (rd rs1 : GpuRegister) (offset : Z) :
  Run.implements (Asm.Slli rd rs1 offset) (shift_prog true rd rs1 offset).
Proof.
  unfold Asm.Slli, shift_prog.
  destruct (negb (gpu_eqb rd rs1) || negb (u16 offset =? 0));
    [|apply implements_ret].
  apply implements_Emit, decodeI_base. rewrite EncodeI6_low, u16_u16.
  apply (decode_shift_imm 1); [apply low6_range|left; reflexivity].
Qed.

Lemma implements_Srli (rd rs1 : GpuRegister) (offset : Z) :
  Run.implements (Asm.Srli rd rs1 offset) (shift_prog false rd rs1 offset).
Proof.
  unfold Asm.Srli, shift_prog.
  destruct (negb (gpu_eqb rd rs1) || negb (u16 offset =? 0));
    [|apply implements_ret].
  apply implements_Emit, decodeI_base. rewrite EncodeI6_low, u16_u16.
  apply (decode_shift_imm 5); [apply low6_range|right; reflexivity].
Qed.

Lemma implements_Srai (rd rs1 : GpuRegister) (offset : Z) :
  Run.implements (Macro.Srai rd rs1 offset)
                 [Rv64I.SRAI rd rs1 (Z.land (u16 offset) 0x3F)].
Proof.
  apply implements_Emit. rewrite EncodeI6_low, u16_u16.
  apply decode_srai, low6_range.
Qed.

Lemma implements_Slliw (rd rs1 : GpuRegister) (shamt : Z) :
  0 <= shamt < 32 ->
  Run.implements (Macro.Slliw rd rs1 shamt) [Rv64I.SHIFTW Rv64I.SLLIW rd rs1 shamt].
Proof.
  intros Hs. unfold Macro.Slliw.
  assert (E : sext 16 shamt = shamt)
    by (apply sext_small; [lia|change (2 ^ (16 - 1)) with 32768; lia]).
  rewrite E. apply implements_CHECK.
  - apply Z.ltb_lt. unfold u16. rewrite Z.mod_small; lia.
  - apply implements_Emit. rewrite (u32_small shamt) by lia.
    apply decode_shift32; [listed|assumption].
Qed.

Lemma implements_Srliw (rd rs1 : GpuRegister) (shamt : Z) :
  0 <= shamt < 32 ->
  Run.implements (Macro.Srliw rd rs1 shamt) [Rv64I.SHIFTW Rv64I.SRLIW rd rs1 shamt].
Proof.
  intros Hs. unfold Macro.Srliw.
  assert (E : sext 16 shamt = shamt)
    by (apply sext_small; [lia|change (2 ^ (16 - 1)) with 32768; lia]).
  rewrite E. apply implements_CHECK.
  - apply Z.ltb_lt. unfold u16. rewrite Z.mod_small; lia.
  - apply implements_Emit. rewrite (u32_small shamt) by lia.
    apply decode_shift32; [listed|assumption].
Qed.

Lemma implements_Sraiw (rd rs1 : GpuRegister) (shamt : Z) :
  0 <= shamt < 32 ->
  Run.implements (Macro.Sraiw rd rs1 shamt) [Rv64I.SHIFTW Rv64I.SRAIW rd rs1 shamt].
Proof.
  intros Hs. unfold Macro.Sraiw.
  assert (E : sext 16 shamt = shamt)
    by (apply sext_small; [lia|change (2 ^ (16 - 1)) with 32768; lia]).
  rewrite E. apply implements_CHECK.
  - apply Z.ltb_lt. unfold u16. rewrite Z.mod_small; lia.
  - apply implements_Emit. rewrite (u32_small shamt) by lia.
    apply decode_shift32; [listed|assumption].
Qed.

(** *** Registers and bit patterns *)

Lemma gpu_eq_dec (a b : GpuRegister) : {a = b} + {a <> b}.
Proof. decide equality. Defined.

Lemma u64_sext (v : Z) : u64 (sext 64 v) = u64 v.
Proof. unfold u64, sext. pow_consts. Z.div_mod_to_equations. lia. Qed.

Lemma sext_u64 (v : Z) : sext 64 (u64 v) = sext 64 v.
Proof. apply sext_mod_idem. lia. Qed.

Lemma sext_sext (n v : Z) : 0 < n -> sext n (sext n v) = sext n v.
Proof.
  intros Hn. apply sext_small; [exact Hn|]. apply sext_range, Hn.
Qed.

Lemma sext_testbit (n v i : Z) :
  0 <= i < n -> Z.testbit (sext n v) i = Z.testbit v i.
Proof.
  intros Hi.
  assert (E : sext n v mod 2 ^ n = v mod 2 ^ n).
  { unfold sext.
    assert (P : 2 ^ n = 2 * 2 ^ (n - 1)).
    { replace n with (1 + (n - 1)) at 1 by lia.
      rewrite Z.pow_add_r by lia. reflexivity. }
    assert (0 < 2 ^ (n - 1)) by (apply Z.pow_pos_nonneg; lia).
    rewrite Zminus_mod_idemp_l.
    replace (v + 2 ^ (n - 1) - 2 ^ (n - 1)) with v by lia. reflexivity. }
  rewrite <- (Z.mod_pow2_bits_low (sext n v) n i), E by lia.
  apply Z.mod_pow2_bits_low. lia.
Qed.

Lemma sext_testbit_high (n v i : Z) :
  0 < n -> n <= i -> Z.testbit (sext n v) i = Z.testbit v (n - 1).
Proof.
  intros Hn Hi. unfold sext.
  assert (P : 2 ^ n = 2 * 2 ^ (n - 1)).
  { replace n with (1 + (n - 1)) at 1 by lia.
    rewrite Z.pow_add_r by lia. reflexivity. }
  assert (H0 : 0 < 2 ^ (n - 1)) by (apply Z.pow_pos_nonneg; lia).
  pose proof (Z.mod_pos_bound (v + 2 ^ (n - 1)) (2 ^ n) ltac:(lia)) as R.
  set (m := (v + 2 ^ (n - 1)) mod 2 ^ n) in *.
  assert (B : Z.testbit v (n - 1) = negb (Z.testbit m (n - 1))).
  { unfold m. rewrite Z.mod_pow2_bits_low by lia.
    rewrite <- (Z.add_0_l (v + 2 ^ (n - 1))).
    replace (0 + (v + 2 ^ (n - 1))) with (v + 2 ^ (n - 1)) by lia.
    rewrite !Z.testbit_eqb by lia. change (2 ^ 1) with 2.
    replace ((v + 2 ^ (n - 1)) / 2 ^ (n - 1)) with (v / 2 ^ (n - 1) + 1)
      by (rewrite <- Z.div_add by lia; f_equal; lia).
    generalize (v / 2 ^ (n - 1)). intros q.
    destruct (Z.eqb_spec (q mod 2) 1), (Z.eqb_spec ((q + 1) mod 2) 1);
      try reflexivity; exfalso; Z.div_mod_to_equations; lia. }
  rewrite B.
  destruct (Z.testbit m (n - 1)) eqn:T; cbn [negb].
  - apply Z.testbit_true in T; [|lia].
    assert (2 ^ (n - 1) <= m).
    { destruct (Z.ltb_spec m (2 ^ (n - 1))); [|lia].
      rewrite Z.div_small in T by lia. discriminate. }
    rewrite Z.bits_above_log2; [reflexivity|lia|].
    destruct (Z.eqb_spec (m - 2 ^ (n - 1)) 0) as [->|Hnz]; [cbn; lia|].
    apply Z.log2_lt_pow2; [lia|].
    apply Z.lt_le_trans with (2 ^ (n - 1)); [lia|].
    apply Z.pow_le_mono_r; lia.
  - assert (m < 2 ^ (n - 1)).
    { destruct (Z.ltb_spec m (2 ^ (n - 1))); [lia|]. exfalso.
      assert (T' : Z.testbit m (n - 1) = true); [|congruence].
      apply Z.testbit_true; [lia|].
      replace (m / 2 ^ (n - 1)) with 1; [reflexivity|].
      apply Z.div_unique with (m - 2 ^ (n - 1)); lia. }
    apply Z.bits_above_log2_neg; [lia|].
    destruct (Z.eqb_spec (m - 2 ^ (n - 1)) (-1)) as [E|Hnz].
    + replace (Z.pred (- (m - 2 ^ (n - 1)))) with 0 by lia. cbn. lia.
    + apply Z.log2_lt_pow2; [lia|].
      apply Z.lt_le_trans with (2 ^ (n - 1)); [lia|].
      apply Z.pow_le_mono_r; lia.
Qed.

Lemma u64_testbit (v i : Z) :
  Z.testbit (u64 v) i = if i <? 64 then Z.testbit v i else false.
Proof.
  unfold u64. destruct (Z.ltb_spec i 64).
  - destruct (Z.ltb_spec i 0); [rewrite !Z.testbit_neg_r by lia; reflexivity|].
    apply Z.mod_pow2_bits_low. lia.
  - apply Z.mod_pow2_bits_high. lia.
Qed.

(** Following the registers through straight-line code. *)
Ltac regs :=
  repeat first
    [ rewrite getx_next
    | rewrite getx_setx_same by (assumption || congruence)
    | rewrite getx_setx_other by (assumption || congruence) ].


(** ** Rotations *)

Lemma shift_prog_emitted (left : bool) (rd rs1 : GpuRegister) (offset : Z) :
  rd <> rs1 \/ u16 offset <> 0 ->
  shift_prog left rd rs1 offset
  = [Rv64I.Base ((if left then Rv64.SLLI else Rv64.SRLI)
                   rd rs1 (Z.land (u16 offset) 0x3F))].
Proof.
  intros H. unfold shift_prog.
  destruct H as [H|H].
  - rewrite (gpu_eqb_neq _ _ H). reflexivity.
  - destruct (Z.eqb_spec (u16 offset) 0); [contradiction|].
    rewrite orb_true_r. reflexivity.
Qed.

Lemma low6_mod (v : Z) : Z.land v 0x3F = v mod 64.
Proof. change 63 with (Z.ones 6). rewrite Z.land_ones by lia. reflexivity. Qed.

Lemma Srri_implements (TMP rd rs1 : GpuRegister) (imm6 : Z) :
  rs1 <> TMP -> 0 <= imm6 < 64 ->
  Run.implements (Macro.Srri TMP rd rs1 imm6)
    [Rv64I.Base (Rv64.SRLI TMP rs1 imm6);
     Rv64I.Base (Rv64.SLLI rd rs1 ((64 - imm6) mod 64));
     Rv64I.Base (Rv64.OR rd rd TMP)].
Proof.
  intros Hne Hn. unfold Macro.Srri.
  rewrite (sext_small 32 imm6) by (change (2 ^ (32 - 1)) with (2 ^ 31); lia).
  rewrite (sext_small 32 (64 - imm6)) by (change (2 ^ (32 - 1)) with (2 ^ 31); lia).
  apply implements_CHECK; [destruct (0 <=? imm6); reflexivity|].
  apply (implements_bind _ _ [_] [_; _]).
  { pose proof (implements_Srli TMP rs1 imm6) as I.
    rewrite shift_prog_emitted in I by (left; congruence).
    unfold u16 in I. rewrite (Z.mod_small imm6), low6_mod, Z.mod_small in I by lia.
    exact I. }
  apply (implements_bind _ _ [_] [_]); [|apply implements_Or].
  pose proof (implements_Slli rd rs1 (64 - imm6)) as I.
  rewrite shift_prog_emitted in I
    by (right; unfold u16; rewrite Z.mod_small; lia).
  unfold u16 in I. rewrite (Z.mod_small (64 - imm6)), low6_mod in I by lia.
  exact I.
Qed.

(** X12. Srri rotates right: for a rotation 0 <= imm6 < 64, a destination
    other than the zero register and TMP, and a source other than TMP, the
    three instructions of Srri(rd, rs1, imm6) run to their end, bit i of rd
    is then bit (i + imm6) mod 64 of the value rs1 had, and only rd and TMP
    change. *)
Theorem Srri_rotates_right (AT TMP rd rs1 : GpuRegister) (imm6 : Z)
    (s : Rv64.State) :
  rd <> ZERO -> TMP <> ZERO -> rd <> TMP -> rs1 <> TMP ->
  0 <= imm6 < 64 -> Rv64.pc s = 0 ->
  exists s',
    Run.runs_to AT (Macro.Srri TMP rd rs1 imm6) 3 s s'
    /\ (forall i, 0 <= i < 64 ->
          Z.testbit (Rv64.getx s' rd) i
          = Z.testbit (Rv64.getx s rs1) ((i + imm6) mod 64))
    /\ (forall r, r <> rd -> r <> TMP -> Rv64.getx s' r = Rv64.getx s r).
Proof.
  intros Hrd HT Hne Hrs Hn Hpc.
  eexists. split.
  { apply (implements_runs AT _ _ 3 s _ (Srri_implements TMP rd rs1 imm6 Hrs Hn));
      [reflexivity|cbn; lia|exact Hpc|reflexivity]. }
  split.
  - intros i Hi. regs.
    rewrite sext_testbit, Z.lor_spec, !sext_testbit by lia.
    rewrite Z.shiftl_spec, Z.shiftr_spec, u64_testbit by lia.
    destruct (Z.eqb_spec imm6 0) as [->|Hz].
    + change ((64 - 0) mod 64) with 0. rewrite Z.sub_0_r, Z.add_0_r.
      rewrite Z.mod_small by lia.
      destruct (Z.ltb_spec i 64); [|lia]. apply orb_diag.
    + rewrite (Z.mod_small (64 - imm6)) by lia.
      destruct (Z.ltb_spec (i + imm6) 64).
      * rewrite (Z.testbit_neg_r _ (i - (64 - imm6))) by lia.
        rewrite Z.mod_small by lia. reflexivity.
      * rewrite orb_false_r. f_equal.
        apply Z.mod_unique with 1; lia.
  - intros r H1 H2. regs. reflexivity.
Qed.


Lemma Srriw_implements (TMP rd rs1 : GpuRegister) (imm5 : Z) :
  1 <= imm5 <= 31 ->
  Run.implements (Macro.Srriw TMP rd rs1 imm5)
    [Rv64I.SHIFTW Rv64I.SRLIW TMP rs1 imm5;
     Rv64I.SHIFTW Rv64I.SLLIW rd rs1 (32 - imm5);
     Rv64I.Base (Rv64.OR rd rd TMP)].
Proof.
  intros Hn. unfold Macro.Srriw.
  rewrite (sext_small 32 imm5) by (change (2 ^ (32 - 1)) with (2 ^ 31); lia).
  rewrite (sext_small 32 (32 - imm5)) by (change (2 ^ (32 - 1)) with (2 ^ 31); lia).
  apply implements_CHECK; [destruct (0 <=? imm5); reflexivity|].
  apply (implements_bind _ _ [_] [_; _]).
  { apply implements_Srliw. lia. }
  apply (implements_bind _ _ [_] [_]); [|apply implements_Or].
  apply implements_Slliw. lia.
Qed.

Lemma u32_testbit_low (v i : Z) :
  Z.testbit (u32 v) i = if i <? 32 then Z.testbit v i else false.
Proof.
  unfold u32. destruct (Z.ltb_spec i 32).
  - destruct (Z.ltb_spec i 0); [rewrite !Z.testbit_neg_r by lia; reflexivity|].
    apply Z.mod_pow2_bits_low. lia.
  - apply Z.mod_pow2_bits_high. lia.
Qed.

Lemma sext_testbit_any (n v i : Z) :
  0 < n -> 0 <= i -> Z.testbit (sext n v) i = Z.testbit v (Z.min i (n - 1)).
Proof.
  intros Hn Hi. destruct (Z.ltb_spec i n).
  - rewrite Z.min_l by lia. apply sext_testbit. lia.
  - rewrite Z.min_r by lia. apply sext_testbit_high; lia.
Qed.

(** X13. Srriw rotates the low word right and aborts at the ends of its
    range: for 1 <= imm5 <= 31 the three instructions run to their end and
    leave in rd the low 32 bits of rs1 rotated right by imm5, sign-extended
    from bit 31 (bit i of rd is bit (min(i,31) + imm5) mod 32 of rs1); for
    imm5 = 0, and for any other imm5 outside 1..31, a CHECK of Slliw or
    Srliw fails, although the CHECK of Srriw itself never does. *)
Theorem Srriw_rotates_or_aborts (AT TMP rd rs1 : GpuRegister) (imm5 : Z) :
  - 2 ^ 15 <= imm5 < 2 ^ 15 ->
  (1 <= imm5 <= 31 ->
   forall s, rd <> ZERO -> TMP <> ZERO -> rd <> TMP -> rs1 <> TMP ->
     Rv64.pc s = 0 ->
     exists s',
       Run.runs_to AT (Macro.Srriw TMP rd rs1 imm5) 3 s s'
       /\ (forall i, 0 <= i < 64 ->
             Z.testbit (Rv64.getx s' rd) i
             = Z.testbit (Rv64.getx s rs1) ((Z.min i 31 + imm5) mod 32))
       /\ (forall r, r <> rd -> r <> TMP -> Rv64.getx s' r = Rv64.getx s r))
  /\ (~ 1 <= imm5 <= 31 -> forall a, Macro.Srriw TMP rd rs1 imm5 a = None).
Proof.
  intros Hr. split.
  - intros Hn s Hrd HT Hne Hrs Hpc. eexists. split.
    { apply (implements_runs AT _ _ 3 s _ (Srriw_implements TMP rd rs1 imm5 Hn));
        [reflexivity|cbn; lia|exact Hpc|reflexivity]. }
    split.
    + intros i Hi. regs. cbn [Rv64I.shift32].
      rewrite sext_testbit, Z.lor_spec by lia.
      rewrite !sext_testbit_any by lia.
      rewrite !(Z.min_l i (64 - 1)) by lia. change (32 - 1) with 31.
      set (j := Z.min i 31). assert (Hj : 0 <= j <= 31) by (unfold j; lia).
      rewrite Z.shiftl_spec, Z.shiftr_spec, u32_testbit_low by lia.
      destruct (Z.ltb_spec (j + imm5) 32).
      * rewrite (Z.testbit_neg_r _ (j - (32 - imm5))) by lia.
        rewrite Z.mod_small by lia. reflexivity.
      * rewrite orb_false_r. f_equal. apply Z.mod_unique with 1; lia.
    + intros r H1 H2. regs. reflexivity.
  - intros Hn a. unfold Macro.Srriw.
    rewrite (sext_small 32 imm5) by (change (2 ^ (32 - 1)) with (2 ^ 31); lia).
    unfold Asm.bind at 1, Asm.CHECK at 1.
    replace ((if 0 <=? imm5 then 1 else 0) <? 32) with true
      by (destruct (0 <=? imm5); reflexivity).
    assert (E16 : sext 16 imm5 = imm5)
      by (apply sext_small; [lia|change (2 ^ (16 - 1)) with (2 ^ 15); lia]).
    destruct (Z.eqb_spec imm5 0) as [->|Hz].
    + unfold Asm.bind at 1.
      destruct (Macro.Srliw TMP rs1 0 a) as [[[] a1]|]; reflexivity.
    + unfold Asm.bind at 1, Macro.Srliw, Asm.bind at 1, Asm.CHECK at 1.
      rewrite E16. unfold u16.
      destruct (Z.ltb_spec (imm5 mod 2 ^ 16) 32); [|reflexivity].
      exfalso. change (2 ^ 15) with 32768 in Hr. change (2 ^ 16) with 65536 in *.
      Z.div_mod_to_equations. lia.
Qed.

(** Every general register holds its own number. *)
Definition numbered_state : Rv64.State :=
  {| Rv64.pc := 0; Rv64.x := gpu_num; Rv64.f := fun _ => S754_zero false |}.

Lemma Srri_rotates_right_witness :
  exists s',
    Run.runs_to T4 (Macro.Srri T6 A0 A1 1) 3 numbered_state s'
    /\ Z.testbit (Rv64.getx s' A0) 63 = true.
Proof.
  destruct (Srri_rotates_right T4 T6 A0 A1 1 numbered_state)
    as (s' & R & B & _); try discriminate; try reflexivity; [lia|].
  exists s'. split; [exact R|]. rewrite B by lia. reflexivity.
Defined.

Lemma Srriw_rotates_or_aborts_witness :
  (exists s',
     Run.runs_to T4 (Macro.Srriw T6 A0 A1 1) 3 numbered_state s'
     /\ Z.testbit (Rv64.getx s' A0) 63 = true)
  /\ Macro.Srriw T6 A0 A1 0 Asm.new_assembler = None.
Proof.
  split.
  - destruct (Srriw_rotates_or_aborts T4 T6 A0 A1 1) as [W _]; [lia|].
    destruct (W ltac:(lia) numbered_state) as (s' & R & B & _);
      try discriminate; try reflexivity.
    exists s'. split; [exact R|]. rewrite B by lia. reflexivity.
  - destruct (Srriw_rotates_or_aborts T4 T6 A0 A1 0) as [_ W]; [lia|].
    apply W. lia.
Defined.


(** The two halves of a rotation, put together. *)
Lemma rotate_bits (w x n i : Z) (low : Z -> Z) :
  0 < w -> 0 <= n < w -> 0 <= i < w ->
  (forall j, Z.testbit (low x) j = if j <? w then Z.testbit x j else false) ->
  Z.testbit (Z.shiftl x ((w - n) mod w)) i || Z.testbit (Z.shiftr (low x) n) i
  = Z.testbit x ((i + n) mod w).
Proof.
  intros Hw Hn Hi Hlow.
  rewrite Z.shiftl_spec, Z.shiftr_spec, Hlow by lia.
  destruct (Z.eqb_spec n 0) as [->|Hz].
  - rewrite Z.sub_0_r, Z.mod_same, Z.sub_0_r, Z.add_0_r, Z.mod_small by lia.
    destruct (Z.ltb_spec i w); [|lia]. apply orb_diag.
  - rewrite (Z.mod_small (w - n)) by lia.
    destruct (Z.ltb_spec (i + n) w).
    + rewrite (Z.testbit_neg_r _ (i - (w - n))) by lia.
      rewrite Z.mod_small by lia. reflexivity.
    + rewrite orb_false_r. f_equal. apply Z.mod_unique with 1; lia.
Qed.

Lemma low5_mod (v : Z) : Z.land v 31 = v mod 32.
Proof. change 31 with (Z.ones 5). rewrite Z.land_ones by lia. reflexivity. Qed.

Lemma Srr_implements (TMP TMP2 rd rt rs : GpuRegister) :
  Run.implements (Macro.Srr TMP TMP2 rd rt rs)
    [Rv64I.OP Rv64I.SRL TMP rt rs;
     Rv64I.OP Rv64I.SUB TMP2 ZERO rs;
     Rv64I.Base (Rv64.ADDI TMP2 TMP2 64);
     Rv64I.OP Rv64I.SLL rd rt TMP2;
     Rv64I.Base (Rv64.OR rd rd TMP)].
Proof.
  unfold Macro.Srr.
  apply (implements_bind _ _ [_] [_; _; _; _]);
    [apply implements_Srl|].
  apply (implements_bind _ _ [_] [_; _; _]);
    [apply implements_Sub|].
  apply (implements_bind _ _ [_] [_; _]); [apply (implements_Addi _ _ 64)|].
  apply (implements_bind _ _ [_] [_]);
    [apply implements_Sll|apply implements_Or].
Qed.

Lemma Srrw_implements (TMP TMP2 rd rt rs : GpuRegister) :
  Run.implements (Macro.Srrw TMP TMP2 rd rt rs)
    [Rv64I.OP32 Rv64I.SRLW TMP rt rs;
     Rv64I.OP32 Rv64I.SUBW TMP2 ZERO rs;
     Rv64I.Base (Rv64.ADDIW TMP2 TMP2 32);
     Rv64I.OPIMM Rv64I.ANDI TMP2 TMP2 31;
     Rv64I.OP32 Rv64I.SLLW rd rt TMP2;
     Rv64I.Base (Rv64.OR rd rd TMP)].
Proof.
  unfold Macro.Srrw.
  apply (implements_bind _ _ [_] [_; _; _; _; _]);
    [apply implements_Srlw|].
  apply (implements_bind _ _ [_] [_; _; _; _]);
    [apply implements_Subw|].
  apply (implements_bind _ _ [_] [_; _; _]); [apply (implements_Addiw _ _ 32)|].
  apply (implements_bind _ _ [_] [_; _]);
    [apply (implements_Andi _ _ 31)|].
  apply (implements_bind _ _ [_] [_]);
    [apply implements_Sllw|apply implements_Or].
Qed.

(** Sign extension keeps a value modulo a divisor of its half range. *)
Lemma sext_mod_divisor (n v m : Z) :
  0 < n -> 0 < m -> 2 ^ (n - 1) mod m = 0 -> sext n v mod m = v mod m.
Proof.
  intros Hn Hm Hd. unfold sext.
  assert (P : 2 ^ n = 2 * 2 ^ (n - 1)).
  { replace n with (1 + (n - 1)) at 1 by lia.
    rewrite Z.pow_add_r by lia. reflexivity. }
  rewrite P. set (h := 2 ^ (n - 1)) in *.
  assert (0 < h) by (apply Z.pow_pos_nonneg; lia).
  rewrite (Z.mod_eq (v + h) (2 * h)) by lia.
  set (q := (v + h) / (2 * h)).
  assert (E : h = m * (h / m))
    by (pose proof (Z.div_mod h m ltac:(lia)); lia).
  replace (v + h - 2 * h * q - h) with (v + (- (2 * (h / m) * q)) * m) by nia.
  apply Z.mod_add. lia.
Qed.

Lemma left_amount_64 (r : Z) :
  Z.land (sext 64 (sext 64 (0 - r) + 64)) 63 = (64 - r mod 64) mod 64.
Proof.
  rewrite low6_mod, sext_mod_divisor by (reflexivity || lia).
  rewrite <- Zplus_mod_idemp_l, sext_mod_divisor by (reflexivity || lia).
  Z.div_mod_to_equations. lia.
Qed.

Lemma left_amount_32 (r : Z) :
  Z.land (sext 64 (Z.land (sext 64 (sext 32 (sext 64 (sext 32 (0 - r)) + 32))) 31)) 31
  = (32 - r mod 32) mod 32.
Proof.
  rewrite !low5_mod.
  rewrite (sext_mod_divisor 64 _ 32) by (reflexivity || lia).
  rewrite Z.mod_mod by lia.
  rewrite (sext_mod_divisor 64 _ 32) by (reflexivity || lia).
  rewrite (sext_mod_divisor 32 _ 32) by (reflexivity || lia).
  rewrite <- Zplus_mod_idemp_l.
  rewrite (sext_mod_divisor 64 _ 32) by (reflexivity || lia).
  rewrite (sext_mod_divisor 32 _ 32) by (reflexivity || lia).
  Z.div_mod_to_equations. lia.
Qed.

(** X14. Srr and Srrw rotate right by a register: when the scratch
    registers TMP and TMP2 are two registers other than the zero register,
    the value rt is in neither, the amount rs is not in TMP and the
    destination is neither TMP nor the zero register, the code of
    Srr(rd, rt, rs) runs to its end and bit i of rd is bit (i + rs) mod 64
    of rt; that of Srrw(rd, rt, rs) leaves the low word of rt rotated right
    by rs mod 32 and sign-extended. Apart from rd only TMP and TMP2
    change. *)
Theorem Srr_rotates_by_register (AT TMP TMP2 rd rt rs : GpuRegister)
    (s : Rv64.State) :
  TMP <> ZERO -> TMP2 <> ZERO -> TMP <> TMP2 ->
  rd <> ZERO -> rd <> TMP -> rt <> TMP -> rt <> TMP2 -> rs <> TMP ->
  Rv64.pc s = 0 ->
  (exists s',
     Run.runs_to AT (Macro.Srr TMP TMP2 rd rt rs) 5 s s'
     /\ (forall i, 0 <= i < 64 ->
           Z.testbit (Rv64.getx s' rd) i
           = Z.testbit (Rv64.getx s rt) ((i + Rv64.getx s rs) mod 64))
     /\ (forall r, r <> rd -> r <> TMP -> r <> TMP2 ->
           Rv64.getx s' r = Rv64.getx s r))
  /\ (exists s',
        Run.runs_to AT (Macro.Srrw TMP TMP2 rd rt rs) 6 s s'
        /\ (forall i, 0 <= i < 64 ->
              Z.testbit (Rv64.getx s' rd) i
              = Z.testbit (Rv64.getx s rt)
                          ((Z.min i 31 + Rv64.getx s rs) mod 32))
        /\ (forall r, r <> rd -> r <> TMP -> r <> TMP2 ->
              Rv64.getx s' r = Rv64.getx s r)).
Proof.
  intros HT HT2 HTT Hrd HrdT HrtT HrtT2 HrsT Hpc.
  assert (ZT2 : ZERO <> TMP2) by congruence.
  assert (ZT : ZERO <> TMP) by congruence.
  split.
  - eexists. split.
    { apply (implements_runs AT _ _ 5 s _ (Srr_implements TMP TMP2 rd rt rs));
        [reflexivity|cbn; lia|exact Hpc|reflexivity]. }
    split.
    + intros i Hi. regs. cbn [Rv64I.alu]. regs.
      rewrite getx_ZERO.
      rewrite sext_testbit, Z.lor_spec, !sext_testbit by lia.
      rewrite left_amount_64, low6_mod.
      rewrite <- (Zplus_mod_idemp_r (Rv64.getx s rs) i 64).
      apply rotate_bits; try lia; [apply Z.mod_pos_bound; lia|apply u64_testbit].
    + intros r H1 H2 H3. regs. reflexivity.
  - eexists. split.
    { apply (implements_runs AT _ _ 6 s _ (Srrw_implements TMP TMP2 rd rt rs));
        [reflexivity|cbn; lia|exact Hpc|reflexivity]. }
    split.
    + intros i Hi. regs. cbn [Rv64I.alu32 Rv64I.alu_imm]. regs.
      rewrite getx_ZERO.
      rewrite sext_testbit, Z.lor_spec by lia.
      rewrite !sext_testbit_any by lia.
      rewrite !(Z.min_l i (64 - 1)) by lia. change (32 - 1) with 31.
      rewrite left_amount_32, low5_mod.
      rewrite <- (Zplus_mod_idemp_r (Rv64.getx s rs) _ 32).
      apply rotate_bits; try lia; [apply Z.mod_pos_bound; lia|apply u32_testbit_low].
    + intros r H1 H2 H3. regs. reflexivity.
Qed.

Lemma Srr_rotates_by_register_witness :
  exists s',
    Run.runs_to T4 (Macro.Srr T6 T5 A0 A1 A2) 5 numbered_state s'
    /\ Z.testbit (Rv64.getx s' A0) 52 = true.
Proof.
  destruct (Srr_rotates_by_register T4 T6 T5 A0 A1 A2 numbered_state)
    as [(s' & R & B & _) _]; try discriminate; try reflexivity.
  exists s'. split; [exact R|]. rewrite B by lia. reflexivity.
Defined.


(** ** Adding a constant *)

Lemma Forall2_Base (ws : list Z) (prog : list Rv64.Instr) :
  Forall2 (fun w i => Rv64.decode (u32 w) = Some i) ws prog ->
  Forall2 (fun w i => Rv64I.decode (u32 w) = Some i) ws (map Rv64I.Base prog).
Proof.
  induction 1 as [|w i ws prog H _ IH]; cbn [map];
    [apply Forall2_nil|apply Forall2_cons; [apply decodeI_base, H|exact IH]].
Qed.

Lemma execI_Base (prog : list Rv64.Instr) (s : Rv64.State) :
  Run.exec_seq (map Rv64I.Base prog) s = exec_seq prog s.
Proof.
  revert s. induction prog as [|i prog IH]; intros s; cbn [map Run.exec_seq exec_seq];
    [reflexivity|].
  cbn [Rv64I.step_instr]. destruct (Rv64.step_instr i s); [apply IH|reflexivity].
Qed.

Lemma straight_Base (prog : list Rv64.Instr) :
  forallb Run.straight (map Rv64I.Base prog) = forallb straight prog.
Proof.
  induction prog as [|i prog IH]; cbn [map forallb Run.straight];
    [reflexivity|rewrite IH; reflexivity].
Qed.

Lemma implements_LoadConst32 (rd : GpuRegister) (value : Z) :
  Run.implements (Asm.LoadConst32 rd value)
                 (map Rv64I.Base (LoadConst32_prog rd value)).
Proof.
  exists (LoadConst32_words rd value).
  split; [apply emits_LoadConst32|apply Forall2_Base, LoadConst32_decodes].
Qed.

Lemma implements_LoadConst64 (TMP2 rd : GpuRegister) (value : Z) :
  Run.implements (Asm.LoadConst64 TMP2 rd value)
                 (map Rv64I.Base (LoadConst64_prog TMP2 rd value)).
Proof.
  exists (LoadConst64_words TMP2 rd value).
  split; [apply emits_LoadConst64|apply Forall2_Base, LoadConst64_decodes].
Qed.

(** Outside the 12-bit range LoadConst32 is the pair LUI, ADDIW that the
    adding macros write out. *)
Lemma LoadConst32_long (rd : GpuRegister) (v : Z) :
  - 2 ^ 31 <= v < 2 ^ 31 -> IsInt 12 v = false ->
  Asm.LoadConst32 rd v
  = Asm.bind
      (Asm.Lui rd (if negb (Z.land (Z.land v 0xFFF) 0x800 =? 0)
                   then sext 32 (Z.shiftr v 12 + 1) else Z.shiftr v 12))
      (fun _ => if negb (Z.land v 0xFFF =? 0)
                then Asm.Addiw rd rd (Z.land v 0xFFF) else Asm.ret tt).
Proof.
  intros Hv H. unfold Asm.LoadConst32.
  rewrite (sext_small 32 v) by (change (2 ^ (32 - 1)) with (2 ^ 31); lia).
  rewrite H. reflexivity.
Qed.

Lemma sext16_range (v : Z) : - 2 ^ 31 <= sext 16 v < 2 ^ 31.
Proof.
  pose proof (sext_range 16 v ltac:(lia)) as R.
  change (2 ^ (16 - 1)) with 32768 in R. pow_consts. lia.
Qed.

(** What LoadConst64 leaves alone. *)
Lemma LoadConst64_frame (TMP2 rd : GpuRegister) (v : Z) (s s' : Rv64.State) :
  exec_seq (LoadConst64_prog TMP2 rd v) s = Some s' ->
  forall r, r <> rd -> r <> TMP2 -> Rv64.getx s' r = Rv64.getx s r.
Proof.
  intros E r H1 H2. unfold LoadConst64_prog in E.
  assert (L32 : forall x value t t',
             exec_seq (LoadConst32_prog x value) t = Some t' -> r <> x ->
             Rv64.getx t' r = Rv64.getx t r).
  { intros x value t t' Et Hx. unfold LoadConst32_prog in Et.
    destruct (IsInt 12 (sext 32 value)).
    - injection Et as <-. regs. reflexivity.
    - destruct (negb (lo12 (sext 32 value) =? 0)); injection Et as <-;
        regs; reflexivity. }
  destruct (IsInt 32 (sext 64 v)); [exact (L32 _ _ _ _ E H1)|].
  rewrite exec_seq_app in E.
  destruct (exec_seq (LoadConst32_prog TMP2 _) s) as [s1|] eqn:E1; [|discriminate].
  rewrite exec_seq_app in E.
  destruct (exec_seq (LoadConst32_prog rd _) s1) as [s2|] eqn:E2; [|discriminate].
  injection E as <-. regs.
  rewrite (L32 _ _ _ _ E2 H1). exact (L32 _ _ _ _ E1 H2).
Qed.

Section Adders.
Variables AT TMP2 rd rs : GpuRegister.
Variable s : Rv64.State.
Hypothesis Hrd : rd <> ZERO.
Hypothesis HT2 : TMP2 <> ZERO.
Hypothesis Hrs : rs <> TMP2.
Hypothesis Hpc : Rv64.pc s = 0.

(** The long form: the constant goes to TMP2 and is added from there,
    by the instruction [last], which computes [f] of the source and the
    constant. *)
Lemma adder_long (v : Z) (m : Asm.M unit) (last : Rv64I.Instr) (f : Z -> Z -> Z) :
  Run.implements m (map Rv64I.Base (LoadConst32_prog TMP2 v) ++ [last]) ->
  Run.straight last = true ->
  (forall t, Rv64I.step_instr last t
             = Some (Rv64.next (Rv64.setx t rd
                                  (f (Rv64.getx t rs) (Rv64.getx t TMP2))))) ->
  exists s',
    Run.runs_to AT m 3 s s'
    /\ Rv64.getx s' rd = sext 64 (f (Rv64.getx s rs) (sext 32 v))
    /\ (forall r, r <> rd -> r <> TMP2 -> Rv64.getx s' r = Rv64.getx s r).
Proof.
  intros I HS Hstep.
  destruct (LoadConst32_exec TMP2 v s HT2) as (s1 & E1 & G1 & F1).
  destruct (LoadConst32_straight TMP2 v) as [S1 L1].
  eexists. split.
  { apply (implements_runs AT _ _ 3 s _ I).
    - rewrite forallb_app, straight_Base, S1. cbn [forallb]. rewrite HS. reflexivity.
    - rewrite length_app, length_map. cbn [List.length]. lia.
    - exact Hpc.
    - rewrite execI_app, execI_Base, E1. cbn [Run.exec_seq]. rewrite Hstep.
      reflexivity. }
  split.
  - regs. rewrite G1, (F1 rs Hrs). reflexivity.
  - intros r H1 H2. regs. apply F1, H2.
Qed.

(** The short form: one instruction. *)
Lemma adder_short (fuel : nat) (m : Asm.M unit) (i : Rv64I.Instr) (v : Z) :
  (1 <= fuel)%nat ->
  Run.implements m [i] ->
  Run.straight i = true ->
  Rv64I.step_instr i s = Some (Rv64.next (Rv64.setx s rd v)) ->
  exists s',
    Run.runs_to AT m fuel s s'
    /\ Rv64.getx s' rd = sext 64 v
    /\ (forall r, r <> rd -> r <> TMP2 -> Rv64.getx s' r = Rv64.getx s r).
Proof.
  intros Hf I HS Hstep. eexists. split.
  { apply (implements_runs AT _ _ fuel s _ I);
      [cbn [forallb]; rewrite HS; reflexivity|exact Hf|exact Hpc|].
    cbn [Run.exec_seq]. rewrite Hstep. reflexivity. }
  split; [regs; reflexivity|]. intros r H1 H2. regs. reflexivity.
Qed.

End Adders.

(** The pair LUI, ADDIW written out by Addiu and Addiuw is the long form
    of LoadConst32. *)
Lemma implements_split_load (rd : GpuRegister) (v : Z) (m : Asm.M unit)
    (last : Rv64I.Instr) :
  - 2 ^ 31 <= v < 2 ^ 31 -> IsInt 12 v = false ->
  Run.implements m [last] ->
  Run.implements
    (Asm.bind
       (Asm.Lui rd (if negb (Z.land (Z.land v 0xFFF) 0x800 =? 0)
                    then sext 32 (Z.shiftr v 12 + 1) else Z.shiftr v 12))
       (fun _ => Asm.bind
                   (if negb (Z.land v 0xFFF =? 0)
                    then Asm.Addiw rd rd (Z.land v 0xFFF) else Asm.ret tt)
                   (fun _ => m)))
    (map Rv64I.Base (LoadConst32_prog rd v) ++ [last]).
Proof.
  intros Hv H I. unfold LoadConst32_prog.
  rewrite (sext_small 32 v) by (change (2 ^ (32 - 1)) with (2 ^ 31); lia).
  rewrite H. unfold hi20, lo12. rewrite sext12_u16.
  destruct (negb (Z.land v 4095 =? 0)); cbn [map app].
  - apply (implements_bind _ _ [_] [_; _]); [apply implements_Lui|].
    apply (implements_bind _ _ [_] [_]); [apply implements_Addiw|exact I].
  - apply (implements_bind _ _ [_] [_]); [apply implements_Lui|].
    apply (implements_bind _ _ [] [_]); [apply implements_ret|exact I].
Qed.

Lemma sext_mod_same (n v : Z) : 0 < n -> sext n v mod 2 ^ n = v mod 2 ^ n.
Proof.
  intros Hn. unfold sext. rewrite Zminus_mod_idemp_l.
  f_equal. lia.
Qed.

Lemma sext_congr (n a b : Z) : a mod 2 ^ n = b mod 2 ^ n -> sext n a = sext n b.
Proof.
  intros H. unfold sext.
  rewrite <- (Zplus_mod_idemp_l a), <- (Zplus_mod_idemp_l b), H. reflexivity.
Qed.

Lemma sext_add_l (n a b : Z) : 0 < n -> sext n (sext n a + b) = sext n (a + b).
Proof.
  intros Hn. apply sext_congr.
  rewrite <- Zplus_mod_idemp_l, sext_mod_same, Zplus_mod_idemp_l by exact Hn.
  reflexivity.
Qed.

Lemma sext_add_r (n a b : Z) : 0 < n -> sext n (a + sext n b) = sext n (a + b).
Proof.
  intros Hn. rewrite (Z.add_comm a), sext_add_l, Z.add_comm by exact Hn.
  reflexivity.
Qed.

Lemma sext_64_32 (v : Z) : sext 64 (sext 32 v) = sext 32 v.
Proof.
  apply sext_small; [lia|]. pose proof (sext_range 32 v ltac:(lia)) as R.
  pow_consts. lia.
Qed.

Lemma sext_32_16 (v : Z) : sext 32 (sext 16 v) = sext 16 v.
Proof.
  apply sext_small; [lia|]. pose proof (sext16_range v) as R.
  change (2 ^ (32 - 1)) with (2 ^ 31). lia.
Qed.

Lemma sext12_small (v : Z) : IsInt 12 v = true -> sext 12 v = v.
Proof. intros H. apply sext_small; [lia|]. apply IsInt_range, H. Qed.

(** X15. Addiu and Addiu64 add a constant in 64 bits: with a destination
    other than the zero register and a source other than TMP2 (itself not
    the zero register), the code of Addiu(rd, rs, imm16) runs to its end in
    at most three instructions and leaves rs + imm16 in rd, changing TMP2
    at most; Addiu64(rd, rs, value, rtmp) leaves rs + value in rd when rtmp
    is a register other than the zero register, TMP2 and rs, changing rtmp
    and TMP2 at most; and Addiu64 aborts when rtmp is rs. *)
Theorem Addiu_adds_the_constant (AT TMP2 rd rs : GpuRegister) (s : Rv64.State) :
  rd <> ZERO -> TMP2 <> ZERO -> rs <> TMP2 -> Rv64.pc s = 0 ->
  (forall imm16,
     exists s',
       Run.runs_to AT (Macro.Addiu TMP2 rd rs imm16) 3 s s'
       /\ Rv64.getx s' rd = sext 64 (Rv64.getx s rs + sext 16 imm16)
       /\ (forall r, r <> rd -> r <> TMP2 -> Rv64.getx s' r = Rv64.getx s r))
  /\ (forall value rtmp,
        - 2 ^ 63 <= value < 2 ^ 63 ->
        rtmp <> ZERO -> rtmp <> TMP2 -> rtmp <> rs ->
        exists s',
          Run.runs_to AT (Macro.Addiu64 TMP2 rd rs value rtmp) 9 s s'
          /\ Rv64.getx s' rd = sext 64 (Rv64.getx s rs + value)
          /\ (forall r, r <> rd -> r <> rtmp -> r <> TMP2 ->
                Rv64.getx s' r = Rv64.getx s r))
  /\ (forall value a, Macro.Addiu64 TMP2 rd rs value rs a = None).
Proof.
  intros Hrd HT2 Hrs Hpc. split; [|split].
  - intros imm16. unfold Macro.Addiu.
    pose proof (sext16_range imm16) as R. set (v := sext 16 imm16) in *.
    destruct (IsInt 12 v) eqn:I.
    + destruct (adder_short AT TMP2 rd s Hrd Hpc 3 _ _ (Rv64.getx s rs + v)
                  ltac:(lia) (implements_Addi rd rs v) eq_refl)
        as (s' & Run & G & F).
      { cbn [Rv64I.step_instr Rv64.step_instr].
        rewrite (sext12_small v I). reflexivity. }
      exists s'. split; [exact Run|]. split; [|exact F].
      rewrite G. reflexivity.
    + destruct (adder_long AT TMP2 rd rs s Hrd HT2 Hrs Hpc v _ _
                  (fun a b => b + a)
                  (implements_split_load TMP2 v _ _ R I (implements_Add rd TMP2 rs))
                  eq_refl) as (s' & Run & G & F).
      { intros t. reflexivity. }
      exists s'. split; [exact Run|]. split; [|exact F].
      rewrite G, (sext_small 32 v) by (change (2 ^ (32 - 1)) with (2 ^ 31); lia).
      f_equal. lia.
  - intros value rtmp Hv Htmp HtT Hts. unfold Macro.Addiu64.
    rewrite (sext_small 64 value) by (change (2 ^ (64 - 1)) with (2 ^ 63); lia).
    assert (Chk : negb (gpu_eqb rs rtmp) = true).
    { rewrite gpu_eqb_neq by congruence. reflexivity. }
    destruct (IsInt 12 value) eqn:I.
    + destruct (adder_short AT TMP2 rd s Hrd Hpc 9
                  (Asm.bind (Asm.CHECK (negb (gpu_eqb rs rtmp)))
                            (fun _ => Asm.Addi rd rs value))
                  _ (Rv64.getx s rs + value) ltac:(lia)
                  (implements_CHECK _ _ _ Chk (implements_Addi rd rs value)) eq_refl)
        as (s' & Run & G & F).
      { cbn [Rv64I.step_instr Rv64.step_instr].
        rewrite (sext12_small value I). reflexivity. }
      exists s'. split; [exact Run|]. split; [exact G|].
      intros r H1 _ H3. apply F; assumption.
    + destruct (LoadConst64_exec TMP2 rtmp value s Hv Htmp) as (s1 & E1 & G1).
      { intros _. split; assumption. }
      pose proof (LoadConst64_frame TMP2 rtmp value s s1 E1) as F1.
      destruct (LoadConst64_straight TMP2 rtmp value) as (S1 & L1 & _).
      eexists. split.
      { apply (implements_runs AT _
                 (map Rv64I.Base (LoadConst64_prog TMP2 rtmp value)
                  ++ [Rv64I.OP Rv64I.ADD rd rs rtmp]) 9 s).
        - apply implements_CHECK; [exact Chk|].
          apply implements_bind; [apply implements_LoadConst64|apply implements_Add].
        - rewrite forallb_app, straight_Base, S1. reflexivity.
        - rewrite length_app, length_map. cbn [List.length]. lia.
        - exact Hpc.
        - rewrite execI_app, execI_Base, E1. reflexivity. }
      split.
      * regs. cbn [Rv64I.alu]. rewrite G1, F1 by congruence. reflexivity.
      * intros r H1 H2 H3. regs. apply F1; assumption.
  - intros value a. unfold Macro.Addiu64, Asm.bind, Asm.CHECK.
    rewrite gpu_eqb_refl. reflexivity.
Qed.

Lemma Addiu_adds_the_constant_witness :
  exists s',
    Run.runs_to T4 (Macro.Addiu T5 A0 A1 0x7FFF) 3 numbered_state s'
    /\ Rv64.getx s' A0 = 32778.
Proof.
  destruct (Addiu_adds_the_constant T4 T5 A0 A1 numbered_state)
    as [W _]; try discriminate; try reflexivity.
  destruct (W 0x7FFF) as (s' & R & G & _).
  exists s'. split; [exact R|]. rewrite G. reflexivity.
Defined.

(** X16. Addiuw and Addiuw32 add a constant in 32 bits: under the same
    conditions on the registers, their code runs to its end in at most
    three instructions and leaves in rd the sum of rs and the constant,
    wrapped to 32 bits and sign-extended, changing TMP2 at most. *)
Theorem Addiuw_adds_the_constant (AT TMP2 rd rs : GpuRegister) (s : Rv64.State) :
  rd <> ZERO -> TMP2 <> ZERO -> rs <> TMP2 -> Rv64.pc s = 0 ->
  (forall imm16,
     exists s',
       Run.runs_to AT (Macro.Addiuw TMP2 rd rs imm16) 3 s s'
       /\ Rv64.getx s' rd = sext 32 (Rv64.getx s rs + sext 16 imm16)
       /\ (forall r, r <> rd -> r <> TMP2 -> Rv64.getx s' r = Rv64.getx s r))
  /\ (forall value,
        exists s',
          Run.runs_to AT (Macro.Addiuw32 TMP2 rd rs value) 3 s s'
          /\ Rv64.getx s' rd = sext 32 (Rv64.getx s rs + sext 32 value)
          /\ (forall r, r <> rd -> r <> TMP2 -> Rv64.getx s' r = Rv64.getx s r)).
Proof.
  intros Hrd HT2 Hrs Hpc. split.
  - intros imm16. unfold Macro.Addiuw.
    pose proof (sext16_range imm16) as R. set (v := sext 16 imm16) in *.
    destruct (IsInt 12 v) eqn:I.
    + destruct (adder_short AT TMP2 rd s Hrd Hpc 3 _ _
                  (sext 32 (Rv64.getx s rs + v))
                  ltac:(lia) (implements_Addiw rd rs v) eq_refl)
        as (s' & Run & G & F).
      { cbn [Rv64I.step_instr Rv64.step_instr].
        rewrite (sext12_small v I). reflexivity. }
      exists s'. split; [exact Run|]. split; [|exact F].
      rewrite G. apply sext_64_32.
    + destruct (adder_long AT TMP2 rd rs s Hrd HT2 Hrs Hpc v _ _
                  (fun a b => sext 32 (b + a))
                  (implements_split_load TMP2 v _ _ R I (implements_Addw rd TMP2 rs))
                  eq_refl) as (s' & Run & G & F).
      { intros t. reflexivity. }
      exists s'. split; [exact Run|]. split; [|exact F].
      rewrite G, sext_64_32, sext_add_l, Z.add_comm by lia. reflexivity.
  - intros value. unfold Macro.Addiuw32.
    pose proof (sext_range 32 value ltac:(lia)) as R.
    change (2 ^ (32 - 1)) with (2 ^ 31) in R. set (v := sext 32 value) in *.
    destruct (IsInt 12 v) eqn:I.
    + destruct (adder_short AT TMP2 rd s Hrd Hpc 3 _ _
                  (sext 32 (Rv64.getx s rs + v))
                  ltac:(lia) (implements_Addiw rd rs v) eq_refl)
        as (s' & Run & G & F).
      { cbn [Rv64I.step_instr Rv64.step_instr].
        rewrite (sext12_small v I). reflexivity. }
      exists s'. split; [exact Run|]. split; [|exact F].
      rewrite G. apply sext_64_32.
    + destruct (adder_long AT TMP2 rd rs s Hrd HT2 Hrs Hpc v _ _
                  (fun a b => sext 32 (a + b))
                  (implements_bind _ _ _ _ (implements_LoadConst32 TMP2 v)
                                   (implements_Addw rd rs TMP2))
                  eq_refl) as (s' & Run & G & F).
      { intros t. reflexivity. }
      exists s'. split; [exact Run|]. split; [|exact F].
      rewrite G, sext_64_32, sext_add_r by lia. reflexivity.
Qed.

Lemma Addiuw_adds_the_constant_witness :
  exists s',
    Run.runs_to T4 (Macro.Addiuw32 T5 A0 A1 0x7FFFFFFF) 3 numbered_state s'
    /\ Rv64.getx s' A0 = - 2147483638.
Proof.
  destruct (Addiuw_adds_the_constant T4 T5 A0 A1 numbered_state)
    as [_ W]; try discriminate; try reflexivity.
  destruct (W 0x7FFFFFFF) as (s' & R & G & _).
  exists s'. split; [exact R|]. rewrite G. reflexivity.
Defined.


(** ** Muhh *)

Lemma shift_prog_32 (left : bool) (rd rs1 : GpuRegister) :
  shift_prog left rd rs1 32
  = [Rv64I.Base ((if left then Rv64.SLLI else Rv64.SRLI) rd rs1 32)].
Proof. apply shift_prog_emitted. right. discriminate. Qed.

Lemma Muhh_implements (TMP2 rd rs rt : GpuRegister) :
  Run.implements (Macro.Muhh TMP2 rd rs rt)
    [Rv64I.Base (Rv64.SLLI TMP2 rs 32);
     Rv64I.Base (Rv64.SLLI T6 rt 32);
     Rv64I.OP Rv64I.MUL rd TMP2 T6;
     Rv64I.SRAI rd rd 32].
Proof.
  unfold Macro.Muhh.
  apply (implements_bind _ _ [_] [_; _; _]).
  { rewrite <- (shift_prog_32 true). apply implements_Slli. }
  apply (implements_bind _ _ [_] [_; _]).
  { rewrite <- (shift_prog_32 true). apply implements_Slli. }
  apply (implements_bind _ _ [_] [_]); [apply implements_Mul|].
  apply (implements_Srai rd rd 32).
Qed.

(** A register that holds a multiple of 2^32. *)
Definition high_only (v : Z) : Prop := exists k, v = k * 2 ^ 32.

Lemma high_only_sext_shift (v : Z) : high_only (sext 64 (Z.shiftl v 32)).
Proof.
  rewrite Z.shiftl_mul_pow2 by lia. unfold sext.
  exists (v - 2 ^ 32 * ((v * 2 ^ 32 + 2 ^ (64 - 1)) / 2 ^ 64)).
  rewrite Z.mod_eq by lia. pow_consts. lia.
Qed.

Lemma high_only_product (a b : Z) :
  high_only a -> high_only b -> sext 64 (a * b) = 0.
Proof.
  intros [k ->] [l ->]. unfold sext.
  replace (k * 2 ^ 32 * (l * 2 ^ 32) + 2 ^ (64 - 1))
    with (2 ^ (64 - 1) + (k * l) * 2 ^ 64) by (pow_consts; lia).
  rewrite Z.mod_add by lia. reflexivity.
Qed.

(** X17. Muhh leaves zero: whatever the registers and their contents, the
    four instructions of Muhh(rd, rs, rt) run to their end with 0 in rd.
    Both operands are shifted left by 32 before they are multiplied, so
    the low 64 bits of the product, which MUL keeps, are all zero. *)
Theorem Muhh_leaves_zero (AT TMP2 rd rs rt : GpuRegister) (s : Rv64.State) :
  Rv64.pc s = 0 ->
  exists s',
    Run.runs_to AT (Macro.Muhh TMP2 rd rs rt) 4 s s'
    /\ Rv64.getx s' rd = 0.
Proof.
  intros Hpc. eexists. split.
  { apply (implements_runs AT _ _ 4 s _ (Muhh_implements TMP2 rd rs rt));
      [reflexivity|cbn; lia|exact Hpc|reflexivity]. }
  destruct (gpu_eq_dec rd ZERO) as [->|Hrd]; [reflexivity|].
  regs. cbn [Rv64I.alu].
  assert (H2 : forall t v w,
             high_only (Rv64.getx
                          (Rv64.setx (Rv64.next (Rv64.setx t TMP2 (Z.shiftl v 32)))
                                     T6 (Z.shiftl w 32)) TMP2)).
  { intros t v w. destruct (gpu_eq_dec TMP2 T6) as [->|H26].
    - rewrite getx_setx_same by discriminate. apply high_only_sext_shift.
    - rewrite getx_setx_other by exact H26. rewrite getx_next.
      destruct (gpu_eq_dec TMP2 ZERO) as [->|H20]; [exists 0; reflexivity|].
      rewrite getx_setx_same by exact H20. apply high_only_sext_shift. }
  rewrite (high_only_product _ _ (H2 _ _ _) (high_only_sext_shift _)).
  reflexivity.
Qed.

Lemma Muhh_leaves_zero_witness :
  exists s',
    Run.runs_to T4 (Macro.Muhh T5 A0 A1 A2) 4 numbered_state s'
    /\ Rv64.getx s' A0 = 0.
Proof. apply (Muhh_leaves_zero T4 T5 A0 A1 A2 numbered_state). reflexivity. Defined.


(** ** Adding to the upper bits *)

(** Aui, Ahi and Ati differ in the shift only. *)
Definition add_upper (TMP2 : GpuRegister) (shift : Z) (rt rs : GpuRegister)
    (imm16 : Z) : Asm.M unit :=
  let imm16 := u16 imm16 in
  let l := Z.land imm16 0xFFF in
  let h := Z.shiftr imm16 12 in
  let h := if negb (Z.land l 0x800 =? 0) then sext 32 (h + 1) else h in
  Asm.bind (Asm.Lui TMP2 h)
    (fun _ => Asm.bind (if negb (l =? 0) then Asm.Addi TMP2 TMP2 l else Asm.ret tt)
       (fun _ => Asm.bind (Asm.Slli TMP2 TMP2 shift)
          (fun _ => Macro.Add rt rs TMP2))).

Definition add_upper_prog (TMP2 : GpuRegister) (shift : Z) (rt rs : GpuRegister)
    (v : Z) : list Rv64I.Instr :=
  [Rv64I.Base (Rv64.LUI TMP2 (sext 32 (v - sext 12 (lo12 v))))]
  ++ (if negb (lo12 v =? 0)
      then [Rv64I.Base (Rv64.ADDI TMP2 TMP2 (sext 12 (lo12 v)))] else [])
  ++ [Rv64I.Base (Rv64.SLLI TMP2 TMP2 shift); Rv64I.OP Rv64I.ADD rt rs TMP2].

Lemma u16_range (v : Z) : 0 <= u16 v < 2 ^ 16.
Proof. unfold u16. apply Z.mod_pos_bound. lia. Qed.

Lemma add_upper_implements (TMP2 : GpuRegister) (shift : Z) (rt rs : GpuRegister)
    (imm16 : Z) :
  0 < shift < 64 ->
  Run.implements (add_upper TMP2 shift rt rs imm16)
                 (add_upper_prog TMP2 shift rt rs (u16 imm16)).
Proof.
  intros Hk. unfold add_upper, add_upper_prog.
  pose proof (u16_range imm16) as R. set (v := u16 imm16) in *.
  change (2 ^ 16) with 65536 in R.
  apply implements_bind.
  { rewrite <- lui_value by (pow_consts; lia). apply implements_Lui. }
  apply implements_bind.
  { fold (lo12 v). destruct (negb (lo12 v =? 0));
      [apply implements_Addi|apply implements_ret]. }
  apply (implements_bind _ _ [_] [_]); [|apply implements_Add].
  pose proof (implements_Slli TMP2 TMP2 shift) as I.
  rewrite shift_prog_emitted in I
    by (right; unfold u16; rewrite Z.mod_small; lia).
  unfold u16 in I. rewrite (Z.mod_small shift), low6_mod, Z.mod_small in I by lia.
  exact I.
Qed.

Lemma upper_value (v : Z) :
  0 <= v < 2 ^ 16 ->
  sext 64 (sext 32 (v - sext 12 (lo12 v))) = v - sext 12 (lo12 v).
Proof.
  intros Hv. pose proof (sext_range 12 (lo12 v) ltac:(lia)) as R.
  change (2 ^ (12 - 1)) with 2048 in R. change (2 ^ 16) with 65536 in Hv.
  rewrite sext_64_32. apply sext_small; [lia|]. pow_consts. lia.
Qed.

Lemma add_upper_runs (AT TMP2 rt rs : GpuRegister) (shift imm16 : Z)
    (s : Rv64.State) :
  0 < shift < 64 ->
  rt <> ZERO -> TMP2 <> ZERO -> rs <> TMP2 -> Rv64.pc s = 0 ->
  exists s',
    Run.runs_to AT (add_upper TMP2 shift rt rs imm16) 4 s s'
    /\ Rv64.getx s' rt = sext 64 (Rv64.getx s rs + u16 imm16 * 2 ^ shift)
    /\ (forall r, r <> rt -> r <> TMP2 -> Rv64.getx s' r = Rv64.getx s r).
Proof.
  intros Hk Hrt HT2 Hrs Hpc.
  pose proof (add_upper_implements TMP2 shift rt rs imm16 Hk) as I.
  pose proof (u16_range imm16) as R. set (v := u16 imm16) in *.
  unfold add_upper_prog in I.
  assert (Z12 : lo12 v = 0 -> sext 12 (lo12 v) = 0) by (intros ->; reflexivity).
  destruct (Z.eqb_spec (lo12 v) 0) as [E0|E0]; cbn [negb app] in I.
  - eexists. split.
    { apply (implements_runs AT _ _ 4 s _ I);
        [reflexivity|cbn; lia|exact Hpc|reflexivity]. }
    split.
    + regs. cbn [Rv64I.alu]. regs.
      rewrite upper_value, (Z12 E0), Z.sub_0_r by exact R.
      rewrite sext_add_r, Z.shiftl_mul_pow2 by lia. reflexivity.
    + intros r H1 H2. regs. reflexivity.
  - eexists. split.
    { apply (implements_runs AT _ _ 4 s _ I);
        [reflexivity|cbn; lia|exact Hpc|reflexivity]. }
    split.
    + regs. cbn [Rv64I.alu]. regs.
      rewrite upper_value by exact R.
      replace (v - sext 12 (lo12 v) + sext 12 (lo12 v)) with v by lia.
      rewrite (sext_small 64 v)
        by (change (2 ^ 16) with 65536 in R; pow_consts; lia).
      rewrite sext_add_r, Z.shiftl_mul_pow2 by lia. reflexivity.
    + intros r H1 H2. regs. reflexivity.
Qed.

(** X18. Aui, Ahi and Ati add the immediate to the upper bits: with TMP2 a
    register other than the zero register, a source other than TMP2 and a
    destination other than the zero register, the code of Aui(rt, rs,
    imm16) runs to its end and leaves rs + imm16 * 2^16 in rt, where imm16
    is the unsigned 16-bit immediate (it is not sign-extended); Ahi(rs,
    imm16) adds imm16 * 2^32 to rs and Ati(rs, imm16) adds imm16 * 2^48,
    all in 64-bit arithmetic. Apart from the destination only TMP2
    changes. *)
Theorem Aui_adds_to_the_upper_bits (AT TMP2 rt rs : GpuRegister) (imm16 : Z)
    (s : Rv64.State) :
  rt <> ZERO -> TMP2 <> ZERO -> rs <> TMP2 -> Rv64.pc s = 0 ->
  (exists s',
     Run.runs_to AT (Macro.Aui TMP2 rt rs imm16) 4 s s'
     /\ Rv64.getx s' rt = sext 64 (Rv64.getx s rs + u16 imm16 * 2 ^ 16)
     /\ (forall r, r <> rt -> r <> TMP2 -> Rv64.getx s' r = Rv64.getx s r))
  /\ (rs <> ZERO ->
      (exists s',
         Run.runs_to AT (Macro.Ahi TMP2 rs imm16) 4 s s'
         /\ Rv64.getx s' rs = sext 64 (Rv64.getx s rs + u16 imm16 * 2 ^ 32)
         /\ (forall r, r <> rs -> r <> TMP2 -> Rv64.getx s' r = Rv64.getx s r))
      /\ (exists s',
            Run.runs_to AT (Macro.Ati TMP2 rs imm16) 4 s s'
            /\ Rv64.getx s' rs = sext 64 (Rv64.getx s rs + u16 imm16 * 2 ^ 48)
            /\ (forall r, r <> rs -> r <> TMP2 -> Rv64.getx s' r = Rv64.getx s r))).
Proof.
  intros Hrt HT2 Hrs Hpc. split; [|intros Hrs0; split].
  - apply (add_upper_runs AT TMP2 rt rs 16 imm16 s); (lia || assumption).
  - apply (add_upper_runs AT TMP2 rs rs 32 imm16 s); (lia || assumption).
  - apply (add_upper_runs AT TMP2 rs rs 48 imm16 s); (lia || assumption).
Qed.

Lemma Aui_adds_to_the_upper_bits_witness :
  exists s',
    Run.runs_to T4 (Macro.Aui T5 A0 A1 0xFFFF) 4 numbered_state s'
    /\ Rv64.getx s' A0 = 4294901771.
Proof.
  destruct (Aui_adds_to_the_upper_bits T4 T5 A0 A1 0xFFFF numbered_state)
    as [(s' & R & G & _) _]; try discriminate; try reflexivity.
  exists s'. split; [exact R|]. rewrite G. reflexivity.
Defined.


(** ** Bit fields *)

Lemma u64_u64 (v : Z) : u64 (u64 v) = u64 v.
Proof. unfold u64. apply Z.mod_mod. lia. Qed.

Lemma u64_shiftl (v n : Z) : 0 <= n -> u64 (Z.shiftl (u64 v) n) = u64 (Z.shiftl v n).
Proof.
  intros Hn. unfold u64. rewrite !Z.shiftl_mul_pow2 by lia.
  rewrite Zmult_mod_idemp_l. reflexivity.
Qed.

(** What a shift by an immediate does to the 64-bit pattern of its
    destination, left out or not. *)
Lemma shift_prog_exec (left : bool) (rd rs1 : GpuRegister) (offset : Z)
    (s : Rv64.State) :
  rd <> ZERO ->
  exists s',
    Run.exec_seq (shift_prog left rd rs1 offset) s = Some s'
    /\ u64 (Rv64.getx s' rd)
       = u64 (if left then Z.shiftl (Rv64.getx s rs1) (Z.land (u16 offset) 0x3F)
              else Z.shiftr (u64 (Rv64.getx s rs1)) (Z.land (u16 offset) 0x3F))
    /\ (forall r, r <> rd -> Rv64.getx s' r = Rv64.getx s r).
Proof.
  intros Hrd. unfold shift_prog.
  destruct (negb (gpu_eqb rd rs1) || negb (u16 offset =? 0)) eqn:C.
  - destruct left; eexists; (split; [reflexivity|]); split;
      try (intros r Hr; regs; reflexivity);
      regs; apply u64_sext.
  - apply orb_false_iff in C. destruct C as [C1 C2].
    apply negb_false_iff in C1, C2. apply gpu_eqb_eq in C1. apply Z.eqb_eq in C2.
    subst rs1. rewrite C2. change (Z.land 0 63) with 0.
    exists s. split; [reflexivity|]. split; [|reflexivity].
    destruct left; [rewrite Z.shiftl_0_r|rewrite Z.shiftr_0_r, u64_u64];
      reflexivity.
Qed.

Lemma shift_prog_straight (left : bool) (rd rs1 : GpuRegister) (offset : Z) :
  forallb Run.straight (shift_prog left rd rs1 offset) = true
  /\ (List.length (shift_prog left rd rs1 offset) <= 1)%nat.
Proof.
  unfold shift_prog.
  destruct (negb (gpu_eqb rd rs1) || negb (u16 offset =? 0)), left;
    split; try reflexivity; cbn; lia.
Qed.

Lemma Extub_implements (rt rs : GpuRegister) (pos size : Z) :
  0 <= pos < 64 -> 1 <= size <= 64 ->
  Run.implements (Macro.Extub rt rs pos size)
    (shift_prog false rt rs pos
     ++ (shift_prog true rt rt (64 - size)
         ++ shift_prog false rt rt (64 - size))).
Proof.
  intros Hp Hs. unfold Macro.Extub.
  rewrite (sext_small 32 pos), (sext_small 32 size),
    (sext_small 32 (size - 1)), (sext_small 32 (64 - size))
    by (change (2 ^ (32 - 1)) with (2 ^ 31); lia).
  apply implements_CHECK.
  { unfold IsUint. apply andb_true_iff. split; [apply Z.leb_le|apply Z.ltb_lt];
      change (2 ^ 6) with 64; lia. }
  apply implements_CHECK.
  { unfold IsUint. apply andb_true_iff. split; [apply Z.leb_le|apply Z.ltb_lt];
      change (2 ^ 6) with 64; lia. }
  apply implements_bind; [apply implements_Srli|].
  apply implements_bind; [apply implements_Slli|apply implements_Srli].
Qed.

Lemma field_value (a k : Z) :
  0 <= a < 2 ^ 64 -> 0 <= k < 64 ->
  Z.shiftr (u64 (Z.shiftl a k)) k = a mod 2 ^ (64 - k).
Proof.
  intros Ha Hk. unfold u64.
  rewrite Z.shiftl_mul_pow2, Z.shiftr_div_pow2 by lia.
  assert (P : 2 ^ 64 = 2 ^ (64 - k) * 2 ^ k).
  { rewrite <- Z.pow_add_r by lia. f_equal. lia. }
  assert (0 < 2 ^ k) by (apply Z.pow_pos_nonneg; lia).
  assert (0 < 2 ^ (64 - k)) by (apply Z.pow_pos_nonneg; lia).
  rewrite P, Z.mul_mod_distr_r, Z.div_mul by lia. reflexivity.
Qed.

Definition Extub_prog (rt rs : GpuRegister) (pos size : Z) : list Rv64I.Instr :=
  shift_prog false rt rs pos
  ++ shift_prog true rt rt (64 - size)
  ++ shift_prog false rt rt (64 - size).

Lemma Extub_exec (rt rs : GpuRegister) (pos size : Z) (s : Rv64.State) :
  rt <> ZERO -> 0 <= pos < 64 -> 1 <= size <= 64 ->
  forallb Run.straight (Extub_prog rt rs pos size) = true
  /\ (List.length (Extub_prog rt rs pos size) <= 3)%nat
  /\ exists s',
       Run.exec_seq (Extub_prog rt rs pos size) s = Some s'
       /\ u64 (Rv64.getx s' rt)
          = Z.shiftr (u64 (Rv64.getx s rs)) pos mod 2 ^ size
       /\ (forall r, r <> rt -> Rv64.getx s' r = Rv64.getx s r).
Proof.
  intros Hrt Hp Hs. unfold Extub_prog.
  destruct (shift_prog_exec false rt rs pos s Hrt) as (s1 & E1 & G1 & F1).
  destruct (shift_prog_exec true rt rt (64 - size) s1 Hrt) as (s2 & E2 & G2 & F2).
  destruct (shift_prog_exec false rt rt (64 - size) s2 Hrt) as (s3 & E3 & G3 & F3).
  destruct (shift_prog_straight false rt rs pos) as [S1 L1].
  destruct (shift_prog_straight true rt rt (64 - size)) as [S2 L2].
  destruct (shift_prog_straight false rt rt (64 - size)) as [S3 L3].
  split; [rewrite !forallb_app, S1, S2, S3; reflexivity|].
  split; [rewrite !length_app; lia|].
  exists s3. split; [rewrite execI_app, E1, execI_app, E2; exact E3|].
  split.
  - assert (K : Z.land (u16 (64 - size)) 63 = 64 - size).
    { unfold u16. rewrite (Z.mod_small (64 - size)), low6_mod, Z.mod_small by lia.
      reflexivity. }
    assert (P : Z.land (u16 pos) 63 = pos).
    { unfold u16. rewrite (Z.mod_small pos), low6_mod, Z.mod_small by lia.
      reflexivity. }
    rewrite K, P in *.
    set (a := Z.shiftr (u64 (Rv64.getx s rs)) pos) in *.
    assert (Ha : 0 <= a < 2 ^ 64).
    { unfold a. pose proof (Z.mod_pos_bound (Rv64.getx s rs) (2 ^ 64) ltac:(lia)) as B.
      fold (u64 (Rv64.getx s rs)) in B. rewrite Z.shiftr_div_pow2 by lia.
      assert (0 < 2 ^ pos) by (apply Z.pow_pos_nonneg; lia).
      split; [apply Z.div_pos; lia|].
      apply Z.le_lt_trans with (u64 (Rv64.getx s rs)); [|lia].
      apply Z.div_le_upper_bound; nia. }
    assert (Ua : u64 a = a) by (apply Z.mod_small; exact Ha).
    rewrite G3, G2, <- u64_shiftl, G1, Ua, field_value by lia.
    replace (64 - (64 - size)) with size by lia.
    unfold u64. apply Z.mod_small.
    pose proof (Z.mod_pos_bound a (2 ^ size) ltac:(apply Z.pow_pos_nonneg; lia)).
    assert (2 ^ size <= 2 ^ 64) by (apply Z.pow_le_mono_r; lia). lia.
  - intros r Hr. rewrite (F3 r Hr), (F2 r Hr), (F1 r Hr). reflexivity.
Qed.

(** X19. Extub extracts an unsigned bit field: for 0 <= pos < 64 and
    1 <= size <= 64 and a destination other than the zero register, the
    code of Extub(rt, rs, pos, size), at most three shifts, runs to its end
    and leaves in rt, as a 64-bit pattern, the value of rs shifted right by
    pos and reduced to its low size bits; no other register changes. *)
Theorem Extub_extracts_the_field (AT rt rs : GpuRegister) (pos size : Z)
    (s : Rv64.State) :
  rt <> ZERO -> 0 <= pos < 64 -> 1 <= size <= 64 -> Rv64.pc s = 0 ->
  exists s',
    Run.runs_to AT (Macro.Extub rt rs pos size) 3 s s'
    /\ u64 (Rv64.getx s' rt)
       = Z.shiftr (u64 (Rv64.getx s rs)) pos mod 2 ^ size
    /\ (forall r, r <> rt -> Rv64.getx s' r = Rv64.getx s r).
Proof.
  intros Hrt Hp Hs Hpc.
  destruct (Extub_exec rt rs pos size s Hrt Hp Hs) as (S & L & s' & E & G & F).
  exists s'. split; [|split; assumption].
  apply (implements_runs AT _ _ 3 s _ (Extub_implements rt rs pos size Hp Hs));
    assumption.
Qed.

Lemma Extub_extracts_the_field_witness :
  exists s',
    Run.runs_to T4 (Macro.Extub A0 A1 1 2) 3 numbered_state s'
    /\ u64 (Rv64.getx s' A0) = 1.
Proof.
  destruct (Extub_extracts_the_field T4 A0 A1 1 2 numbered_state)
    as (s' & R & G & _); try discriminate; try reflexivity; try lia.
  exists s'. split; [exact R|]. rewrite G. reflexivity.
Defined.

(** What the arithmetic shift right makes of a left shift. *)
Lemma sra_sll (y k : Z) :
  0 <= k < 64 -> Z.shiftr (sext 64 (Z.shiftl y k)) k = sext (64 - k) y.
Proof.
  intros Hk. unfold sext.
  rewrite Z.shiftl_mul_pow2, Z.shiftr_div_pow2 by lia.
  assert (0 < 2 ^ k) by (apply Z.pow_pos_nonneg; lia).
  assert (P63 : 2 ^ (64 - 1) = 2 ^ (64 - k - 1) * 2 ^ k).
  { rewrite <- Z.pow_add_r by lia. f_equal. lia. }
  assert (P64 : 2 ^ 64 = 2 ^ (64 - k) * 2 ^ k).
  { rewrite <- Z.pow_add_r by lia. f_equal. lia. }
  assert (0 < 2 ^ (64 - k)) by (apply Z.pow_pos_nonneg; lia).
  rewrite P63, P64, <- Z.mul_add_distr_r, Z.mul_mod_distr_r by lia.
  rewrite <- Z.mul_sub_distr_r, Z.div_mul by lia. reflexivity.
Qed.

Lemma sext_of_u64 (n v : Z) : 0 < n <= 64 -> sext n (u64 v) = sext n v.
Proof.
  intros Hn. apply sext_congr. unfold u64.
  replace 64 with (n + (64 - n)) by lia.
  rewrite Z.pow_add_r by lia.
  assert (0 < 2 ^ n) by (apply Z.pow_pos_nonneg; lia).
  assert (0 < 2 ^ (64 - n)) by (apply Z.pow_pos_nonneg; lia).
  rewrite Z.rem_mul_r by lia.
  rewrite Z.mul_comm, Z.mod_add, Z.mod_mod by lia. reflexivity.
Qed.

Lemma sext_64_any (n v : Z) : 0 < n <= 64 -> sext 64 (sext n v) = sext n v.
Proof.
  intros Hn. apply sext_small; [lia|].
  pose proof (sext_range n v ltac:(lia)) as R.
  assert (2 ^ (n - 1) <= 2 ^ (64 - 1)) by (apply Z.pow_le_mono_r; lia). lia.
Qed.

Lemma Extb_implements (rt rs : GpuRegister) (pos size : Z) :
  0 <= pos < 64 -> 1 <= size <= 64 ->
  Run.implements (Macro.Extb rt rs pos size)
    (shift_prog false rt rs pos
     ++ shift_prog true rt rs (64 - size)
     ++ [Rv64I.SRAI rt rt (64 - size)]).
Proof.
  intros Hp Hs. unfold Macro.Extb.
  rewrite (sext_small 32 pos), (sext_small 32 size),
    (sext_small 32 (size - 1)), (sext_small 32 (64 - size))
    by (change (2 ^ (32 - 1)) with (2 ^ 31); lia).
  apply implements_CHECK.
  { unfold IsUint. apply andb_true_iff. split; [apply Z.leb_le|apply Z.ltb_lt];
      change (2 ^ 6) with 64; lia. }
  apply implements_CHECK.
  { unfold IsUint. apply andb_true_iff. split; [apply Z.leb_le|apply Z.ltb_lt];
      change (2 ^ 6) with 64; lia. }
  apply implements_bind; [apply implements_Srli|].
  apply implements_bind; [apply implements_Slli|].
  pose proof (implements_Srai rt rt (64 - size)) as I.
  unfold u16 in I. rewrite (Z.mod_small (64 - size)), low6_mod, Z.mod_small in I by lia.
  exact I.
Qed.

(** X20. Extb sign-extends the low bits and reads the position only when
    source and destination coincide: for 0 <= pos < 64, 1 <= size <= 64 and
    a destination other than the zero register, the code of Extb(rt, rs,
    pos, size) runs to its end and leaves in rt the low size bits, sign
    extended, of rs shifted right by pos when rt is rs, and of rs itself
    otherwise; the second shift takes rs, not the result of the first. No
    other register changes. *)
Theorem Extb_reads_the_position_in_place (AT rt rs : GpuRegister) (pos size : Z)
    (s : Rv64.State) :
  rt <> ZERO -> 0 <= pos < 64 -> 1 <= size <= 64 -> Rv64.pc s = 0 ->
  exists s',
    Run.runs_to AT (Macro.Extb rt rs pos size) 3 s s'
    /\ Rv64.getx s' rt
       = sext size (if gpu_eqb rt rs
                    then Z.shiftr (u64 (Rv64.getx s rs)) pos
                    else Rv64.getx s rs)
    /\ (forall r, r <> rt -> Rv64.getx s' r = Rv64.getx s r).
Proof.
  intros Hrt Hp Hs Hpc.
  destruct (shift_prog_exec false rt rs pos s Hrt) as (s1 & E1 & G1 & F1).
  destruct (shift_prog_exec true rt rs (64 - size) s1 Hrt) as (s2 & E2 & G2 & F2).
  destruct (shift_prog_straight false rt rs pos) as [S1 L1].
  destruct (shift_prog_straight true rt rs (64 - size)) as [S2 L2].
  assert (K : Z.land (u16 (64 - size)) 63 = 64 - size).
  { unfold u16. rewrite (Z.mod_small (64 - size)), low6_mod, Z.mod_small by lia.
    reflexivity. }
  assert (P : Z.land (u16 pos) 63 = pos).
  { unfold u16. rewrite (Z.mod_small pos), low6_mod, Z.mod_small by lia.
    reflexivity. }
  rewrite K, P in *.
  eexists. split.
  { apply (implements_runs AT _ _ 3 s _ (Extb_implements rt rs pos size Hp Hs)).
    - rewrite !forallb_app, S1, S2. reflexivity.
    - rewrite !length_app. cbn [List.length]. lia.
    - exact Hpc.
    - rewrite execI_app, E1, execI_app, E2. reflexivity. }
  split.
  - regs.
    rewrite <- (sext_u64 (Rv64.getx s2 rt)), G2, sext_u64.
    rewrite sra_sll by lia. replace (64 - (64 - size)) with size by lia.
    rewrite sext_64_any by lia.
    destruct (gpu_eq_dec rt rs) as [<-|Hne].
    + rewrite gpu_eqb_refl, <- (sext_of_u64 size (Rv64.getx s1 rt)), G1 by lia.
      apply sext_of_u64. lia.
    + rewrite (gpu_eqb_neq _ _ Hne), F1 by congruence. reflexivity.
  - intros r Hr. regs. rewrite (F2 r Hr), (F1 r Hr). reflexivity.
Qed.

Lemma Extb_reads_the_position_in_place_witness :
  exists s',
    Run.runs_to T4 (Macro.Extb A0 A1 1 2) 3 numbered_state s'
    /\ Rv64.getx s' A0 = -1.
Proof.
  destruct (Extb_reads_the_position_in_place T4 A0 A1 1 2 numbered_state)
    as (s' & R & G & _); try discriminate; try reflexivity; try lia.
  exists s'. split; [exact R|]. rewrite G. reflexivity.
Defined.


(** ** Selecting by a condition *)

Lemma implements_runs_decoded (AT : GpuRegister) (m : Asm.M unit)
    (prog : list Rv64I.Instr) (fuel : nat) (s s' : Rv64.State) :
  Run.implements m prog ->
  Run.run_decoded fuel prog s = Some s' ->
  Run.runs_to AT m fuel s s'.
Proof.
  intros (ws & E & D) R. exists (words ws).
  split; [apply assemble_emits, E|exact (runI_words ws prog D fuel s s' R)].
Qed.

Lemma implements_branch_8 (op : Rv64.BrOp) (rs1 rs2 : GpuRegister) :
  Run.implements
    (Asm.EmitB (u16 8) (gpu_num rs2) (gpu_num rs1) (brop_funct3 op) 0x63)
    [Rv64I.Base (Rv64.BRANCH op rs1 rs2 8)].
Proof.
  unfold Asm.EmitB. change (u16 (u16 8)) with 8.
  apply implements_CHECK; [reflexivity|].
  apply implements_Emit, decodeI_base.
  apply (decode_branch op rs1 rs2 8). lia.
Qed.

(** The two selections differ in the branch only. *)
Definition select_prog (op : Rv64.BrOp) (TMP2 rd rs rt : GpuRegister)
  : list Rv64I.Instr :=
  if gpu_eqb rt rd then
    [Rv64I.Base (Rv64.OR TMP2 rt ZERO); Rv64I.Base (Rv64.OR rd rs ZERO);
     Rv64I.Base (Rv64.BRANCH op TMP2 ZERO 8); Rv64I.Base (Rv64.OR rd ZERO ZERO)]
  else
    [Rv64I.Base (Rv64.OR rd rs ZERO);
     Rv64I.Base (Rv64.BRANCH op rt ZERO 8); Rv64I.Base (Rv64.OR rd ZERO ZERO)].

Lemma Seleqz_implements (TMP2 rd rs rt : GpuRegister) :
  Run.implements (Macro.Seleqz TMP2 rd rs rt) (select_prog Rv64.BEQ TMP2 rd rs rt).
Proof.
  unfold Macro.Seleqz, select_prog, Macro.Move.
  destruct (gpu_eqb rt rd).
  - apply (implements_bind _ _ [_] [_; _; _]); [apply implements_Or|].
    apply (implements_bind _ _ [_] [_; _]); [apply implements_Or|].
    apply (implements_bind _ _ [_] [_]);
      [apply (implements_branch_8 Rv64.BEQ)|apply implements_Or].
  - apply (implements_bind _ _ [_] [_; _]); [apply implements_Or|].
    apply (implements_bind _ _ [_] [_]);
      [apply (implements_branch_8 Rv64.BEQ)|apply implements_Or].
Qed.

Lemma Selnez_implements (TMP2 rd rs rt : GpuRegister) :
  Run.implements (Macro.Selnez TMP2 rd rs rt) (select_prog Rv64.BNE TMP2 rd rs rt).
Proof.
  unfold Macro.Selnez, select_prog, Macro.Move.
  destruct (gpu_eqb rt rd).
  - apply (implements_bind _ _ [_] [_; _; _]); [apply implements_Or|].
    apply (implements_bind _ _ [_] [_; _]); [apply implements_Or|].
    apply (implements_bind _ _ [_] [_]);
      [apply (implements_branch_8 Rv64.BNE)|apply implements_Or].
  - apply (implements_bind _ _ [_] [_; _]); [apply implements_Or|].
    apply (implements_bind _ _ [_] [_]);
      [apply (implements_branch_8 Rv64.BNE)|apply implements_Or].
Qed.

Lemma lor_0 (v : Z) : Z.lor v 0 = v.
Proof. apply Z.lor_0_r. Qed.

(** Three instructions: a move, a branch over the next instruction, and
    the instruction that clears the destination. *)
Lemma skip_clear_runs (op : Rv64.BrOp) (pre : list Rv64I.Instr)
    (rd rs rc : GpuRegister) (s : Rv64.State) (extra : nat) :
  rd <> ZERO -> rc <> rd ->
  Rv64.pc s = 4 * Z.of_nat (List.length pre) ->
  exists s',
    Run.run_decoded (3 + extra) (pre ++ [Rv64I.Base (Rv64.OR rd rs ZERO);
                               Rv64I.Base (Rv64.BRANCH op rc ZERO 8);
                               Rv64I.Base (Rv64.OR rd ZERO ZERO)]) s = Some s'
    /\ Rv64.getx s' rd
       = (if Rv64.taken op (Rv64.getx s rc) 0 then sext 64 (Rv64.getx s rs) else 0)
    /\ (forall r, r <> rd -> Rv64.getx s' r = Rv64.getx s r).
Proof.
  intros Hrd Hrc Hpc. cbn [Nat.add].
  set (prog := pre ++ _).
  assert (L : List.length prog = (List.length pre + 3)%nat)
    by (unfold prog; rewrite length_app; reflexivity).
  set (s1 := Rv64.next (Rv64.setx s rd (Z.lor (Rv64.getx s rs) (Rv64.getx s ZERO)))).
  assert (N : forall k i, nth_error [Rv64I.Base (Rv64.OR rd rs ZERO);
                                     Rv64I.Base (Rv64.BRANCH op rc ZERO 8);
                                     Rv64I.Base (Rv64.OR rd ZERO ZERO)] k = Some i ->
                          nth_error prog (List.length pre + k) = Some i).
  { intros k i H. unfold prog. rewrite nth_error_app2 by lia.
    replace (List.length pre + k - List.length pre)%nat with k by lia. exact H. }
  rewrite (runI_decoded_at prog (S (S extra)) s s1 (List.length pre + 0) _
             ltac:(rewrite Hpc; lia) (N 0%nat _ eq_refl) eq_refl).
  assert (P1 : Rv64.pc s1 = 4 * Z.of_nat (List.length pre + 1))
    by (unfold s1; cbn [Rv64.next Rv64.goto Rv64.setx Rv64.pc]; lia).
  assert (C1 : Rv64.getx s1 rc = Rv64.getx s rc)
    by (unfold s1; regs; reflexivity).
  assert (V1 : Rv64.getx s1 rd = sext 64 (Rv64.getx s rs)).
  { unfold s1. regs. rewrite getx_ZERO, lor_0. reflexivity. }
  destruct (Rv64.taken op (Rv64.getx s rc) 0) eqn:T.
  - set (s2 := Rv64.goto s1 (Rv64.pc s1 + 8)).
    rewrite (runI_decoded_at prog (S extra) s1 s2 (List.length pre + 1) _ P1
               (N 1%nat _ eq_refl)).
    2:{ cbn [Rv64I.step_instr Rv64.step_instr]. rewrite C1, getx_ZERO, T.
        reflexivity. }
    exists s2. split.
    + apply runI_decoded_end. unfold s2. cbn [Rv64.goto Rv64.pc]. lia.
    + split; [unfold s2; rewrite getx_goto; exact V1|].
      intros r Hr. unfold s2, s1. rewrite getx_goto. regs. reflexivity.
  - set (s2 := Rv64.next s1).
    rewrite (runI_decoded_at prog (S extra) s1 s2 (List.length pre + 1) _ P1
               (N 1%nat _ eq_refl)).
    2:{ cbn [Rv64I.step_instr Rv64.step_instr]. rewrite C1, getx_ZERO, T.
        reflexivity. }
    set (s3 := Rv64.next (Rv64.setx s2 rd (Z.lor (Rv64.getx s2 ZERO)
                                                 (Rv64.getx s2 ZERO)))).
    rewrite (runI_decoded_at prog extra s2 s3 (List.length pre + 2) _
               ltac:(unfold s2; cbn [Rv64.next Rv64.goto Rv64.pc]; lia)
               (N 2%nat _ eq_refl) eq_refl).
    exists s3. split.
    + apply runI_decoded_end. unfold s3, s2.
      cbn [Rv64.next Rv64.goto Rv64.setx Rv64.pc]. lia.
    + split; [unfold s3; regs; reflexivity|].
      intros r Hr. unfold s3, s2, s1. regs. reflexivity.
Qed.

Lemma select_runs (AT TMP2 rd rs rt : GpuRegister) (op : Rv64.BrOp)
    (m : Asm.M unit) (s : Rv64.State) :
  Run.implements m (select_prog op TMP2 rd rs rt) ->
  rd <> ZERO ->
  (rt = rd -> TMP2 <> ZERO /\ TMP2 <> rd /\ rs <> TMP2) ->
  - 2 ^ 63 <= Rv64.getx s rt < 2 ^ 63 ->
  Rv64.pc s = 0 ->
  exists s',
    Run.runs_to AT m 4 s s'
    /\ Rv64.getx s' rd
       = (if Rv64.taken op (Rv64.getx s rt) 0 then sext 64 (Rv64.getx s rs) else 0)
    /\ (forall r, r <> rd -> r <> TMP2 -> Rv64.getx s' r = Rv64.getx s r).
Proof.
  intros I Hrd Hsame Hrange Hpc. unfold select_prog in I.
  destruct (gpu_eq_dec rt rd) as [E|Hne].
  - destruct (Hsame E) as (HT0 & HTd & HsT). subst rt.
    rewrite gpu_eqb_refl in I.
    set (s0 := Rv64.next (Rv64.setx s TMP2 (Z.lor (Rv64.getx s rd)
                                                  (Rv64.getx s ZERO)))).
    destruct (skip_clear_runs op [Rv64I.Base (Rv64.OR TMP2 rd ZERO)]
                rd rs TMP2 s0 0 Hrd HTd) as (s' & R & G & F).
    { unfold s0. cbn [Rv64.next Rv64.goto Rv64.setx Rv64.pc List.length]. lia. }
    exists s'. split.
    + apply (implements_runs_decoded AT _ _ 4 s s' I).
      rewrite (runI_decoded_at _ 3 s s0 0 (Rv64I.Base (Rv64.OR TMP2 rd ZERO)));
        [exact R|rewrite Hpc; reflexivity|reflexivity|reflexivity].
    + split.
      * rewrite G. unfold s0. regs. rewrite getx_ZERO, lor_0.
        rewrite (sext_small 64 (Rv64.getx s rd))
          by (change (2 ^ (64 - 1)) with (2 ^ 63); lia).
        reflexivity.
      * intros r H1 H2. rewrite (F r H1). unfold s0. regs. reflexivity.
  - rewrite (gpu_eqb_neq _ _ Hne) in I.
    destruct (skip_clear_runs op [] rd rs rt s 1 Hrd Hne) as (s' & R & G & F).
    { rewrite Hpc. reflexivity. }
    exists s'. split; [exact (implements_runs_decoded AT _ _ 4 s s' I R)|].
    split; [exact G|]. intros r H1 _. apply F, H1.
Qed.

(** X21. Seleqz and Selnez select on a register: with a destination other
    than the zero register and, when the condition register rt is the
    destination, TMP2 a register other than the zero register, rd and rs,
    the code of Seleqz(rd, rs, rt) runs to its end and leaves rs in rd when
    rt holds zero and 0 otherwise; Selnez(rd, rs, rt) leaves rs when rt is
    not zero and 0 otherwise. Apart from rd only TMP2 can change. *)
Theorem Seleqz_Selnez_select (AT TMP2 rd rs rt : GpuRegister) (s : Rv64.State) :
  rd <> ZERO ->
  (rt = rd -> TMP2 <> ZERO /\ TMP2 <> rd /\ rs <> TMP2) ->
  - 2 ^ 63 <= Rv64.getx s rt < 2 ^ 63 ->
  Rv64.pc s = 0 ->
  (exists s',
     Run.runs_to AT (Macro.Seleqz TMP2 rd rs rt) 4 s s'
     /\ Rv64.getx s' rd
        = (if Rv64.getx s rt =? 0 then sext 64 (Rv64.getx s rs) else 0)
     /\ (forall r, r <> rd -> r <> TMP2 -> Rv64.getx s' r = Rv64.getx s r))
  /\ (exists s',
        Run.runs_to AT (Macro.Selnez TMP2 rd rs rt) 4 s s'
        /\ Rv64.getx s' rd
           = (if Rv64.getx s rt =? 0 then 0 else sext 64 (Rv64.getx s rs))
        /\ (forall r, r <> rd -> r <> TMP2 -> Rv64.getx s' r = Rv64.getx s r)).
Proof.
  intros Hrd Hsame Hrange Hpc. split.
  - exact (select_runs AT TMP2 rd rs rt Rv64.BEQ _ s
             (Seleqz_implements TMP2 rd rs rt) Hrd Hsame Hrange Hpc).
  - destruct (select_runs AT TMP2 rd rs rt Rv64.BNE _ s
                (Selnez_implements TMP2 rd rs rt) Hrd Hsame Hrange Hpc)
      as (s' & R & G & F).
    exists s'. split; [exact R|]. split; [|exact F].
    rewrite G. cbn [Rv64.taken]. destruct (Rv64.getx s rt =? 0); reflexivity.
Qed.

Lemma Seleqz_Selnez_select_witness :
  exists s',
    Run.runs_to T4 (Macro.Seleqz T5 A0 A1 A0) 4 numbered_state s'
    /\ Rv64.getx s' A0 = 0.
Proof.
  destruct (Seleqz_Selnez_select T4 T5 A0 A1 A0 numbered_state)
    as [(s' & R & G & _) _]; try discriminate; try reflexivity.
  - intros _. repeat split; discriminate.
  - cbn. lia.
  - exists s'. split; [exact R|]. rewrite G. reflexivity.
Defined.


(** ** Heap poisoning *)

Lemma Poison_implements (dst src : GpuRegister) :
  Run.implements (Macro.PoisonHeapReference dst src)
                 (Rv64I.OP Rv64I.SUB dst ZERO src :: Extub_prog dst dst 0 32).
Proof.
  unfold Macro.PoisonHeapReference.
  apply (implements_bind _ _ [_] _); [apply implements_Sub|].
  apply Extub_implements; lia.
Qed.

Lemma Unpoison_implements (reg : GpuRegister) :
  Run.implements (Macro.UnpoisonHeapReference reg)
                 [Rv64I.OP Rv64I.SUB reg ZERO reg; Rv64I.Base (Rv64.ADDIW reg reg 0)].
Proof.
  unfold Macro.UnpoisonHeapReference.
  apply (implements_bind _ _ [_] [_]); [apply implements_Sub|].
  apply (implements_Addiw reg reg 0).
Qed.

(** The poisoned reference, as the instructions compute it. *)
Lemma Poison_exec (dst src : GpuRegister) (s : Rv64.State) :
  dst <> ZERO ->
  forallb Run.straight (Rv64I.OP Rv64I.SUB dst ZERO src :: Extub_prog dst dst 0 32)
  = true
  /\ (List.length (Rv64I.OP Rv64I.SUB dst ZERO src :: Extub_prog dst dst 0 32)
      <= 3)%nat
  /\ exists s',
       Run.exec_seq (Rv64I.OP Rv64I.SUB dst ZERO src :: Extub_prog dst dst 0 32) s
       = Some s'
       /\ Rv64.getx s' dst = (- Rv64.getx s src) mod 2 ^ 32
       /\ (forall r, r <> dst -> Rv64.getx s' r = Rv64.getx s r).
Proof.
  intros Hd.
  assert (P : Extub_prog dst dst 0 32
              = [Rv64I.Base (Rv64.SLLI dst dst 32); Rv64I.Base (Rv64.SRLI dst dst 32)]).
  { unfold Extub_prog, shift_prog. rewrite gpu_eqb_refl. reflexivity. }
  rewrite P. split; [reflexivity|]. split; [cbn; lia|].
  eexists. split; [reflexivity|]. split.
  - regs. cbn [Rv64I.alu]. rewrite getx_ZERO.
    generalize (Rv64.getx s src). intros v.
    rewrite Z.shiftl_mul_pow2, Z.shiftr_div_pow2 by lia.
    unfold sext, u64. pow_consts. Z.div_mod_to_equations. lia.
  - intros r Hr. regs. reflexivity.
Qed.

(** X22. Poisoning and unpoisoning a heap reference: for a destination
    other than the zero register, the code of PoisonHeapReference(dst, src)
    runs to its end and leaves the negated reference reduced to 32 bits,
    (-src) mod 2^32, in dst; UnpoisonHeapReference(reg) leaves the negated
    low word of reg sign-extended; and poisoning then unpoisoning a
    register gives back its low word sign-extended, which is the reference
    itself exactly when it is below 2^31. No other register changes. *)
Theorem poison_round_trip (AT dst src : GpuRegister) (s : Rv64.State) :
  dst <> ZERO -> Rv64.pc s = 0 ->
  (exists s',
     Run.runs_to AT (Macro.PoisonHeapReference dst src) 3 s s'
     /\ Rv64.getx s' dst = (- Rv64.getx s src) mod 2 ^ 32
     /\ (forall r, r <> dst -> Rv64.getx s' r = Rv64.getx s r))
  /\ (exists s',
        Run.runs_to AT (Macro.UnpoisonHeapReference dst) 2 s s'
        /\ Rv64.getx s' dst = sext 32 (- Rv64.getx s dst)
        /\ (forall r, r <> dst -> Rv64.getx s' r = Rv64.getx s r))
  /\ (exists s',
        Run.runs_to AT
          (Asm.bind (Macro.PoisonHeapReference dst dst)
                    (fun _ => Macro.UnpoisonHeapReference dst)) 5 s s'
        /\ Rv64.getx s' dst = sext 32 (Rv64.getx s dst)
        /\ (0 <= Rv64.getx s dst < 2 ^ 31 -> Rv64.getx s' dst = Rv64.getx s dst)
        /\ (forall r, r <> dst -> Rv64.getx s' r = Rv64.getx s r)).
Proof.
  intros Hd Hpc. split; [|split].
  - destruct (Poison_exec dst src s Hd) as (S & L & s' & E & G & F).
    exists s'. split; [|split; assumption].
    apply (implements_runs AT _ _ 3 s _ (Poison_implements dst src)); assumption.
  - eexists. split.
    { apply (implements_runs AT _ _ 2 s _ (Unpoison_implements dst));
        [reflexivity|cbn; lia|exact Hpc|reflexivity]. }
    split.
    + regs. cbn [Rv64I.alu]. rewrite getx_ZERO, Z.add_0_r, sext_64_32.
      apply sext_congr.
      rewrite (sext_mod_divisor 64 _ (2 ^ 32)) by (reflexivity || lia).
      reflexivity.
    + intros r Hr. regs. reflexivity.
  - destruct (Poison_exec dst dst s Hd) as (S & L & s1 & E & G & F).
    eexists. split.
    { apply (implements_runs AT _
               ((Rv64I.OP Rv64I.SUB dst ZERO dst :: Extub_prog dst dst 0 32)
                ++ [Rv64I.OP Rv64I.SUB dst ZERO dst;
                    Rv64I.Base (Rv64.ADDIW dst dst 0)]) 5 s).
      - apply implements_bind; [apply Poison_implements|apply Unpoison_implements].
      - rewrite forallb_app, S. reflexivity.
      - rewrite length_app. cbn [List.length] in *. lia.
      - exact Hpc.
      - rewrite execI_app, E. reflexivity. }
    assert (V : Rv64.getx (Rv64.next (Rv64.setx (Rv64.next (Rv64.setx s1 dst
                   (Rv64I.alu Rv64I.SUB (Rv64.getx s1 ZERO) (Rv64.getx s1 dst))))
                   dst (sext 32 (Rv64.getx (Rv64.next (Rv64.setx s1 dst
                   (Rv64I.alu Rv64I.SUB (Rv64.getx s1 ZERO) (Rv64.getx s1 dst))))
                   dst + 0)))) dst
                = sext 32 (Rv64.getx s dst)).
    { regs. cbn [Rv64I.alu]. rewrite getx_ZERO, G, Z.add_0_r, sext_64_32.
      generalize (Rv64.getx s dst). intros v.
      unfold sext. pow_consts. Z.div_mod_to_equations. lia. }
    split; [exact V|]. split.
    + intros R. rewrite V. apply sext_small; [lia|].
      change (2 ^ (32 - 1)) with (2 ^ 31). lia.
    + intros r Hr. regs. apply F, Hr.
Qed.

Lemma poison_round_trip_witness :
  exists s',
    Run.runs_to T4 (Macro.PoisonHeapReference A0 A1) 3 numbered_state s'
    /\ Rv64.getx s' A0 = 4294967285.
Proof.
  destruct (poison_round_trip T4 A0 A1 numbered_state)
    as [(s' & R & G & _) _]; try discriminate; try reflexivity.
  exists s'. split; [exact R|]. rewrite G. reflexivity.
Defined.


(** ** Adjusting the base and the offset *)

Module RunVal.

(** [implements_val m v prog]: while code is appended, [m] returns [v]
    and appends one word for each instruction of [prog], which decodes to
    it. *)
Definition implements_val {A : Type} (m : Asm.M A) (v : A)
    (prog : list Rv64I.Instr) : Prop :=
  exists ws,
    (forall a, Asm.overwriting_ a = false ->
       m a = Some (v, Asm.with_buffer a (Asm.buffer_ a ++ words ws)))
    /\ Forall2 (fun w i => Rv64I.decode (u32 w) = Some i) ws prog.

(** [returns_running m v fuel s s']: started on an empty buffer, [m]
    returns [v], and the code it has written takes the machine from [s]
    to [s'], where control leaves the code at its end, in at most [fuel]
    steps. *)
Definition returns_running {A : Type} (m : Asm.M A) (v : A) (fuel : nat)
    (s s' : Rv64.State) : Prop :=
  exists a', m Asm.new_assembler = Some (v, a')
             /\ Rv64I.run fuel (Asm.buffer_ a') s = Some s'.

End RunVal.

Lemma implements_val_unit (m : Asm.M unit) (prog : list Rv64I.Instr) :
  RunVal.implements_val m tt prog <-> Run.implements m prog.
Proof. reflexivity. Qed.

Lemma implements_val_ret {A : Type} (v : A) :
  RunVal.implements_val (Asm.ret v) v [].
Proof.
  exists []. split; [|apply Forall2_nil].
  intros a _. unfold Asm.ret, words. cbn [flat_map]. rewrite app_nil_r.
  destruct a; reflexivity.
Qed.

Lemma implements_val_bind {A B : Type} (m : Asm.M A) (k : A -> Asm.M B)
    (v : A) (w : B) (p1 p2 : list Rv64I.Instr) :
  RunVal.implements_val m v p1 -> RunVal.implements_val (k v) w p2 ->
  RunVal.implements_val (Asm.bind m k) w (p1 ++ p2).
Proof.
  intros (w1 & E1 & D1) (w2 & E2 & D2). exists (w1 ++ w2).
  split; [|apply Forall2_app; assumption].
  intros a Ha. unfold Asm.bind. rewrite (E1 a Ha).
  rewrite E2 by (destruct a; exact Ha). destruct a; cbn.
  rewrite words_app, app_assoc. reflexivity.
Qed.

Lemma implements_val_CHECK {A : Type} (b : bool) (m : Asm.M A) (v : A)
    (prog : list Rv64I.Instr) :
  b = true -> RunVal.implements_val m v prog ->
  RunVal.implements_val (Asm.bind (Asm.CHECK b) (fun _ => m)) v prog.
Proof.
  intros -> (ws & E & D). exists ws. split; [|exact D].
  intros a Ha. unfold Asm.bind, Asm.CHECK. apply E, Ha.
Qed.

Lemma land7_mod (v : Z) : Z.land v 7 = v mod 8.
Proof. change 7 with (Z.ones 3). rewrite Z.land_ones by lia. reflexivity. Qed.

Lemma low12_signed (l : Z) :
  0 <= l < 4096 ->
  (if negb (Z.land l 0x800 =? 0) then sext 32 (Z.lor l 0xFFFFF000) else l)
  = sext 12 l.
Proof.
  intros Hl. rewrite bit11_test by exact Hl.
  destruct (Z.ltb_spec l 2048); cbn [negb].
  - symmetry. apply sext_small; [lia|]. change (2 ^ (12 - 1)) with 2048. lia.
  - assert (E : Z.lor l 0xFFFFF000 = l + 0xFFFFF000).
    { rewrite <- Z.add_lor_land.
      assert (Z0 : Z.land l 0xFFFFF000 = 0).
      { rewrite <- (Z.mod_small l (2 ^ 12)) by (change (2 ^ 12) with 4096; lia).
        change 0xFFFFF000 with (Z.shiftl (Z.ones 20) 12).
        Z.bitblast. }
      rewrite Z0. lia. }
    rewrite E. unfold sext. pow_consts. Z.div_mod_to_equations. lia.
Qed.

Lemma implements_val_seq {A : Type} (m : Asm.M unit) (k : Asm.M A)
    (w : A) (p1 p2 : list Rv64I.Instr) :
  Run.implements m p1 -> RunVal.implements_val k w p2 ->
  RunVal.implements_val (Asm.bind m (fun _ => k)) w (p1 ++ p2).
Proof.
  intros H1 H2. apply (implements_val_bind m (fun _ => k) tt); assumption.
Qed.

Lemma implements_val_runs {A : Type} (m : Asm.M A) (v : A)
    (prog : list Rv64I.Instr) (fuel : nat) (s s' : Rv64.State) :
  RunVal.implements_val m v prog ->
  forallb Run.straight prog = true ->
  (List.length prog <= fuel)%nat ->
  Rv64.pc s = 0 ->
  Run.exec_seq prog s = Some s' ->
  RunVal.returns_running m v fuel s s'.
Proof.
  intros (ws & E & D) HS Hf Hpc HE.
  exists (Asm.with_buffer Asm.new_assembler (words ws)).
  split; [apply (E Asm.new_assembler eq_refl)|].
  cbn [Asm.with_buffer Asm.buffer_].
  apply (runI_words ws prog D).
  apply (runI_decoded_straight prog [] fuel s s' HS); assumption.
Qed.

(** The checks that end AdjustBaseAndOffset pass for an offset that fits. *)
Lemma adjust_tail (AT : GpuRegister) (blk : Asm.M Z) (v : Z)
    (prog : list Rv64I.Instr) (two : bool) (mis : Z) :
  RunVal.implements_val blk v prog ->
  IsInt 12 v = true ->
  (two = true -> IsInt 12 (sext 32 (v + 4)) = true) ->
  (mis =? Z.land v 7) = true ->
  RunVal.implements_val
    (Asm.bind blk
       (fun offset0 : Z =>
          Asm.bind (Asm.CHECK (IsInt 12 offset0))
            (fun _ : unit =>
               Asm.bind
                 (if two then Asm.CHECK (IsInt 12 (sext 32 (offset0 + 4)))
                  else Asm.ret tt)
                 (fun _ : unit =>
                    Asm.bind (Asm.CHECK (mis =? Z.land offset0 7))
                      (fun _ : unit => Asm.ret (AT, offset0))))))
    (AT, v) prog.
Proof.
  intros I H1 H2 H3. rewrite <- (app_nil_r prog).
  apply (implements_val_bind blk _ v); [exact I|].
  apply implements_val_CHECK; [exact H1|].
  assert (T : RunVal.implements_val
                (Asm.bind (Asm.CHECK (mis =? Z.land v 7))
                          (fun _ : unit => Asm.ret (AT, v))) (AT, v) []).
  { apply implements_val_CHECK; [exact H3|apply implements_val_ret]. }
  destruct two.
  - apply implements_val_CHECK; [apply H2; reflexivity|exact T].
  - apply (implements_val_seq _ _ _ [] []); [apply implements_ret|exact T].
Qed.

Lemma high_part_wraps (o : Z) :
  - 2 ^ 31 <= o < 2 ^ 31 ->
  sext 32 (o - sext 12 (o mod 4096)) + sext 12 (o mod 4096)
  = if o <? 0x7FFFF800 then o else o - 2 ^ 32.
Proof.
  intros H. unfold sext. pow_consts.
  destruct (Z.ltb_spec o 2147481600); Z.div_mod_to_equations; lia.
Qed.

Lemma sext12_low_mod8 (o : Z) : sext 12 (o mod 4096) mod 8 = o mod 8.
Proof. unfold sext. pow_consts. Z.div_mod_to_equations. lia. Qed.

Lemma sext12_low_range (o : Z) : - 2048 <= sext 12 (o mod 4096) < 2048.
Proof. pose proof (sext_range 12 (o mod 4096) ltac:(lia)) as R. pow_consts. lia. Qed.

Lemma misalignment_kept (o v : Z) :
  v mod 8 = o mod 8 -> (u32 (o mod 8) =? Z.land v 7) = true.
Proof.
  intros H. rewrite land7_mod, H. apply Z.eqb_eq. unfold u32.
  apply Z.mod_small. pose proof (Z.mod_pos_bound o 8 ltac:(lia)).
  change (2 ^ 32) with 4294967296. lia.
Qed.

Lemma Adjust_cases (AT base : GpuRegister) (offset : Z) (dw : bool) :
  base <> AT -> AT <> ZERO ->
  exists base' offset' prog,
    RunVal.implements_val (Offsets.AdjustBaseAndOffset AT base offset dw)
                          (base', offset') prog
    /\ forallb Run.straight prog = true
    /\ (List.length prog <= 3)%nat
    /\ (base' = base \/ base' = AT)
    /\ IsInt 12 offset' = true
    /\ (dw = true -> offset' mod 8 <> 0 -> IsInt 12 (offset' + 4) = true)
    /\ offset' mod 8 = sext 32 offset mod 8
    /\ forall s, exists s',
         Run.exec_seq prog s = Some s'
         /\ sext 64 (Rv64.getx s' base' + offset')
            = sext 64 (Rv64.getx s base
                       + (if sext 32 offset <? 0x7FFFF800 then sext 32 offset
                          else sext 32 offset - 2 ^ 32))
         /\ (forall r, r <> AT -> Rv64.getx s' r = Rv64.getx s r)
         /\ Rv64.f s' = Rv64.f s.
Proof.
  intros Hb HA. pose proof (sext_range 32 offset ltac:(lia)) as R.
  unfold Offsets.AdjustBaseAndOffset.
  unfold Offsets.kRiscv64DoublewordSize, Offsets.kRiscv64WordSize.
  set (o := sext 32 offset) in *. cbv zeta.
  change (8 - 1) with 7. rewrite !land7_mod.
  change (2 ^ (32 - 1)) with 2147483648 in R.
  assert (Chk : negb (gpu_eqb base AT) = true).
  { rewrite gpu_eqb_neq by exact Hb. reflexivity. }
  set (two := dw && negb (o mod 8 =? 0)).
  assert (Two : forall v, v mod 8 = o mod 8 ->
                  (two = true -> IsInt 12 (v + 4) = true) ->
                  dw = true -> v mod 8 <> 0 -> IsInt 12 (v + 4) = true).
  { intros v Hv H -> Hn. apply H. unfold two. cbn [andb].
    rewrite <- Hv. destruct (Z.eqb_spec (v mod 8) 0); [contradiction|reflexivity]. }
  destruct (IsInt 12 o && (negb two || IsInt 12 (sext 32 (o + 4)))) eqn:Fit.
  - (* nothing to do *)
    apply andb_true_iff in Fit. destruct Fit as [F1 F2].
    pose proof (proj1 (IsInt_range 12 o) F1) as R1.
    change (2 ^ (12 - 1)) with 2048 in R1.
    exists base, o, []. split.
    { apply implements_val_CHECK; [exact Chk|apply implements_val_ret]. }
    split; [reflexivity|]. split; [cbn; lia|]. split; [left; reflexivity|].
    split; [exact F1|].
    split.
    { apply Two; [reflexivity|]. intros T. rewrite T in F2. cbn [negb orb] in F2.
      rewrite sext_small in F2 by (change (2 ^ (32 - 1)) with 2147483648; lia).
      exact F2. }
    split; [reflexivity|]. intros s. exists s. split; [reflexivity|].
    split; [|split; reflexivity].
    destruct (Z.ltb_spec o 2147481600); [reflexivity|lia].
  - destruct ((0 <=? o) && (o <=? 2 * 2040)) eqn:Pos;
      [|destruct ((- (2 * 2040) <=? o) && (o <? 0)) eqn:Neg].
    + (* a small offset above *)
      apply andb_true_iff in Pos. destruct Pos as [P1 P2].
      apply Z.leb_le in P1. apply Z.leb_le in P2.
      assert (I : IsInt 12 (o - 2040) = true).
      { apply IsInt_range. change (2 ^ (12 - 1)) with 2048. lia. }
      assert (I4 : IsInt 12 (o - 2040 + 4) = true).
      { apply IsInt_range. change (2 ^ (12 - 1)) with 2048. lia. }
      assert (M : (o - 2040) mod 8 = o mod 8).
      { Z.div_mod_to_equations. lia. }
      exists AT, (o - 2040), [Rv64I.Base (Rv64.ADDI AT base (sext 12 2040))].
      split.
      { apply implements_val_CHECK; [exact Chk|].
        apply adjust_tail.
        - rewrite <- (app_nil_r [_]).
          apply implements_val_seq; [apply implements_Addi|apply implements_val_ret].
        - exact I.
        - intros _. rewrite sext_small
            by (change (2 ^ (32 - 1)) with 2147483648; lia). exact I4.
        - apply misalignment_kept, M. }
      split; [reflexivity|]. split; [cbn; lia|]. split; [right; reflexivity|].
      split; [exact I|].
      split; [intros _ _; exact I4|]. split; [exact M|].
      intros s. eexists. split; [reflexivity|]. split.
      * regs. change (sext 12 2040) with 2040.
        rewrite sext_add_l by lia.
        destruct (Z.ltb_spec o 2147481600); [f_equal; lia|lia].
      * split; [intros r Hr; regs; reflexivity|reflexivity].
    + (* a small offset below *)
      apply andb_true_iff in Neg. destruct Neg as [P1 P2].
      apply Z.leb_le in P1. apply Z.ltb_lt in P2.
      assert (I : IsInt 12 (o + 2040) = true).
      { apply IsInt_range. change (2 ^ (12 - 1)) with 2048. lia. }
      assert (I4 : IsInt 12 (o + 2040 + 4) = true).
      { apply IsInt_range. change (2 ^ (12 - 1)) with 2048. lia. }
      assert (M : (o + 2040) mod 8 = o mod 8).
      { Z.div_mod_to_equations. lia. }
      exists AT, (o + 2040), [Rv64I.Base (Rv64.ADDI AT base (sext 12 (- (2040))))].
      split.
      { apply implements_val_CHECK; [exact Chk|].
        apply adjust_tail.
        - rewrite <- (app_nil_r [_]).
          apply implements_val_seq; [apply implements_Addi|apply implements_val_ret].
        - exact I.
        - intros _. rewrite sext_small
            by (change (2 ^ (32 - 1)) with 2147483648; lia). exact I4.
        - apply misalignment_kept, M. }
      split; [reflexivity|]. split; [cbn; lia|]. split; [right; reflexivity|].
      split; [exact I|].
      split; [intros _ _; exact I4|]. split; [exact M|].
      intros s. eexists. split; [reflexivity|]. split.
      * regs. change (sext 12 (- (2040))) with (- 2040).
        rewrite sext_add_l by lia.
        destruct (Z.ltb_spec o 2147481600); [f_equal; lia|lia].
      * split; [intros r Hr; regs; reflexivity|reflexivity].
    + (* the upper part is added first *)
      rewrite (Z.land_comm 4095 o). fold (lo12 o).
      assert (L : 0 <= lo12 o < 4096).
      { rewrite lo12_mod. apply Z.mod_pos_bound. lia. }
      rewrite (low12_signed (lo12 o) L).
      change (if negb (Z.land (lo12 o) 2048 =? 0)
              then sext 32 (Z.shiftr o 12 + 1) else Z.shiftr o 12)
        with (hi20 o).
      pose proof (lui_value o ltac:(pow_consts; lia)) as LV.
      rewrite lo12_mod in *.
      pose proof (sext12_low_range o) as LR.
      pose proof (sext12_low_mod8 o) as LM.
      pose proof (high_part_wraps o ltac:(pow_consts; lia)) as HW.
      set (l := sext 12 (o mod 4096)) in *.
      set (upper := sext 32 (Z.shiftl (u32 (u32 (hi20 o)) mod 2 ^ 20) 12)) in *.
      rewrite (sext_small 32 (l + 4))
        by (change (2 ^ (32 - 1)) with 2147483648; lia).
      destruct (two && negb (IsInt 12 (l + 4))) eqn:Far.
      * apply andb_true_iff in Far. destruct Far as [T F].
        apply negb_true_iff in F.
        assert (l + 4 >= 2048).
        { destruct (Z_lt_ge_dec (l + 4) 2048) as [C|C]; [|exact C].
          exfalso. assert (IsInt 12 (l + 4) = true); [|congruence].
          apply IsInt_range. change (2 ^ (12 - 1)) with 2048. lia. }
        rewrite (sext_small 32 (l - 8))
          by (change (2 ^ (32 - 1)) with 2147483648; lia).
        assert (I : IsInt 12 (l - 8) = true).
        { apply IsInt_range. change (2 ^ (12 - 1)) with 2048. lia. }
        assert (I4 : IsInt 12 (l - 8 + 4) = true).
        { apply IsInt_range. change (2 ^ (12 - 1)) with 2048. lia. }
        assert (M : (l - 8) mod 8 = o mod 8).
        { rewrite <- LM. Z.div_mod_to_equations. lia. }
        exists AT, (l - 8),
          [Rv64I.Base (Rv64.LUI AT upper); Rv64I.OP Rv64I.ADD AT base AT;
           Rv64I.Base (Rv64.ADDI AT AT (sext 12 8))].
        split.
        { apply implements_val_CHECK; [exact Chk|].
          apply adjust_tail.
          - apply (implements_val_seq _ _ _ [_] [_; _]); [apply implements_Lui|].
            apply (implements_val_seq _ _ _ [_] [_]); [apply implements_Add|].
            rewrite <- (app_nil_r [_]).
            apply implements_val_seq; [apply implements_Addi|apply implements_val_ret].
          - exact I.
          - intros _. rewrite sext_small
              by (change (2 ^ (32 - 1)) with 2147483648; lia). exact I4.
          - apply misalignment_kept, M. }
        split; [reflexivity|]. split; [cbn; lia|]. split; [right; reflexivity|].
      split; [exact I|].
        split; [intros _ _; exact I4|]. split; [exact M|].
        intros s. eexists. split; [reflexivity|]. split.
        -- regs. cbn [Rv64I.alu]. change (sext 12 8) with 8.
           rewrite sext_add_l, <- Z.add_assoc, sext_add_l by lia.
           replace (8 + (l - 8)) with l by lia.
           rewrite <- HW, <- LV. unfold upper. rewrite sext_64_32.
           f_equal. lia.
        -- split; [intros r Hr; regs; reflexivity|reflexivity].
      * assert (I : IsInt 12 l = true).
        { apply IsInt_range. change (2 ^ (12 - 1)) with 2048. lia. }
        exists AT, l,
          [Rv64I.Base (Rv64.LUI AT upper); Rv64I.OP Rv64I.ADD AT base AT].
        assert (I4 : two = true -> IsInt 12 (l + 4) = true).
        { intros T. rewrite T in Far. cbn [andb] in Far.
          apply negb_false_iff in Far. exact Far. }
        split.
        { apply implements_val_CHECK; [exact Chk|].
          apply adjust_tail.
          - apply (implements_val_seq _ _ _ [_] [_]); [apply implements_Lui|].
            rewrite <- (app_nil_r [_]).
            apply implements_val_seq; [apply implements_Add|apply implements_val_ret].
          - exact I.
          - intros T. rewrite sext_small
              by (change (2 ^ (32 - 1)) with 2147483648; lia). apply I4, T.
          - apply misalignment_kept, LM. }
        split; [reflexivity|]. split; [cbn; lia|]. split; [right; reflexivity|].
      split; [exact I|].
        split; [apply Two; [exact LM|exact I4]|]. split; [exact LM|].
        intros s. eexists. split; [reflexivity|]. split.
        -- regs. cbn [Rv64I.alu].
           rewrite sext_add_l by lia.
           rewrite <- HW, <- LV. unfold upper. rewrite sext_64_32.
           f_equal. lia.
        -- split; [intros r Hr; regs; reflexivity|reflexivity].
Qed.

(** X23. AdjustBaseAndOffset makes the offset fit a load or store: for a
    base other than AT (itself not the zero register) it returns, without
    a failed check, a base (the old one or AT) and an offset within 12
    bits, with room for a second access 4 bytes on when a doubleword is
    misaligned, and with the same remainder modulo 8; the at most three
    instructions it writes change AT only. The new base plus the new
    offset is the old base plus the old offset when the offset is below
    0x7FFFF800, and 2^32 less than that for the offsets from 0x7FFFF800
    on. With AT as the base the method aborts. *)
Theorem AdjustBaseAndOffset_keeps_the_address (AT base : GpuRegister)
    (offset : Z) (is_doubleword : bool) (s : Rv64.State) :
  base <> AT -> AT <> ZERO -> Rv64.pc s = 0 ->
  (exists base' offset' s',
     RunVal.returns_running
       (Offsets.AdjustBaseAndOffset AT base offset is_doubleword)
       (base', offset') 3 s s'
     /\ (base' = base \/ base' = AT)
     /\ IsInt 12 offset' = true
     /\ (is_doubleword = true -> offset' mod 8 <> 0 ->
         IsInt 12 (offset' + 4) = true)
     /\ offset' mod 8 = sext 32 offset mod 8
     /\ sext 64 (Rv64.getx s' base' + offset')
        = sext 64 (Rv64.getx s base
                   + (if sext 32 offset <? 0x7FFFF800 then sext 32 offset
                      else sext 32 offset - 2 ^ 32))
     /\ (forall r, r <> AT -> Rv64.getx s' r = Rv64.getx s r))
  /\ (forall a, Offsets.AdjustBaseAndOffset AT AT offset is_doubleword a = None).
Proof.
  intros Hb HA Hpc. split.
  - destruct (Adjust_cases AT base offset is_doubleword Hb HA)
      as (base' & offset' & prog & I & HS & HL & H1 & H2 & H3 & H4 & Run).
    destruct (Run s) as (s' & E & G & F & _).
    exists base', offset', s'. split.
    { apply (implements_val_runs _ _ prog); assumption. }
    repeat split; assumption.
  - intros a. unfold Offsets.AdjustBaseAndOffset, Asm.bind, Asm.CHECK.
    rewrite gpu_eqb_refl. reflexivity.
Qed.

Lemma AdjustBaseAndOffset_keeps_the_address_witness :
  exists base' offset' s',
    RunVal.returns_running (Offsets.AdjustBaseAndOffset T4 A1 0x7FFFFFFC true)
                           (base', offset') 3 numbered_state s'
    /\ sext 64 (Rv64.getx s' base' + offset') = 11 + 0x7FFFFFFC - 2 ^ 32.
Proof.
  destruct (AdjustBaseAndOffset_keeps_the_address T4 A1 0x7FFFFFFC true
              numbered_state)
    as [(b & o & s' & R & _ & _ & _ & _ & G & _) _];
    try discriminate; try reflexivity.
  exists b, o, s'. split; [exact R|]. rewrite G. reflexivity.
Defined.


(** ** The size of the frame *)

(** Addiu64 with a constant of 32 bits: the constant is loaded into the
    temporary by LoadConst32, so TMP2 is left alone. *)
Lemma Addiu64_int32 (TMP2 rd rs rtmp : GpuRegister) (v : Z) (s : Rv64.State) :
  rd <> ZERO -> rtmp <> ZERO -> rtmp <> rs ->
  - 2 ^ 31 <= v < 2 ^ 31 ->
  exists prog s',
    Run.implements (Macro.Addiu64 TMP2 rd rs v rtmp) prog
    /\ forallb Run.straight prog = true
    /\ (List.length prog <= 3)%nat
    /\ Run.exec_seq prog s = Some s'
    /\ Rv64.getx s' rd = sext 64 (Rv64.getx s rs + v)
    /\ (forall r, r <> rd -> r <> rtmp -> Rv64.getx s' r = Rv64.getx s r).
Proof.
  intros Hrd Htmp Hts Hv. unfold Macro.Addiu64.
  assert (S64 : sext 64 v = v).
  { apply sext_small; [lia|]. pow_consts. lia. }
  rewrite S64.
  assert (Chk : negb (gpu_eqb rs rtmp) = true).
  { rewrite gpu_eqb_neq by congruence. reflexivity. }
  destruct (IsInt 12 v) eqn:I.
  - exists [Rv64I.Base (Rv64.ADDI rd rs (sext 12 v))]. eexists.
    split; [apply implements_CHECK; [exact Chk|apply implements_Addi]|].
    split; [reflexivity|]. split; [cbn; lia|]. split; [reflexivity|].
    split.
    + regs. rewrite (sext12_small v I). reflexivity.
    + intros r H1 H2. regs. reflexivity.
  - assert (P : LoadConst64_prog TMP2 rtmp v = LoadConst32_prog rtmp v).
    { unfold LoadConst64_prog. rewrite S64.
      replace (IsInt 32 v) with true; [reflexivity|].
      symmetry. apply IsInt_range. change (2 ^ (32 - 1)) with (2 ^ 31). exact Hv. }
    destruct (LoadConst32_exec rtmp v s Htmp) as (s1 & E1 & G1 & F1).
    destruct (LoadConst32_straight rtmp v) as [S1 L1].
    exists (map Rv64I.Base (LoadConst32_prog rtmp v)
            ++ [Rv64I.OP Rv64I.ADD rd rs rtmp]). eexists.
    split.
    { apply implements_CHECK; [exact Chk|]. rewrite <- P.
      apply implements_bind; [apply implements_LoadConst64|apply implements_Add]. }
    split; [rewrite forallb_app, straight_Base, S1; reflexivity|].
    split; [rewrite length_app, length_map; cbn [List.length]; lia|].
    split; [rewrite execI_app, execI_Base, E1; reflexivity|].
    split.
    + regs. cbn [Rv64I.alu]. rewrite G1, (F1 rs) by congruence.
      rewrite (sext_small 32 v) by (change (2 ^ (32 - 1)) with (2 ^ 31); lia).
      reflexivity.
    + intros r H1 H2. regs. apply F1, H2.
Qed.

Lemma u64_mod8 (v : Z) : u64 v mod 8 = v mod 8.
Proof. unfold u64. pow_consts. Z.div_mod_to_equations. lia. Qed.

Lemma aligned_8 (v : Z) : (Z.land (u64 v) (Offsets.kFramePointerSize - 1) =? 0) = (v mod 8 =? 0).
Proof.
  change (Offsets.kFramePointerSize - 1) with 7.
  rewrite land7_mod, u64_mod8. reflexivity.
Qed.

Lemma there_and_back (a : Z) :
  sext 32 (- a) + sext 32 a = if a mod 2 ^ 32 =? 2 ^ 31 then - 2 ^ 32 else 0.
Proof.
  unfold sext. pow_consts.
  destruct (Z.eqb_spec (a mod 4294967296) 2147483648);
    Z.div_mod_to_equations; lia.
Qed.

(** X24. IncreaseFrameSize and DecreaseFrameSize move the stack pointer
    by the adjustment narrowed to 32 bits: for a multiple of 8, with AT
    neither the zero register nor SP, IncreaseFrameSize(adjust) leaves
    SP + int32(-adjust) in SP in at most three instructions, and
    IncreaseFrameSize(adjust) followed by DecreaseFrameSize(adjust) leaves
    SP as it was, except when adjust is 2^31 modulo 2^32, where SP ends
    2^32 lower; only SP and AT change. For an adjustment that is not a
    multiple of 8 both methods abort. *)
Theorem frame_size_there_and_back (AT TMP2 : GpuRegister) (adjust : Z)
    (s : Rv64.State) :
  AT <> ZERO -> AT <> SP -> Rv64.pc s = 0 ->
  (adjust mod 8 = 0 ->
   (exists s',
      Run.runs_to AT (Offsets.IncreaseFrameSize AT TMP2 adjust) 3 s s'
      /\ Rv64.getx s' SP = sext 64 (Rv64.getx s SP + sext 32 (- adjust))
      /\ (forall r, r <> SP -> r <> AT -> Rv64.getx s' r = Rv64.getx s r))
   /\ (exists s',
         Run.runs_to AT
           (Asm.bind (Offsets.IncreaseFrameSize AT TMP2 adjust)
                     (fun _ => Offsets.DecreaseFrameSize AT TMP2 adjust))
           6 s s'
         /\ Rv64.getx s' SP
            = sext 64 (Rv64.getx s SP
                       - (if adjust mod 2 ^ 32 =? 2 ^ 31 then 2 ^ 32 else 0))
         /\ (forall r, r <> SP -> r <> AT -> Rv64.getx s' r = Rv64.getx s r)))
  /\ (adjust mod 8 <> 0 ->
      forall a, Offsets.IncreaseFrameSize AT TMP2 adjust a = None
                /\ Offsets.DecreaseFrameSize AT TMP2 adjust a = None).
Proof.
  intros HA HS Hpc.
  assert (HSP : SP <> ZERO) by discriminate.
  split.
  - intros Hal.
    assert (Chk : (Z.land (u64 adjust) (Offsets.kFramePointerSize - 1) =? 0) = true).
    { rewrite aligned_8. apply Z.eqb_eq, Hal. }
    pose proof (sext_range 32 (u64 (- u64 adjust)) ltac:(lia)) as R1.
    pose proof (sext_range 32 (u64 adjust) ltac:(lia)) as R2.
    change (2 ^ (32 - 1)) with (2 ^ 31) in R1, R2.
    destruct (Addiu64_int32 TMP2 SP SP AT _ s HSP HA HS R1)
      as (p1 & s1 & I1 & S1 & L1 & E1 & G1 & F1).
    destruct (Addiu64_int32 TMP2 SP SP AT _ s1 HSP HA HS R2)
      as (p2 & s2 & I2 & S2 & L2 & E2 & G2 & F2).
    assert (V1 : sext 32 (u64 (- u64 adjust)) = sext 32 (- adjust)).
    { rewrite sext_of_u64 by lia. apply sext_congr. unfold u64. pow_consts.
      Z.div_mod_to_equations. lia. }
    assert (V2 : sext 32 (u64 adjust) = sext 32 adjust).
    { apply sext_of_u64. lia. }
    split.
    + exists s1. split.
      { apply (implements_runs AT _ p1); try assumption.
        apply implements_CHECK; [exact Chk|exact I1]. }
      split; [rewrite G1, V1; reflexivity|exact F1].
    + exists s2. split.
      { apply (implements_runs AT _ (p1 ++ p2)).
        - apply implements_bind; (apply implements_CHECK; [exact Chk|assumption]).
        - rewrite forallb_app, S1, S2. reflexivity.
        - rewrite length_app. lia.
        - exact Hpc.
        - rewrite execI_app, E1. exact E2. }
      split.
      * rewrite G2, G1, V1, V2, sext_add_l, <- Z.add_assoc, there_and_back by lia.
        f_equal. destruct (adjust mod 2 ^ 32 =? 2 ^ 31); lia.
      * intros r H1 H2. rewrite (F2 r H1 H2). apply F1; assumption.
  - intros Hn a. unfold Offsets.IncreaseFrameSize, Offsets.DecreaseFrameSize.
    cbv zeta. unfold Asm.bind, Asm.CHECK. rewrite aligned_8.
    destruct (Z.eqb_spec (adjust mod 8) 0); [contradiction|]. split; reflexivity.
Qed.

Lemma frame_size_there_and_back_witness :
  exists s',
    Run.runs_to T4
      (Asm.bind (Offsets.IncreaseFrameSize T4 T5 0x12340)
                (fun _ => Offsets.DecreaseFrameSize T4 T5 0x12340))
      6 numbered_state s'
    /\ Rv64.getx s' SP = 2.
Proof.
  destruct (frame_size_there_and_back T4 T5 0x12340 numbered_state)
    as [W _]; try discriminate; try reflexivity.
  destruct (W eq_refl) as [_ (s' & R & G & _)].
  exists s'. split; [exact R|]. rewrite G. reflexivity.
Defined.


(** ** Floating-point comparisons *)

Lemma decode_fcmp (op : Rv64I.FOp) (fmt : Rv64.FFmt) (rd : GpuRegister)
    (rs1 rs2 : FpuRegister) :
  Rv64I.decode (u32 (Asm.EncodeR (0x50 + fmt_bit fmt) (fpu_num rs2) (fpu_num rs1)
                       (match op with Rv64I.FLT => 1 | Rv64I.FLE => 0 end)
                       (gpu_num rd) 0x53))
  = Some (Rv64I.FCMP op fmt rd rs1 rs2).
Proof.
  rewrite decodeI_EncodeR by (destruct fmt, op; reg_bounds).
  transitivity (Some (Rv64I.FCMP op fmt (gpu_of_num (gpu_num rd))
                                 (fpu_of_num (fpu_num rs1))
                                 (fpu_of_num (fpu_num rs2))));
    [destruct fmt, op; reflexivity|].
  rewrite gpu_of_num_num, !fpu_of_num_num. reflexivity.
Qed.

Lemma decode_fclass (fmt : Rv64.FFmt) (rd : GpuRegister) (rs1 : FpuRegister) :
  Rv64I.decode (u32 (Asm.EncodeR (0x70 + fmt_bit fmt) 0 (fpu_num rs1) 1
                       (gpu_num rd) 0x53))
  = Some (Rv64I.FCLASS fmt rd rs1).
Proof.
  rewrite decodeI_EncodeR by (destruct fmt; reg_bounds).
  transitivity (Some (Rv64I.FCLASS fmt (gpu_of_num (gpu_num rd))
                                   (fpu_of_num (fpu_num rs1))));
    [destruct fmt; reflexivity|].
  rewrite gpu_of_num_num, !fpu_of_num_num. reflexivity.
Qed.

Lemma implements_FLtS (rd : GpuRegister) (fs ft : FpuRegister) :
  Run.implements (Compare.FLtS rd fs ft) [Rv64I.FCMP Rv64I.FLT Rv64.FmtS rd fs ft].
Proof. apply implements_Emit, (decode_fcmp Rv64I.FLT Rv64.FmtS). Qed.

Lemma implements_FLeS (rd : GpuRegister) (fs ft : FpuRegister) :
  Run.implements (Compare.FLeS rd fs ft) [Rv64I.FCMP Rv64I.FLE Rv64.FmtS rd fs ft].
Proof. apply implements_Emit, (decode_fcmp Rv64I.FLE Rv64.FmtS). Qed.

Lemma implements_FLtD (rd : GpuRegister) (fs ft : FpuRegister) :
  Run.implements (Compare.FLtD rd fs ft) [Rv64I.FCMP Rv64I.FLT Rv64.FmtD rd fs ft].
Proof. apply implements_Emit, (decode_fcmp Rv64I.FLT Rv64.FmtD). Qed.

Lemma implements_FLeD (rd : GpuRegister) (fs ft : FpuRegister) :
  Run.implements (Compare.FLeD rd fs ft) [Rv64I.FCMP Rv64I.FLE Rv64.FmtD rd fs ft].
Proof. apply implements_Emit, (decode_fcmp Rv64I.FLE Rv64.FmtD). Qed.

Lemma implements_FClassS (rd : GpuRegister) (fs : FpuRegister) :
  Run.implements (Compare.FClassS rd fs) [Rv64I.FCLASS Rv64.FmtS rd fs].
Proof. apply implements_Emit, (decode_fclass Rv64.FmtS). Qed.

Lemma implements_FClassD (rd : GpuRegister) (fs : FpuRegister) :
  Run.implements (Compare.FClassD rd fs) [Rv64I.FCLASS Rv64.FmtD rd fs].
Proof. apply implements_Emit, (decode_fclass Rv64.FmtD). Qed.

Lemma implements_FEqS (rd : GpuRegister) (fs ft : FpuRegister) :
  Run.implements (Asm.FEqS rd fs ft) [Rv64I.Base (Rv64.FEQ Rv64.FmtS rd fs ft)].
Proof. apply implements_Emit, decodeI_base, (decode_feq Rv64.FmtS). Qed.

Lemma implements_FEqD (rd : GpuRegister) (fs ft : FpuRegister) :
  Run.implements (Asm.FEqD rd fs ft) [Rv64I.Base (Rv64.FEQ Rv64.FmtD rd fs ft)].
Proof. apply implements_Emit, decodeI_base, (decode_feq Rv64.FmtD). Qed.

Lemma implements_Srli_8 (rd : GpuRegister) :
  Run.implements (Asm.Srli rd rd 8) [Rv64I.Base (Rv64.SRLI rd rd 8)].
Proof.
  change [Rv64I.Base (Rv64.SRLI rd rd 8)]
    with [Rv64I.Base (Rv64.SRLI rd rd (Z.land (u16 8) 0x3F))].
  rewrite <- (shift_prog_emitted false rd rd 8) by (right; discriminate).
  apply implements_Srli.
Qed.

Lemma even_offset (n offset : Z) :
  0 < n -> 0 <= offset < 2 ^ (n - 1) -> offset mod 2 = 0 ->
  sext n (Z.shiftl (Z.shiftr offset 1) 1) = offset.
Proof.
  intros Hn H E.
  rewrite Z.shiftl_mul_pow2, Z.shiftr_div_pow2 by lia. change (2 ^ 1) with 2.
  replace (offset / 2 * 2) with offset by (Z.div_mod_to_equations; lia).
  apply sext_small; lia.
Qed.

Lemma implements_Bne (rs1 rs2 : GpuRegister) (offset : Z) :
  0 <= offset < 4096 -> offset mod 2 = 0 ->
  Run.implements (Asm.Bne rs1 rs2 offset)
                 [Rv64I.Base (Rv64.BRANCH Rv64.BNE rs1 rs2 offset)].
Proof.
  intros H E. unfold Asm.Bne, Asm.EmitB.
  assert (U : u16 offset = offset) by (apply u16_small; lia).
  rewrite !U. apply implements_CHECK.
  { unfold IsUint. apply andb_true_iff. split; [apply Z.leb_le|apply Z.ltb_lt]; lia. }
  apply implements_Emit, decodeI_base.
  rewrite <- (even_offset 13 offset) at 2 by (pow_consts; lia).
  apply (decode_branch Rv64.BNE). pow_consts. lia.
Qed.

Lemma implements_Jal_8 (rd : GpuRegister) :
  Run.implements (Asm.Jal rd 8) [Rv64I.Base (Rv64.JAL rd 8)].
Proof.
  unfold Asm.Jal, Asm.EmitJ. change (u32 (u32 8)) with 8.
  apply implements_CHECK; [reflexivity|].
  apply implements_Emit, decodeI_base.
  apply (decode_jal rd 8). lia.
Qed.

(** Straight-line code in the middle of a program. *)
Lemma runI_decoded_mid (mid pre post : list Rv64I.Instr) (fuel : nat)
    (s s' : Rv64.State) :
  forallb Run.straight mid = true ->
  Rv64.pc s = 4 * Z.of_nat (List.length pre) ->
  Run.exec_seq mid s = Some s' ->
  Run.run_decoded (List.length mid + fuel) (pre ++ mid ++ post) s
  = Run.run_decoded fuel (pre ++ mid ++ post) s'
  /\ Rv64.pc s' = 4 * Z.of_nat (List.length pre + List.length mid).
Proof.
  revert pre s. induction mid as [|i mid IH]; intros pre s HS Hpc HE.
  - injection HE as <-. split; [reflexivity|]. cbn [List.length]. rewrite Hpc. lia.
  - cbn [forallb] in HS. apply andb_true_iff in HS. destruct HS as [Hi HS].
    cbn [Run.exec_seq] in HE.
    destruct (Rv64I.step_instr i s) as [s1|] eqn:E1; [|discriminate].
    cbn [List.length Nat.add].
    rewrite (runI_decoded_at _ (List.length mid + fuel) s s1 (List.length pre) i Hpc);
      [|rewrite nth_error_app2 by lia; rewrite Nat.sub_diag; reflexivity|exact E1].
    assert (P1 : Rv64.pc s1 = 4 * Z.of_nat (List.length (pre ++ [i]))).
    { rewrite (stepI_straight i s s1 Hi E1), Hpc, length_app. cbn [List.length]. lia. }
    destruct (IH (pre ++ [i]) s1 HS P1 HE) as [R P].
    rewrite <- app_assoc in R. cbn [app] in R. split; [exact R|].
    rewrite P, length_app. cbn [List.length]. lia.
Qed.

(** The state after FCLASS and the shift that keeps the two NaN bits. *)
Definition classified (fmt : Rv64.FFmt) (TMP : GpuRegister) (fr : FpuRegister)
    (s : Rv64.State) : Rv64.State :=
  let s1 := Rv64.next (Rv64.setx s TMP (Rv64I.fclass fmt (Rv64.f s fr))) in
  Rv64.next (Rv64.setx s1 TMP (Z.shiftr (u64 (Rv64.getx s1 TMP)) 8)).

Lemma fclass_nan (fmt : Rv64.FFmt) (v : spec_float) :
  sext 64 (Z.shiftr (u64 (sext 64 (Rv64I.fclass fmt v))) 8)
  = if Rv64.is_nan v then 2 else 0.
Proof.
  destruct v as [[]|[]| |[] m e]; cbn [Rv64I.fclass Rv64.is_nan];
    try destruct (Rv64I.subnormal fmt m); reflexivity.
Qed.

Section Classified.
Variables (fmt : Rv64.FFmt) (TMP : GpuRegister) (fr : FpuRegister).
Variable s : Rv64.State.
Hypothesis HT : TMP <> ZERO.

Lemma classified_TMP :
  Rv64.getx (classified fmt TMP fr s) TMP
  = if Rv64.is_nan (Rv64.f s fr) then 2 else 0.
Proof. unfold classified. cbv zeta. regs. apply fclass_nan. Qed.

Lemma classified_other (r : GpuRegister) :
  r <> TMP -> Rv64.getx (classified fmt TMP fr s) r = Rv64.getx s r.
Proof. intros H. unfold classified. cbv zeta. regs. reflexivity. Qed.

Lemma classified_f : Rv64.f (classified fmt TMP fr s) = Rv64.f s.
Proof. reflexivity. Qed.

Lemma classified_pc : Rv64.pc (classified fmt TMP fr s) = Rv64.pc s + 8.
Proof. unfold classified. cbn [Rv64.next Rv64.goto Rv64.setx Rv64.pc]. lia. Qed.

(** FCLASS, the shift and the branch taken for a NaN, at any place of a
    program. *)
Lemma check_runs (prog : list Rv64I.Instr) (k : nat) (offset : Z) (fuel : nat) :
  Rv64.pc s = 4 * Z.of_nat k ->
  nth_error prog k = Some (Rv64I.FCLASS fmt TMP fr) ->
  nth_error prog (k + 1) = Some (Rv64I.Base (Rv64.SRLI TMP TMP 8)) ->
  nth_error prog (k + 2)
  = Some (Rv64I.Base (Rv64.BRANCH Rv64.BNE TMP ZERO offset)) ->
  Run.run_decoded (3 + fuel) prog s
  = Run.run_decoded fuel prog
      (if Rv64.is_nan (Rv64.f s fr)
       then Rv64.goto (classified fmt TMP fr s) (Rv64.pc s + 8 + offset)
       else Rv64.next (classified fmt TMP fr s)).
Proof.
  intros Hpc N0 N1 N2. cbn [Nat.add].
  set (s1 := Rv64.next (Rv64.setx s TMP (Rv64I.fclass fmt (Rv64.f s fr)))).
  rewrite (runI_decoded_at prog (S (S fuel)) s s1 k _ Hpc N0 eq_refl).
  rewrite (runI_decoded_at prog (S fuel) s1 (classified fmt TMP fr s) (k + 1) _
             ltac:(unfold s1; cbn [Rv64.next Rv64.goto Rv64.setx Rv64.pc]; lia)
             N1 eq_refl).
  apply (runI_decoded_at prog fuel _ _ (k + 2) _
           ltac:(rewrite classified_pc; lia) N2).
  cbn [Rv64I.step_instr Rv64.step_instr Rv64.taken].
  rewrite classified_TMP, getx_ZERO, classified_pc.
  destruct (Rv64.is_nan (Rv64.f s fr)); reflexivity.
Qed.

End Classified.

Lemma nth_error_skip {A : Type} (l1 l2 : list A) (k : nat) :
  nth_error (l1 ++ l2) (List.length l1 + k) = nth_error l2 k.
Proof.
  rewrite nth_error_app2 by lia. f_equal. lia.
Qed.

(** The pattern of the unordered comparisons: both operands are checked
    for NaN, [body] computes the result for numbers, and the last
    instruction gives 1 when an operand is NaN. *)
Definition unordered_prog (fmt : Rv64.FFmt) (TMP rd : GpuRegister)
    (fs ft : FpuRegister) (body : list Rv64I.Instr) : list Rv64I.Instr :=
  let n := Z.of_nat (List.length body) in
  [Rv64I.FCLASS fmt TMP fs; Rv64I.Base (Rv64.SRLI TMP TMP 8);
   Rv64I.Base (Rv64.BRANCH Rv64.BNE TMP ZERO (4 * n + 20));
   Rv64I.FCLASS fmt TMP ft; Rv64I.Base (Rv64.SRLI TMP TMP 8);
   Rv64I.Base (Rv64.BRANCH Rv64.BNE TMP ZERO (4 * n + 8))]
  ++ body ++ [Rv64I.Base (Rv64.JAL ZERO 8); Rv64I.Base (Rv64.ADDI rd ZERO 1)].

Definition unordered (a b : spec_float) : bool := Rv64.is_nan a || Rv64.is_nan b.

Lemma unordered_runs (fmt : Rv64.FFmt) (TMP rd : GpuRegister) (fs ft : FpuRegister)
    (body post : list Rv64I.Instr) (s : Rv64.State) :
  TMP <> ZERO -> rd <> ZERO -> rd <> TMP -> Rv64.pc s = 0 ->
  forallb Run.straight body = true ->
  (unordered (Rv64.f s fs) (Rv64.f s ft) = false ->
   exists sb, Run.exec_seq body
                (Rv64.next (classified fmt TMP ft
                              (Rv64.next (classified fmt TMP fs s)))) = Some sb) ->
  exists s' k,
    (k <= 7 + List.length body)%nat
    /\ (forall fuel,
          Run.run_decoded (k + fuel)
                          (unordered_prog fmt TMP rd fs ft body ++ post) s
          = Run.run_decoded fuel (unordered_prog fmt TMP rd fs ft body ++ post) s')
    /\ Rv64.pc s' = 4 * Z.of_nat (8 + List.length body)
    /\ if unordered (Rv64.f s fs) (Rv64.f s ft)
       then Rv64.getx s' rd = 1
            /\ (forall r, r <> rd -> r <> TMP -> Rv64.getx s' r = Rv64.getx s r)
            /\ Rv64.f s' = Rv64.f s
       else exists sb,
              Run.exec_seq body
                (Rv64.next (classified fmt TMP ft
                              (Rv64.next (classified fmt TMP fs s)))) = Some sb
              /\ (forall r, Rv64.getx s' r = Rv64.getx sb r)
              /\ Rv64.f s' = Rv64.f sb.
Proof.
  intros HT Hrd HdT Hpc HS HB.
  set (n := List.length body) in *.
  set (prog := unordered_prog fmt TMP rd fs ft body ++ post).
  assert (Nth : forall k i,
             nth_error (unordered_prog fmt TMP rd fs ft body) k = Some i ->
             nth_error prog k = Some i).
  { intros k i H. unfold prog. rewrite nth_error_app1; [exact H|].
    apply nth_error_Some. congruence. }
  assert (Tail : forall k i,
             nth_error [Rv64I.Base (Rv64.JAL ZERO 8);
                        Rv64I.Base (Rv64.ADDI rd ZERO 1)] k = Some i ->
             nth_error prog (6 + n + k) = Some i).
  { intros k i H. apply Nth. unfold unordered_prog.
    rewrite <- Nat.add_assoc. rewrite (nth_error_skip (_ :: _ :: _ :: _ :: _ :: _ :: nil)).
    fold n. unfold n. rewrite nth_error_skip. exact H. }
  (* the instruction that answers 1 *)
  assert (One : forall t fuel,
             Rv64.pc t = 4 * Z.of_nat (6 + n + 1) ->
             Run.run_decoded (S fuel) prog t
             = Run.run_decoded fuel prog
                 (Rv64.next (Rv64.setx t rd (Rv64.getx t ZERO + 1)))).
  { intros t fuel Ht.
    apply (runI_decoded_at prog fuel t _ (6 + n + 1) _ Ht (Tail 1%nat _ eq_refl)).
    reflexivity. }
  unfold unordered in *.
  pose proof (check_runs fmt TMP fs s HT prog 0 (4 * Z.of_nat n + 20)) as C1.
  specialize (fun fuel => C1 fuel Hpc (Nth 0%nat _ eq_refl) (Nth 1%nat _ eq_refl)
                            (Nth 2%nat _ eq_refl)).
  destruct (Rv64.is_nan (Rv64.f s fs)) eqn:Na; cbn [orb] in *.
  - (* the first operand is NaN *)
    set (t := Rv64.goto (classified fmt TMP fs s)
                        (Rv64.pc s + 8 + (4 * Z.of_nat n + 20))) in *.
    exists (Rv64.next (Rv64.setx t rd (Rv64.getx t ZERO + 1))), 4%nat.
    split; [lia|]. split; [|split; [|split; [|split]]].
    + intros fuel. change (4 + fuel)%nat with (3 + S fuel)%nat.
      rewrite C1. apply One. unfold t. cbn [Rv64.goto Rv64.pc]. lia.
    + unfold t. cbn [Rv64.next Rv64.goto Rv64.setx Rv64.pc]. lia.
    + regs. rewrite getx_ZERO. reflexivity.
    + intros r H1 H2. unfold t. regs. rewrite getx_goto.
      apply classified_other; assumption.
    + reflexivity.
  - set (t := Rv64.next (classified fmt TMP fs s)) in *.
    assert (Pt : Rv64.pc t = 4 * Z.of_nat 3).
    { unfold t. cbn [Rv64.next Rv64.goto Rv64.pc]. rewrite classified_pc. lia. }
    pose proof (check_runs fmt TMP ft t HT prog 3 (4 * Z.of_nat n + 8)) as C2.
    specialize (fun fuel => C2 fuel Pt (Nth 3%nat _ eq_refl) (Nth 4%nat _ eq_refl)
                              (Nth 5%nat _ eq_refl)).
    change (Rv64.f t ft) with (Rv64.f s ft) in C2.
    destruct (Rv64.is_nan (Rv64.f s ft)) eqn:Nb.
    + (* the second operand is NaN *)
      set (u := Rv64.goto (classified fmt TMP ft t)
                          (Rv64.pc t + 8 + (4 * Z.of_nat n + 8))) in *.
      exists (Rv64.next (Rv64.setx u rd (Rv64.getx u ZERO + 1))), 7%nat.
      split; [lia|]. split; [|split; [|split; [|split]]].
      * intros fuel. change (7 + fuel)%nat with (3 + (3 + S fuel))%nat.
        rewrite C1, C2. apply One. unfold u. cbn [Rv64.goto Rv64.pc]. lia.
      * unfold u. cbn [Rv64.next Rv64.goto Rv64.setx Rv64.pc]. lia.
      * regs. rewrite getx_ZERO. reflexivity.
      * intros r H1 H2. unfold u. regs. rewrite getx_goto.
        rewrite classified_other by assumption. unfold t. rewrite getx_next.
        apply classified_other; assumption.
      * reflexivity.
    + (* both are numbers *)
      set (u := Rv64.next (classified fmt TMP ft t)) in *.
      destruct (HB eq_refl) as (sb & EB).
      assert (Pu : Rv64.pc u
                   = 4 * Z.of_nat (List.length
                         [Rv64I.FCLASS fmt TMP fs; Rv64I.Base (Rv64.SRLI TMP TMP 8);
                          Rv64I.Base (Rv64.BRANCH Rv64.BNE TMP ZERO
                                        (4 * Z.of_nat (List.length body) + 20));
                          Rv64I.FCLASS fmt TMP ft; Rv64I.Base (Rv64.SRLI TMP TMP 8);
                          Rv64I.Base (Rv64.BRANCH Rv64.BNE TMP ZERO
                                        (4 * Z.of_nat (List.length body) + 8))])).
      { unfold u. cbn [Rv64.next Rv64.goto Rv64.pc List.length].
        rewrite classified_pc. lia. }
      destruct (runI_decoded_mid body _
                  ([Rv64I.Base (Rv64.JAL ZERO 8); Rv64I.Base (Rv64.ADDI rd ZERO 1)]
                   ++ post) 1 u sb HS Pu EB) as [RB PB].
      set (v := Rv64.goto (Rv64.setx sb ZERO (Rv64.pc sb + 4)) (Rv64.pc sb + 8)).
      exists v, (7 + n)%nat.
      split; [lia|]. split; [|split; [|exists sb; split; [exact EB|split]]].
      * intros fuel.
        replace (7 + n + fuel)%nat with (3 + (3 + (n + S fuel)))%nat by lia.
        rewrite C1, C2. fold u.
        destruct (runI_decoded_mid body _
                    ([Rv64I.Base (Rv64.JAL ZERO 8); Rv64I.Base (Rv64.ADDI rd ZERO 1)]
                     ++ post) (S fuel) u sb HS Pu EB) as [RB' _].
        unfold prog, unordered_prog. cbv zeta. rewrite <- !app_assoc.
        fold n in RB'. fold n. rewrite RB'.
        apply (runI_decoded_at _ fuel sb v (6 + n + 0) (Rv64I.Base (Rv64.JAL ZERO 8))).
        -- rewrite PB. cbn [List.length]. fold n. lia.
        -- pose proof (Tail 0%nat _ eq_refl) as T0.
           unfold prog, unordered_prog in T0. rewrite <- !app_assoc in T0.
           exact T0.
        -- reflexivity.
      * unfold v. cbn [Rv64.goto Rv64.pc]. rewrite PB. cbn [List.length]. fold n. lia.
      * intros r. unfold v. rewrite getx_goto.
        destruct (gpu_eq_dec r ZERO) as [->|Hr]; [rewrite !getx_ZERO; reflexivity|].
        regs. reflexivity.
      * reflexivity.
Qed.

Ltac compare_instr :=
  lazymatch goal with
  | |- Run.implements (Compare.FClassS _ _) _ => apply implements_FClassS
  | |- Run.implements (Compare.FClassD _ _) _ => apply implements_FClassD
  | |- Run.implements (Asm.Srli _ _ _) _ => apply implements_Srli_8
  | |- Run.implements (Asm.Bne _ _ _) _ => apply implements_Bne; [lia|reflexivity]
  | |- Run.implements (Compare.FLtS _ _ _) _ => apply implements_FLtS
  | |- Run.implements (Compare.FLeS _ _ _) _ => apply implements_FLeS
  | |- Run.implements (Compare.FLtD _ _ _) _ => apply implements_FLtD
  | |- Run.implements (Compare.FLeD _ _ _) _ => apply implements_FLeD
  | |- Run.implements (Asm.FEqS _ _ _) _ => apply implements_FEqS
  | |- Run.implements (Asm.FEqD _ _ _) _ => apply implements_FEqD
  | |- Run.implements (Asm.Jal _ _) _ => apply implements_Jal_8
  | |- Run.implements (Asm.Addi _ _ _) _ => apply implements_Addi
  | |- Run.implements (Macro.Sltiu _ _ _) _ => apply implements_Sltiu
  end.

Ltac compare_impl :=
  unfold unordered_prog; cbn [app List.length Z.of_nat Pos.of_succ_nat Pos.succ
                              Z.mul Z.add Pos.mul Pos.add];
  repeat (apply (implements_bind _ _ [_] (_ :: _)); [compare_instr|]);
  compare_instr.

Section Comparisons.
Variables (TMP rd : GpuRegister) (fs ft : FpuRegister).

Lemma CmpUltS_implements :
  Run.implements (Compare.CmpUltS TMP rd fs ft)
    (unordered_prog Rv64.FmtS TMP rd fs ft
       [Rv64I.FCMP Rv64I.FLT Rv64.FmtS rd fs ft]).
Proof. unfold Compare.CmpUltS. compare_impl. Qed.

Lemma CmpUleS_implements :
  Run.implements (Compare.CmpUleS TMP rd fs ft)
    (unordered_prog Rv64.FmtS TMP rd fs ft
       [Rv64I.FCMP Rv64I.FLE Rv64.FmtS rd fs ft]).
Proof. unfold Compare.CmpUleS. compare_impl. Qed.

Lemma CmpUltD_implements :
  Run.implements (Compare.CmpUltD TMP rd fs ft)
    (unordered_prog Rv64.FmtD TMP rd fs ft
       [Rv64I.FCMP Rv64I.FLT Rv64.FmtD rd fs ft]).
Proof. unfold Compare.CmpUltD. compare_impl. Qed.

Lemma CmpUleD_implements :
  Run.implements (Compare.CmpUleD TMP rd fs ft)
    (unordered_prog Rv64.FmtD TMP rd fs ft
       [Rv64I.FCMP Rv64I.FLE Rv64.FmtD rd fs ft]).
Proof. unfold Compare.CmpUleD. compare_impl. Qed.

Lemma CmpUeqD_implements :
  Run.implements (Compare.CmpUeqD TMP rd fs ft)
    (unordered_prog Rv64.FmtD TMP rd fs ft
       [Rv64I.Base (Rv64.FEQ Rv64.FmtD rd fs ft)]).
Proof. unfold Compare.CmpUeqD. compare_impl. Qed.

Lemma CmpUnD_implements :
  Run.implements (Compare.CmpUnD TMP rd fs ft)
    (unordered_prog Rv64.FmtD TMP rd fs ft [Rv64I.Base (Rv64.ADDI rd ZERO 0)]).
Proof. unfold Compare.CmpUnD. compare_impl. Qed.

Lemma CmpOrD_implements :
  Run.implements (Compare.CmpOrD TMP rd fs ft)
    (unordered_prog Rv64.FmtD TMP rd fs ft [Rv64I.Base (Rv64.ADDI rd ZERO 0)]
     ++ [Rv64I.OPIMM Rv64I.SLTIU rd rd 1]).
Proof.
  unfold Compare.CmpOrD.
  apply implements_bind; [apply CmpUnD_implements|apply implements_Sltiu].
Qed.

Lemma CmpUneS_implements :
  Run.implements (Compare.CmpUneS TMP rd fs ft)
    (unordered_prog Rv64.FmtS TMP rd fs ft
       [Rv64I.Base (Rv64.FEQ Rv64.FmtS TMP fs ft);
        Rv64I.OPIMM Rv64I.SLTIU rd TMP 1]).
Proof. unfold Compare.CmpUneS. compare_impl. Qed.

Lemma CmpUneD_implements :
  Run.implements (Compare.CmpUneD TMP rd fs ft)
    (unordered_prog Rv64.FmtD TMP rd fs ft
       [Rv64I.Base (Rv64.FEQ Rv64.FmtD TMP fs ft);
        Rv64I.OPIMM Rv64I.SLTIU rd rd 1]).
Proof. unfold Compare.CmpUneD. compare_impl. Qed.

Lemma CmpNeS_implements :
  Run.implements (Compare.CmpNeS rd fs ft)
    [Rv64I.Base (Rv64.FEQ Rv64.FmtS rd fs ft); Rv64I.OPIMM Rv64I.SLTIU rd rd 1].
Proof. unfold Compare.CmpNeS. compare_impl. Qed.

Lemma CmpNeD_implements :
  Run.implements (Compare.CmpNeD rd fs ft)
    [Rv64I.Base (Rv64.FEQ Rv64.FmtD rd fs ft); Rv64I.OPIMM Rv64I.SLTIU rd rd 1].
Proof. unfold Compare.CmpNeD. compare_impl. Qed.

End Comparisons.

(** [leaves AT TMP rd m s v]: the code of [m] runs from [s] to its end in
    at most 9 steps and leaves [v] in [rd]; of the other registers only
    [TMP] can change, and no floating-point register does. *)
Definition leaves (AT TMP rd : GpuRegister) (m : Asm.M unit) (s : Rv64.State)
    (v : Z) : Prop :=
  exists s',
    Run.runs_to AT m 9 s s'
    /\ Rv64.getx s' rd = v
    /\ (forall r, r <> rd -> r <> TMP -> Rv64.getx s' r = Rv64.getx s r)
    /\ Rv64.f s' = Rv64.f s.

Lemma feq_unordered (a b : spec_float) : unordered a b = true -> Rv64.feq a b = 0.
Proof.
  unfold unordered, Rv64.feq, SFeqb.
  destruct a as [[]|[]| |[] ? ?]; cbn [Rv64.is_nan orb]; try reflexivity;
    destruct b as [[]|[]| |[] ? ?]; cbn [Rv64.is_nan]; try discriminate;
    reflexivity.
Qed.

Lemma sext_bit (b : bool) : sext 64 (if b then 1 else 0) = if b then 1 else 0.
Proof. destruct b; reflexivity. Qed.

Section Unordered.
Variables (AT TMP rd : GpuRegister) (fs ft : FpuRegister) (s : Rv64.State).
Hypothesis HT : TMP <> ZERO.
Hypothesis Hrd : rd <> ZERO.
Hypothesis HdT : rd <> TMP.
Hypothesis Hpc : Rv64.pc s = 0.

Let checked (fmt : Rv64.FFmt) : Rv64.State :=
  Rv64.next (classified fmt TMP ft (Rv64.next (classified fmt TMP fs s))).

Lemma checked_other (fmt : Rv64.FFmt) (r : GpuRegister) :
  r <> TMP -> Rv64.getx (checked fmt) r = Rv64.getx s r.
Proof.
  intros H. unfold checked. rewrite getx_next, classified_other by assumption.
  rewrite getx_next. apply classified_other; assumption.
Qed.

(** A comparison whose result for numbers comes from one instruction. *)
Lemma unordered_one (fmt : Rv64.FFmt) (i : Rv64I.Instr) (w : Z) (m : Asm.M unit) :
  Run.implements m (unordered_prog fmt TMP rd fs ft [i]) ->
  Run.straight i = true ->
  (forall t, Rv64.f t = Rv64.f s ->
     exists w', Rv64I.step_instr i t = Some (Rv64.next (Rv64.setx t rd w'))
                /\ sext 64 w' = w) ->
  leaves AT TMP rd m s (if unordered (Rv64.f s fs) (Rv64.f s ft) then 1 else w).
Proof.
  intros I Hi Hstep.
  destruct (Hstep (checked fmt) eq_refl) as (w' & E & W).
  destruct (unordered_runs fmt TMP rd fs ft [i] [] s HT Hrd HdT Hpc)
    as (s' & k & Hk & R & P & Res).
  { cbn [forallb]. rewrite Hi. reflexivity. }
  { intros _. eexists. cbn [Run.exec_seq]. fold (checked fmt). rewrite E.
    reflexivity. }
  rewrite app_nil_r in R. cbn [List.length] in Hk, P.
  exists s'. split.
  { apply (implements_runs_decoded AT m _ 9 s s' I).
    replace 9%nat with (k + (9 - k))%nat by lia. rewrite R.
    apply runI_decoded_end. rewrite P. reflexivity. }
  destruct (unordered (Rv64.f s fs) (Rv64.f s ft)).
  - exact Res.
  - destruct Res as (sb & EB & G & F). fold (checked fmt) in EB.
    cbn [Run.exec_seq] in EB. rewrite E in EB. injection EB as <-.
    split; [|split].
    + rewrite G. regs. exact W.
    + intros r H1 H2. rewrite G. regs. apply checked_other, H2.
    + rewrite F. reflexivity.
Qed.

(** A comparison whose result for numbers comes from two instructions,
    the first of which writes TMP. *)
Lemma unordered_two (fmt : Rv64.FFmt) (rs : GpuRegister) (m : Asm.M unit) :
  Run.implements m
    (unordered_prog fmt TMP rd fs ft
       [Rv64I.Base (Rv64.FEQ fmt TMP fs ft); Rv64I.OPIMM Rv64I.SLTIU rd rs 1]) ->
  leaves AT TMP rd m s
    (if unordered (Rv64.f s fs) (Rv64.f s ft) then 1
     else if u64 (if gpu_eqb rs TMP then Rv64.feq (Rv64.f s fs) (Rv64.f s ft)
                  else Rv64.getx s rs) =? 0
          then 1 else 0).
Proof.
  intros I.
  destruct (unordered_runs fmt TMP rd fs ft
              [Rv64I.Base (Rv64.FEQ fmt TMP fs ft); Rv64I.OPIMM Rv64I.SLTIU rd rs 1]
              [] s HT Hrd HdT Hpc eq_refl)
    as (s' & k & Hk & R & P & Res).
  { intros _. eexists. reflexivity. }
  rewrite app_nil_r in R. cbn [List.length] in Hk, P.
  exists s'. split.
  { apply (implements_runs_decoded AT m _ 9 s s' I).
    replace 9%nat with (k + (9 - k))%nat by lia. rewrite R.
    apply runI_decoded_end. rewrite P. reflexivity. }
  destruct (unordered (Rv64.f s fs) (Rv64.f s ft)).
  - exact Res.
  - destruct Res as (sb & EB & G & F). fold (checked fmt) in EB.
    cbn [Run.exec_seq Rv64I.step_instr Rv64.step_instr] in EB.
    injection EB as <-.
    split; [|split].
    + rewrite G. regs. cbn [Rv64I.alu_imm].
      change (Rv64.f (checked fmt)) with (Rv64.f s).
      change (u64 1) with 1.
      destruct (gpu_eq_dec rs TMP) as [->|Hne].
      * rewrite gpu_eqb_refl. regs. unfold Rv64.feq.
        destruct (SFeqb (Rv64.f s fs) (Rv64.f s ft)); reflexivity.
      * rewrite (gpu_eqb_neq _ _ Hne). regs. rewrite checked_other by exact Hne.
        assert (U : 0 <= u64 (Rv64.getx s rs))
          by (unfold u64; apply Z.mod_pos_bound; lia).
        destruct (Z.ltb_spec (u64 (Rv64.getx s rs)) 1),
                 (Z.eqb_spec (u64 (Rv64.getx s rs)) 0); try reflexivity; lia.
    + intros r H1 H2. rewrite G. regs. apply checked_other, H2.
    + rewrite F. reflexivity.
Qed.

End Unordered.

Lemma CmpOrD_leaves (AT TMP rd : GpuRegister) (fs ft : FpuRegister)
    (s : Rv64.State) :
  TMP <> ZERO -> rd <> ZERO -> rd <> TMP -> Rv64.pc s = 0 ->
  leaves AT TMP rd (Compare.CmpOrD TMP rd fs ft) s
    (if unordered (Rv64.f s fs) (Rv64.f s ft) then 0 else 1).
Proof.
  intros HT Hrd HdT Hpc.
  set (post := [Rv64I.OPIMM Rv64I.SLTIU rd rd 1]).
  destruct (unordered_runs Rv64.FmtD TMP rd fs ft
              [Rv64I.Base (Rv64.ADDI rd ZERO 0)] post s HT Hrd HdT Hpc eq_refl)
    as (s' & k & Hk & R & P & Res).
  { intros _. eexists. reflexivity. }
  cbn [List.length] in Hk, P.
  set (s2 := Rv64.next (Rv64.setx s' rd (Rv64I.alu_imm Rv64I.SLTIU (Rv64.getx s' rd) 1))).
  exists s2. split.
  { apply (implements_runs_decoded AT _ _ 9 s s2 (CmpOrD_implements TMP rd fs ft)).
    replace 9%nat with (k + S (8 - k))%nat by lia. rewrite R.
    rewrite (runI_decoded_at _ (8 - k) s' s2 9 (Rv64I.OPIMM Rv64I.SLTIU rd rd 1) P);
      [|reflexivity|reflexivity].
    apply runI_decoded_end. unfold s2.
    cbn [Rv64.next Rv64.goto Rv64.setx Rv64.pc]. rewrite P. reflexivity. }
  unfold s2. destruct (unordered (Rv64.f s fs) (Rv64.f s ft)).
  - destruct Res as (G & F & FF). split; [|split].
    + regs. rewrite G. reflexivity.
    + intros r H1 H2. regs. apply F; assumption.
    + exact FF.
  - destruct Res as (sb & EB & G & F).
    cbn [Run.exec_seq Rv64I.step_instr Rv64.step_instr] in EB. injection EB as <-.
    split; [|split].
    + regs. rewrite G. regs. reflexivity.
    + intros r H1 H2. regs. rewrite G. regs.
      rewrite classified_other by assumption. regs.
      apply classified_other; assumption.
    + transitivity (Rv64.f s'); [reflexivity|rewrite F; reflexivity].
Qed.

(** X25. The unordered comparisons answer 1 when an operand is NaN: with
    TMP and rd two registers other than the zero register, CmpUltS,
    CmpUltD, CmpUleS, CmpUleD and CmpUeqD leave 1 in rd when fs or ft holds
    NaN, and otherwise 1 or 0 as fs < ft, fs <= ft or fs = ft holds;
    CmpUnD leaves 1 exactly when an operand is NaN, and CmpOrD exactly
    when none is. Each runs to the end of its code in at most 9 steps and
    changes only rd and TMP. *)
Theorem unordered_comparisons_answer_1_for_nan (AT TMP rd : GpuRegister)
    (fs ft : FpuRegister) (s : Rv64.State) :
  TMP <> ZERO -> rd <> ZERO -> rd <> TMP -> Rv64.pc s = 0 ->
  let a := Rv64.f s fs in
  let b := Rv64.f s ft in
  leaves AT TMP rd (Compare.CmpUltS TMP rd fs ft) s
    (if unordered a b then 1 else Rv64I.fcmp Rv64I.FLT a b)
  /\ leaves AT TMP rd (Compare.CmpUltD TMP rd fs ft) s
       (if unordered a b then 1 else Rv64I.fcmp Rv64I.FLT a b)
  /\ leaves AT TMP rd (Compare.CmpUleS TMP rd fs ft) s
       (if unordered a b then 1 else Rv64I.fcmp Rv64I.FLE a b)
  /\ leaves AT TMP rd (Compare.CmpUleD TMP rd fs ft) s
       (if unordered a b then 1 else Rv64I.fcmp Rv64I.FLE a b)
  /\ leaves AT TMP rd (Compare.CmpUeqD TMP rd fs ft) s
       (if unordered a b then 1 else Rv64.feq a b)
  /\ leaves AT TMP rd (Compare.CmpUnD TMP rd fs ft) s
       (if unordered a b then 1 else 0)
  /\ leaves AT TMP rd (Compare.CmpOrD TMP rd fs ft) s
       (if unordered a b then 0 else 1).
Proof.
  intros HT Hrd HdT Hpc a b.
  assert (Cmp : forall op fmt t, Rv64.f t = Rv64.f s ->
            exists w', Rv64I.step_instr (Rv64I.FCMP op fmt rd fs ft) t
                       = Some (Rv64.next (Rv64.setx t rd w'))
                       /\ sext 64 w' = Rv64I.fcmp op a b).
  { intros op fmt t Ht. eexists. split; [reflexivity|]. rewrite Ht. fold a b.
    destruct op; cbn [Rv64I.fcmp]; apply sext_bit. }
  repeat split.
  - exact (unordered_one AT TMP rd fs ft s HT Hrd HdT Hpc Rv64.FmtS _ _ _
             (CmpUltS_implements TMP rd fs ft) eq_refl (Cmp _ _)).
  - exact (unordered_one AT TMP rd fs ft s HT Hrd HdT Hpc Rv64.FmtD _ _ _
             (CmpUltD_implements TMP rd fs ft) eq_refl (Cmp _ _)).
  - exact (unordered_one AT TMP rd fs ft s HT Hrd HdT Hpc Rv64.FmtS _ _ _
             (CmpUleS_implements TMP rd fs ft) eq_refl (Cmp _ _)).
  - exact (unordered_one AT TMP rd fs ft s HT Hrd HdT Hpc Rv64.FmtD _ _ _
             (CmpUleD_implements TMP rd fs ft) eq_refl (Cmp _ _)).
  - apply (unordered_one AT TMP rd fs ft s HT Hrd HdT Hpc Rv64.FmtD _ _ _
             (CmpUeqD_implements TMP rd fs ft) eq_refl).
    intros t Ht. eexists. split; [reflexivity|]. rewrite Ht. apply sext_bit.
  - apply (unordered_one AT TMP rd fs ft s HT Hrd HdT Hpc Rv64.FmtD _ _ _
             (CmpUnD_implements TMP rd fs ft) eq_refl).
    intros t Ht. eexists. split; [reflexivity|]. rewrite getx_ZERO. reflexivity.
  - apply CmpOrD_leaves; assumption.
Qed.

(** A state with NaN in FT0, the number 1 in FT1 and 0 elsewhere. *)
Definition nan_state : Rv64.State :=
  {| Rv64.pc := 0; Rv64.x := gpu_num;
     Rv64.f := fun r => if fpu_eqb r FT0 then S754_nan
                        else if fpu_eqb r FT1 then S754_finite false 1 0
                        else S754_zero false |}.

Lemma unordered_comparisons_answer_1_for_nan_witness :
  leaves T4 T6 A0 (Compare.CmpUltS T6 A0 FT0 FT1) nan_state 1.
Proof.
  destruct (unordered_comparisons_answer_1_for_nan T4 T6 A0 FT0 FT1 nan_state)
    as [W _]; try discriminate; try reflexivity.
  exact W.
Defined.

(** X26. The comparisons for inequality: CmpNeS, CmpNeD and CmpUneS leave
    1 in rd unless fs and ft hold equal numbers, so also when one is NaN.
    CmpUneD leaves 1 for a NaN, but for two numbers it tests rd instead of
    the result of the comparison, which it has put in TMP: it leaves 1
    when rd held 0 before and 0 otherwise, whatever the operands. *)
Theorem CmpUneD_reads_the_destination (AT TMP rd : GpuRegister)
    (fs ft : FpuRegister) (s : Rv64.State) :
  TMP <> ZERO -> rd <> ZERO -> rd <> TMP -> Rv64.pc s = 0 ->
  let a := Rv64.f s fs in
  let b := Rv64.f s ft in
  leaves AT TMP rd (Compare.CmpNeS rd fs ft) s (1 - Rv64.feq a b)
  /\ leaves AT TMP rd (Compare.CmpNeD rd fs ft) s (1 - Rv64.feq a b)
  /\ leaves AT TMP rd (Compare.CmpUneS TMP rd fs ft) s (1 - Rv64.feq a b)
  /\ leaves AT TMP rd (Compare.CmpUneD TMP rd fs ft) s
       (if unordered a b then 1
        else if u64 (Rv64.getx s rd) =? 0 then 1 else 0).
Proof.
  intros HT Hrd HdT Hpc a b.
  assert (Ne : forall fmt m,
            Run.implements m [Rv64I.Base (Rv64.FEQ fmt rd fs ft);
                              Rv64I.OPIMM Rv64I.SLTIU rd rd 1] ->
            leaves AT TMP rd m s (1 - Rv64.feq a b)).
  { intros fmt m I. eexists. split.
    { apply (implements_runs AT m _ 9 s _ I); [reflexivity|cbn; lia|exact Hpc|].
      reflexivity. }
    split; [|split; [|reflexivity]].
    - regs. cbn [Rv64I.alu_imm]. regs. fold a b. unfold Rv64.feq.
      destruct (SFeqb a b); reflexivity.
    - intros r H1 H2. regs. reflexivity. }
  split; [exact (Ne _ _ (CmpNeS_implements rd fs ft))|].
  split; [exact (Ne _ _ (CmpNeD_implements rd fs ft))|].
  split.
  - pose proof (unordered_two AT TMP rd fs ft s HT Hrd HdT Hpc Rv64.FmtS TMP _
                  (CmpUneS_implements TMP rd fs ft)) as L.
    rewrite gpu_eqb_refl in L. fold a b in L.
    replace (1 - Rv64.feq a b)
      with (if unordered a b then 1
            else if u64 (Rv64.feq a b) =? 0 then 1 else 0); [exact L|].
    destruct (unordered a b) eqn:U; [rewrite (feq_unordered a b U); reflexivity|].
    unfold Rv64.feq. destruct (SFeqb a b); reflexivity.
  - pose proof (unordered_two AT TMP rd fs ft s HT Hrd HdT Hpc Rv64.FmtD rd _
                  (CmpUneD_implements TMP rd fs ft)) as L.
    rewrite (gpu_eqb_neq _ _ HdT) in L. exact L.
Qed.

Lemma CmpUneD_reads_the_destination_witness :
  leaves T4 T6 A0 (Compare.CmpUneD T6 A0 FT1 FT2) nan_state 0.
Proof.
  destruct (CmpUneD_reads_the_destination T4 T6 A0 FT1 FT2 nan_state)
    as (_ & _ & _ & W); try discriminate; try reflexivity.
  exact W.
Defined.


(** ** Loads and stores: the words and the instructions *)

Section FormatS.
Variables imm rs2 rs1 funct3 opcode : Z.
Hypothesis Hrs2 : 0 <= rs2 < 2 ^ 5.
Hypothesis Hrs1 : 0 <= rs1 < 2 ^ 5.
Hypothesis Hf3 : 0 <= funct3 < 2 ^ 3.
Hypothesis Hop : 0 <= opcode < 2 ^ 7.
Let w := Mem.EncodeS imm rs2 rs1 funct3 opcode.

Ltac smasks :=
  change 4064 with (Z.shiftl (Z.ones 7) 5);
  change 31 with (Z.ones 5).

Lemma S_u32 : u32 w = w.
Proof. unfold w, Mem.EncodeS, u32, u16. smasks. bits. Qed.
Lemma S_opcode : Rv64.field w 0 7 = opcode.
Proof. unfold w, Rv64.field, Mem.EncodeS, u32, u16. smasks. bits. Qed.
Lemma S_funct3 : Rv64.field w 12 3 = funct3.
Proof. unfold w, Rv64.field, Mem.EncodeS, u32, u16. smasks. bits. Qed.
Lemma S_rs1 : Rv64.field w 15 5 = rs1.
Proof. unfold w, Rv64.field, Mem.EncodeS, u32, u16. smasks. bits. Qed.
Lemma S_rs2 : Rv64.field w 20 5 = rs2.
Proof. unfold w, Rv64.field, Mem.EncodeS, u32, u16. smasks. bits. Qed.
Lemma S_imm :
  Z.lor (Z.shiftl (Rv64.field w 25 7) 5) (Rv64.field w 7 5) = imm mod 2 ^ 12.
Proof. unfold w, Rv64.field, Mem.EncodeS, u32, u16. smasks. bits. Qed.

End FormatS.

Lemma decodeM_core (w : Z) (i : Rv64I.Instr) :
  Rv64I.decode w = Some i -> Rv64M.decode w = Some (Rv64M.Core i).
Proof. intros H. unfold Rv64M.decode. rewrite H. reflexivity. Qed.

(** Words of the formats I and S with an opcode of the loads and stores
    are none of the instructions of [Rv64I]. *)
Lemma decode_load_word (imm rs1 rd opcode : Z) :
  0 <= rs1 < 2 ^ 5 -> 0 <= rd < 2 ^ 5 -> opcode = 0x03 \/ opcode = 0x07 ->
  Rv64M.decode (u32 (Asm.EncodeI imm rs1 3 rd opcode))
  = Rv64M.decode_fields opcode rd 3 rs1
      (Rv64.field (Asm.EncodeI imm rs1 3 rd opcode) 20 5) (sext 12 imm)
      (Rv64M.immS (Asm.EncodeI imm rs1 3 rd opcode)).
Proof.
  intros H1 Hd Ho.
  assert (Hop : 0 <= opcode < 2 ^ 7) by (destruct Ho; subst; lia).
  unfold Rv64M.decode. rewrite decodeI_EncodeI by (assumption || lia).
  rewrite encode_I_u32 by assumption. unfold Rv64.immI.
  rewrite I_opcode, I_rd, I_funct3, I_rs1, I_imm, sext_mod_idem
    by (assumption || lia).
  destruct Ho; subst; reflexivity.
Qed.

Lemma decode_store_word (imm rs2 rs1 opcode : Z) :
  0 <= rs2 < 2 ^ 5 -> 0 <= rs1 < 2 ^ 5 -> opcode = 0x23 \/ opcode = 0x27 ->
  Rv64M.decode (u32 (Mem.EncodeS imm rs2 rs1 3 opcode))
  = Rv64M.decode_fields opcode
      (Rv64.field (Mem.EncodeS imm rs2 rs1 3 opcode) 7 5) 3 rs1 rs2
      (Rv64.immI (Mem.EncodeS imm rs2 rs1 3 opcode)) (sext 12 imm).
Proof.
  intros H2 H1 Ho.
  assert (Hop : 0 <= opcode < 2 ^ 7) by (destruct Ho; subst; lia).
  rewrite S_u32 by (assumption || lia).
  unfold Rv64M.decode, Rv64I.decode, Rv64.decode, Rv64M.immS.
  rewrite S_opcode, S_funct3, S_rs1, S_rs2, S_imm, sext_mod_idem
    by (assumption || lia).
  destruct Ho; subst; reflexivity.
Qed.

Lemma decode_ld (rd rs1 : GpuRegister) (imm : Z) :
  Rv64M.decode (u32 (Asm.EncodeI imm (gpu_num rs1) 3 (gpu_num rd) 0x03))
  = Some (Rv64M.LD rd rs1 (sext 12 imm)).
Proof.
  rewrite decode_load_word by (reg_bounds || (left; reflexivity)).
  cbn [Rv64M.decode_fields Z.eqb Pos.eqb]. rewrite !gpu_of_num_num. reflexivity.
Qed.

Lemma decode_fld (fd : FpuRegister) (rs1 : GpuRegister) (imm : Z) :
  Rv64M.decode (u32 (Asm.EncodeI imm (gpu_num rs1) 3 (fpu_num fd) 0x07))
  = Some (Rv64M.FLD fd rs1 (sext 12 imm)).
Proof.
  rewrite decode_load_word by (reg_bounds || (right; reflexivity)).
  cbn [Rv64M.decode_fields Z.eqb Pos.eqb].
  rewrite gpu_of_num_num, fpu_of_num_num. reflexivity.
Qed.

Lemma decode_sd (rs2 rs1 : GpuRegister) (imm : Z) :
  Rv64M.decode (u32 (Mem.EncodeS imm (gpu_num rs2) (gpu_num rs1) 3 0x23))
  = Some (Rv64M.SD rs2 rs1 (sext 12 imm)).
Proof.
  rewrite decode_store_word by (reg_bounds || (left; reflexivity)).
  cbn [Rv64M.decode_fields Z.eqb Pos.eqb]. rewrite !gpu_of_num_num. reflexivity.
Qed.

Lemma decode_fsd (fs2 : FpuRegister) (rs1 : GpuRegister) (imm : Z) :
  Rv64M.decode (u32 (Mem.EncodeS imm (fpu_num fs2) (gpu_num rs1) 3 0x27))
  = Some (Rv64M.FSD fs2 rs1 (sext 12 imm)).
Proof.
  rewrite decode_store_word by (reg_bounds || (right; reflexivity)).
  cbn [Rv64M.decode_fields Z.eqb Pos.eqb].
  rewrite gpu_of_num_num, fpu_of_num_num. reflexivity.
Qed.

(** ** Running code on the machine with a memory *)

Module RunM.

Definition straight (i : Rv64M.Instr) : bool :=
  match i with
  | Rv64M.Core i => Run.straight i
  | _ => true
  end.

Fixpoint exec_seq (prog : list Rv64M.Instr) (s : Rv64M.State)
  : option Rv64M.State :=
  match prog with
  | [] => Some s
  | i :: rest =>
      match Rv64M.step_instr i s with
      | Some s' => exec_seq rest s'
      | None => None
      end
  end.

(** [implements m prog]: while code is appended, [m] appends one word
    for each instruction of [prog], which decodes to it. *)
Definition implements (m : Asm.M unit) (prog : list Rv64M.Instr) : Prop :=
  exists ws, emits m ws
             /\ Forall2 (fun w i => Rv64M.decode (u32 w) = Some i) ws prog.

(** [takes AT m n s s']: the method whose body is [m] assembles, and [n]
    steps of its code take the machine from [s] to [s']. *)
Definition takes (AT : GpuRegister) (m : Asm.M unit) (n : nat)
    (s s' : Rv64M.State) : Prop :=
  exists code, Asm.assemble AT m = Some code
               /\ Rv64M.steps n code s = Some s'.

End RunM.

Lemma Forall2_Core (ws : list Z) (prog : list Rv64I.Instr) :
  Forall2 (fun w i => Rv64I.decode (u32 w) = Some i) ws prog ->
  Forall2 (fun w i => Rv64M.decode (u32 w) = Some i) ws (map Rv64M.Core prog).
Proof.
  intros D. induction D as [|w i ws' prog' H D IH]; cbn [map]; constructor.
  - apply decodeM_core, H.
  - exact IH.
Qed.

Lemma implementsM_core (m : Asm.M unit) (prog : list Rv64I.Instr) :
  Run.implements m prog -> RunM.implements m (map Rv64M.Core prog).
Proof.
  intros (ws & E & D). exists ws. split; [exact E|apply Forall2_Core, D].
Qed.

Lemma implementsM_bind (m1 m2 : Asm.M unit) (p1 p2 : list Rv64M.Instr) :
  RunM.implements m1 p1 -> RunM.implements m2 p2 ->
  RunM.implements (Asm.bind m1 (fun _ => m2)) (p1 ++ p2).
Proof.
  intros (w1 & E1 & D1) (w2 & E2 & D2). exists (w1 ++ w2).
  split; [apply emits_bind; assumption|apply Forall2_app; assumption].
Qed.

Lemma implementsM_Emit (w : Z) (i : Rv64M.Instr) :
  Rv64M.decode (u32 w) = Some i -> RunM.implements (Asm.Emit w) [i].
Proof.
  intros H. exists [w]. split; [apply emits_Emit|].
  apply Forall2_cons; [exact H|apply Forall2_nil].
Qed.

Lemma implementsM_CHECK (b : bool) (m : Asm.M unit) (prog : list Rv64M.Instr) :
  b = true -> RunM.implements m prog ->
  RunM.implements (Asm.bind (Asm.CHECK b) (fun _ => m)) prog.
Proof.
  intros -> (ws & E & D). exists ws. split; [|exact D].
  intros a Ha. unfold Asm.bind, Asm.CHECK. apply E, Ha.
Qed.

Lemma implementsM_ret : RunM.implements (Asm.ret tt) [].
Proof. exists []. split; [apply emits_ret|apply Forall2_nil]. Qed.

(** A method that returns a value, followed by code that uses it. *)
Lemma implementsM_val {A : Type} (m : Asm.M A) (v : A) (k : A -> Asm.M unit)
    (p1 : list Rv64I.Instr) (p2 : list Rv64M.Instr) :
  RunVal.implements_val m v p1 -> RunM.implements (k v) p2 ->
  RunM.implements (Asm.bind m k) (map Rv64M.Core p1 ++ p2).
Proof.
  intros (w1 & E1 & D1) (w2 & E2 & D2). exists (w1 ++ w2). split.
  - intros a Ha. unfold Asm.bind. rewrite (E1 a Ha).
    rewrite E2 by (destruct a; exact Ha). destruct a; cbn.
    rewrite words_app, app_assoc. reflexivity.
  - apply Forall2_app; [apply Forall2_Core, D1|exact D2].
Qed.

Lemma implements_Ld (rd rs1 : GpuRegister) (offset : Z) :
  RunM.implements (Asm.Ld rd rs1 offset) [Rv64M.LD rd rs1 (sext 12 offset)].
Proof. apply implementsM_Emit. rewrite <- sext12_u16. apply decode_ld. Qed.

Lemma implements_FLd (fd : FpuRegister) (rs1 : GpuRegister) (offset : Z) :
  RunM.implements (Mem.FLd fd rs1 offset) [Rv64M.FLD fd rs1 (sext 12 offset)].
Proof. apply implementsM_Emit. rewrite <- sext12_u16. apply decode_fld. Qed.

Lemma implements_Sd (rs2 rs1 : GpuRegister) (offset : Z) :
  RunM.implements (Mem.Sd rs2 rs1 offset) [Rv64M.SD rs2 rs1 (sext 12 offset)].
Proof. apply implementsM_Emit. rewrite <- sext12_u16. apply decode_sd. Qed.

Lemma implements_FSd (fs2 : FpuRegister) (rs1 : GpuRegister) (offset : Z) :
  RunM.implements (Mem.FSd fs2 rs1 offset) [Rv64M.FSD fs2 rs1 (sext 12 offset)].
Proof. apply implementsM_Emit. rewrite <- sext12_u16. apply decode_fsd. Qed.

(** Steps of the code against steps of its instructions. *)

Lemma stepM_at (ws : list Z) (prog : list Rv64M.Instr) (s : Rv64M.State)
    (n : nat) (i : Rv64M.Instr) :
  Forall2 (fun w i => Rv64M.decode (u32 w) = Some i) ws prog ->
  Rv64.pc (Rv64M.core s) = 4 * Z.of_nat n ->
  nth_error prog n = Some i ->
  Rv64M.step (words ws) s = Rv64M.step_instr i s.
Proof.
  intros D Hpc N.
  assert (exists w, nth_error ws n = Some w /\ Rv64M.decode (u32 w) = Some i)
    as (w & Hw & Hd).
  { clear - D N. revert n N.
    induction D as [|w0 i0 ws' prog' H0 D IH]; intros [|n] N; try discriminate.
    - injection N as <-. exists w0. split; [reflexivity|exact H0].
    - apply IH in N. exact N. }
  unfold Rv64M.step. rewrite Hpc, (fetch_words ws n w Hw), Hd. reflexivity.
Qed.

Lemma stepsM_app (n1 n2 : nat) (code : list Z) (s : Rv64M.State) :
  Rv64M.steps (n1 + n2) code s
  = match Rv64M.steps n1 code s with
    | Some s1 => Rv64M.steps n2 code s1
    | None => None
    end.
Proof.
  revert s. induction n1 as [|n1 IH]; intros s; cbn [Nat.add Rv64M.steps];
    [reflexivity|].
  destruct (Rv64M.step code s); [apply IH|reflexivity].
Qed.

Lemma stepM_straight (i : Rv64M.Instr) (s s' : Rv64M.State) :
  RunM.straight i = true -> Rv64M.step_instr i s = Some s' ->
  Rv64.pc (Rv64M.core s') = Rv64.pc (Rv64M.core s) + 4.
Proof.
  destruct i; cbn [RunM.straight Rv64M.step_instr]; intros H E.
  - destruct (Rv64I.step_instr i (Rv64M.core s)) as [c|] eqn:E1; [|discriminate].
    injection E as <-. exact (stepI_straight i _ _ H E1).
  - destruct (_ =? 0); [|discriminate].
    destruct (Rv64M.mem s _); [|discriminate]. injection E as <-. reflexivity.
  - destruct (_ =? 0); [|discriminate]. injection E as <-. reflexivity.
  - destruct (_ =? 0); [|discriminate].
    destruct (Rv64M.mem s _); [discriminate|]. injection E as <-. reflexivity.
  - destruct (_ =? 0); [|discriminate]. injection E as <-. reflexivity.
Qed.

Lemma execM_app (p1 p2 : list Rv64M.Instr) (s : Rv64M.State) :
  RunM.exec_seq (p1 ++ p2) s
  = match RunM.exec_seq p1 s with
    | Some s1 => RunM.exec_seq p2 s1
    | None => None
    end.
Proof.
  revert s. induction p1 as [|i p1 IH]; intros s; cbn [RunM.exec_seq app];
    [reflexivity|].
  destruct (Rv64M.step_instr i s); [apply IH|reflexivity].
Qed.

(** Straight-line instructions in the middle of a program take one step
    each. *)
Lemma stepsM_straight (ws : list Z) (mid pre post : list Rv64M.Instr)
    (s s' : Rv64M.State) :
  Forall2 (fun w i => Rv64M.decode (u32 w) = Some i) ws (pre ++ mid ++ post) ->
  forallb RunM.straight mid = true ->
  Rv64.pc (Rv64M.core s) = 4 * Z.of_nat (List.length pre) ->
  RunM.exec_seq mid s = Some s' ->
  Rv64M.steps (List.length mid) (words ws) s = Some s'
  /\ Rv64.pc (Rv64M.core s') = 4 * Z.of_nat (List.length pre + List.length mid).
Proof.
  revert pre s. induction mid as [|i mid IH]; intros pre s D HS Hpc HE.
  - injection HE as <-. split; [reflexivity|]. cbn [List.length]. rewrite Hpc. lia.
  - cbn [forallb] in HS. apply andb_true_iff in HS. destruct HS as [Hi HS].
    cbn [RunM.exec_seq] in HE.
    destruct (Rv64M.step_instr i s) as [s1|] eqn:E1; [|discriminate].
    cbn [List.length Rv64M.steps].
    rewrite (stepM_at ws _ s (List.length pre) i D Hpc)
      by (rewrite nth_error_app2 by lia; rewrite Nat.sub_diag; reflexivity).
    rewrite E1.
    assert (P1 : Rv64.pc (Rv64M.core s1) = 4 * Z.of_nat (List.length (pre ++ [i]))).
    { rewrite (stepM_straight i s s1 Hi E1), Hpc, length_app. cbn [List.length]. lia. }
    assert (D' : Forall2 (fun w i => Rv64M.decode (u32 w) = Some i) ws
                   ((pre ++ [i]) ++ mid ++ post)).
    { rewrite <- app_assoc. exact D. }
    destruct (IH (pre ++ [i]) s1 D' HS P1 HE) as [R P].
    split; [exact R|]. rewrite P, length_app. cbn [List.length]. lia.
Qed.

(** Straight-line code that a method is made of runs to its end. *)
Lemma implementsM_takes (AT : GpuRegister) (m : Asm.M unit)
    (prog : list Rv64M.Instr) (s s' : Rv64M.State) :
  RunM.implements m prog ->
  forallb RunM.straight prog = true ->
  Rv64.pc (Rv64M.core s) = 0 ->
  RunM.exec_seq prog s = Some s' ->
  RunM.takes AT m (List.length prog) s s'
  /\ Rv64.pc (Rv64M.core s') = 4 * Z.of_nat (List.length prog).
Proof.
  intros (ws & E & D) HS Hpc HE.
  assert (D' : Forall2 (fun w i => Rv64M.decode (u32 w) = Some i) ws
                 ([] ++ prog ++ [])) by (rewrite app_nil_r; exact D).
  destruct (stepsM_straight ws prog [] [] s s' D' HS Hpc HE) as [R P].
  split; [|exact P].
  exists (words ws). split; [apply assemble_emits, E|exact R].
Qed.


(** ** A store and a load at the same offset *)

Lemma execM_Core (prog : list Rv64I.Instr) (s : Rv64M.State) (c : Rv64.State) :
  Run.exec_seq prog (Rv64M.core s) = Some c ->
  RunM.exec_seq (map Rv64M.Core prog) s = Some (Rv64M.with_core s c).
Proof.
  revert s. induction prog as [|i prog IH]; intros s; cbn [Run.exec_seq map RunM.exec_seq].
  - intros H. injection H as <-. destruct s; reflexivity.
  - cbn [Rv64M.step_instr].
    destruct (Rv64I.step_instr i (Rv64M.core s)) as [c1|]; [|discriminate].
    intros H. apply (IH (Rv64M.with_core s c1)) in H. exact H.
Qed.

Lemma straightM_Core (prog : list Rv64I.Instr) :
  forallb RunM.straight (map Rv64M.Core prog) = forallb Run.straight prog.
Proof.
  induction prog as [|i prog IH]; cbn [map forallb RunM.straight];
    [reflexivity|rewrite IH; reflexivity].
Qed.

(** What the adjusted base and offset add to the base: the offset, or
    2^32 less from 0x7FFFF800 on. *)
Definition displacement (offset : Z) : Z :=
  let offset := sext 32 offset in
  if offset <? 0x7FFFF800 then offset else offset - 2 ^ 32.

Lemma u64_of_sext (a b : Z) : sext 64 a = sext 64 b -> u64 a = u64 b.
Proof. intros H. rewrite <- (u64_sext a), <- (u64_sext b), H. reflexivity. Qed.

(** The adjustment for a doubleword, with the address as the machine
    forms it. *)
Lemma access_cases (AT base : GpuRegister) (offset : Z) :
  base <> AT -> AT <> ZERO ->
  exists base' offset' prog,
    RunVal.implements_val (Offsets.AdjustBaseAndOffset AT base offset true)
                          (base', offset') prog
    /\ forallb Run.straight prog = true
    /\ (List.length prog <= 3)%nat
    /\ forall c, exists c',
         Run.exec_seq prog c = Some c'
         /\ u64 (Rv64.getx c' base' + sext 12 offset')
            = u64 (Rv64.getx c base + displacement offset)
         /\ (forall r, r <> AT -> Rv64.getx c' r = Rv64.getx c r)
         /\ Rv64.f c' = Rv64.f c.
Proof.
  intros Hb HA.
  destruct (Adjust_cases AT base offset true Hb HA)
    as (base' & offset' & prog & I & HS & HL & _ & H12 & _ & _ & Run).
  exists base', offset', prog. repeat split; try assumption.
  intros c. destruct (Run c) as (c' & E & G & F & FF).
  exists c'. split; [exact E|]. split; [|split; [exact F|exact FF]].
  rewrite (sext12_small offset' H12). apply u64_of_sext, G.
Qed.

(** The code of a doubleword access: the adjustment and the access. *)
Section Access.
Variables (AT base : GpuRegister) (offset : Z).
Hypothesis Hb : base <> AT.
Hypothesis HA : AT <> ZERO.

Lemma StoreToOffset_cases (reg : GpuRegister) :
  reg <> AT ->
  exists base' offset' prog,
    RunM.implements (Mem.StoreToOffset AT Mem.kStoreDoubleword reg base offset)
      (map Rv64M.Core prog ++ [Rv64M.SD reg base' (sext 12 offset')])
    /\ forallb Run.straight prog = true
    /\ (List.length prog <= 3)%nat
    /\ forall c, exists c',
         Run.exec_seq prog c = Some c'
         /\ u64 (Rv64.getx c' base' + sext 12 offset')
            = u64 (Rv64.getx c base + displacement offset)
         /\ (forall r, r <> AT -> Rv64.getx c' r = Rv64.getx c r)
         /\ Rv64.f c' = Rv64.f c.
Proof.
  intros Hr.
  destruct (access_cases AT base offset Hb HA) as (base' & offset' & prog & I & R).
  exists base', offset', prog. split; [|exact R].
  unfold Mem.StoreToOffset. apply implementsM_CHECK.
  { rewrite gpu_eqb_neq by exact Hr. reflexivity. }
  apply (implementsM_val _ _ _ _ _ I). apply implements_Sd.
Qed.

Lemma LoadFromOffset_cases (reg : GpuRegister) :
  exists base' offset' prog,
    RunM.implements (Mem.LoadFromOffset AT Mem.kLoadDoubleword reg base offset)
      (map Rv64M.Core prog ++ [Rv64M.LD reg base' (sext 12 offset')])
    /\ forallb Run.straight prog = true
    /\ (List.length prog <= 3)%nat
    /\ forall c, exists c',
         Run.exec_seq prog c = Some c'
         /\ u64 (Rv64.getx c' base' + sext 12 offset')
            = u64 (Rv64.getx c base + displacement offset)
         /\ (forall r, r <> AT -> Rv64.getx c' r = Rv64.getx c r)
         /\ Rv64.f c' = Rv64.f c.
Proof.
  destruct (access_cases AT base offset Hb HA) as (base' & offset' & prog & I & R).
  exists base', offset', prog. split; [|exact R].
  unfold Mem.LoadFromOffset.
  apply (implementsM_val _ _ _ _ _ I). apply implements_Ld.
Qed.

Lemma StoreFpuToOffset_cases (reg : FpuRegister) :
  exists base' offset' prog,
    RunM.implements (Mem.StoreFpuToOffset AT Mem.kStoreDoubleword reg base offset)
      (map Rv64M.Core prog ++ [Rv64M.FSD reg base' (sext 12 offset')])
    /\ forallb Run.straight prog = true
    /\ (List.length prog <= 3)%nat
    /\ forall c, exists c',
         Run.exec_seq prog c = Some c'
         /\ u64 (Rv64.getx c' base' + sext 12 offset')
            = u64 (Rv64.getx c base + displacement offset)
         /\ (forall r, r <> AT -> Rv64.getx c' r = Rv64.getx c r)
         /\ Rv64.f c' = Rv64.f c.
Proof.
  destruct (access_cases AT base offset Hb HA) as (base' & offset' & prog & I & R).
  exists base', offset', prog. split; [|exact R].
  unfold Mem.StoreFpuToOffset.
  apply (implementsM_val _ _ _ _ _ I). apply implements_FSd.
Qed.

Lemma LoadFpuFromOffset_cases (reg : FpuRegister) :
  exists base' offset' prog,
    RunM.implements (Mem.LoadFpuFromOffset AT Mem.kLoadDoubleword reg base offset)
      (map Rv64M.Core prog ++ [Rv64M.FLD reg base' (sext 12 offset')])
    /\ forallb Run.straight prog = true
    /\ (List.length prog <= 3)%nat
    /\ forall c, exists c',
         Run.exec_seq prog c = Some c'
         /\ u64 (Rv64.getx c' base' + sext 12 offset')
            = u64 (Rv64.getx c base + displacement offset)
         /\ (forall r, r <> AT -> Rv64.getx c' r = Rv64.getx c r)
         /\ Rv64.f c' = Rv64.f c.
Proof.
  destruct (access_cases AT base offset Hb HA) as (base' & offset' & prog & I & R).
  exists base', offset', prog. split; [|exact R].
  unfold Mem.LoadFpuFromOffset.
  apply (implementsM_val _ _ _ _ _ I). apply implements_FLd.
Qed.

End Access.

Lemma mem_store_same (s : Rv64M.State) (a : Z) (v : Rv64M.Cell) :
  Rv64M.mem (Rv64M.store s a v) a = v.
Proof. unfold Rv64M.store. cbn [Rv64M.mem]. rewrite Z.eqb_refl. reflexivity. Qed.

Lemma mem_store_other (s : Rv64M.State) (a a' : Z) (v : Rv64M.Cell) :
  a' <> a -> Rv64M.mem (Rv64M.store s a v) a' = Rv64M.mem s a'.
Proof.
  intros H. unfold Rv64M.store. cbn [Rv64M.mem].
  destruct (Z.eqb_spec a' a); [contradiction|reflexivity].
Qed.

(** An adjustment followed by the access. *)
Lemma access_exec (s t : Rv64M.State) (prog : list Rv64I.Instr) (i : Rv64M.Instr)
    (c : Rv64.State) :
  Run.exec_seq prog (Rv64M.core s) = Some c ->
  Rv64M.step_instr i (Rv64M.with_core s c) = Some t ->
  RunM.exec_seq (map Rv64M.Core prog ++ [i]) s = Some t.
Proof.
  intros E H. rewrite execM_app, (execM_Core prog s c E). cbn [RunM.exec_seq].
  rewrite H. reflexivity.
Qed.

Lemma access_straight (prog : list Rv64I.Instr) (i : Rv64M.Instr) :
  forallb Run.straight prog = true -> RunM.straight i = true ->
  forallb RunM.straight (map Rv64M.Core prog ++ [i]) = true.
Proof.
  intros H Hi. rewrite forallb_app, straightM_Core, H. cbn [forallb].
  rewrite Hi. reflexivity.
Qed.

(** X27. A doubleword stored at an offset is the doubleword loaded from
    it: with a base other than AT (itself not the zero register) and an
    address base + offset that is a multiple of 8, the code of
    StoreToOffset(kStoreDoubleword, reg, base, offset) followed by
    LoadFromOffset(kLoadDoubleword, rd, base, offset), for reg other than
    AT and rd other than the zero register, takes at most 8 steps and
    leaves the value of reg in rd and in memory at that address; the code
    of StoreFpuToOffset followed by LoadFpuFromOffset does the same from
    fs to fd. No other doubleword of the memory changes, and of the other
    registers only AT. The address is 2^32 lower than base + offset for
    the offsets from 0x7FFFF800 on. *)
Theorem store_then_load_round_trip (AT base reg rd : GpuRegister)
    (fs fd : FpuRegister) (offset : Z) (s : Rv64M.State) :
  base <> AT -> AT <> ZERO -> reg <> AT -> rd <> ZERO ->
  Rv64.pc (Rv64M.core s) = 0 ->
  let a := u64 (Rv64.getx (Rv64M.core s) base + displacement offset) in
  a mod 8 = 0 ->
  (exists n s',
     (n <= 8)%nat
     /\ RunM.takes AT
          (Asm.bind (Mem.StoreToOffset AT Mem.kStoreDoubleword reg base offset)
             (fun _ => Mem.LoadFromOffset AT Mem.kLoadDoubleword rd base offset))
          n s s'
     /\ Rv64.pc (Rv64M.core s') = 4 * Z.of_nat n
     /\ Rv64.getx (Rv64M.core s') rd = sext 64 (Rv64.getx (Rv64M.core s) reg)
     /\ Rv64M.mem s' a = Rv64M.VInt (Rv64.getx (Rv64M.core s) reg)
     /\ (forall a', a' <> a -> Rv64M.mem s' a' = Rv64M.mem s a')
     /\ (forall r, r <> rd -> r <> AT ->
           Rv64.getx (Rv64M.core s') r = Rv64.getx (Rv64M.core s) r)
     /\ Rv64.f (Rv64M.core s') = Rv64.f (Rv64M.core s))
  /\ (exists n s',
        (n <= 8)%nat
        /\ RunM.takes AT
             (Asm.bind (Mem.StoreFpuToOffset AT Mem.kStoreDoubleword fs base offset)
                (fun _ => Mem.LoadFpuFromOffset AT Mem.kLoadDoubleword fd base offset))
             n s s'
        /\ Rv64.pc (Rv64M.core s') = 4 * Z.of_nat n
        /\ Rv64.f (Rv64M.core s') fd = Rv64.f (Rv64M.core s) fs
        /\ Rv64M.mem s' a = Rv64M.VFloat (Rv64.f (Rv64M.core s) fs)
        /\ (forall a', a' <> a -> Rv64M.mem s' a' = Rv64M.mem s a')
        /\ (forall r, r <> AT ->
              Rv64.getx (Rv64M.core s') r = Rv64.getx (Rv64M.core s) r)
        /\ (forall fr, fr <> fd ->
              Rv64.f (Rv64M.core s') fr = Rv64.f (Rv64M.core s) fr)).
Proof.
  intros Hb HA Hreg Hrd Hpc a Hal. split.
  - destruct (StoreToOffset_cases AT base offset Hb HA reg Hreg)
      as (b1 & o1 & p1 & I1 & S1 & L1 & R1).
    destruct (LoadFromOffset_cases AT base offset Hb HA rd)
      as (b2 & o2 & p2 & I2 & S2 & L2 & R2).
    destruct (R1 (Rv64M.core s)) as (c1 & E1 & A1 & F1 & FF1).
    set (u := Rv64M.store (Rv64M.with_core s c1) a (Rv64M.VInt (Rv64.getx c1 reg))).
    destruct (R2 (Rv64M.core u)) as (c2 & E2 & A2 & F2 & FF2).
    assert (Bu : Rv64.getx (Rv64M.core u) base = Rv64.getx (Rv64M.core s) base).
    { unfold u. cbn [Rv64M.store Rv64M.core Rv64M.with_core].
      rewrite getx_next. apply F1, Hb. }
    set (t := Rv64M.with_core (Rv64M.with_core u c2)
                (Rv64.next (Rv64.setx c2 rd (Rv64.getx c1 reg)))).
    set (prog := (map Rv64M.Core p1 ++ [Rv64M.SD reg b1 (sext 12 o1)])
                 ++ (map Rv64M.Core p2 ++ [Rv64M.LD rd b2 (sext 12 o2)])).
    destruct (implementsM_takes AT _ prog s t (implementsM_bind _ _ _ _ I1 I2))
      as [T P].
    { unfold prog. rewrite forallb_app, !access_straight by (assumption || reflexivity).
      reflexivity. }
    { exact Hpc. }
    { unfold prog. rewrite execM_app.
      rewrite (access_exec s u p1 _ c1 E1).
      2:{ cbn [Rv64M.step_instr]. unfold Rv64M.address.
          cbn [Rv64M.with_core Rv64M.core]. rewrite A1. fold a.
          rewrite Hal. reflexivity. }
      apply (access_exec u t p2 _ c2 E2).
      cbn [Rv64M.step_instr]. unfold Rv64M.address.
      cbn [Rv64M.with_core Rv64M.core Rv64M.mem]. rewrite A2, Bu. fold a.
      rewrite Hal. change (Rv64M.mem u a) with (Rv64M.mem u a).
      unfold u at 1. rewrite mem_store_same. reflexivity. }
    exists (List.length prog), t. split.
    { unfold prog. rewrite !length_app, !length_map. cbn [List.length]. lia. }
    split; [exact T|]. split; [exact P|].
    unfold t. cbn [Rv64M.with_core Rv64M.core Rv64M.mem].
    split; [|split; [|split; [|split]]].
    + regs. f_equal. apply F1, Hreg.
    + unfold u. rewrite mem_store_same. f_equal. apply F1, Hreg.
    + intros a' Ha. unfold u. rewrite mem_store_other by exact Ha. reflexivity.
    + intros r H1 H2. regs. rewrite (F2 r H2). unfold u.
      cbn [Rv64M.store Rv64M.core Rv64M.with_core]. rewrite getx_next.
      apply F1, H2.
    + transitivity (Rv64.f c2); [reflexivity|]. rewrite FF2. exact FF1.
  - destruct (StoreFpuToOffset_cases AT base offset Hb HA fs)
      as (b1 & o1 & p1 & I1 & S1 & L1 & R1).
    destruct (LoadFpuFromOffset_cases AT base offset Hb HA fd)
      as (b2 & o2 & p2 & I2 & S2 & L2 & R2).
    destruct (R1 (Rv64M.core s)) as (c1 & E1 & A1 & F1 & FF1).
    set (u := Rv64M.store (Rv64M.with_core s c1) a (Rv64M.VFloat (Rv64.f c1 fs))).
    destruct (R2 (Rv64M.core u)) as (c2 & E2 & A2 & F2 & FF2).
    assert (Bu : Rv64.getx (Rv64M.core u) base = Rv64.getx (Rv64M.core s) base).
    { unfold u. cbn [Rv64M.store Rv64M.core Rv64M.with_core].
      rewrite getx_next. apply F1, Hb. }
    set (t := Rv64M.with_core (Rv64M.with_core u c2)
                (Rv64.next (Rv64.setf c2 fd (Rv64.f c1 fs)))).
    set (prog := (map Rv64M.Core p1 ++ [Rv64M.FSD fs b1 (sext 12 o1)])
                 ++ (map Rv64M.Core p2 ++ [Rv64M.FLD fd b2 (sext 12 o2)])).
    destruct (implementsM_takes AT _ prog s t (implementsM_bind _ _ _ _ I1 I2))
      as [T P].
    { unfold prog. rewrite forallb_app, !access_straight by (assumption || reflexivity).
      reflexivity. }
    { exact Hpc. }
    { unfold prog. rewrite execM_app.
      rewrite (access_exec s u p1 _ c1 E1).
      2:{ cbn [Rv64M.step_instr]. unfold Rv64M.address.
          cbn [Rv64M.with_core Rv64M.core]. rewrite A1. fold a.
          rewrite Hal. reflexivity. }
      apply (access_exec u t p2 _ c2 E2).
      cbn [Rv64M.step_instr]. unfold Rv64M.address.
      cbn [Rv64M.with_core Rv64M.core Rv64M.mem]. rewrite A2, Bu. fold a.
      rewrite Hal. unfold u at 1. rewrite mem_store_same. reflexivity. }
    exists (List.length prog), t. split.
    { unfold prog. rewrite !length_app, !length_map. cbn [List.length]. lia. }
    split; [exact T|]. split; [exact P|].
    unfold t. cbn [Rv64M.with_core Rv64M.core Rv64M.mem].
    split; [|split; [|split; [|split]]].
    + cbn [Rv64.next Rv64.goto Rv64.setf Rv64.f]. rewrite fpu_eqb_refl.
      rewrite FF1. reflexivity.
    + unfold u. rewrite mem_store_same. rewrite FF1. reflexivity.
    + intros a' Ha. unfold u. rewrite mem_store_other by exact Ha. reflexivity.
    + intros r H2. change (Rv64.getx c2 r = Rv64.getx (Rv64M.core s) r).
      rewrite (F2 r H2). unfold u.
      cbn [Rv64M.store Rv64M.core Rv64M.with_core]. rewrite getx_next.
      apply F1, H2.
    + intros fr Hfr. cbn [Rv64.next Rv64.goto Rv64.setf Rv64.f].
      destruct (fpu_eqb fr fd) eqn:Eq; [apply fpu_eqb_eq in Eq; contradiction|].
      rewrite FF2. unfold u. cbn [Rv64M.store Rv64M.core Rv64M.with_core].
      change (Rv64.f (Rv64.next c1) fr) with (Rv64.f c1 fr). rewrite FF1.
      reflexivity.
Qed.

(** A state whose registers hold 8 times their numbers, over a memory of
    zeros. *)
Definition sample_memory : Rv64M.State :=
  {| Rv64M.core := {| Rv64.pc := 0; Rv64.x := fun r => 8 * gpu_num r;
                      Rv64.f := fun _ => S754_zero false |};
     Rv64M.mem := fun _ => Rv64M.VInt 0 |}.

Lemma store_then_load_round_trip_witness :
  exists n s',
    RunM.takes T4
      (Asm.bind (Mem.StoreToOffset T4 Mem.kStoreDoubleword A0 S0 0x12340)
         (fun _ => Mem.LoadFromOffset T4 Mem.kLoadDoubleword A1 S0 0x12340))
      n sample_memory s'
    /\ Rv64.getx (Rv64M.core s') A1 = 80.
Proof.
  destruct (store_then_load_round_trip T4 S0 A0 A1 FT0 FT1 0x12340 sample_memory)
    as [(n & s' & _ & T & _ & G & _) _]; try discriminate; try reflexivity.
  exists n, s'. split; [exact T|]. rewrite G. reflexivity.
Defined.


(** ** Building and removing a frame *)

(** The doubleword a register is saved as, a register holding the value
    of a doubleword, and the two being of one kind. *)
Definition cell_of (c : Rv64.State) (r : Jni.ManagedRegister) : Rv64M.Cell :=
  match r with
  | Jni.FromGpuRegister g => Rv64M.VInt (Rv64.getx c g)
  | Jni.FromFpuRegister f => Rv64M.VFloat (Rv64.f c f)
  | Jni.NoRegister => Rv64M.VInt 0
  end.

Definition holds (c : Rv64.State) (r : Jni.ManagedRegister) (v : Rv64M.Cell)
  : Prop :=
  match r, v with
  | Jni.FromGpuRegister g, Rv64M.VInt z => Rv64.getx c g = sext 64 z
  | Jni.FromFpuRegister f, Rv64M.VFloat x => Rv64.f c f = x
  | _, _ => False
  end.

Definition fits (r : Jni.ManagedRegister) (v : Rv64M.Cell) : Prop :=
  match r, v with
  | Jni.FromGpuRegister _, Rv64M.VInt _ => True
  | Jni.FromFpuRegister _, Rv64M.VFloat _ => True
  | _, _ => False
  end.

(** The registers a frame can save: not the zero register, and none of
    RA, SP and AT, which the frame code uses itself. *)
Definition saved (AT : GpuRegister) (r : Jni.ManagedRegister) : Prop :=
  match r with
  | Jni.FromGpuRegister g => g <> ZERO /\ g <> RA /\ g <> SP /\ g <> AT
  | Jni.FromFpuRegister _ => True
  | Jni.NoRegister => False
  end.

(** The address of the slot at an offset from the stack pointer. *)
Definition slot (sp offset : Z) : Z := u64 (sp + offset).

Lemma slot_inj (sp o1 o2 : Z) :
  - 2 ^ 63 < o1 - o2 < 2 ^ 63 -> slot sp o1 = slot sp o2 -> o1 = o2.
Proof.
  unfold slot, u64. intros H E. pow_consts.
  assert (D : (o1 - o2) mod 18446744073709551616 = 0).
  { replace (o1 - o2) with ((sp + o1) - (sp + o2)) by lia.
    rewrite Zminus_mod, E, Z.sub_diag. reflexivity. }
  apply Z.mod_divide in D; [|lia]. destruct D as [q D]. lia.
Qed.

Lemma slot_aligned (sp offset : Z) :
  sp mod 8 = 0 -> offset mod 8 = 0 -> slot sp offset mod 8 = 0.
Proof.
  intros H1 H2. unfold slot. rewrite u64_mod8.
  rewrite Z.add_mod, H1, H2 by lia. reflexivity.
Qed.

Lemma displacement_small (offset : Z) :
  - 2 ^ 31 <= offset < 0x7FFFF800 -> displacement offset = offset.
Proof.
  intros H. unfold displacement.
  rewrite (sext_small 32 offset) by (pow_consts; lia).
  destruct (Z.ltb_spec offset 2147481600); [reflexivity|lia].
Qed.

Definition store_of (AT : GpuRegister) (r : Jni.ManagedRegister) (offset : Z)
  : Asm.M unit :=
  match r with
  | Jni.FromGpuRegister g => Mem.StoreToOffset AT Mem.kStoreDoubleword g SP offset
  | Jni.FromFpuRegister f => Mem.StoreFpuToOffset AT Mem.kStoreDoubleword f SP offset
  | Jni.NoRegister => Asm.fatal
  end.

Definition load_of (AT : GpuRegister) (r : Jni.ManagedRegister) (offset : Z)
  : Asm.M unit :=
  match r with
  | Jni.FromGpuRegister g => Mem.LoadFromOffset AT Mem.kLoadDoubleword g SP offset
  | Jni.FromFpuRegister f => Mem.LoadFpuFromOffset AT Mem.kLoadDoubleword f SP offset
  | Jni.NoRegister => Asm.fatal
  end.

Section Slots.
Variable AT : GpuRegister.
Hypothesis HA : AT <> ZERO.
Hypothesis HS : SP <> AT.

(** Saving one register in its slot. *)
Lemma store_slot (r : Jni.ManagedRegister) (offset : Z) :
  r <> Jni.NoRegister -> r <> Jni.FromGpuRegister AT ->
  - 2 ^ 31 <= offset < 0x7FFFF800 -> offset mod 8 = 0 ->
  exists prog,
    RunM.implements (store_of AT r offset) prog
    /\ forallb RunM.straight prog = true
    /\ (List.length prog <= 4)%nat
    /\ forall s,
         Rv64.getx (Rv64M.core s) SP mod 8 = 0 ->
         exists s',
           RunM.exec_seq prog s = Some s'
           /\ (forall g, g <> AT ->
                 Rv64.getx (Rv64M.core s') g = Rv64.getx (Rv64M.core s) g)
           /\ Rv64.f (Rv64M.core s') = Rv64.f (Rv64M.core s)
           /\ Rv64M.mem s' (slot (Rv64.getx (Rv64M.core s) SP) offset)
              = cell_of (Rv64M.core s) r
           /\ (forall a, a <> slot (Rv64.getx (Rv64M.core s) SP) offset ->
                 Rv64M.mem s' a = Rv64M.mem s a).
Proof.
  intros Hn Hr Ho Hal.
  destruct r as [|g|f]; [contradiction| |]; cbn [store_of cell_of].
  - assert (Hg : g <> AT) by congruence.
    destruct (StoreToOffset_cases AT SP offset HS HA g Hg)
      as (b & o & p & I & S & L & R).
    eexists. split; [exact I|]. split; [apply access_straight; [exact S|reflexivity]|].
    split; [rewrite length_app, length_map; cbn [List.length]; lia|].
    intros s Hsp. destruct (R (Rv64M.core s)) as (c & E & A & F & FF).
    rewrite (displacement_small offset Ho) in A.
    fold (slot (Rv64.getx (Rv64M.core s) SP) offset) in A.
    set (a := slot (Rv64.getx (Rv64M.core s) SP) offset) in *.
    exists (Rv64M.store (Rv64M.with_core s c) a (Rv64M.VInt (Rv64.getx c g))).
    split.
    { apply (access_exec s _ p _ c E). cbn [Rv64M.step_instr].
      unfold Rv64M.address. cbn [Rv64M.with_core Rv64M.core]. rewrite A.
      unfold a. rewrite (slot_aligned _ _ Hsp Hal). reflexivity. }
    split; [intros g' H'; cbn [Rv64M.store Rv64M.core Rv64M.with_core];
            rewrite getx_next; apply F, H'|].
    split; [exact FF|].
    split; [rewrite mem_store_same, (F g Hg); reflexivity|].
    intros a' H'. rewrite mem_store_other by exact H'. reflexivity.
  - destruct (StoreFpuToOffset_cases AT SP offset HS HA f)
      as (b & o & p & I & S & L & R).
    eexists. split; [exact I|]. split; [apply access_straight; [exact S|reflexivity]|].
    split; [rewrite length_app, length_map; cbn [List.length]; lia|].
    intros s Hsp. destruct (R (Rv64M.core s)) as (c & E & A & F & FF).
    rewrite (displacement_small offset Ho) in A.
    fold (slot (Rv64.getx (Rv64M.core s) SP) offset) in A.
    set (a := slot (Rv64.getx (Rv64M.core s) SP) offset) in *.
    exists (Rv64M.store (Rv64M.with_core s c) a (Rv64M.VFloat (Rv64.f c f))).
    split.
    { apply (access_exec s _ p _ c E). cbn [Rv64M.step_instr].
      unfold Rv64M.address. cbn [Rv64M.with_core Rv64M.core]. rewrite A.
      unfold a. rewrite (slot_aligned _ _ Hsp Hal). reflexivity. }
    split; [intros g' H'; cbn [Rv64M.store Rv64M.core Rv64M.with_core];
            rewrite getx_next; apply F, H'|].
    split; [exact FF|].
    split; [rewrite mem_store_same, FF; reflexivity|].
    intros a' H'. rewrite mem_store_other by exact H'. reflexivity.
Qed.

(** Loading one register from its slot. *)
Lemma load_slot (r : Jni.ManagedRegister) (offset : Z) :
  r <> Jni.NoRegister -> r <> Jni.FromGpuRegister ZERO ->
  - 2 ^ 31 <= offset < 0x7FFFF800 -> offset mod 8 = 0 ->
  exists prog,
    RunM.implements (load_of AT r offset) prog
    /\ forallb RunM.straight prog = true
    /\ (List.length prog <= 4)%nat
    /\ forall s,
         Rv64.getx (Rv64M.core s) SP mod 8 = 0 ->
         fits r (Rv64M.mem s (slot (Rv64.getx (Rv64M.core s) SP) offset)) ->
         exists s',
           RunM.exec_seq prog s = Some s'
           /\ Rv64M.mem s' = Rv64M.mem s
           /\ holds (Rv64M.core s') r
                (Rv64M.mem s (slot (Rv64.getx (Rv64M.core s) SP) offset))
           /\ (forall g, Jni.FromGpuRegister g <> r -> g <> AT ->
                 Rv64.getx (Rv64M.core s') g = Rv64.getx (Rv64M.core s) g)
           /\ (forall f, Jni.FromFpuRegister f <> r ->
                 Rv64.f (Rv64M.core s') f = Rv64.f (Rv64M.core s) f).
Proof.
  intros Hn Hr Ho Hal.
  destruct r as [|g|f]; [contradiction| |]; cbn [load_of].
  - assert (Hg : g <> ZERO) by congruence.
    destruct (LoadFromOffset_cases AT SP offset HS HA g)
      as (b & o & p & I & S & L & R).
    eexists. split; [exact I|]. split; [apply access_straight; [exact S|reflexivity]|].
    split; [rewrite length_app, length_map; cbn [List.length]; lia|].
    intros s Hsp Hfit. destruct (R (Rv64M.core s)) as (c & E & A & F & FF).
    rewrite (displacement_small offset Ho) in A.
    fold (slot (Rv64.getx (Rv64M.core s) SP) offset) in A.
    set (a := slot (Rv64.getx (Rv64M.core s) SP) offset) in *.
    destruct (Rv64M.mem s a) as [v|v] eqn:M; [|destruct Hfit].
    exists (Rv64M.with_core (Rv64M.with_core s c) (Rv64.next (Rv64.setx c g v))).
    split.
    { apply (access_exec s _ p _ c E). cbn [Rv64M.step_instr].
      unfold Rv64M.address. cbn [Rv64M.with_core Rv64M.core Rv64M.mem]. rewrite A.
      unfold a at 1. rewrite (slot_aligned _ _ Hsp Hal). cbn [Z.eqb].
      rewrite M. reflexivity. }
    cbn [Rv64M.core Rv64M.with_core Rv64M.mem holds].
    split; [reflexivity|]. split; [regs; reflexivity|].
    split.
    + intros g' H1 H2. assert (g' <> g) by congruence. regs. apply F, H2.
    + intros f' _. change (Rv64.f c f' = Rv64.f (Rv64M.core s) f').
      rewrite FF. reflexivity.
  - destruct (LoadFpuFromOffset_cases AT SP offset HS HA f)
      as (b & o & p & I & S & L & R).
    eexists. split; [exact I|]. split; [apply access_straight; [exact S|reflexivity]|].
    split; [rewrite length_app, length_map; cbn [List.length]; lia|].
    intros s Hsp Hfit. destruct (R (Rv64M.core s)) as (c & E & A & F & FF).
    rewrite (displacement_small offset Ho) in A.
    fold (slot (Rv64.getx (Rv64M.core s) SP) offset) in A.
    set (a := slot (Rv64.getx (Rv64M.core s) SP) offset) in *.
    destruct (Rv64M.mem s a) as [v|v] eqn:M; [destruct Hfit|].
    exists (Rv64M.with_core (Rv64M.with_core s c) (Rv64.next (Rv64.setf c f v))).
    split.
    { apply (access_exec s _ p _ c E). cbn [Rv64M.step_instr].
      unfold Rv64M.address. cbn [Rv64M.with_core Rv64M.core Rv64M.mem]. rewrite A.
      unfold a at 1. rewrite (slot_aligned _ _ Hsp Hal). cbn [Z.eqb].
      rewrite M. reflexivity. }
    cbn [Rv64M.core Rv64M.with_core Rv64M.mem holds].
    split; [reflexivity|].
    split; [cbn [Rv64.next Rv64.goto Rv64.setf Rv64.f]; rewrite fpu_eqb_refl;
            reflexivity|].
    split.
    + intros g' _ H2. change (Rv64.getx c g' = Rv64.getx (Rv64M.core s) g').
      apply F, H2.
    + intros f' H1. assert (Hne : f' <> f) by congruence.
      cbn [Rv64.next Rv64.goto Rv64.setf Rv64.f].
      destruct (fpu_eqb f' f) eqn:Eq; [apply fpu_eqb_eq in Eq; contradiction|].
      rewrite FF. reflexivity.
Qed.

End Slots.

(** A method that returns a value, on the machine with a memory. *)
Definition implementsM_v {A : Type} (m : Asm.M A) (v : A)
    (prog : list Rv64M.Instr) : Prop :=
  exists ws,
    (forall a, Asm.overwriting_ a = false ->
       m a = Some (v, Asm.with_buffer a (Asm.buffer_ a ++ words ws)))
    /\ Forall2 (fun w i => Rv64M.decode (u32 w) = Some i) ws prog.

Lemma implementsM_v_ret {A : Type} (v : A) : implementsM_v (Asm.ret v) v [].
Proof.
  exists []. split; [|apply Forall2_nil].
  intros a _. unfold Asm.ret, words. cbn [flat_map]. rewrite app_nil_r.
  destruct a; reflexivity.
Qed.

Lemma implementsM_v_seq {A : Type} (m : Asm.M unit) (k : Asm.M A) (v : A)
    (p1 p2 : list Rv64M.Instr) :
  RunM.implements m p1 -> implementsM_v k v p2 ->
  implementsM_v (Asm.bind m (fun _ => k)) v (p1 ++ p2).
Proof.
  intros (w1 & E1 & D1) (w2 & E2 & D2). exists (w1 ++ w2).
  split; [|apply Forall2_app; assumption].
  intros a Ha. unfold Asm.bind. rewrite (E1 a Ha).
  rewrite E2 by (destruct a; exact Ha). destruct a; cbn.
  rewrite words_app, app_assoc. reflexivity.
Qed.

Lemma implementsM_v_then {A : Type} (m : Asm.M A) (v : A) (k : A -> Asm.M unit)
    (p1 p2 : list Rv64M.Instr) :
  implementsM_v m v p1 -> RunM.implements (k v) p2 ->
  RunM.implements (Asm.bind m k) (p1 ++ p2).
Proof.
  intros (w1 & E1 & D1) (w2 & E2 & D2). exists (w1 ++ w2).
  split; [|apply Forall2_app; assumption].
  intros a Ha. unfold Asm.bind. rewrite (E1 a Ha).
  rewrite E2 by (destruct a; exact Ha). destruct a; cbn.
  rewrite words_app, app_assoc. reflexivity.
Qed.

Section Spill.
Variable AT : GpuRegister.
Hypothesis HA : AT <> ZERO.
Hypothesis HS : SP <> AT.

Lemma saved_storable (r : Jni.ManagedRegister) :
  saved AT r -> r <> Jni.NoRegister /\ r <> Jni.FromGpuRegister AT
                /\ r <> Jni.FromGpuRegister ZERO /\ r <> Jni.FromGpuRegister SP.
Proof.
  destruct r as [|g|f]; cbn [saved]; [contradiction| |].
  - intros (H0 & HR & H1 & H2). repeat split; congruence.
  - intros _. repeat split; discriminate.
Qed.

Lemma cell_of_kept (c c' : Rv64.State) (r : Jni.ManagedRegister) :
  saved AT r ->
  (forall g, g <> AT -> Rv64.getx c' g = Rv64.getx c g) ->
  Rv64.f c' = Rv64.f c ->
  cell_of c' r = cell_of c r.
Proof.
  destruct r as [|g|f]; cbn [saved cell_of]; [contradiction| |].
  - intros (_ & _ & _ & Hg) F _. rewrite (F g Hg). reflexivity.
  - intros _ _ FF. rewrite FF. reflexivity.
Qed.

Lemma spill_step (r : Jni.ManagedRegister) (rest : list Jni.ManagedRegister)
    (offset : Z) :
  saved AT r -> 8 <= offset < 2 ^ 31 ->
  Mem.spill AT (r :: rest) offset
  = Asm.bind (store_of AT r (offset - 8))
             (fun _ => Mem.spill AT rest (offset - 8)).
Proof.
  intros Hr Ho. cbn [Mem.spill]. unfold Offsets.kFramePointerSize.
  rewrite (sext_small 32 (offset - 8)) by (pow_consts; lia).
  destruct r as [|g|f]; cbn [saved] in Hr; [contradiction| |reflexivity].
  destruct Hr as (_ & HR & _). rewrite (gpu_eqb_neq _ _ HR). reflexivity.
Qed.

(** The loop of BuildFrame fills one slot for each register, downwards
    from the offset it starts at. *)
Lemma spill_runs (regs : list Jni.ManagedRegister) (offset : Z) :
  Forall (saved AT) regs ->
  8 * Z.of_nat (List.length regs) <= offset -> offset < 0x7FFFF800 ->
  offset mod 8 = 0 ->
  exists prog,
    RunM.implements (Mem.spill AT regs offset) prog
    /\ forallb RunM.straight prog = true
    /\ (List.length prog <= 4 * List.length regs)%nat
    /\ forall s,
         Rv64.getx (Rv64M.core s) SP mod 8 = 0 ->
         exists s',
           RunM.exec_seq prog s = Some s'
           /\ (forall g, g <> AT ->
                 Rv64.getx (Rv64M.core s') g = Rv64.getx (Rv64M.core s) g)
           /\ Rv64.f (Rv64M.core s') = Rv64.f (Rv64M.core s)
           /\ (forall k r, nth_error regs k = Some r ->
                 Rv64M.mem s' (slot (Rv64.getx (Rv64M.core s) SP)
                                    (offset - 8 * (Z.of_nat k + 1)))
                 = cell_of (Rv64M.core s) r)
           /\ (forall a,
                 (forall k, (k < List.length regs)%nat ->
                    a <> slot (Rv64.getx (Rv64M.core s) SP)
                              (offset - 8 * (Z.of_nat k + 1))) ->
                 Rv64M.mem s' a = Rv64M.mem s a).
Proof.
  revert offset. induction regs as [|r rest IH]; intros offset Hall Hlen Hmax Hal.
  - exists []. split; [apply implementsM_ret|]. split; [reflexivity|].
    split; [cbn; lia|]. intros s _. exists s. split; [reflexivity|].
    split; [reflexivity|]. split; [reflexivity|].
    split; [intros [|k] r H; discriminate|]. reflexivity.
  - inversion Hall as [|r' rest' Hr Hrest]; subst.
    cbn [List.length] in Hlen.
    destruct (saved_storable r Hr) as (Hn & HnA & _ & _).
    rewrite spill_step by (assumption || pow_consts; lia).
    destruct (store_slot AT HA HS r (offset - 8) Hn HnA)
      as (p1 & I1 & S1 & L1 & R1);
      [pow_consts; lia|Z.div_mod_to_equations; lia|].
    destruct (IH (offset - 8) Hrest) as (p2 & I2 & S2 & L2 & R2);
      [lia|lia|Z.div_mod_to_equations; lia|].
    exists (p1 ++ p2). split; [apply implementsM_bind; assumption|].
    split; [rewrite forallb_app, S1, S2; reflexivity|].
    split; [rewrite length_app; cbn [List.length]; lia|].
    intros s Hsp. destruct (R1 s Hsp) as (s1 & E1 & F1 & FF1 & M1 & O1).
    assert (Sp1 : Rv64.getx (Rv64M.core s1) SP = Rv64.getx (Rv64M.core s) SP)
      by (apply F1, HS).
    destruct (R2 s1) as (s2 & E2 & F2 & FF2 & M2 & O2); [rewrite Sp1; exact Hsp|].
    rewrite Sp1 in M2, O2.
    exists s2. split; [rewrite execM_app, E1; exact E2|].
    split; [intros g Hg; rewrite (F2 g Hg); apply F1, Hg|].
    split; [rewrite FF2; exact FF1|].
    split.
    + intros [|k] r0 N; cbn [nth_error] in N.
      * injection N as <-. rewrite O2; [exact M1|].
        intros k Hk E. apply slot_inj in E; [lia|]. pow_consts. lia.
      * replace (offset - 8 * (Z.of_nat (S k) + 1))
          with (offset - 8 - 8 * (Z.of_nat k + 1)) by lia.
        rewrite (M2 k r0 N). apply cell_of_kept; try assumption.
        apply (proj1 (Forall_forall _ _) Hrest). apply nth_error_In in N. exact N.
    + intros a Ha. rewrite O2.
      * apply O1. specialize (Ha 0%nat ltac:(cbn [List.length]; lia)).
        replace (offset - 8 * (Z.of_nat 0 + 1)) with (offset - 8) in Ha by lia.
        exact Ha.
      * intros k Hk. specialize (Ha (S k) ltac:(cbn [List.length]; lia)).
        replace (offset - 8 * (Z.of_nat (S k) + 1))
          with (offset - 8 - 8 * (Z.of_nat k + 1)) in Ha by lia.
        exact Ha.
Qed.

Lemma unspill_step (r : Jni.ManagedRegister) (rest : list Jni.ManagedRegister)
    (offset : Z) :
  saved AT r -> - 2 ^ 31 <= offset < 2 ^ 31 - 8 ->
  Mem.unspill AT (r :: rest) offset
  = Asm.bind (load_of AT r offset)
             (fun _ => Mem.unspill AT rest (offset + 8)).
Proof.
  intros Hr Ho. cbn [Mem.unspill]. unfold Offsets.kFramePointerSize.
  rewrite (sext_small 32 (offset + 8)) by (pow_consts; lia).
  destruct r as [|g|f]; cbn [saved] in Hr; [contradiction| |reflexivity].
  destruct Hr as (_ & HR & _). rewrite (gpu_eqb_neq _ _ HR). reflexivity.
Qed.

Lemma holds_kept (c c' : Rv64.State) (r : Jni.ManagedRegister) (v : Rv64M.Cell) :
  (forall g, r = Jni.FromGpuRegister g -> Rv64.getx c' g = Rv64.getx c g) ->
  (forall f, r = Jni.FromFpuRegister f -> Rv64.f c' f = Rv64.f c f) ->
  holds c r v -> holds c' r v.
Proof.
  destruct r as [|g|f], v as [z|x]; cbn [holds]; try contradiction; intros G F H.
  - rewrite (G g eq_refl). exact H.
  - rewrite (F f eq_refl). exact H.
Qed.

(** The loop of RemoveFrame loads each register from one slot, upwards
    from the offset it starts at. *)
Lemma unspill_runs (regs : list Jni.ManagedRegister) (offset : Z) :
  Forall (saved AT) regs -> NoDup regs ->
  - 2 ^ 31 <= offset ->
  offset + 8 * Z.of_nat (List.length regs) < 0x7FFFF800 ->
  offset mod 8 = 0 ->
  exists prog,
    implementsM_v (Mem.unspill AT regs offset)
                  (offset + 8 * Z.of_nat (List.length regs)) prog
    /\ forallb RunM.straight prog = true
    /\ (List.length prog <= 4 * List.length regs)%nat
    /\ forall s,
         Rv64.getx (Rv64M.core s) SP mod 8 = 0 ->
         (forall k r, nth_error regs k = Some r ->
            fits r (Rv64M.mem s (slot (Rv64.getx (Rv64M.core s) SP)
                                      (offset + 8 * Z.of_nat k)))) ->
         exists s',
           RunM.exec_seq prog s = Some s'
           /\ Rv64M.mem s' = Rv64M.mem s
           /\ (forall k r, nth_error regs k = Some r ->
                 holds (Rv64M.core s') r
                   (Rv64M.mem s (slot (Rv64.getx (Rv64M.core s) SP)
                                      (offset + 8 * Z.of_nat k))))
           /\ (forall g, ~ In (Jni.FromGpuRegister g) regs -> g <> AT ->
                 Rv64.getx (Rv64M.core s') g = Rv64.getx (Rv64M.core s) g)
           /\ (forall f, ~ In (Jni.FromFpuRegister f) regs ->
                 Rv64.f (Rv64M.core s') f = Rv64.f (Rv64M.core s) f).
Proof.
  revert offset. induction regs as [|r rest IH];
    intros offset Hall Hnd Hmin Hmax Hal.
  - exists []. cbn [List.length Z.of_nat]. rewrite Z.mul_0_r, Z.add_0_r.
    split; [apply implementsM_v_ret|]. split; [reflexivity|].
    split; [cbn; lia|]. intros s _ _. exists s. split; [reflexivity|].
    split; [reflexivity|]. split; [intros [|k] r H; discriminate|].
    split; reflexivity.
  - inversion Hall as [|r' rest' Hr Hrest]; subst.
    inversion Hnd as [|r' rest' Hnin Hnd']; subst.
    cbn [List.length] in Hmax |- *.
    destruct (saved_storable r Hr) as (Hn & HnA & Hn0 & HnS).
    rewrite unspill_step by (assumption || pow_consts; lia).
    destruct (load_slot AT HA HS r offset Hn Hn0)
      as (p1 & I1 & S1 & L1 & R1); [pow_consts; lia|exact Hal|].
    destruct (IH (offset + 8) Hrest Hnd') as (p2 & I2 & S2 & L2 & R2);
      [lia|lia|Z.div_mod_to_equations; lia|].
    exists (p1 ++ p2). split.
    { replace (offset + 8 * Z.of_nat (S (List.length rest)))
        with (offset + 8 + 8 * Z.of_nat (List.length rest)) by lia.
      apply implementsM_v_seq; assumption. }
    split; [rewrite forallb_app, S1, S2; reflexivity|].
    split; [rewrite length_app; lia|].
    intros s Hsp Hfit.
    destruct (R1 s Hsp) as (s1 & E1 & M1 & H1 & F1 & FF1).
    { specialize (Hfit 0%nat r eq_refl). rewrite Z.mul_0_r, Z.add_0_r in Hfit.
      exact Hfit. }
    assert (Sp1 : Rv64.getx (Rv64M.core s1) SP = Rv64.getx (Rv64M.core s) SP)
      by (apply F1; congruence).
    destruct (R2 s1) as (s2 & E2 & M2 & H2 & F2 & FF2).
    { rewrite Sp1. exact Hsp. }
    { intros k r0 N. rewrite Sp1, M1.
      replace (offset + 8 + 8 * Z.of_nat k) with (offset + 8 * Z.of_nat (S k)) by lia.
      apply (Hfit (S k) r0 N). }
    rewrite Sp1, M1 in H2.
    exists s2. split; [rewrite execM_app, E1; exact E2|].
    split; [rewrite M2; exact M1|].
    split; [|split].
    + intros [|k] r0 N; cbn [nth_error] in N.
      * injection N as <-. rewrite Z.mul_0_r, Z.add_0_r.
        apply (holds_kept (Rv64M.core s1)); [| |exact H1].
        -- intros g ->. apply F2; [exact Hnin|congruence].
        -- intros f ->. apply FF2. exact Hnin.
      * replace (offset + 8 * Z.of_nat (S k)) with (offset + 8 + 8 * Z.of_nat k)
          by lia.
        apply (H2 k r0 N).
    + intros g Hg HgA. rewrite F2; [apply F1|..]; try assumption.
      * intros E. apply Hg. left. symmetry. exact E.
      * intros E. apply Hg. right. exact E.
    + intros f Hf. rewrite FF2; [apply FF1|].
      * intros E. apply Hf. left. symmetry. exact E.
      * intros E. apply Hf. right. exact E.
Qed.

End Spill.

Lemma LoadConst32_keeps_f (rd : GpuRegister) (value : Z) (s s' : Rv64.State) :
  exec_seq (LoadConst32_prog rd value) s = Some s' -> Rv64.f s' = Rv64.f s.
Proof.
  unfold LoadConst32_prog. destruct (IsInt 12 (sext 32 value)).
  - cbn [exec_seq Rv64.step_instr]. intros H. injection H as <-. reflexivity.
  - destruct (negb (lo12 (sext 32 value) =? 0));
      cbn [exec_seq Rv64.step_instr]; intros H; injection H as <-; reflexivity.
Qed.

(** Addiu64 with a constant of 32 bits, as a program for every state. *)
Lemma Addiu64_int32_prog (TMP2 rd rs rtmp : GpuRegister) (v : Z) :
  rd <> ZERO -> rtmp <> ZERO -> rtmp <> rs ->
  - 2 ^ 31 <= v < 2 ^ 31 ->
  exists prog,
    Run.implements (Macro.Addiu64 TMP2 rd rs v rtmp) prog
    /\ forallb Run.straight prog = true
    /\ (List.length prog <= 3)%nat
    /\ forall s, exists s',
         Run.exec_seq prog s = Some s'
         /\ Rv64.getx s' rd = sext 64 (Rv64.getx s rs + v)
         /\ (forall r, r <> rd -> r <> rtmp -> Rv64.getx s' r = Rv64.getx s r)
         /\ Rv64.f s' = Rv64.f s.
Proof.
  intros Hrd Htmp Hts Hv. unfold Macro.Addiu64.
  assert (S64 : sext 64 v = v).
  { apply sext_small; [lia|]. pow_consts. lia. }
  rewrite S64.
  assert (Chk : negb (gpu_eqb rs rtmp) = true).
  { rewrite gpu_eqb_neq by congruence. reflexivity. }
  destruct (IsInt 12 v) eqn:I.
  - exists [Rv64I.Base (Rv64.ADDI rd rs (sext 12 v))].
    split; [apply implements_CHECK; [exact Chk|apply implements_Addi]|].
    split; [reflexivity|]. split; [cbn; lia|]. intros s. eexists.
    split; [reflexivity|]. split; [|split; [|reflexivity]].
    + regs. rewrite (sext12_small v I). reflexivity.
    + intros r H1 H2. regs. reflexivity.
  - assert (P : LoadConst64_prog TMP2 rtmp v = LoadConst32_prog rtmp v).
    { unfold LoadConst64_prog. rewrite S64.
      replace (IsInt 32 v) with true; [reflexivity|].
      symmetry. apply IsInt_range. change (2 ^ (32 - 1)) with (2 ^ 31). exact Hv. }
    destruct (LoadConst32_straight rtmp v) as [S1 L1].
    exists (map Rv64I.Base (LoadConst32_prog rtmp v)
            ++ [Rv64I.OP Rv64I.ADD rd rs rtmp]).
    split.
    { apply implements_CHECK; [exact Chk|]. rewrite <- P.
      apply implements_bind; [apply implements_LoadConst64|apply implements_Add]. }
    split; [rewrite forallb_app, straight_Base, S1; reflexivity|].
    split; [rewrite length_app, length_map; cbn [List.length]; lia|].
    intros s. destruct (LoadConst32_exec rtmp v s Htmp) as (s1 & E1 & G1 & F1).
    pose proof (LoadConst32_keeps_f rtmp v s s1 E1) as FF1.
    eexists. split; [rewrite execI_app, execI_Base, E1; reflexivity|].
    split; [|split].
    + regs. cbn [Rv64I.alu]. rewrite G1, (F1 rs) by congruence.
      rewrite (sext_small 32 v) by (change (2 ^ (32 - 1)) with (2 ^ 31); lia).
      reflexivity.
    + intros r H1 H2. regs. apply F1, H2.
    + exact FF1.
Qed.

Lemma sext64_mod8 (v : Z) : sext 64 v mod 8 = v mod 8.
Proof. unfold sext. pow_consts. Z.div_mod_to_equations. lia. Qed.

Section Frames.
Variables AT TMP2 : GpuRegister.
Variable frame_size : Z.
Hypothesis HA : AT <> ZERO.
Hypothesis HS : SP <> AT.
Hypothesis HF : 0 <= frame_size < 0x7FFFF800.
Hypothesis HF8 : frame_size mod 8 = 0.

Lemma frame_size_u64 : u64 frame_size = frame_size.
Proof. apply u64_small. pow_consts. lia. Qed.

(** Moving the stack pointer down and up by the size of the frame. *)
Lemma IncreaseFrameSize_prog :
  exists prog,
    Run.implements (Offsets.IncreaseFrameSize AT TMP2 frame_size) prog
    /\ forallb Run.straight prog = true
    /\ forall s, exists s',
         Run.exec_seq prog s = Some s'
         /\ Rv64.getx s' SP = sext 64 (Rv64.getx s SP - frame_size)
         /\ (forall r, r <> SP -> r <> AT -> Rv64.getx s' r = Rv64.getx s r)
         /\ Rv64.f s' = Rv64.f s.
Proof.
  unfold Offsets.IncreaseFrameSize. cbv zeta. rewrite frame_size_u64.
  assert (V : sext 32 (u64 (- frame_size)) = - frame_size).
  { rewrite sext_of_u64 by lia. apply sext_small; [lia|]. pow_consts. lia. }
  rewrite V.
  destruct (Addiu64_int32_prog TMP2 SP SP AT (- frame_size))
    as (prog & I & S & L & R); try congruence; [pow_consts; lia|].
  exists prog. split.
  { apply implements_CHECK; [|exact I].
    change (Offsets.kFramePointerSize - 1) with 7. rewrite land7_mod.
    apply Z.eqb_eq, HF8. }
  split; [exact S|]. intros s. destruct (R s) as (s' & E & G & F & FF).
  exists s'. split; [exact E|]. split; [rewrite G; f_equal; lia|].
  split; [exact F|exact FF].
Qed.

Lemma DecreaseFrameSize_prog :
  exists prog,
    Run.implements (Offsets.DecreaseFrameSize AT TMP2 frame_size) prog
    /\ forallb Run.straight prog = true
    /\ forall s, exists s',
         Run.exec_seq prog s = Some s'
         /\ Rv64.getx s' SP = sext 64 (Rv64.getx s SP + frame_size)
         /\ (forall r, r <> SP -> r <> AT -> Rv64.getx s' r = Rv64.getx s r)
         /\ Rv64.f s' = Rv64.f s.
Proof.
  unfold Offsets.DecreaseFrameSize. cbv zeta. rewrite frame_size_u64.
  assert (V : sext 32 frame_size = frame_size).
  { apply sext_small; [lia|]. pow_consts. lia. }
  rewrite V.
  destruct (Addiu64_int32_prog TMP2 SP SP AT frame_size)
    as (prog & I & S & L & R); try congruence; [pow_consts; lia|].
  exists prog. split.
  { apply implements_CHECK; [|exact I].
    change (Offsets.kFramePointerSize - 1) with 7. rewrite land7_mod.
    apply Z.eqb_eq, HF8. }
  split; [exact S|]. exact R.
Qed.

End Frames.

Lemma nth_error_rev_at {A : Type} (l : list A) (k : nat) (x : A) :
  nth_error l k = Some x ->
  nth_error (rev l) (List.length l - 1 - k) = Some x.
Proof.
  intros H. assert (Hk : (k < List.length l)%nat) by (apply nth_error_Some; congruence).
  rewrite nth_error_rev.
  replace (Nat.ltb (List.length l - 1 - k) (List.length l)) with true
    by (symmetry; apply Nat.ltb_lt; lia).
  replace (List.length l - S (List.length l - 1 - k))%nat with k by lia.
  exact H.
Qed.

Lemma fits_cell_of (c : Rv64.State) (r : Jni.ManagedRegister) :
  r <> Jni.NoRegister -> fits r (cell_of c r).
Proof. destruct r; cbn [fits cell_of]; [contradiction|trivial|trivial]. Qed.

(** The store of the method register at the bottom of the frame. *)
Lemma store_method (AT : GpuRegister) (HA : AT <> ZERO) (HS : SP <> AT)
    (method_reg : Jni.ManagedRegister)
    (Hm : forall f, method_reg <> Jni.FromFpuRegister f)
    (HmA : method_reg <> Jni.FromGpuRegister AT) :
  exists p3,
    RunM.implements
      (match method_reg with
       | Jni.NoRegister => Asm.ret tt
       | Jni.FromGpuRegister reg =>
           Mem.StoreToOffset AT Mem.kStoreDoubleword reg SP 0
       | Jni.FromFpuRegister _ => Asm.fatal
       end) p3
    /\ forallb RunM.straight p3 = true
    /\ forall s, Rv64.getx (Rv64M.core s) SP mod 8 = 0 ->
         exists s',
           RunM.exec_seq p3 s = Some s'
           /\ (forall g, g <> AT ->
                 Rv64.getx (Rv64M.core s') g = Rv64.getx (Rv64M.core s) g)
           /\ (forall m, method_reg = Jni.FromGpuRegister m ->
                 Rv64M.mem s' (slot (Rv64.getx (Rv64M.core s) SP) 0)
                 = Rv64M.VInt (Rv64.getx (Rv64M.core s) m))
           /\ (forall a,
                 method_reg = Jni.NoRegister
                 \/ a <> slot (Rv64.getx (Rv64M.core s) SP) 0 ->
                 Rv64M.mem s' a = Rv64M.mem s a).
Proof.
  destruct method_reg as [|m|f] eqn:Em.
  - exists []. split; [apply implementsM_ret|]. split; [reflexivity|].
    intros s _. exists s. split; [reflexivity|]. split; [reflexivity|].
    split; [discriminate|reflexivity].
  - destruct (store_slot AT HA HS (Jni.FromGpuRegister m) 0)
      as (p & I & S & _ & R);
      [discriminate|exact HmA|pow_consts; lia|reflexivity|].
    exists p. split; [exact I|]. split; [exact S|].
    intros s Hsp. destruct (R s Hsp) as (s' & E & F & _ & M & O).
    exists s'. split; [exact E|]. split; [exact F|].
    split; [intros m' Eq; injection Eq as <-; exact M|].
    intros a [Ha|Ha]; [discriminate|apply O, Ha].
  - destruct (Hm f eq_refl).
Qed.

(** The offset at which the loop of RemoveFrame starts: below the slot
    of RA by the size of the list, unless the list has one register. *)
Definition first_slot (frame_size : Z) (regs : list Jni.ManagedRegister) : Z :=
  let size := Z.of_nat (List.length regs) in
  if 1 <? size then frame_size - 8 - size * 8 else frame_size - 8.

Section BuildRemove.
Variables AT TMP2 : GpuRegister.
Variables kStackAlignment frame_size : Z.
Variable method_reg : Jni.ManagedRegister.
Variable regs : list Jni.ManagedRegister.
Hypothesis HA : AT <> ZERO.
Hypothesis HS : SP <> AT.
Hypothesis HR : RA <> AT.
Hypothesis Hal : Z.land frame_size (kStackAlignment - 1) = 0.
Hypothesis HF8 : frame_size mod 8 = 0.
Hypothesis HF : 8 * (Z.of_nat (List.length regs) + 2) <= frame_size < 0x7FFFF800.
Hypothesis Hn : (1 <= List.length regs)%nat.
Hypothesis Hregs : Forall (saved AT) regs.
Hypothesis Hnd : NoDup regs.
Hypothesis Hm : forall f, method_reg <> Jni.FromFpuRegister f.
Hypothesis HmA : method_reg <> Jni.FromGpuRegister AT.

Let n := Z.of_nat (List.length regs).

Lemma HF0 : 0 <= frame_size < 0x7FFFF800.
Proof. lia. Qed.

(** The offset of the slot of the register at place [k] of the list. *)
Definition slot_offset (k : nat) : Z := frame_size - 8 - 8 * n + 8 * Z.of_nat k.

Lemma BuildFrame_runs :
  exists prog,
    RunM.implements
      (Mem.BuildFrame AT TMP2 kStackAlignment frame_size method_reg regs) prog
    /\ forallb RunM.straight prog = true
    /\ forall s,
         Rv64.getx (Rv64M.core s) SP mod 8 = 0 ->
         exists s1,
           RunM.exec_seq prog s = Some s1
           /\ Rv64.getx (Rv64M.core s1) SP
              = sext 64 (Rv64.getx (Rv64M.core s) SP - frame_size)
           /\ Rv64M.mem s1 (slot (Rv64.getx (Rv64M.core s1) SP) (frame_size - 8))
              = Rv64M.VInt (Rv64.getx (Rv64M.core s) RA)
           /\ (forall k r, nth_error regs k = Some r ->
                 Rv64M.mem s1 (slot (Rv64.getx (Rv64M.core s1) SP) (slot_offset k))
                 = cell_of (Rv64M.core s) r)
           /\ (forall m, method_reg = Jni.FromGpuRegister m ->
                 Rv64M.mem s1 (slot (Rv64.getx (Rv64M.core s1) SP) 0)
                 = Rv64M.VInt (Rv64.getx (Rv64M.core s1) m)).
Proof.
  pose proof HF0 as HF0.
  destruct (IncreaseFrameSize_prog AT TMP2 frame_size HA HS HF0 HF8)
    as (p0 & I0 & S0 & R0).
  destruct (store_slot AT HA HS (Jni.FromGpuRegister RA) (frame_size - 8))
    as (p1 & I1 & S1 & _ & R1);
    [discriminate|congruence|pow_consts; lia|Z.div_mod_to_equations; lia|].
  destruct (spill_runs AT HA HS (rev regs) (frame_size - 8))
    as (p2 & I2 & S2 & _ & R2);
    [apply Forall_rev, Hregs|rewrite length_rev; fold n; lia|lia
    |Z.div_mod_to_equations; lia|].
  destruct (store_method AT HA HS method_reg Hm HmA) as (p3 & I3 & S3 & R3).
  exists (map Rv64M.Core p0 ++ (p1 ++ p2) ++ p3).
  split.
  { unfold Mem.BuildFrame. cbv zeta.
    rewrite (frame_size_u64 frame_size HF0).
    apply implementsM_CHECK; [apply Z.eqb_eq, Hal|].
    apply implementsM_bind; [apply implementsM_core, I0|].
    apply implementsM_bind; [|exact I3].
    replace (0 <? Z.of_nat (List.length regs)) with true
      by (symmetry; apply Z.ltb_lt; lia).
    unfold Offsets.kFramePointerSize.
    rewrite (sext_small 32 (frame_size - 8)) by (pow_consts; lia).
    apply implementsM_bind; [exact I1|exact I2]. }
  split.
  { rewrite !forallb_app, straightM_Core, S0, S1, S2, S3. reflexivity. }
  intros s Hsp.
  destruct (R0 (Rv64M.core s)) as (c0 & E0 & G0 & F0 & FF0).
  set (t0 := Rv64M.with_core s c0).
  assert (Sp0 : Rv64.getx (Rv64M.core t0) SP mod 8 = 0).
  { unfold t0. cbn [Rv64M.with_core Rv64M.core]. rewrite G0, sext64_mod8.
    rewrite Zminus_mod, Hsp, HF8. reflexivity. }
  destruct (R1 t0 Sp0) as (t1 & E1 & F1 & FF1 & M1 & O1).
  assert (Sp1 : Rv64.getx (Rv64M.core t1) SP = Rv64.getx (Rv64M.core t0) SP)
    by (apply F1, HS).
  destruct (R2 t1) as (t2 & E2 & F2 & FF2 & M2 & O2); [rewrite Sp1; exact Sp0|].
  assert (Sp2 : Rv64.getx (Rv64M.core t2) SP = Rv64.getx (Rv64M.core t0) SP)
    by (rewrite (F2 SP HS); exact Sp1).
  destruct (R3 t2) as (t3 & E3 & F3 & M3 & O3); [rewrite Sp2; exact Sp0|].
  assert (Sp3 : Rv64.getx (Rv64M.core t3) SP = Rv64.getx (Rv64M.core t0) SP)
    by (rewrite (F3 SP HS); exact Sp2).
  rewrite Sp1 in M2, O2. rewrite Sp2 in M3, O3.
  assert (O3' : forall a, a <> slot (Rv64.getx (Rv64M.core t0) SP) 0 ->
                  Rv64M.mem t3 a = Rv64M.mem t2 a)
    by (intros a Ha; apply O3; right; exact Ha).
  clear O3.
  set (sp := Rv64.getx (Rv64M.core t0) SP) in *.
  assert (C0 : forall r, saved AT r \/ r = Jni.FromGpuRegister RA ->
                 cell_of (Rv64M.core t0) r = cell_of (Rv64M.core s) r).
  { intros r Hr. unfold t0. cbn [Rv64M.with_core Rv64M.core].
    destruct r as [|g|f]; cbn [cell_of]; [reflexivity| |rewrite FF0; reflexivity].
    rewrite F0; [reflexivity| |].
    - destruct Hr as [(_ & _ & H & _)|H]; [exact H|]. injection H as ->. discriminate.
    - destruct Hr as [(_ & _ & _ & H)|H]; [exact H|]. injection H as ->. exact HR. }
  exists t3. split.
  { rewrite execM_app, (execM_Core p0 s c0 E0). fold t0.
    rewrite !execM_app, E1, E2. exact E3. }
  rewrite Sp3. split; [exact G0|]. split; [|split].
  - rewrite O3', O2.
    + rewrite M1. apply (C0 (Jni.FromGpuRegister RA)). right. reflexivity.
    + intros k Hk E. apply slot_inj in E; [lia|]. pow_consts.
      rewrite length_rev in Hk. lia.
    + intros E. apply slot_inj in E; [lia|]. pow_consts. lia.
  - intros k r N.
    assert (Hk : (k < List.length regs)%nat) by (apply nth_error_Some; congruence).
    rewrite O3'.
    + pose proof (M2 _ r (nth_error_rev_at regs k r N)) as M.
      replace (frame_size - 8
               - 8 * (Z.of_nat (List.length regs - 1 - k) + 1))
        with (slot_offset k) in M by (unfold slot_offset, n; lia).
      rewrite M.
      assert (Sv : saved AT r).
      { apply (proj1 (Forall_forall _ _) Hregs). apply nth_error_In in N. exact N. }
      rewrite <- (C0 r (or_introl Sv)).
      apply (cell_of_kept AT); assumption.
    + intros E. apply slot_inj in E; [unfold slot_offset, n in E; lia|].
      unfold slot_offset, n. pow_consts. lia.
  - intros m Em. rewrite (M3 m Em). f_equal.
    assert (Hma : m <> AT) by congruence.
    symmetry. apply F3, Hma.
Qed.

Lemma not_saved (g : GpuRegister) :
  g = SP \/ g = RA \/ g = AT -> ~ In (Jni.FromGpuRegister g) regs.
Proof.
  intros Hg Hin. apply (proj1 (Forall_forall _ _) Hregs) in Hin.
  cbn [saved] in Hin. destruct Hin as (_ & H1 & H2 & H3).
  destruct Hg as [->|[->| ->]]; congruence.
Qed.

Lemma first_slot_range :
  8 <= first_slot frame_size regs
  /\ first_slot frame_size regs + 8 * n <= frame_size
  /\ first_slot frame_size regs mod 8 = 0.
Proof.
  unfold first_slot. cbv zeta. fold n.
  destruct (Z.ltb_spec 1 n); unfold n in *;
    (split; [lia|]); (split; [lia|]); Z.div_mod_to_equations; lia.
Qed.

Lemma RemoveFrame_runs (may_suspend : bool) :
  exists body,
    RunM.implements
      (Mem.RemoveFrame AT TMP2 kStackAlignment frame_size regs may_suspend)
      (body ++ [Rv64M.Core (Rv64I.Base (Rv64.JALR ZERO RA 0));
                Rv64M.Core (Rv64I.Base (Rv64.ADDI ZERO ZERO 0))])
    /\ forallb RunM.straight body = true
    /\ forall t,
         Rv64.getx (Rv64M.core t) SP mod 8 = 0 ->
         fits (Jni.FromGpuRegister RA)
              (Rv64M.mem t (slot (Rv64.getx (Rv64M.core t) SP)
                                 (first_slot frame_size regs + 8 * n))) ->
         (forall k r, nth_error regs k = Some r ->
            fits r (Rv64M.mem t (slot (Rv64.getx (Rv64M.core t) SP)
                                      (first_slot frame_size regs
                                       + 8 * Z.of_nat k)))) ->
         exists t',
           RunM.exec_seq body t = Some t'
           /\ Rv64.getx (Rv64M.core t') SP
              = sext 64 (Rv64.getx (Rv64M.core t) SP + frame_size)
           /\ holds (Rv64M.core t') (Jni.FromGpuRegister RA)
                (Rv64M.mem t (slot (Rv64.getx (Rv64M.core t) SP)
                                   (first_slot frame_size regs + 8 * n)))
           /\ (forall k r, nth_error regs k = Some r ->
                 holds (Rv64M.core t') r
                   (Rv64M.mem t (slot (Rv64.getx (Rv64M.core t) SP)
                                      (first_slot frame_size regs
                                       + 8 * Z.of_nat k)))).
Proof.
  pose proof HF0 as HF0.
  destruct first_slot_range as (Fs1 & Fs2 & Fs3).
  set (first := first_slot frame_size regs) in *.
  destruct (unspill_runs AT HA HS regs first Hregs Hnd)
    as (p1 & I1 & S1 & _ & R1);
    [pow_consts; lia|fold n; lia|exact Fs3|].
  fold n in I1.
  destruct (load_slot AT HA HS (Jni.FromGpuRegister RA) (first + 8 * n))
    as (p2 & I2 & S2 & _ & R2);
    [discriminate|discriminate|pow_consts; lia|Z.div_mod_to_equations; lia|].
  destruct (DecreaseFrameSize_prog AT TMP2 frame_size HA HS HF0 HF8)
    as (p3 & I3 & S3 & R3).
  exists ((p1 ++ p2) ++ map Rv64M.Core p3).
  split.
  { unfold Mem.RemoveFrame. cbv zeta.
    rewrite (frame_size_u64 frame_size HF0).
    apply implementsM_CHECK; [apply Z.eqb_eq, Hal|].
    rewrite <- app_assoc.
    apply implementsM_bind.
    - replace (0 <? Z.of_nat (List.length regs)) with true
        by (symmetry; apply Z.ltb_lt; lia).
      unfold Offsets.kFramePointerSize.
      rewrite (sext_small 32 (frame_size - 8)) by (pow_consts; lia).
      assert (St : (if 1 <? Z.of_nat (List.length regs)
                    then sext 32 (frame_size - 8 - Z.of_nat (List.length regs) * 8)
                    else frame_size - 8) = first).
      { unfold first, first_slot. cbv zeta.
        destruct (1 <? Z.of_nat (List.length regs)) eqn:L1; [|reflexivity].
        apply Z.ltb_lt in L1. apply sext_small; [lia|]. pow_consts. lia. }
      rewrite St.
      apply (implementsM_v_then _ _ _ _ _ I1). exact I2.
    - apply implementsM_bind; [apply implementsM_core, I3|].
      apply (implementsM_core _ [Rv64I.Base (Rv64.JALR ZERO RA 0);
                                 Rv64I.Base (Rv64.ADDI ZERO ZERO 0)]).
      apply (implements_bind _ _ [_] [_]); [|apply implements_Addi].
      apply implements_Emit, decodeI_base. apply (decode_jalr ZERO RA 0). }
  split.
  { rewrite !forallb_app, straightM_Core, S1, S2, S3. reflexivity. }
  intros t Hsp FitRA Fit.
  set (sp := Rv64.getx (Rv64M.core t) SP) in *.
  destruct (R1 t Hsp) as (u1 & E1 & M1 & H1 & F1 & FF1).
  { intros k r N. fold sp. apply (Fit k r N). }
  fold sp in H1.
  assert (Sp1 : Rv64.getx (Rv64M.core u1) SP = sp).
  { apply F1; [apply not_saved; left; reflexivity|exact HS]. }
  destruct (R2 u1) as (u2 & E2 & M2 & H2 & F2 & FF2).
  { rewrite Sp1. exact Hsp. }
  { rewrite Sp1, M1. exact FitRA. }
  rewrite Sp1, M1 in H2.
  assert (Sp2 : Rv64.getx (Rv64M.core u2) SP = sp).
  { rewrite F2; [exact Sp1|discriminate|exact HS]. }
  destruct (R3 (Rv64M.core u2)) as (c3 & E3 & G3 & F3 & FF3).
  exists (Rv64M.with_core u2 c3). split.
  { rewrite !execM_app, E1, E2. apply execM_Core, E3. }
  cbn [Rv64M.with_core Rv64M.core].
  split; [rewrite G3, Sp2; reflexivity|]. split.
  - apply (holds_kept (Rv64M.core u2)); [| |exact H2].
    + intros g Eg. injection Eg as <-. apply F3; [discriminate|exact HR].
    + intros f Ef. discriminate.
  - intros k r N.
    assert (Sv : saved AT r).
    { apply (proj1 (Forall_forall _ _) Hregs). apply nth_error_In in N. exact N. }
    apply (holds_kept (Rv64M.core u1)).
    + intros g ->. cbn [saved] in Sv. destruct Sv as (_ & Sr & Ss & Sa).
      rewrite F3 by assumption. apply F2; [congruence|exact Sa].
    + intros f ->. rewrite FF3. apply FF2. discriminate.
    + apply (H1 k r N).
Qed.

End BuildRemove.

(** The jump that ends RemoveFrame, after the straight-line code before
    it. *)
Lemma RemoveFrame_returns (AT : GpuRegister) (m : Asm.M unit)
    (body : list Rv64M.Instr) (t t' : Rv64M.State) :
  RunM.implements m
    (body ++ [Rv64M.Core (Rv64I.Base (Rv64.JALR ZERO RA 0));
              Rv64M.Core (Rv64I.Base (Rv64.ADDI ZERO ZERO 0))]) ->
  forallb RunM.straight body = true ->
  Rv64.pc (Rv64M.core t) = 0 ->
  RunM.exec_seq body t = Some t' ->
  exists n u,
    RunM.takes AT m n t u
    /\ Rv64.pc (Rv64M.core u) = Z.land (Rv64.getx (Rv64M.core t') RA) (-2)
    /\ (forall g, g <> ZERO ->
          Rv64.getx (Rv64M.core u) g = Rv64.getx (Rv64M.core t') g)
    /\ Rv64.f (Rv64M.core u) = Rv64.f (Rv64M.core t').
Proof.
  intros (ws & Em & D) S Hpc E.
  assert (D' : Forall2 (fun w i => Rv64M.decode (u32 w) = Some i) ws
                 ([] ++ body ++ [Rv64M.Core (Rv64I.Base (Rv64.JALR ZERO RA 0));
                                 Rv64M.Core (Rv64I.Base (Rv64.ADDI ZERO ZERO 0))]))
    by exact D.
  destruct (stepsM_straight ws body [] _ t t' D' S Hpc E) as [St Pt].
  cbn [List.length Nat.add] in Pt.
  set (c := Rv64M.core t') in *.
  set (u := Rv64M.with_core t'
              (Rv64.goto (Rv64.setx c ZERO (Rv64.pc c + 4))
                         (Z.land (Rv64.getx c RA + 0) (-2)))).
  exists (List.length body + 1)%nat, u.
  split.
  { exists (words ws). split; [apply assemble_emits, Em|].
    rewrite stepsM_app, St. cbn [Rv64M.steps].
    rewrite (stepM_at ws _ t' (List.length body) _ D Pt)
      by (rewrite nth_error_app2 by lia; rewrite Nat.sub_diag; reflexivity).
    reflexivity. }
  unfold u. cbn [Rv64M.with_core Rv64M.core].
  split; [cbn [Rv64.goto Rv64.pc]; rewrite Z.add_0_r; reflexivity|].
  split; [|reflexivity].
  intros g Hg. rewrite getx_goto, getx_setx_other by exact Hg. reflexivity.
Qed.

(** X28. RemoveFrame undoes BuildFrame. For a frame size below 0x7FFFF800
    that passes the alignment check, is a multiple of 8 and has room for
    the method, RA and the callee saves, a list of at least two distinct
    callee saves (none of them the zero register, RA, SP or AT), a method
    register that is a core register other than AT or none, and a stack
    pointer that is a multiple of 8: the code of BuildFrame runs to its
    end, lowers SP by the frame size and puts the method register at the
    bottom of the frame; and from any state with that SP whose memory
    agrees with it on the frame, whatever its registers hold, the code of
    RemoveFrame reaches the jump to RA with SP, RA and every callee save,
    core or floating-point, holding what it held before BuildFrame, and
    control at the return address of then. *)
Theorem RemoveFrame_undoes_BuildFrame (AT TMP2 : GpuRegister)
    (kStackAlignment frame_size : Z) (method_reg : Jni.ManagedRegister)
    (regs : list Jni.ManagedRegister) (may_suspend : bool) (s : Rv64M.State) :
  AT <> ZERO -> SP <> AT -> RA <> AT ->
  Z.land frame_size (kStackAlignment - 1) = 0 ->
  frame_size mod 8 = 0 ->
  8 * (Z.of_nat (List.length regs) + 2) <= frame_size < 0x7FFFF800 ->
  (2 <= List.length regs)%nat ->
  Forall (saved AT) regs -> NoDup regs ->
  (forall f, method_reg <> Jni.FromFpuRegister f) ->
  method_reg <> Jni.FromGpuRegister AT ->
  Rv64.pc (Rv64M.core s) = 0 ->
  Rv64.getx (Rv64M.core s) SP mod 8 = 0 ->
  exists n1 s1,
    RunM.takes AT
      (Mem.BuildFrame AT TMP2 kStackAlignment frame_size method_reg regs) n1 s s1
    /\ Rv64.pc (Rv64M.core s1) = 4 * Z.of_nat n1
    /\ Rv64.getx (Rv64M.core s1) SP
       = sext 64 (Rv64.getx (Rv64M.core s) SP - frame_size)
    /\ (forall m, method_reg = Jni.FromGpuRegister m ->
          Rv64M.mem s1 (slot (Rv64.getx (Rv64M.core s1) SP) 0)
          = Rv64M.VInt (Rv64.getx (Rv64M.core s1) m))
    /\ forall t,
         Rv64.pc (Rv64M.core t) = 0 ->
         Rv64.getx (Rv64M.core t) SP = Rv64.getx (Rv64M.core s1) SP ->
         (forall o, 0 <= o < frame_size ->
            Rv64M.mem t (slot (Rv64.getx (Rv64M.core s1) SP) o)
            = Rv64M.mem s1 (slot (Rv64.getx (Rv64M.core s1) SP) o)) ->
         exists n2 t',
           RunM.takes AT
             (Mem.RemoveFrame AT TMP2 kStackAlignment frame_size regs may_suspend)
             n2 t t'
           /\ Rv64.pc (Rv64M.core t')
              = Z.land (sext 64 (Rv64.getx (Rv64M.core s) RA)) (-2)
           /\ Rv64.getx (Rv64M.core t') SP = sext 64 (Rv64.getx (Rv64M.core s) SP)
           /\ Rv64.getx (Rv64M.core t') RA = sext 64 (Rv64.getx (Rv64M.core s) RA)
           /\ (forall g, In (Jni.FromGpuRegister g) regs ->
                 Rv64.getx (Rv64M.core t') g
                 = sext 64 (Rv64.getx (Rv64M.core s) g))
           /\ (forall f, In (Jni.FromFpuRegister f) regs ->
                 Rv64.f (Rv64M.core t') f = Rv64.f (Rv64M.core s) f).
Proof.
  intros HA HS HR Hal HF8 HF Hn Hregs Hnd Hm HmA Hpc Hsp.
  assert (Hn1 : (1 <= List.length regs)%nat) by lia.
  destruct (BuildFrame_runs AT TMP2 kStackAlignment frame_size method_reg regs
              HA HS HR Hal HF8 HF Hn1 Hregs Hm HmA)
    as (p & Ib & S & R).
  destruct (R s Hsp) as (s1 & E & G & MRA & Mregs & Mm).
  destruct (implementsM_takes AT _ p s s1 Ib S Hpc E) as [T P].
  exists (List.length p), s1.
  split; [exact T|]. split; [exact P|]. split; [exact G|]. split; [exact Mm|].
  intros t Hpct Hspt Agree.
  set (sp := Rv64.getx (Rv64M.core s1) SP) in *.
  assert (Sp8 : sp mod 8 = 0).
  { rewrite G, sext64_mod8, Zminus_mod, Hsp, HF8. reflexivity. }
  assert (First : first_slot frame_size regs
                  = frame_size - 8 - 8 * Z.of_nat (List.length regs)).
  { unfold first_slot. cbv zeta.
    destruct (Z.ltb_spec 1 (Z.of_nat (List.length regs))); lia. }
  assert (Off : forall k, (k < List.length regs)%nat ->
                  first_slot frame_size regs + 8 * Z.of_nat k
                  = slot_offset frame_size regs k
                  /\ 0 <= slot_offset frame_size regs k < frame_size).
  { intros k Hk. rewrite First. unfold slot_offset. lia. }
  destruct (RemoveFrame_runs AT TMP2 kStackAlignment frame_size regs
              HA HS HR Hal HF8 HF Hn1 Hregs Hnd may_suspend)
    as (body & I2 & S2 & R2).
  replace (first_slot frame_size regs + 8 * Z.of_nat (List.length regs))
    with (frame_size - 8) in R2 by lia.
  destruct (R2 t) as (t' & E2 & G2 & HRA & Hsaved).
  { rewrite Hspt. exact Sp8. }
  { rewrite Hspt, Agree, MRA by lia. exact Logic.I. }
  { intros k r N. rewrite Hspt.
    assert (Hk : (k < List.length regs)%nat) by (apply nth_error_Some; congruence).
    destruct (Off k Hk) as [-> Hr].
    rewrite Agree, (Mregs k r N) by exact Hr.
    apply fits_cell_of. intros ->.
    apply nth_error_In in N. apply (proj1 (Forall_forall _ _) Hregs) in N.
    exact N. }
  rewrite Hspt in G2, HRA, Hsaved.
  rewrite Agree, MRA in HRA by lia. cbn [holds] in HRA.
  destruct (RemoveFrame_returns AT _ body t t' I2 S2 Hpct E2)
    as (n2 & u & T2 & Pu & Gu & Fu).
  exists n2, u. split; [exact T2|].
  split; [rewrite Pu, HRA; reflexivity|].
  split; [rewrite Gu, G2, G, sext_add_l by (discriminate || lia); f_equal; lia|].
  split; [rewrite Gu by discriminate; exact HRA|].
  split.
  - intros g Hin. destruct (In_nth_error _ _ Hin) as (k & N).
    assert (Hk : (k < List.length regs)%nat) by (apply nth_error_Some; congruence).
    pose proof (Hsaved k _ N) as H. destruct (Off k Hk) as [Eq Hr].
    rewrite Eq, Agree, (Mregs k _ N) in H by exact Hr.
    cbn [holds cell_of] in H.
    apply (proj1 (Forall_forall _ _) Hregs) in Hin. cbn [saved] in Hin.
    rewrite Gu by (apply Hin). exact H.
  - intros f Hin. destruct (In_nth_error _ _ Hin) as (k & N).
    assert (Hk : (k < List.length regs)%nat) by (apply nth_error_Some; congruence).
    pose proof (Hsaved k _ N) as H. destruct (Off k Hk) as [Eq Hr].
    rewrite Eq, Agree, (Mregs k _ N) in H by exact Hr.
    rewrite Fu. exact H.
Qed.

Lemma kCalleeSaveRegisters_distinct : NoDup Jni.kCalleeSaveRegisters.
Proof.
  unfold Jni.kCalleeSaveRegisters.
  repeat (constructor; [cbn [In]; intuition discriminate|]). constructor.
Qed.

Lemma RemoveFrame_undoes_BuildFrame_witness :
  exists n1 s1,
    RunM.takes T4
      (Mem.BuildFrame T4 T5 16 208 (Jni.FromGpuRegister A0) Jni.kCalleeSaveRegisters)
      n1 sample_memory s1
    /\ Rv64.getx (Rv64M.core s1) SP = -192.
Proof.
  destruct (RemoveFrame_undoes_BuildFrame T4 T5 16 208 (Jni.FromGpuRegister A0)
              Jni.kCalleeSaveRegisters false sample_memory)
    as (n1 & s1 & T & _ & G & _); try discriminate; try reflexivity.
  - cbn. lia.
  - cbn. lia.
  - unfold Jni.kCalleeSaveRegisters.
    repeat (constructor; [cbn [saved]; try exact I; repeat split; discriminate|]).
    constructor.
  - exact kCalleeSaveRegisters_distinct.
  - exists n1, s1. split; [exact T|]. rewrite G. reflexivity.
Defined.

(** ** The frame of a critical native method *)

Section Critical.
Variables AT TMP2 : GpuRegister.
Variables kStackAlignment frame_size : Z.
Variable method_reg : Jni.ManagedRegister.
Hypothesis HA : AT <> ZERO.
Hypothesis HS : SP <> AT.
Hypothesis HR : RA <> AT.
Hypothesis Hal : Z.land frame_size (kStackAlignment - 1) = 0.
Hypothesis HF8 : frame_size mod 8 = 0.
Hypothesis HF : 8 <= frame_size < 0x7FFFF800.
Hypothesis HF16 : method_reg <> Jni.NoRegister -> 16 <= frame_size.
Hypothesis Hm : forall f, method_reg <> Jni.FromFpuRegister f.
Hypothesis HmA : method_reg <> Jni.FromGpuRegister AT.

Lemma HFc : 0 <= frame_size < 0x7FFFF800.
Proof. lia. Qed.

Lemma BuildFrame_critical_runs :
  exists prog,
    RunM.implements
      (Mem.BuildFrame AT TMP2 kStackAlignment frame_size method_reg
         Jni.kCriticalCalleeSaveRegisters) prog
    /\ forallb RunM.straight prog = true
    /\ forall s,
         Rv64.getx (Rv64M.core s) SP mod 8 = 0 ->
         exists s1,
           RunM.exec_seq prog s = Some s1
           /\ Rv64.getx (Rv64M.core s1) SP
              = sext 64 (Rv64.getx (Rv64M.core s) SP - frame_size)
           /\ Rv64M.mem s1 (slot (Rv64.getx (Rv64M.core s1) SP) (frame_size - 8))
              = Rv64M.VInt (Rv64.getx (Rv64M.core s) RA)
           /\ (forall m, method_reg = Jni.FromGpuRegister m ->
                 Rv64M.mem s1 (slot (Rv64.getx (Rv64M.core s1) SP) 0)
                 = Rv64M.VInt (Rv64.getx (Rv64M.core s1) m)).
Proof.
  pose proof HFc as HF0.
  destruct (IncreaseFrameSize_prog AT TMP2 frame_size HA HS HF0 HF8)
    as (p0 & I0 & S0 & R0).
  destruct (store_slot AT HA HS (Jni.FromGpuRegister RA) (frame_size - 8))
    as (p1 & I1 & S1 & _ & R1);
    [discriminate|congruence|pow_consts; lia|Z.div_mod_to_equations; lia|].
  destruct (store_method AT HA HS method_reg Hm HmA) as (p3 & I3 & S3 & R3).
  exists (map Rv64M.Core p0 ++ (p1 ++ []) ++ p3).
  split.
  { unfold Mem.BuildFrame. cbv zeta.
    rewrite (frame_size_u64 frame_size HF0).
    apply implementsM_CHECK; [apply Z.eqb_eq, Hal|].
    apply implementsM_bind; [apply implementsM_core, I0|].
    apply implementsM_bind; [|exact I3].
    change (0 <? Z.of_nat (List.length Jni.kCriticalCalleeSaveRegisters)) with true.
    cbv iota. unfold Offsets.kFramePointerSize.
    rewrite (sext_small 32 (frame_size - 8)) by (pow_consts; lia).
    apply implementsM_bind; [exact I1|].
    change (rev Jni.kCriticalCalleeSaveRegisters) with [Jni.FromGpuRegister RA].
    cbn [Mem.spill]. change (gpu_eqb RA RA) with true. cbv iota.
    apply (implementsM_bind _ _ [] []); apply implementsM_ret. }
  split.
  { rewrite !forallb_app, straightM_Core, S0, S1, S3. reflexivity. }
  intros s Hsp.
  destruct (R0 (Rv64M.core s)) as (c0 & E0 & G0 & F0 & FF0).
  set (t0 := Rv64M.with_core s c0).
  assert (Sp0 : Rv64.getx (Rv64M.core t0) SP mod 8 = 0).
  { unfold t0. cbn [Rv64M.with_core Rv64M.core]. rewrite G0, sext64_mod8.
    rewrite Zminus_mod, Hsp, HF8. reflexivity. }
  destruct (R1 t0 Sp0) as (t1 & E1 & F1 & FF1 & M1 & O1).
  assert (Sp1 : Rv64.getx (Rv64M.core t1) SP = Rv64.getx (Rv64M.core t0) SP)
    by (apply F1, HS).
  destruct (R3 t1) as (t3 & E3 & F3 & M3 & O3); [rewrite Sp1; exact Sp0|].
  assert (Sp3 : Rv64.getx (Rv64M.core t3) SP = Rv64.getx (Rv64M.core t0) SP)
    by (rewrite (F3 SP HS); exact Sp1).
  rewrite Sp1 in M3, O3.
  exists t3. split.
  { rewrite execM_app, (execM_Core p0 s c0 E0). fold t0.
    rewrite !execM_app, E1. exact E3. }
  rewrite Sp3. split; [exact G0|]. split.
  - rewrite O3.
    + rewrite M1. cbn [cell_of]. unfold t0. cbn [Rv64M.with_core Rv64M.core].
      rewrite F0; [reflexivity|discriminate|exact HR].
    + destruct method_reg as [|m|f] eqn:Em; [left; reflexivity| |destruct (Hm f eq_refl)].
      right. intros E. apply slot_inj in E; [|pow_consts; lia].
      assert (16 <= frame_size) by (apply HF16; discriminate). lia.
  - intros m Em. rewrite (M3 m Em). f_equal.
    assert (Hma : m <> AT) by congruence.
    symmetry. apply F3, Hma.
Qed.

Lemma RemoveFrame_critical_runs (may_suspend : bool) :
  exists body,
    RunM.implements
      (Mem.RemoveFrame AT TMP2 kStackAlignment frame_size
         Jni.kCriticalCalleeSaveRegisters may_suspend)
      (body ++ [Rv64M.Core (Rv64I.Base (Rv64.JALR ZERO RA 0));
                Rv64M.Core (Rv64I.Base (Rv64.ADDI ZERO ZERO 0))])
    /\ forallb RunM.straight body = true
    /\ forall t v,
         Rv64.getx (Rv64M.core t) SP mod 8 = 0 ->
         Rv64M.mem t (slot (Rv64.getx (Rv64M.core t) SP) (frame_size - 8))
         = Rv64M.VInt v ->
         exists t',
           RunM.exec_seq body t = Some t'
           /\ Rv64.getx (Rv64M.core t') SP
              = sext 64 (Rv64.getx (Rv64M.core t) SP + frame_size)
           /\ Rv64.getx (Rv64M.core t') RA = sext 64 v.
Proof.
  pose proof HFc as HF0.
  destruct (load_slot AT HA HS (Jni.FromGpuRegister RA) (frame_size - 8))
    as (p2 & I2 & S2 & _ & R2);
    [discriminate|discriminate|pow_consts; lia|Z.div_mod_to_equations; lia|].
  destruct (DecreaseFrameSize_prog AT TMP2 frame_size HA HS HF0 HF8)
    as (p3 & I3 & S3 & R3).
  exists (([] ++ p2) ++ map Rv64M.Core p3).
  split.
  { unfold Mem.RemoveFrame. cbv zeta.
    rewrite (frame_size_u64 frame_size HF0).
    apply implementsM_CHECK; [apply Z.eqb_eq, Hal|].
    rewrite <- app_assoc.
    apply implementsM_bind.
    - change (Z.of_nat (List.length Jni.kCriticalCalleeSaveRegisters)) with 1.
      change (0 <? 1) with true. change (1 <? 1) with false. cbv iota.
      unfold Offsets.kFramePointerSize.
      rewrite (sext_small 32 (frame_size - 8)) by (pow_consts; lia).
      apply (implementsM_v_then _ (frame_size - 8) _ [] p2); [|exact I2].
      unfold Jni.kCriticalCalleeSaveRegisters. cbn [Mem.unspill].
      change (gpu_eqb RA RA) with true. cbv iota. apply implementsM_v_ret.
    - apply implementsM_bind; [apply implementsM_core, I3|].
      apply (implementsM_core _ [Rv64I.Base (Rv64.JALR ZERO RA 0);
                                 Rv64I.Base (Rv64.ADDI ZERO ZERO 0)]).
      apply (implements_bind _ _ [_] [_]); [|apply implements_Addi].
      apply implements_Emit, decodeI_base. apply (decode_jalr ZERO RA 0). }
  split.
  { rewrite !forallb_app, straightM_Core, S2, S3. reflexivity. }
  intros t v Hsp Hv.
  destruct (R2 t Hsp) as (u2 & E2 & M2 & H2 & F2 & FF2).
  { rewrite Hv. exact Logic.I. }
  rewrite Hv in H2. cbn [holds] in H2.
  assert (Sp2 : Rv64.getx (Rv64M.core u2) SP = Rv64.getx (Rv64M.core t) SP).
  { apply F2; [discriminate|exact HS]. }
  destruct (R3 (Rv64M.core u2)) as (c3 & E3 & G3 & F3 & FF3).
  exists (Rv64M.with_core u2 c3). split.
  { rewrite !execM_app. cbn [RunM.exec_seq]. rewrite E2. apply execM_Core, E3. }
  cbn [Rv64M.with_core Rv64M.core].
  split; [rewrite G3, Sp2; reflexivity|].
  rewrite F3; [exact H2|discriminate|exact HR].
Qed.

End Critical.

(** X29. For the one-register list of critical native methods, RA
    alone, the code of BuildFrame lowers SP by the frame size and leaves
    RA in the top doubleword of the frame, and from any state with that
    SP whose top doubleword of the frame is unchanged the code of
    RemoveFrame reaches the jump with SP and RA as they were before
    BuildFrame and control at the return address of then; a method
    register is stored at the bottom, which needs a frame of two
    doublewords. *)
Theorem critical_native_frame_round_trip (AT TMP2 : GpuRegister)
    (kStackAlignment frame_size : Z) (method_reg : Jni.ManagedRegister)
    (may_suspend : bool) (s : Rv64M.State) :
  AT <> ZERO -> SP <> AT -> RA <> AT ->
  Z.land frame_size (kStackAlignment - 1) = 0 ->
  frame_size mod 8 = 0 ->
  8 <= frame_size < 0x7FFFF800 ->
  (method_reg <> Jni.NoRegister -> 16 <= frame_size) ->
  (forall f, method_reg <> Jni.FromFpuRegister f) ->
  method_reg <> Jni.FromGpuRegister AT ->
  Rv64.pc (Rv64M.core s) = 0 ->
  Rv64.getx (Rv64M.core s) SP mod 8 = 0 ->
  exists n1 s1,
    RunM.takes AT
      (Mem.BuildFrame AT TMP2 kStackAlignment frame_size method_reg
         Jni.kCriticalCalleeSaveRegisters) n1 s s1
    /\ Rv64.pc (Rv64M.core s1) = 4 * Z.of_nat n1
    /\ Rv64.getx (Rv64M.core s1) SP
       = sext 64 (Rv64.getx (Rv64M.core s) SP - frame_size)
    /\ Rv64M.mem s1 (slot (Rv64.getx (Rv64M.core s1) SP) (frame_size - 8))
       = Rv64M.VInt (Rv64.getx (Rv64M.core s) RA)
    /\ (forall m, method_reg = Jni.FromGpuRegister m ->
          Rv64M.mem s1 (slot (Rv64.getx (Rv64M.core s1) SP) 0)
          = Rv64M.VInt (Rv64.getx (Rv64M.core s1) m))
    /\ forall t,
         Rv64.pc (Rv64M.core t) = 0 ->
         Rv64.getx (Rv64M.core t) SP = Rv64.getx (Rv64M.core s1) SP ->
         Rv64M.mem t (slot (Rv64.getx (Rv64M.core s1) SP) (frame_size - 8))
         = Rv64M.mem s1 (slot (Rv64.getx (Rv64M.core s1) SP) (frame_size - 8)) ->
         exists n2 t',
           RunM.takes AT
             (Mem.RemoveFrame AT TMP2 kStackAlignment frame_size
                Jni.kCriticalCalleeSaveRegisters may_suspend) n2 t t'
           /\ Rv64.pc (Rv64M.core t')
              = Z.land (sext 64 (Rv64.getx (Rv64M.core s) RA)) (-2)
           /\ Rv64.getx (Rv64M.core t') SP = sext 64 (Rv64.getx (Rv64M.core s) SP)
           /\ Rv64.getx (Rv64M.core t') RA = sext 64 (Rv64.getx (Rv64M.core s) RA).
Proof.
  intros HA HS HR Hal HF8 HF HF16 Hm HmA Hpc Hsp.
  destruct (BuildFrame_critical_runs AT TMP2 kStackAlignment frame_size method_reg
              HA HS HR Hal HF8 HF HF16 Hm HmA)
    as (p & Ib & S & R).
  destruct (R s Hsp) as (s1 & E & G & MRA & Mm).
  destruct (implementsM_takes AT _ p s s1 Ib S Hpc E) as [T P].
  exists (List.length p), s1.
  split; [exact T|]. split; [exact P|]. split; [exact G|].
  split; [exact MRA|]. split; [exact Mm|].
  intros t Hpct Hspt Agree.
  assert (Sp8 : Rv64.getx (Rv64M.core s1) SP mod 8 = 0).
  { rewrite G, sext64_mod8, Zminus_mod, Hsp, HF8. reflexivity. }
  destruct (RemoveFrame_critical_runs AT TMP2 kStackAlignment frame_size
              HA HS HR Hal HF8 HF may_suspend)
    as (body & I2 & S2 & R2).
  destruct (R2 t (Rv64.getx (Rv64M.core s) RA)) as (t' & E2 & G2 & HRA).
  { rewrite Hspt. exact Sp8. }
  { rewrite Hspt, Agree. exact MRA. }
  destruct (RemoveFrame_returns AT _ body t t' I2 S2 Hpct E2)
    as (n2 & u & T2 & Pu & Gu & Fu).
  exists n2, u. split; [exact T2|].
  split; [rewrite Pu, HRA; reflexivity|].
  split; [|rewrite Gu by discriminate; exact HRA].
  rewrite Gu, G2, Hspt, G, sext_add_l by (discriminate || lia). f_equal. lia.
Qed.

Lemma critical_native_frame_round_trip_witness :
  exists n1 s1,
    RunM.takes T4
      (Mem.BuildFrame T4 T5 16 32 Jni.NoRegister Jni.kCriticalCalleeSaveRegisters)
      n1 sample_memory s1
    /\ Rv64.getx (Rv64M.core s1) SP = -16
    /\ Rv64M.mem s1 (slot (-16) 24) = Rv64M.VInt 8.
Proof.
  destruct (critical_native_frame_round_trip T4 T5 16 32 Jni.NoRegister false
              sample_memory)
    as (n1 & s1 & T & _ & G & M & _); try discriminate; try reflexivity.
  - lia.
  - exists n1, s1. split; [exact T|]. split; [rewrite G; reflexivity|].
    rewrite G in M. exact M.
Defined.

(** X30. With a list of one core register other than RA, BuildFrame
    saves RA in the top doubleword of the frame and the register in
    the doubleword below it, but RemoveFrame does not move its offset
    down for a list of one: it reloads the register from the top
    doubleword, where RA was saved, and RA from the doubleword above
    the frame. When that doubleword holds an integer, the register ends
    up with the old RA and control goes to the address found above the
    frame. *)
Theorem single_callee_save_is_read_from_the_slot_of_RA (AT TMP2 : GpuRegister)
    (kStackAlignment frame_size : Z) (method_reg : Jni.ManagedRegister)
    (g : GpuRegister) (may_suspend : bool) (s : Rv64M.State) :
  AT <> ZERO -> SP <> AT -> RA <> AT ->
  Z.land frame_size (kStackAlignment - 1) = 0 ->
  frame_size mod 8 = 0 ->
  24 <= frame_size < 0x7FFFF800 ->
  saved AT (Jni.FromGpuRegister g) ->
  (forall f, method_reg <> Jni.FromFpuRegister f) ->
  method_reg <> Jni.FromGpuRegister AT ->
  Rv64.pc (Rv64M.core s) = 0 ->
  Rv64.getx (Rv64M.core s) SP mod 8 = 0 ->
  exists n1 s1,
    RunM.takes AT
      (Mem.BuildFrame AT TMP2 kStackAlignment frame_size method_reg
         [Jni.FromGpuRegister g]) n1 s s1
    /\ Rv64.getx (Rv64M.core s1) SP
       = sext 64 (Rv64.getx (Rv64M.core s) SP - frame_size)
    /\ Rv64M.mem s1 (slot (Rv64.getx (Rv64M.core s1) SP) (frame_size - 8))
       = Rv64M.VInt (Rv64.getx (Rv64M.core s) RA)
    /\ Rv64M.mem s1 (slot (Rv64.getx (Rv64M.core s1) SP) (frame_size - 16))
       = Rv64M.VInt (Rv64.getx (Rv64M.core s) g)
    /\ forall t above,
         Rv64.pc (Rv64M.core t) = 0 ->
         Rv64.getx (Rv64M.core t) SP = Rv64.getx (Rv64M.core s1) SP ->
         Rv64M.mem t (slot (Rv64.getx (Rv64M.core s1) SP) (frame_size - 8))
         = Rv64M.mem s1 (slot (Rv64.getx (Rv64M.core s1) SP) (frame_size - 8)) ->
         Rv64M.mem t (slot (Rv64.getx (Rv64M.core s1) SP) frame_size)
         = Rv64M.VInt above ->
         exists n2 t',
           RunM.takes AT
             (Mem.RemoveFrame AT TMP2 kStackAlignment frame_size
                [Jni.FromGpuRegister g] may_suspend) n2 t t'
           /\ Rv64.getx (Rv64M.core t') SP = sext 64 (Rv64.getx (Rv64M.core s) SP)
           /\ Rv64.getx (Rv64M.core t') g = sext 64 (Rv64.getx (Rv64M.core s) RA)
           /\ Rv64.getx (Rv64M.core t') RA = sext 64 above
           /\ Rv64.pc (Rv64M.core t') = Z.land (sext 64 above) (-2).
Proof.
  intros HA HS HR Hal HF8 HF Hg Hm HmA Hpc Hsp.
  set (regs := [Jni.FromGpuRegister g]).
  assert (HFr : 8 * (Z.of_nat (List.length regs) + 2) <= frame_size < 0x7FFFF800)
    by (cbn [regs List.length]; lia).
  assert (Hn1 : (1 <= List.length regs)%nat) by (cbn [regs List.length]; lia).
  assert (Hregs : Forall (saved AT) regs) by (constructor; [exact Hg|constructor]).
  assert (Hnd : NoDup regs)
    by (constructor; [intros []|constructor]).
  destruct (BuildFrame_runs AT TMP2 kStackAlignment frame_size method_reg regs
              HA HS HR Hal HF8 HFr Hn1 Hregs Hm HmA)
    as (p & Ib & S & R).
  destruct (R s Hsp) as (s1 & E & G & MRA & Mregs & _).
  destruct (implementsM_takes AT _ p s s1 Ib S Hpc E) as [T _].
  exists (List.length p), s1.
  split; [exact T|]. split; [exact G|]. split; [exact MRA|].
  split.
  { pose proof (Mregs 0%nat (Jni.FromGpuRegister g) eq_refl) as M.
    unfold slot_offset in M. cbn [regs List.length cell_of] in M.
    replace (frame_size - 8 - 8 * Z.of_nat 1 + 8 * Z.of_nat 0)
      with (frame_size - 16) in M by lia.
    exact M. }
  intros t above Hpct Hspt Agree Above.
  assert (Sp8 : Rv64.getx (Rv64M.core s1) SP mod 8 = 0).
  { rewrite G, sext64_mod8, Zminus_mod, Hsp, HF8. reflexivity. }
  destruct (RemoveFrame_runs AT TMP2 kStackAlignment frame_size regs
              HA HS HR Hal HF8 HFr Hn1 Hregs Hnd may_suspend)
    as (body & I2 & S2 & R2).
  change (first_slot frame_size regs) with (frame_size - 8) in R2.
  cbn [regs List.length] in R2.
  replace (frame_size - 8 + 8 * Z.of_nat 1) with frame_size in R2 by lia.
  destruct (R2 t) as (t' & E2 & G2 & HRA & Hsaved).
  { rewrite Hspt. exact Sp8. }
  { rewrite Hspt, Above. exact Logic.I. }
  { intros [|k] r N; [|destruct k; discriminate].
    injection N as <-. rewrite Hspt.
    replace (frame_size - 8 + 8 * Z.of_nat 0) with (frame_size - 8) by lia.
    rewrite Agree, MRA. exact Logic.I. }
  rewrite Hspt in G2, HRA, Hsaved.
  rewrite Above in HRA. cbn [holds] in HRA.
  pose proof (Hsaved 0%nat (Jni.FromGpuRegister g) eq_refl) as H.
  replace (frame_size - 8 + 8 * Z.of_nat 0) with (frame_size - 8) in H by lia.
  rewrite Agree, MRA in H. cbn [holds] in H.
  destruct (RemoveFrame_returns AT _ body t t' I2 S2 Hpct E2)
    as (n2 & u & T2 & Pu & Gu & Fu).
  exists n2, u. split; [exact T2|].
  split; [rewrite Gu, G2, G, sext_add_l by (discriminate || lia); f_equal; lia|].
  split; [rewrite Gu by (apply Hg); exact H|].
  split; [rewrite Gu by discriminate; exact HRA|].
  rewrite Pu, HRA. reflexivity.
Qed.

Lemma single_callee_save_is_read_from_the_slot_of_RA_witness :
  exists n1 s1,
    RunM.takes T4
      (Mem.BuildFrame T4 T5 16 32 (Jni.FromGpuRegister A0) [Jni.FromGpuRegister S0])
      n1 sample_memory s1
    /\ Rv64.getx (Rv64M.core s1) SP = -16
    /\ Rv64M.mem s1 (slot (-16) 24) = Rv64M.VInt 8
    /\ Rv64M.mem s1 (slot (-16) 16) = Rv64M.VInt 64.
Proof.
  destruct (single_callee_save_is_read_from_the_slot_of_RA T4 T5 16 32
              (Jni.FromGpuRegister A0) S0 false sample_memory)
    as (n1 & s1 & T & G & M1 & M2 & _); try discriminate; try reflexivity.
  - lia.
  - cbn [saved]. repeat split; discriminate.
  - exists n1, s1. split; [exact T|]. split; [rewrite G; reflexivity|].
    rewrite G in M1, M2. split; [exact M1|exact M2].
Defined.

(** ** The layout of the branches through promotion *)

(** The bytes a branch has grown by since it was recorded. *)
Definition growth (b : Asm.Branch) : Z := Asm.GetSize b - Asm.GetOldSize b.

(** The bytes by which the code before the old position [p] has grown:
    the growth of the branches recorded before [p]. *)
Fixpoint shift_at (bs : list Asm.Branch) (p : Z) : Z :=
  match bs with
  | [] => 0
  | b :: rest => (if Asm.old_location_ b <? p then growth b else 0) + shift_at rest p
  end.

Fixpoint total_growth (bs : list Asm.Branch) : Z :=
  match bs with
  | [] => 0
  | b :: rest => growth b + total_growth rest
  end.

Lemma growth_range (b : Asm.Branch) : - 8 <= growth b <= 8 /\ growth b mod 4 = 0.
Proof.
  unfold growth, Asm.GetSize, Asm.GetOldSize, Asm.GetLength, Asm.GetOldLength.
  destruct (Asm.type_ b), (Asm.old_type_ b); cbn; split; (lia || reflexivity).
Qed.

Lemma growth_same_type (b : Asm.Branch) :
  Asm.type_ b = Asm.old_type_ b -> growth b = 0.
Proof.
  unfold growth, Asm.GetSize, Asm.GetOldSize, Asm.GetLength, Asm.GetOldLength.
  intros ->. lia.
Qed.

Definition grows (b : Asm.Branch) : Prop := 0 <= growth b.

Lemma shift_at_range (bs : list Asm.Branch) (p : Z) :
  Forall grows bs ->
  0 <= shift_at bs p <= total_growth bs
  /\ total_growth bs <= 8 * Z.of_nat (List.length bs).
Proof.
  induction 1 as [|b bs Hb _ IH]; cbn [shift_at total_growth List.length]; [lia|].
  unfold grows in Hb. pose proof (growth_range b).
  destruct (Asm.old_location_ b <? p); lia.
Qed.

Lemma shift_at_mod4 (bs : list Asm.Branch) (p : Z) : shift_at bs p mod 4 = 0.
Proof.
  induction bs as [|b bs IH]; cbn [shift_at]; [reflexivity|].
  pose proof (growth_range b) as [_ G].
  destruct (Asm.old_location_ b <? p); Z.div_mod_to_equations; lia.
Qed.

Lemma total_growth_mod4 (bs : list Asm.Branch) : total_growth bs mod 4 = 0.
Proof.
  induction bs as [|b bs IH]; cbn [total_growth]; [reflexivity|].
  pose proof (growth_range b) as [_ G]. Z.div_mod_to_equations. lia.
Qed.

Lemma shift_at_mono (bs : list Asm.Branch) (p q : Z) :
  Forall grows bs -> p <= q -> shift_at bs p <= shift_at bs q.
Proof.
  intros H Hpq. induction H as [|b bs Hb _ IH]; cbn [shift_at]; [lia|].
  unfold grows in Hb.
  destruct (Z.ltb_spec (Asm.old_location_ b) p), (Z.ltb_spec (Asm.old_location_ b) q); lia.
Qed.

(** A branch recorded between two positions counts for the second only. *)
Lemma shift_at_step (bs : list Asm.Branch) (b : Asm.Branch) (p q : Z) :
  Forall grows bs -> In b bs -> p <= Asm.old_location_ b < q ->
  shift_at bs p + growth b <= shift_at bs q.
Proof.
  intros H Hin Hpq. induction H as [|h bs Hh Hbs IH]; [destruct Hin|].
  cbn [shift_at]. unfold grows in Hh.
  destruct Hin as [->|Hin].
  - pose proof (shift_at_mono bs p q Hbs ltac:(lia)).
    destruct (Z.ltb_spec (Asm.old_location_ b) p), (Z.ltb_spec (Asm.old_location_ b) q); lia.
  - specialize (IH Hin).
    destruct (Z.ltb_spec (Asm.old_location_ h) p), (Z.ltb_spec (Asm.old_location_ h) q); lia.
Qed.

Lemma shift_at_all (bs : list Asm.Branch) (p : Z) :
  (forall b, In b bs -> Asm.old_location_ b < p) -> shift_at bs p = total_growth bs.
Proof.
  induction bs as [|b bs IH]; intros H; cbn [shift_at total_growth]; [reflexivity|].
  rewrite IH by (intros x Hx; apply H; right; exact Hx).
  destruct (Z.ltb_spec (Asm.old_location_ b) p); [reflexivity|].
  specialize (H b (or_introl eq_refl)). lia.
Qed.

Lemma shift_at_none (bs : list Asm.Branch) (p : Z) :
  (forall b, In b bs -> p <= Asm.old_location_ b) -> shift_at bs p = 0.
Proof.
  induction bs as [|b bs IH]; intros H; cbn [shift_at]; [reflexivity|].
  rewrite IH by (intros x Hx; apply H; right; exact Hx).
  destruct (Z.ltb_spec (Asm.old_location_ b) p); [|reflexivity].
  specialize (H b (or_introl eq_refl)). lia.
Qed.

Lemma shift_at_app (l1 l2 : list Asm.Branch) (p : Z) :
  shift_at (l1 ++ l2) p = shift_at l1 p + shift_at l2 p.
Proof. induction l1 as [|b l1 IH]; cbn [shift_at app]; [reflexivity|]. lia. Qed.

Lemma total_growth_app (l1 l2 : list Asm.Branch) :
  total_growth (l1 ++ l2) = total_growth l1 + total_growth l2.
Proof. induction l1 as [|b l1 IH]; cbn [total_growth app]; [reflexivity|]. lia. Qed.

(** The shift reads the old location and the two types only. *)
Definition same_extent (b b' : Asm.Branch) : Prop :=
  Asm.old_location_ b' = Asm.old_location_ b
  /\ Asm.type_ b' = Asm.type_ b /\ Asm.old_type_ b' = Asm.old_type_ b.

Lemma growth_ext (b b' : Asm.Branch) : same_extent b b' -> growth b' = growth b.
Proof.
  intros (_ & T & O).
  unfold growth, Asm.GetSize, Asm.GetOldSize, Asm.GetLength, Asm.GetOldLength.
  rewrite T, O. reflexivity.
Qed.

Lemma shift_at_map (f : Asm.Branch -> Asm.Branch) (bs : list Asm.Branch) (p : Z) :
  (forall b, same_extent b (f b)) -> shift_at (map f bs) p = shift_at bs p.
Proof.
  intros H. induction bs as [|b bs IH]; cbn [shift_at map]; [reflexivity|].
  rewrite IH, (growth_ext b (f b) (H b)). destruct (H b) as (-> & _). reflexivity.
Qed.

Lemma total_growth_map (f : Asm.Branch -> Asm.Branch) (bs : list Asm.Branch) :
  (forall b, same_extent b (f b)) -> total_growth (map f bs) = total_growth bs.
Proof.
  intros H. induction bs as [|b bs IH]; cbn [total_growth map]; [reflexivity|].
  rewrite IH, (growth_ext b (f b) (H b)). reflexivity.
Qed.

Lemma Relocate_extent (e d : Z) (b : Asm.Branch) : same_extent b (Asm.Relocate b e d).
Proof. repeat split. Qed.

Lemma Resolve_extent (t : Z) (b : Asm.Branch) : same_extent b (Asm.Resolve b t).
Proof. repeat split. Qed.

Lemma shift_at_update (bs : list Asm.Branch) (i : nat) (b b' : Asm.Branch) (p : Z) :
  nth_error bs i = Some b ->
  Asm.old_location_ b' = Asm.old_location_ b ->
  shift_at (Asm.list_update bs i b') p
  = shift_at bs p
    + (if Asm.old_location_ b <? p then growth b' - growth b else 0).
Proof.
  revert i. induction bs as [|h t IH]; intros [|i] H E; try discriminate;
    cbn [Asm.list_update shift_at].
  - injection H as ->. rewrite E. destruct (Asm.old_location_ b <? p); lia.
  - rewrite (IH i H E). lia.
Qed.

Lemma Forall_list_update {A : Type} (P : A -> Prop) (l : list A) (i : nat) (x : A) :
  Forall P l -> P x -> Forall P (Asm.list_update l i x).
Proof.
  intros H Hx. revert i. induction H as [|h t Hh Ht IH]; intros [|i];
    cbn [Asm.list_update]; constructor; auto.
Qed.

Lemma Forall2_list_update {A B : Type} (P Q : A -> B -> Prop) (l0 : list A)
    (l : list B) (i : nat) (y x : B) :
  Forall2 P l0 l -> nth_error l i = Some y ->
  (forall a z, P a z -> Q a z) ->
  (forall a, P a y -> Q a x) ->
  Forall2 Q l0 (Asm.list_update l i x).
Proof.
  intros H. revert i. induction H as [|a z l0 l Haz H IH]; intros [|i] N HQ Hx;
    try discriminate; cbn [Asm.list_update].
  - injection N as ->. constructor; [apply Hx, Haz|].
    clear - H HQ. induction H; constructor; auto.
  - constructor; [apply HQ, Haz|]. apply IH; assumption.
Qed.

Lemma Forall2_nth_error_r {A B : Type} (R : A -> B -> Prop) (l0 : list A)
    (l : list B) (i : nat) (y : B) :
  Forall2 R l0 l -> nth_error l i = Some y ->
  exists a, nth_error l0 i = Some a /\ R a y.
Proof.
  intros H. revert i. induction H as [|a z l0 l Haz _ IH]; intros [|i] N;
    try discriminate.
  - injection N as ->. exists a. split; [reflexivity|exact Haz].
  - apply IH, N.
Qed.

Lemma Forall2_with_l {A B : Type} (R : A -> B -> Prop) (Q : A -> Prop)
    (l0 : list A) (l : list B) :
  Forall2 R l0 l -> Forall Q l0 -> Forall2 (fun a z => R a z /\ Q a) l0 l.
Proof.
  induction 1 as [|a z l0 l Haz _ IH]; intros HQ; constructor;
    inversion HQ; subst; auto.
Qed.

Lemma Forall2_map_right {A B C : Type} (R : A -> C -> Prop) (f : B -> C)
    (l0 : list A) (l : list B) :
  Forall2 (fun a z => R a (f z)) l0 l -> Forall2 R l0 (map f l).
Proof. induction 1; cbn [map]; constructor; assumption. Qed.

(** What promotion has made of a branch [b0] of the method as it was
    recorded: in the list [bs] it stands [shift_at bs] higher, and so
    does its target; it has its old type or a long one. *)
Record relocated (bs : list Asm.Branch) (b0 b : Asm.Branch) : Prop := {
  rel_old_location : Asm.old_location_ b = Asm.location_ b0;
  rel_old_type : Asm.old_type_ b = Asm.type_ b0;
  rel_lhs : Asm.lhs_reg_ b = Asm.lhs_reg_ b0;
  rel_rhs : Asm.rhs_reg_ b = Asm.rhs_reg_ b0;
  rel_condition : Asm.condition_ b = Asm.condition_ b0;
  rel_type : Asm.type_ b = Asm.type_ b0 \/ Asm.IsLong b = true;
  rel_grows : 0 <= growth b;
  rel_location :
    Asm.location_ b = Asm.location_ b0 + shift_at bs (Asm.location_ b0);
  rel_target :
    Asm.target_ b = if Asm.IsResolved b0
                    then Asm.target_ b0 + shift_at bs (Asm.target_ b0)
                    else Asm.target_ b0
}.

Lemma old_and_new_order (bs : list Asm.Branch) (p q : Z) :
  Forall grows bs ->
  (p + shift_at bs p <? q + shift_at bs q) = (p <? q).
Proof.
  intros H.
  destruct (Z.ltb_spec p q) as [L|L].
  - pose proof (shift_at_mono bs p q H ltac:(lia)). apply Z.ltb_lt. lia.
  - pose proof (shift_at_mono bs q p H ltac:(lia)). apply Z.ltb_ge. lia.
Qed.

Lemma relocated_grows (bs bs0 l : list Asm.Branch) :
  Forall2 (relocated bs) bs0 l -> Forall grows l.
Proof.
  induction 1 as [|b0 b l0 l H _ IH]; constructor; [|exact IH].
  exact (rel_grows _ _ _ H).
Qed.

Lemma PromoteIfNeeded_shape (b b' : Asm.Branch) (delta : Z) :
  Asm.PromoteIfNeeded b Asm.kDefaultMaxShortDistance = Some (delta, b') ->
  b' = Asm.set_type b (Asm.type_ b').
Proof.
  assert (S : forall x, x = Asm.set_type x (Asm.type_ x)) by (intros []; reflexivity).
  assert (P : forall x, Asm.PromoteToLong b = Some x ->
                x = Asm.set_type b (Asm.type_ x)).
  { unfold Asm.PromoteToLong. intros x.
    destruct (Asm.IsBare b); [discriminate|].
    destruct (Asm.IsLong _); [|discriminate].
    intros H. injection H as <-. destruct (Asm.type_ b); try apply S; reflexivity. }
  unfold Asm.PromoteIfNeeded.
  destruct (Asm.IsLong b || negb (Asm.IsResolved b)).
  { intros H. injection H as _ <-. apply S. }
  destruct (Asm.GetOffsetSize b <? _).
  { destruct (Asm.PromoteToLong b) as [x|] eqn:E; [|discriminate].
    destruct (_ <? _); [|discriminate].
    intros H. injection H as _ <-. apply P. reflexivity. }
  change (negb (Asm.kDefaultMaxShortDistance =? Asm.kDefaultMaxShortDistance))
    with false. cbn [andb].
  intros H. injection H as _ <-. apply S.
Qed.

Section Promotion.
Variable size0 : Z.
Variable bs0 : list Asm.Branch.
Hypothesis Hloc : Forall (fun b0 => 0 <= Asm.location_ b0 <= size0) bs0.
Hypothesis Htgt :
  Forall (fun b0 => Asm.IsResolved b0 = true -> 0 <= Asm.target_ b0 <= size0) bs0.
Hypothesis Hsize : size0 + 8 * Z.of_nat (List.length bs0) + 8 < 2 ^ 32 - 1.

(** The branches of the method after some turns of the loop. *)
Definition promoted (bs : list Asm.Branch) : Prop := Forall2 (relocated bs) bs0 bs.

Lemma promoted_length (bs : list Asm.Branch) :
  promoted bs -> List.length bs = List.length bs0.
Proof. intros H. symmetry. exact (Forall2_length H). Qed.

Lemma relocated_resolved (bs : list Asm.Branch) (b0 b : Asm.Branch) :
  Forall grows bs -> List.length bs = List.length bs0 ->
  relocated bs b0 b ->
  (Asm.IsResolved b0 = true -> 0 <= Asm.target_ b0 <= size0) ->
  Asm.IsResolved b = Asm.IsResolved b0.
Proof.
  intros G L R T. unfold Asm.IsResolved at 1. rewrite (rel_target _ _ _ R).
  destruct (Asm.IsResolved b0) eqn:E.
  - specialize (T eq_refl).
    destruct (shift_at_range bs (Asm.target_ b0) G) as [S1 S2].
    apply negb_true_iff, Z.eqb_neq. unfold Asm.kUnresolved.
    change (2 ^ 32) with 4294967296 in Hsize. lia.
  - exact E.
Qed.

Lemma relocated_cell (bs bs' : list Asm.Branch) (bi b0 y x : Asm.Branch) (delta : Z) :
  Forall grows bs -> List.length bs = List.length bs0 ->
  (forall p, shift_at bs' p
             = shift_at bs p + (if Asm.old_location_ bi <? p then delta else 0)) ->
  Asm.location_ bi = Asm.old_location_ bi + shift_at bs (Asm.old_location_ bi) ->
  0 < delta <= 8 ->
  relocated bs b0 y ->
  0 <= Asm.location_ b0 <= size0 ->
  (Asm.IsResolved b0 = true -> 0 <= Asm.target_ b0 <= size0) ->
  x = y \/ (x = Asm.set_type y (Asm.type_ x) /\ Asm.IsLong x = true /\ 0 <= growth x) ->
  relocated bs' b0 (Asm.Relocate x (Asm.location_ bi) delta).
Proof.
  intros G L S Li D R HL HT Hx.
  pose proof (relocated_resolved bs b0 y G L R HT) as Res.
  assert (F : Asm.old_location_ x = Asm.old_location_ y
              /\ Asm.old_type_ x = Asm.old_type_ y
              /\ Asm.lhs_reg_ x = Asm.lhs_reg_ y /\ Asm.rhs_reg_ x = Asm.rhs_reg_ y
              /\ Asm.condition_ x = Asm.condition_ y
              /\ Asm.location_ x = Asm.location_ y /\ Asm.target_ x = Asm.target_ y
              /\ (Asm.type_ x = Asm.type_ b0 \/ Asm.IsLong x = true)
              /\ 0 <= growth x).
  { destruct Hx as [->|(E & Lx & Gx)].
    - repeat split; try reflexivity;
        [exact (rel_type _ _ _ R)|exact (rel_grows _ _ _ R)].
    - rewrite E. cbn [Asm.set_type Asm.old_location_ Asm.old_type_ Asm.lhs_reg_
                      Asm.rhs_reg_ Asm.condition_ Asm.location_ Asm.target_].
      repeat split; try reflexivity; [right; rewrite <- E; exact Lx|].
      rewrite <- E. exact Gx. }
  destruct F as (F1 & F2 & F3 & F4 & F5 & F6 & F7 & F8 & F9).
  assert (Rx : Asm.IsResolved x = Asm.IsResolved b0).
  { rewrite <- Res. unfold Asm.IsResolved. rewrite F7. reflexivity. }
  destruct (shift_at_range bs (Asm.location_ b0) G) as [S1 S2].
  destruct (shift_at_range bs (Asm.target_ b0) G) as [S3 _].
  change (2 ^ 32) with 4294967296 in Hsize.
  constructor;
    cbn [Asm.Relocate Asm.old_location_ Asm.old_type_ Asm.lhs_reg_ Asm.rhs_reg_
         Asm.condition_ Asm.type_ Asm.location_ Asm.target_].
  - rewrite F1. exact (rel_old_location _ _ _ R).
  - rewrite F2. exact (rel_old_type _ _ _ R).
  - rewrite F3. exact (rel_lhs _ _ _ R).
  - rewrite F4. exact (rel_rhs _ _ _ R).
  - rewrite F5. exact (rel_condition _ _ _ R).
  - exact F8.
  - exact F9.
  - rewrite F6, (rel_location _ _ _ R), Li, S.
    rewrite (old_and_new_order bs _ _ G).
    destruct (Asm.old_location_ bi <? Asm.location_ b0).
    + rewrite u32_small by (change (2 ^ 32) with 4294967296; lia). lia.
    + lia.
  - rewrite Rx, F7, (rel_target _ _ _ R).
    destruct (Asm.IsResolved b0) eqn:E0; cbn [negb]; [|reflexivity].
    specialize (HT eq_refl).
    rewrite Li, S, (old_and_new_order bs _ _ G).
    destruct (Asm.old_location_ bi <? Asm.target_ b0).
    + rewrite u32_small by (change (2 ^ 32) with 4294967296; lia). lia.
    + lia.
Qed.

(** One promotion and the relocation it causes. *)
Lemma promoted_step (bs : list Asm.Branch) (i : nat) (b b' : Asm.Branch) (delta : Z) :
  promoted bs ->
  nth_error bs i = Some b ->
  Asm.PromoteIfNeeded b Asm.kDefaultMaxShortDistance = Some (delta, b') ->
  delta <> 0 ->
  promoted (map (fun x => Asm.Relocate x (Asm.location_ b') delta)
                (Asm.list_update bs i b')).
Proof.
  intros P N H D.
  pose proof (PromoteIfNeeded_shape b b' delta H) as Shape.
  destruct (PromoteIfNeeded_cases b b' delta H)
    as [(E & _)|(D1 & L & L' & Rb & _ & Lb & Tb & Dd)]; [contradiction|].
  pose proof (relocated_grows _ _ _ P) as G.
  pose proof (promoted_length bs P) as Len.
  rewrite Lb.
  set (bsu := Asm.list_update bs i b').
  set (bs' := map (fun x => Asm.Relocate x (Asm.location_ b) delta) bsu).
  (* the branch promoted: what it was *)
  destruct (Forall2_nth_error_r _ bs0 bs i b P N) as (b0i & N0 & Ri).
  assert (Gb : growth b = 0).
  { apply growth_same_type. rewrite (rel_old_type _ _ _ Ri).
    destruct (rel_type _ _ _ Ri) as [T|T]; [exact T|congruence]. }
  assert (Gb' : growth b' = delta).
  { unfold growth. lia. }
  assert (Ob : Asm.old_location_ b' = Asm.old_location_ b)
    by (rewrite Shape; reflexivity).
  assert (S : forall p, shift_at bs' p
                        = shift_at bs p
                          + (if Asm.old_location_ b <? p then delta else 0)).
  { intros p. unfold bs'.
    rewrite (shift_at_map _ bsu p) by (intros x; apply Relocate_extent).
    unfold bsu. rewrite (shift_at_update bs i b b' p N Ob), Gb', Gb.
    destruct (Asm.old_location_ b <? p); lia. }
  assert (Li : Asm.location_ b = Asm.old_location_ b
                                 + shift_at bs (Asm.old_location_ b)).
  { rewrite (rel_location _ _ _ Ri), (rel_old_location _ _ _ Ri). reflexivity. }
  assert (D8 : 0 < delta <= 8).
  { pose proof (growth_range b'). lia. }
  unfold promoted, bs'. apply Forall2_map_right.
  assert (HB : Forall2 (fun b0 y => relocated bs b0 y
                                    /\ (0 <= Asm.location_ b0 <= size0
                                        /\ (Asm.IsResolved b0 = true ->
                                            0 <= Asm.target_ b0 <= size0))) bs0 bs).
  { apply Forall2_with_l; [exact P|].
    apply Forall_forall. intros x Hx. split.
    - exact (proj1 (Forall_forall _ _) Hloc x Hx).
    - exact (proj1 (Forall_forall _ _) Htgt x Hx). }
  unfold bsu.
  apply (Forall2_list_update _ _ bs0 bs i b b' HB N).
  - intros a z (R & HL & HT).
    apply (relocated_cell bs bs' b a z z delta G Len); try assumption.
    left. reflexivity.
  - intros a (R & HL & HT).
    apply (relocated_cell bs bs' b a b b' delta G Len); try assumption.
    right. split; [exact Shape|]. split; [exact L'|lia].
Qed.

Lemma promoted_PromotePass (todo i : nat) (bs bs' : list Asm.Branch) (c c' : bool) :
  promoted bs ->
  Asm.PromotePass todo i bs c = Some (bs', c') -> promoted bs'.
Proof.
  revert i bs c. induction todo as [|todo IH]; intros i bs c P; cbn [Asm.PromotePass].
  - intros H. injection H as <- _. exact P.
  - destruct (nth_error bs i) as [b|] eqn:N.
    + destruct (negb (Asm.IsResolved b)); [discriminate|].
      destruct (Asm.PromoteIfNeeded b Asm.kDefaultMaxShortDistance)
        as [[delta b']|] eqn:H; [|discriminate].
      destruct (Z.eqb_spec delta 0) as [->|D].
      * destruct (PromoteIfNeeded_cases b b' 0 H) as [(_ & -> & _)|(D1 & _)]; [|lia].
        rewrite (list_update_same bs i b N). apply IH, P.
      * apply IH. apply (promoted_step bs i b b' delta P N H D).
    + intros H. injection H as <- _. exact P.
Qed.

Lemma promoted_PromoteLoop (fuel : nat) (bs bs' : list Asm.Branch) :
  promoted bs -> Asm.PromoteLoop fuel bs = Asm.Settled bs' -> promoted bs'.
Proof.
  revert bs. induction fuel as [|fuel IH]; intros bs P; cbn [Asm.PromoteLoop];
    [discriminate|].
  destruct (Asm.PromotePass (List.length bs) 0 bs false) as [[bs1 c1]|] eqn:E;
    [|discriminate].
  pose proof (promoted_PromotePass _ _ _ _ _ _ P E) as P1.
  destruct c1.
  - apply IH, P1.
  - intros H. injection H as <-. exact P1.
Qed.

End Promotion.

(** Before promotion, every branch is where it was recorded. *)
Definition unpromoted (b : Asm.Branch) : Prop :=
  Asm.old_location_ b = Asm.location_ b /\ Asm.old_type_ b = Asm.type_ b.

Lemma shift_at_unpromoted (bs : list Asm.Branch) (p : Z) :
  Forall unpromoted bs -> shift_at bs p = 0.
Proof.
  induction 1 as [|b bs [_ Hb] _ IH]; cbn [shift_at]; [reflexivity|].
  rewrite IH, (growth_same_type b) by congruence.
  destruct (_ <? _); reflexivity.
Qed.

Lemma promoted_start (bs0 : list Asm.Branch) :
  Forall unpromoted bs0 -> promoted bs0 bs0.
Proof.
  intros H. unfold promoted.
  assert (A : forall l, Forall unpromoted l -> Forall2 (relocated bs0) l l).
  { induction 1 as [|b l [Hl Ht] _ IH]; constructor; [|exact IH].
    constructor; try reflexivity; try assumption.
    - left. reflexivity.
    - rewrite (growth_same_type b) by congruence. lia.
    - rewrite (shift_at_unpromoted bs0 _ H). lia.
    - rewrite (shift_at_unpromoted bs0 _ H). destruct (Asm.IsResolved b); lia. }
  apply A, H.
Qed.

(** *** The branches in the buffer *)

(** The branches lie in the buffer one after the other from [from] on
    and end at or before [limit]. *)
Fixpoint in_order (from : Z) (bs : list Asm.Branch) (limit : Z) : Prop :=
  match bs with
  | [] => from <= limit
  | b :: rest => from <= Asm.location_ b
                 /\ in_order (Asm.location_ b + Asm.GetSize b) rest limit
  end.

(** The same of the places they had when they were recorded. *)
Fixpoint old_order (from : Z) (bs : list Asm.Branch) (limit : Z) : Prop :=
  match bs with
  | [] => from <= limit
  | b :: rest => from <= Asm.old_location_ b
                 /\ old_order (Asm.old_location_ b + Asm.GetOldSize b) rest limit
  end.

Lemma in_order_bounds (from limit : Z) (bs : list Asm.Branch) :
  in_order from bs limit ->
  from <= limit
  /\ Forall (fun b => from <= Asm.location_ b
                      /\ Asm.location_ b + Asm.GetSize b <= limit) bs.
Proof.
  revert from. induction bs as [|b bs IH]; intros from; cbn [in_order].
  - intros H. split; [exact H|constructor].
  - intros [H1 H2]. destruct (IH _ H2) as [L F].
    destruct (sizes_small b) as [S _].
    split; [lia|]. constructor; [lia|].
    apply (Forall_impl _ (P := fun x => Asm.location_ b + Asm.GetSize b <= Asm.location_ x
                               /\ Asm.location_ x + Asm.GetSize x <= limit)); [|exact F].
    intros x [A B]. lia.
Qed.

Lemma old_order_bounds (from limit : Z) (bs : list Asm.Branch) :
  old_order from bs limit ->
  from <= limit
  /\ Forall (fun b => from <= Asm.old_location_ b
                      /\ Asm.old_location_ b + Asm.GetOldSize b <= limit) bs.
Proof.
  revert from. induction bs as [|b bs IH]; intros from; cbn [old_order].
  - intros H. split; [exact H|constructor].
  - intros [H1 H2]. destruct (IH _ H2) as [L F].
    destruct (sizes_small b) as [_ S].
    split; [lia|]. constructor; [lia|].
    apply (Forall_impl _ (P := fun x => Asm.old_location_ b + Asm.GetOldSize b
                                        <= Asm.old_location_ x
                               /\ Asm.old_location_ x + Asm.GetOldSize x <= limit));
      [|exact F].
    intros x [A B]. lia.
Qed.

Lemma in_order_weaken (from from' limit limit' : Z) (bs : list Asm.Branch) :
  from' <= from -> limit <= limit' ->
  in_order from bs limit -> in_order from' bs limit'.
Proof.
  intros Hf Hl. destruct bs as [|b bs]; cbn [in_order]; [lia|].
  intros [H1 H2]. split; [lia|].
  clear H1 Hf. revert H2. generalize (Asm.location_ b + Asm.GetSize b).
  induction bs as [|x bs IH]; intros f; cbn [in_order]; [lia|].
  intros [H1 H2]. split; [exact H1|apply IH, H2].
Qed.

Lemma in_order_apart (from limit : Z) (bs : list Asm.Branch) :
  in_order from bs limit -> ForallOrdPairs apart bs.
Proof.
  revert from. induction bs as [|b bs IH]; intros from; cbn [in_order];
    [constructor|].
  intros [H1 H2]. constructor; [|apply (IH _ H2)].
  destruct (in_order_bounds _ _ _ H2) as [_ F].
  apply (Forall_impl _ (P := fun x => Asm.location_ b + Asm.GetSize b <= Asm.location_ x
                             /\ Asm.location_ x + Asm.GetSize x <= limit)); [|exact F].
  intros x [A _]. left. exact A.
Qed.

Lemma old_order_app (from limit : Z) (l : list Asm.Branch) (b : Asm.Branch) :
  old_order from (l ++ [b]) limit ->
  old_order from l (Asm.old_location_ b)
  /\ Asm.old_location_ b + Asm.GetOldSize b <= limit.
Proof.
  revert from. induction l as [|x l IH]; intros from; cbn [old_order app].
  - intros [H1 H2]. split; assumption.
  - intros [H1 H2]. destruct (IH _ H2) as [A B]. repeat split; assumption.
Qed.

(** *** Moving the code *)

Lemma buf_Move_bytes (buf : list Z) (newposition oldposition size : Z) :
  0 <= newposition -> 0 <= oldposition -> 0 <= size ->
  oldposition + size <= Asm.buf_Size buf ->
  newposition + size <= Asm.buf_Size buf ->
  Asm.buf_Size (Asm.buf_Move buf newposition oldposition size) = Asm.buf_Size buf
  /\ forall p,
       Asm.byte_at (Asm.buf_Move buf newposition oldposition size) p
       = if (newposition <=? p) && (p <? newposition + size)
         then Asm.byte_at buf (p - newposition + oldposition)
         else Asm.byte_at buf p.
Proof.
  intros Hn Ho Hs H1 H2. unfold Asm.buf_Size in *. unfold Asm.buf_Move.
  assert (L1 : List.length (firstn (Z.to_nat newposition) buf) = Z.to_nat newposition)
    by (rewrite length_firstn; lia).
  assert (L2 : List.length (firstn (Z.to_nat size) (skipn (Z.to_nat oldposition) buf))
               = Z.to_nat size)
    by (rewrite length_firstn, length_skipn; lia).
  split.
  - rewrite !length_app, L1, L2, length_skipn. lia.
  - intros p. unfold Asm.byte_at.
    destruct (Z.ltb_spec p 0) as [Hp|Hp].
    + destruct (Z.leb_spec newposition p); [lia|]. cbn [andb].
      destruct (Z.ltb_spec p 0); [reflexivity|lia].
    + destruct (Z.leb_spec newposition p) as [A|A]; cbn [andb].
      * destruct (Z.ltb_spec p (newposition + size)) as [B|B].
        -- destruct (Z.ltb_spec (p - newposition + oldposition) 0); [lia|].
           rewrite app_nth2 by lia. rewrite L1.
           rewrite app_nth1 by lia.
           rewrite nth_firstn.
           replace (Nat.ltb (Z.to_nat p - Z.to_nat newposition) (Z.to_nat size))
             with true by (symmetry; apply Nat.ltb_lt; lia).
           rewrite nth_skipn. f_equal. lia.
        -- rewrite app_nth2 by lia. rewrite L1.
           rewrite app_nth2 by lia. rewrite L2.
           rewrite nth_skipn. f_equal. lia.
      * rewrite app_nth1 by lia. rewrite nth_firstn.
        replace (Nat.ltb (Z.to_nat p) (Z.to_nat newposition))
          with true by (symmetry; apply Nat.ltb_lt; lia).
        reflexivity.
Qed.

(** A position of the old code outside the places of the branches. *)
Definition in_gap (bs : list Asm.Branch) (p : Z) : Prop :=
  forall b, In b bs ->
    p < Asm.old_location_ b \/ Asm.old_location_ b + Asm.GetOldSize b <= p.

(** Every branch stands higher by what the branches before it have
    grown. *)
Definition spaced (bs : list Asm.Branch) : Prop :=
  Forall grows bs
  /\ forall b, In b bs ->
       Asm.location_ b = Asm.old_location_ b + shift_at bs (Asm.old_location_ b).

Lemma spaced_app (l : list Asm.Branch) (b : Asm.Branch) (limit : Z) :
  spaced (l ++ [b]) -> old_order 0 (l ++ [b]) limit ->
  spaced l
  /\ 0 <= growth b
  /\ Asm.location_ b = Asm.old_location_ b + total_growth l
  /\ (forall p, p <= Asm.old_location_ b -> shift_at (l ++ [b]) p = shift_at l p)
  /\ (forall p, Asm.old_location_ b < p ->
        shift_at (l ++ [b]) p = total_growth l + growth b).
Proof.
  intros [G S] O. destruct (old_order_app _ _ _ _ O) as [O1 O2].
  destruct (old_order_bounds _ _ _ O1) as [_ F].
  destruct (sizes_small b) as [_ Sb].
  apply Forall_app in G. destruct G as [G1 G2].
  assert (Before : forall x, In x l -> Asm.old_location_ x < Asm.old_location_ b).
  { intros x Hx. pose proof (proj1 (Forall_forall _ _) F x Hx) as [_ H].
    destruct (sizes_small x) as [_ Sx]. lia. }
  assert (E1 : forall p, p <= Asm.old_location_ b ->
                 shift_at (l ++ [b]) p = shift_at l p).
  { intros p Hp. rewrite shift_at_app. cbn [shift_at].
    destruct (Z.ltb_spec (Asm.old_location_ b) p); lia. }
  split; [|split; [|split; [|split]]].
  - split; [exact G1|]. intros x Hx.
    rewrite (S x) by (apply in_or_app; left; exact Hx).
    rewrite E1 by (specialize (Before x Hx); lia). reflexivity.
  - inversion G2; subst. assumption.
  - rewrite (S b) by (apply in_or_app; right; left; reflexivity).
    rewrite E1 by lia. rewrite (shift_at_all l _ Before). reflexivity.
  - exact E1.
  - intros p Hp. rewrite shift_at_app. cbn [shift_at].
    rewrite (shift_at_all l p) by (intros x Hx; specialize (Before x Hx); lia).
    destruct (Z.ltb_spec (Asm.old_location_ b) p); lia.
Qed.

Lemma MoveCode_spec (l : list Asm.Branch) :
  forall (end_ : Z) (buf : list Z),
    spaced l -> old_order 0 l end_ ->
    end_ + total_growth l <= Asm.buf_Size buf < 2 ^ 32 ->
    Asm.buf_Size (Asm.MoveCode (rev l) end_ buf) = Asm.buf_Size buf
    /\ (forall p, end_ + total_growth l <= p ->
          Asm.byte_at (Asm.MoveCode (rev l) end_ buf) p = Asm.byte_at buf p)
    /\ (forall p, 0 <= p < end_ -> in_gap l p ->
          Asm.byte_at (Asm.MoveCode (rev l) end_ buf) (p + shift_at l p)
          = Asm.byte_at buf p).
Proof.
  induction l as [|b l IH] using rev_ind; intros end_ buf Sp O Hb.
  - cbn [rev Asm.MoveCode shift_at]. split; [reflexivity|].
    split; [reflexivity|]. intros p _ _. rewrite Z.add_0_r. reflexivity.
  - rewrite rev_unit. cbn [Asm.MoveCode].
    destruct (spaced_app l b end_ Sp O) as (Sl & Gb & Lb & E1 & E2).
    destruct (old_order_app _ _ _ _ O) as [O1 O2].
    destruct (old_order_bounds _ _ _ O1) as [O0 _].
    destruct (sizes_small b) as [Sb1 Sb2].
    rewrite total_growth_app in *. cbn [total_growth] in *.
    rewrite Z.add_0_r in *.
    destruct (shift_at_range l 0 (proj1 Sl)) as [_ T8].
    assert (T0 : 0 <= total_growth l)
      by (destruct (shift_at_range l 0 (proj1 Sl)); lia).
    change (2 ^ 32) with 4294967296 in Hb.
    assert (OE : Asm.GetOldEndLocation b = Asm.old_location_ b + Asm.GetOldSize b).
    { unfold Asm.GetOldEndLocation. apply u32_small.
      change (2 ^ 32) with 4294967296. lia. }
    assert (NE : Asm.GetEndLocation b
                 = Asm.old_location_ b + Asm.GetOldSize b + (total_growth l + growth b)).
    { unfold Asm.GetEndLocation. rewrite Lb, u32_small
        by (change (2 ^ 32) with 4294967296; unfold growth in *; lia).
      unfold growth. lia. }
    rewrite OE, NE.
    set (oe := Asm.old_location_ b + Asm.GetOldSize b) in *.
    set (T := total_growth l + growth b) in *.
    rewrite (u32_small (end_ - oe)) by (change (2 ^ 32) with 4294967296; lia).
    destruct (buf_Move_bytes buf (oe + T) oe (end_ - oe)) as [M1 M2]; try lia.
    set (buf1 := Asm.buf_Move buf (oe + T) oe (end_ - oe)) in *.
    destruct (IH (Asm.old_location_ b) buf1 Sl O1) as (R1 & R2 & R3);
      [rewrite M1; change (2 ^ 32) with 4294967296; unfold growth in *; lia|].
    split; [rewrite R1; exact M1|]. split.
    + intros p Hp. rewrite R2 by (unfold T, oe in *; lia). rewrite M2.
      destruct (Z.leb_spec (oe + T) p); cbn [andb]; [|reflexivity].
      destruct (Z.ltb_spec p (oe + T + (end_ - oe))); [lia|reflexivity].
    + intros p Hp Gap.
      assert (Inb : In b (l ++ [b])) by (apply in_or_app; right; left; reflexivity).
      destruct (Gap b Inb) as [Lt|Ge].
      * rewrite E1 by lia.
        rewrite R3; [|lia|intros x Hx; apply Gap, in_or_app; left; exact Hx].
        rewrite M2.
        destruct (Z.leb_spec (oe + T) p); cbn [andb]; [unfold oe, T in *; lia|].
        reflexivity.
      * fold oe in Ge. rewrite E2 by (unfold oe in Ge; lia). fold T.
        rewrite R2 by (unfold T, oe in *; lia). rewrite M2.
        destruct (Z.leb_spec (oe + T) (p + T)); [|lia].
        destruct (Z.ltb_spec (p + T) (oe + T + (end_ - oe))); [|lia].
        cbn [andb]. f_equal. lia.
Qed.

Lemma Forall2_In_r {A B : Type} (R : A -> B -> Prop) (l0 : list A) (l : list B)
    (y : B) :
  Forall2 R l0 l -> In y l -> exists a, In a l0 /\ R a y.
Proof.
  induction 1 as [|a z l0 l Haz _ IH]; intros Hin; [destruct Hin|].
  destruct Hin as [->|Hin].
  - exists a. split; [left; reflexivity|exact Haz].
  - destruct (IH Hin) as (a' & I & Ra). exists a'. split; [right; exact I|exact Ra].
Qed.

Lemma relocated_old_size (bs : list Asm.Branch) (b0 b : Asm.Branch) :
  relocated bs b0 b -> Asm.GetOldSize b = Asm.GetSize b0.
Proof.
  intros R. unfold Asm.GetOldSize, Asm.GetSize, Asm.GetOldLength, Asm.GetLength.
  rewrite (rel_old_type _ _ _ R). reflexivity.
Qed.

Lemma size_is_old_size_and_growth (b : Asm.Branch) :
  Asm.GetSize b = Asm.GetOldSize b + growth b.
Proof. unfold growth. lia. Qed.

(** *** The layout after promotion *)

Lemma old_order_relocated (bs l0 l : list Asm.Branch) (from limit : Z) :
  Forall2 (relocated bs) l0 l -> in_order from l0 limit -> old_order from l limit.
Proof.
  intros H. revert from. induction H as [|b0 b l0 l R _ IH]; intros from;
    cbn [in_order old_order]; [auto|].
  intros [H1 H2]. rewrite (rel_old_location _ _ _ R), (relocated_old_size _ _ _ R).
  split; [exact H1|apply IH, H2].
Qed.

Lemma in_order_relocated (bs l0 l : list Asm.Branch) (from0 from limit : Z) :
  Forall grows bs ->
  Forall2 (relocated bs) l0 l -> incl l bs ->
  in_order from0 l0 limit ->
  from <= from0 + shift_at bs from0 ->
  in_order from l (limit + total_growth bs).
Proof.
  intros G H. revert from0 from. induction H as [|b0 b l0 l R _ IH];
    intros from0 from Incl; cbn [in_order].
  - intros H1 H2. destruct (shift_at_range bs from0 G) as [S _]. lia.
  - intros [H1 H2] H3.
    assert (Inb : In b bs) by (apply Incl; left; reflexivity).
    pose proof (shift_at_mono bs from0 (Asm.location_ b0) G H1) as M.
    split; [rewrite (rel_location _ _ _ R); lia|].
    apply (IH (Asm.location_ b0 + Asm.GetSize b0)).
    + intros x Hx. apply Incl. right. exact Hx.
    + exact H2.
    + rewrite (rel_location _ _ _ R), (size_is_old_size_and_growth b),
        (relocated_old_size _ _ _ R).
      destruct (sizes_small b0) as [S0 _].
      pose proof (shift_at_step bs b (Asm.location_ b0)
                    (Asm.location_ b0 + Asm.GetSize b0) G Inb) as St.
      rewrite (rel_old_location _ _ _ R) in St. lia.
Qed.

Lemma spaced_relocated (bs0 bs : list Asm.Branch) :
  promoted bs0 bs -> spaced bs.
Proof.
  intros P. split; [exact (relocated_grows _ _ _ P)|].
  intros b Hb. destruct (Forall2_In_r _ _ _ _ P Hb) as (b0 & _ & R).
  rewrite (rel_location _ _ _ R), (rel_old_location _ _ _ R). reflexivity.
Qed.

(** The growth of the last branch's end is the growth of the method. *)
Lemma last_end_growth (l : list Asm.Branch) (b : Asm.Branch) (limit : Z) :
  spaced (l ++ [b]) -> old_order 0 (l ++ [b]) limit ->
  limit + total_growth (l ++ [b]) < 2 ^ 32 ->
  u32 (Asm.GetEndLocation b - Asm.GetOldEndLocation b) = total_growth (l ++ [b]).
Proof.
  intros Sp O Hb.
  destruct (spaced_app l b limit Sp O) as (Sl & Gb & Lb & _ & _).
  destruct (old_order_app _ _ _ _ O) as [O1 O2].
  destruct (old_order_bounds _ _ _ O1) as [O0 _].
  destruct (sizes_small b) as [Sb1 Sb2].
  rewrite total_growth_app in *. cbn [total_growth] in *. rewrite Z.add_0_r in *.
  assert (T0 : 0 <= total_growth l)
    by (destruct (shift_at_range l 0 (proj1 Sl)); lia).
  change (2 ^ 32) with 4294967296 in Hb.
  assert (OE : Asm.GetOldEndLocation b = Asm.old_location_ b + Asm.GetOldSize b).
  { unfold Asm.GetOldEndLocation. apply u32_small.
    change (2 ^ 32) with 4294967296. lia. }
  assert (NE : Asm.GetEndLocation b
               = Asm.old_location_ b + Asm.GetOldSize b + (total_growth l + growth b)).
  { unfold Asm.GetEndLocation. rewrite Lb, u32_small
      by (change (2 ^ 32) with 4294967296; unfold growth in *; lia).
    unfold growth. lia. }
  rewrite OE, NE, u32_small by (change (2 ^ 32) with 4294967296; lia). lia.
Qed.

Lemma buf_Resize_grow (buf : list Z) (n : Z) :
  0 <= n ->
  Asm.buf_Size (Asm.buf_Resize buf (Asm.buf_Size buf + n)) = Asm.buf_Size buf + n
  /\ forall p, p < Asm.buf_Size buf ->
       Asm.byte_at (Asm.buf_Resize buf (Asm.buf_Size buf + n)) p = Asm.byte_at buf p.
Proof.
  intros Hn. unfold Asm.buf_Resize, Asm.buf_Size.
  rewrite firstn_all2 by lia. split.
  - rewrite length_app, repeat_length. lia.
  - intros p Hp. apply byte_at_app. exact Hp.
Qed.

(** The state in which the loop of PromoteBranches and the move of the
    code leave the assembler, before the 64-bit literals are aligned. *)
Definition promoted_state (a : Asm.Assembler) (bs : list Asm.Branch)
  : Asm.Assembler :=
  let a := Asm.with_branches a bs in
  match rev bs with
  | [] => a
  | last_branch :: _ =>
      let size_delta :=
        u32 (Asm.GetEndLocation last_branch - Asm.GetOldEndLocation last_branch) in
      let old_size := u32 (Asm.buf_Size (Asm.buffer_ a)) in
      let buf := Asm.buf_Resize (Asm.buffer_ a) (old_size + size_delta) in
      Asm.with_buffer a (Asm.MoveCode (rev bs) old_size buf)
  end.

Lemma PromoteBranches_parts (a a1 : Asm.Assembler) :
  Asm.PromoteBranches a = Some (tt, a1) ->
  exists bs,
    Asm.PromoteLoop (S (Asm.short_count (Asm.branches_ a))) (Asm.branches_ a)
    = Asm.Settled bs
    /\ Asm.AlignLongLiterals (promoted_state a bs) = Some (tt, a1).
Proof.
  unfold Asm.PromoteBranches. intros H. inv_run.
  destruct (Asm.PromoteLoop _ (Asm.branches_ a)) as [bs| |] eqn:P;
    try (unfold Asm.fatal in *; discriminate).
  inv_run. exists bs. split; [reflexivity|].
  match goal with
  | H : Asm.AlignLongLiterals _ = Some (?u, _) |- _ => destruct u; exact H
  end.
Qed.

Lemma promoted_state_fields (a : Asm.Assembler) (bs : list Asm.Branch) :
  Asm.branches_ (promoted_state a bs) = bs
  /\ Asm.literals_ (promoted_state a bs) = Asm.literals_ a
  /\ Asm.long_literals_ (promoted_state a bs) = Asm.long_literals_ a
  /\ Asm.overwriting_ (promoted_state a bs) = Asm.overwriting_ a.
Proof. unfold promoted_state. cbv zeta. destruct (rev bs); repeat split. Qed.

(** The buffer after the move: as long as the old one and the growth of
    the branches, with every byte of the old code outside the branches at
    its place in the new code. *)
Lemma promoted_state_buffer (a : Asm.Assembler) (bs : list Asm.Branch) :
  spaced bs -> old_order 0 bs (Asm.buf_Size (Asm.buffer_ a)) ->
  Asm.buf_Size (Asm.buffer_ a) + total_growth bs < 2 ^ 32 ->
  Asm.buf_Size (Asm.buffer_ (promoted_state a bs))
  = Asm.buf_Size (Asm.buffer_ a) + total_growth bs
  /\ forall p, 0 <= p < Asm.buf_Size (Asm.buffer_ a) -> in_gap bs p ->
       Asm.byte_at (Asm.buffer_ (promoted_state a bs)) (p + shift_at bs p)
       = Asm.byte_at (Asm.buffer_ a) p.
Proof.
  intros Sp O Hb. unfold promoted_state. cbv zeta.
  destruct (rev bs) as [|b r] eqn:E.
  - assert (bs = []) by (apply (f_equal (@rev _)) in E; rewrite rev_involutive in E;
                         exact E).
    subst bs. cbn [Asm.buffer_ Asm.with_branches total_growth shift_at].
    split; [lia|]. intros p _ _. rewrite Z.add_0_r. reflexivity.
  - assert (Ebs : bs = rev r ++ [b]).
    { apply (f_equal (@rev _)) in E. rewrite rev_involutive in E. exact E. }
    cbn [Asm.buffer_ Asm.with_branches Asm.with_buffer].
    assert (T0 : 0 <= total_growth bs)
      by (destruct (shift_at_range bs 0 (proj1 Sp)); lia).
    assert (S0 : 0 <= Asm.buf_Size (Asm.buffer_ a)) by (unfold Asm.buf_Size; lia).
    change (2 ^ 32) with 4294967296 in Hb.
    rewrite (u32_small (Asm.buf_Size (Asm.buffer_ a)))
      by (change (2 ^ 32) with 4294967296; lia).
    assert (D : u32 (Asm.GetEndLocation b - Asm.GetOldEndLocation b)
                = total_growth bs).
    { rewrite Ebs. apply (last_end_growth (rev r) b (Asm.buf_Size (Asm.buffer_ a)));
        rewrite <- Ebs; assumption. }
    rewrite D, <- E.
    destruct (buf_Resize_grow (Asm.buffer_ a) (total_growth bs) T0) as [Z1 Z2].
    destruct (MoveCode_spec bs (Asm.buf_Size (Asm.buffer_ a))
                (Asm.buf_Resize (Asm.buffer_ a)
                   (Asm.buf_Size (Asm.buffer_ a) + total_growth bs)) Sp O)
      as (M1 & _ & M3);
      [rewrite Z1; change (2 ^ 32) with 4294967296; lia|].
    split; [rewrite M1; exact Z1|].
    intros p Hp Gap. rewrite (M3 p Hp Gap). apply Z2. lia.
Qed.

(** *** The method before promotion *)

(** The bytes that the pool of 64-bit literals and the word reserved
    in front of it take at the end of the buffer. *)
Definition pool_room (a : Asm.Assembler) : Z :=
  match Asm.long_literals_ a with
  | [] => 0
  | _ :: _ => 4 + 8 * Z.of_nat (List.length (Asm.long_literals_ a))
  end.

Definition target_in (size : Z) (b : Asm.Branch) : Prop :=
  Asm.IsResolved b = true ->
  0 <= Asm.target_ b <= size /\ Asm.target_ b mod 2 = 0.

(** The branches as the assembler records them: one after the other in
    the code below [limit], each at an even location and as it was
    recorded, with a target that is unresolved or an even position of
    the buffer. *)
Definition code_layout (limit : Z) (a : Asm.Assembler) : Prop :=
  in_order 0 (Asm.branches_ a) limit
  /\ limit <= Asm.buf_Size (Asm.buffer_ a)
  /\ Forall unpromoted (Asm.branches_ a)
  /\ Forall (fun b => Asm.location_ b mod 2 = 0) (Asm.branches_ a)
  /\ Forall (target_in (Asm.buf_Size (Asm.buffer_ a))) (Asm.branches_ a).

(** A method ready for PromoteBranches: the branches lie in the code in
    front of the pool of 64-bit literals, and the method stays below
    2^31 - 2^11 bytes when every branch grows by 8 bytes. *)
Definition laid_out (a : Asm.Assembler) : Prop :=
  code_layout (Asm.buf_Size (Asm.buffer_ a) - pool_room a) a
  /\ Asm.buf_Size (Asm.buffer_ a) + 8 * Z.of_nat (List.length (Asm.branches_ a))
     < 2 ^ 31 - 2 ^ 11.

Lemma even_add4 (x s : Z) : x mod 2 = 0 -> s mod 4 = 0 -> (x + s) mod 2 = 0.
Proof. intros H1 H2. Z.div_mod_to_equations. lia. Qed.

Lemma laid_out_promoted (a : Asm.Assembler) (bs : list Asm.Branch) :
  laid_out a ->
  Asm.PromoteLoop (S (Asm.short_count (Asm.branches_ a))) (Asm.branches_ a)
  = Asm.Settled bs ->
  promoted (Asm.branches_ a) bs
  /\ List.length bs = List.length (Asm.branches_ a)
  /\ 0 <= total_growth bs <= 8 * Z.of_nat (List.length (Asm.branches_ a))
  /\ in_order 0 bs (Asm.buf_Size (Asm.buffer_ a) - pool_room a + total_growth bs)
  /\ spaced bs
  /\ old_order 0 bs (Asm.buf_Size (Asm.buffer_ a) - pool_room a)
  /\ (forall b, In b bs ->
        Asm.IsResolved b = true
        /\ 0 <= Asm.target_ b <= Asm.buf_Size (Asm.buffer_ a) + total_growth bs
        /\ Asm.target_ b mod 2 = 0
        /\ Asm.location_ b mod 2 = 0
        /\ (Asm.IsLong b = false ->
            IsInt (Asm.GetOffsetSize b) (biased (distance_of b)) = true)).
Proof.
  intros ((O & Lim & U & E & T) & B) H.
  set (size0 := Asm.buf_Size (Asm.buffer_ a)) in *.
  set (bs0 := Asm.branches_ a) in *.
  change (2 ^ 31) with 2147483648 in B. change (2 ^ 11) with 2048 in B.
  destruct (in_order_bounds _ _ _ O) as [L0 IB].
  assert (Hloc : Forall (fun b0 => 0 <= Asm.location_ b0 <= size0) bs0).
  { apply (Forall_impl _ (P := fun b => 0 <= Asm.location_ b
                                /\ Asm.location_ b + Asm.GetSize b
                                   <= size0 - pool_room a)); [|exact IB].
    intros b [A1 A2]. destruct (sizes_small b) as [S _]. lia. }
  assert (Htgt : Forall (fun b0 => Asm.IsResolved b0 = true ->
                                   0 <= Asm.target_ b0 <= size0) bs0).
  { apply (Forall_impl _ (P := target_in size0)); [|exact T].
    intros b Hb R. exact (proj1 (Hb R)). }
  assert (Hsize : size0 + 8 * Z.of_nat (List.length bs0) + 8 < 2 ^ 32 - 1)
    by (change (2 ^ 32) with 4294967296; lia).
  pose proof (promoted_PromoteLoop size0 bs0 Hloc Htgt Hsize _ _ _
                (promoted_start bs0 U) H) as P.
  pose proof (relocated_grows _ _ _ P) as G.
  pose proof (promoted_length bs0 bs P) as Len.
  destruct (shift_at_range bs 0 G) as [S0 S8]. rewrite Len in S8.
  split; [exact P|]. split; [exact Len|]. split; [lia|].
  split.
  { apply (in_order_relocated bs bs0 bs 0 0 _ G P); [intros x Hx; exact Hx|exact O|].
    destruct (shift_at_range bs 0 G). lia. }
  split; [exact (spaced_relocated _ _ P)|].
  split; [exact (old_order_relocated _ _ _ _ _ P O)|].
  intros b Hb.
  destruct (PromoteLoop_settled _ _ H b Hb) as [Rb Fb].
  destruct (Forall2_In_r _ _ _ _ P Hb) as (b0 & Hb0 & R).
  pose proof (proj1 (Forall_forall _ _) Htgt b0 Hb0) as T0.
  pose proof (proj1 (Forall_forall _ _) T b0 Hb0) as T1.
  pose proof (proj1 (Forall_forall _ _) E b0 Hb0) as E0.
  pose proof (relocated_resolved size0 bs0 Hsize bs b0 b G Len R T0) as Res.
  rewrite Rb in Res. symmetry in Res. destruct (T1 Res) as [T2 T3].
  pose proof (rel_target _ _ _ R) as Tg. rewrite Res in Tg.
  pose proof (rel_location _ _ _ R) as Lc.
  destruct (shift_at_range bs (Asm.target_ b0) G) as [S1 S2].
  pose proof (shift_at_mod4 bs (Asm.target_ b0)).
  pose proof (shift_at_mod4 bs (Asm.location_ b0)).
  split; [exact Rb|]. rewrite Tg, Lc. split; [lia|].
  split; [apply even_add4; assumption|].
  split; [apply even_add4; assumption|exact Fb].
Qed.

(** *** The pool of 64-bit literals after promotion *)

Lemma AlignLongLiterals_inv (a a' : Asm.Assembler) :
  Asm.AlignLongLiterals a = Some (tt, a') ->
  (Asm.long_literals_ a = [] /\ a' = a)
  \/ exists front rest loc,
       Asm.long_literals_ a = front :: rest
       /\ Asm.GetLabelLocation (Asm.label_ front) a = Some (loc, a)
       /\ loc + Z.of_nat (List.length (front :: rest)) * 8
          = Asm.buf_Size (Asm.buffer_ a).
Proof.
  unfold Asm.AlignLongLiterals. intros H. inv_run.
  destruct (Asm.long_literals_ a) as [|front rest] eqn:LL; inv_run;
    [left; split; reflexivity|].
  right. exists front, rest.
  match goal with
  | R : Asm.GetLabelLocation _ _ = Some (?l, _) |- _ =>
      exists l; pose proof (GetLabelLocation_state _ _ _ _ R); subst
  end.
  split; [reflexivity|]. split; [assumption|].
  match goal with C : (_ =? _) = true |- _ => apply Z.eqb_eq in C; exact C end.
Qed.

Lemma lower_targets_fields (loc : Z) (bs : list Asm.Branch) :
  Forall2 (fun b b' => same_extent b b'
                       /\ Asm.location_ b' = Asm.location_ b
                       /\ Asm.lhs_reg_ b' = Asm.lhs_reg_ b
                       /\ Asm.rhs_reg_ b' = Asm.rhs_reg_ b
                       /\ Asm.condition_ b' = Asm.condition_ b
                       /\ Asm.target_ b'
                          = if loc <=? Asm.target_ b
                            then u32 (Asm.target_ b - 4) else Asm.target_ b)
          bs (lower_targets loc bs).
Proof.
  unfold lower_targets. induction bs as [|b bs IH]; cbn [map]; constructor;
    [|exact IH].
  destruct (loc <=? Asm.target_ b); repeat split.
Qed.

Lemma in_order_ext (l l' : list Asm.Branch) (from limit : Z) :
  Forall2 (fun b b' => same_extent b b' /\ Asm.location_ b' = Asm.location_ b) l l' ->
  in_order from l limit -> in_order from l' limit.
Proof.
  intros H. revert from. induction H as [|b b' l l' [(_ & T & _) L] _ IH];
    intros from; cbn [in_order]; [auto|].
  intros [H1 H2]. rewrite L.
  replace (Asm.GetSize b') with (Asm.GetSize b)
    by (unfold Asm.GetSize, Asm.GetLength; rewrite T; reflexivity).
  split; [exact H1|apply IH, H2].
Qed.

(** What PromoteBranches leaves: the branches where promotion has put
    them, and the buffer with the code moved; [cut] is 4 when the pool of
    64-bit literals has been moved down, and 0 otherwise. *)
Lemma PromoteBranches_layout (a a1 : Asm.Assembler) :
  laid_out a ->
  Asm.PromoteBranches a = Some (tt, a1) ->
  exists bs cut,
    let size0 := Asm.buf_Size (Asm.buffer_ a) in
    let pool := size0 + total_growth bs
                - 8 * Z.of_nat (List.length (Asm.long_literals_ a)) in
    Asm.PromoteLoop (S (Asm.short_count (Asm.branches_ a))) (Asm.branches_ a)
    = Asm.Settled bs
    /\ (cut = 0 \/ (cut = 4 /\ Asm.long_literals_ a <> [] /\ pool mod 8 <> 0))
    /\ (Asm.long_literals_ a <> [] -> cut = 0 -> pool mod 8 = 0)
    /\ Asm.buf_Size (Asm.buffer_ a1) = size0 + total_growth bs - cut
    /\ Forall2 (fun b b' => same_extent b b'
                            /\ Asm.location_ b' = Asm.location_ b
                            /\ Asm.lhs_reg_ b' = Asm.lhs_reg_ b
                            /\ Asm.rhs_reg_ b' = Asm.rhs_reg_ b
                            /\ Asm.condition_ b' = Asm.condition_ b
                            /\ Asm.target_ b'
                               = if pool <=? Asm.target_ b
                                 then Asm.target_ b - cut else Asm.target_ b)
               bs (Asm.branches_ a1)
    /\ (forall q, q < size0 - pool_room a + total_growth bs ->
          Asm.byte_at (Asm.buffer_ a1) q
          = Asm.byte_at (Asm.buffer_ (promoted_state a bs)) q)
    /\ (forall q, pool <= q < size0 + total_growth bs ->
          Asm.byte_at (Asm.buffer_ a1) (q - cut)
          = Asm.byte_at (Asm.buffer_ (promoted_state a bs)) q)
    /\ Asm.literals_ a1 = Asm.literals_ a
    /\ Asm.overwriting_ a1 = Asm.overwriting_ a.
Proof.
  intros LO H.
  destruct (PromoteBranches_parts a a1 H) as (bs & PL & AL).
  destruct (laid_out_promoted a bs LO PL) as (P & Len & T8 & IO & Sp & OO & Tg).
  destruct LO as ((O & Lim & U & E & T) & B).
  change (2 ^ 31) with 2147483648 in B. change (2 ^ 11) with 2048 in B.
  destruct (promoted_state_fields a bs) as (F1 & F2 & F3 & F4).
  destruct (in_order_bounds _ _ _ IO) as [L0 _].
  assert (OO' : old_order 0 bs (Asm.buf_Size (Asm.buffer_ a))).
  { clear - OO Lim. revert OO. generalize 0.
    induction bs as [|b bs IH]; intros f; cbn [old_order]; [lia|].
    intros [A1 A2]. split; [exact A1|apply IH, A2]. }
  destruct (promoted_state_buffer a bs Sp OO') as [BS _];
    [change (2 ^ 32) with 4294967296; lia|].
  set (mid := promoted_state a bs) in *.
  set (size0 := Asm.buf_Size (Asm.buffer_ a)) in *.
  assert (Same : Forall2 (fun b b' => same_extent b b'
                            /\ Asm.location_ b' = Asm.location_ b
                            /\ Asm.lhs_reg_ b' = Asm.lhs_reg_ b
                            /\ Asm.rhs_reg_ b' = Asm.rhs_reg_ b
                            /\ Asm.condition_ b' = Asm.condition_ b
                            /\ Asm.target_ b' = Asm.target_ b) bs bs).
  { clear. induction bs; constructor; [repeat split|assumption]. }
  destruct (AlignLongLiterals_inv mid a1 AL)
    as [[LL ->]|(front & rest & loc & LL & GL & CK)].
  - (* no 64-bit literals *)
    rewrite F3 in LL.
    exists bs, 0. cbv zeta. split; [exact PL|]. split; [left; reflexivity|].
    split; [intros C; contradiction|].
    split; [rewrite BS; lia|]. split.
    + rewrite F1. generalize Same. apply Forall2_impl.
      intros b b' (A1 & A2 & A3 & A4 & A5 & A6). repeat split; try assumption;
        try apply A1. rewrite A6. destruct (_ <=? _); lia.
    + split; [reflexivity|]. split; [intros q _; rewrite Z.sub_0_r; reflexivity|].
      split; [exact F2|exact F4].
  - rewrite F3 in LL.
    assert (N8 : Z.of_nat (List.length (Asm.long_literals_ a))
                 = Z.of_nat (List.length (front :: rest))) by (rewrite LL; reflexivity).
    assert (PR : pool_room a = 4 + 8 * Z.of_nat (List.length (front :: rest))).
    { unfold pool_room. rewrite LL. reflexivity. }
    rewrite PR in *. rewrite N8.
    assert (Eloc : loc = size0 + total_growth bs
                         - 8 * Z.of_nat (List.length (front :: rest))) by lia.
    assert (H4 : 4 <= loc) by lia.
    pose proof (AlignLongLiterals_spec mid mid front rest loc
                  ltac:(rewrite F3; exact LL) GL H4 CK) as Spec.
    rewrite AL in Spec. apply Some_inj in Spec.
    apply (f_equal snd) in Spec. cbn [snd] in Spec.
    destruct (Z.eqb_spec (loc mod 8) 0) as [A8|A8].
    + (* the pool is aligned *)
      subst a1.
      exists bs, 0. cbv zeta. split; [exact PL|]. split; [left; reflexivity|].
      split; [intros _ _; rewrite <- Eloc; exact A8|].
      split; [rewrite BS; lia|]. split.
      * rewrite F1. generalize Same. apply Forall2_impl.
        intros b b' (A1 & A2 & A3 & A4 & A5 & A6). repeat split; try assumption;
          try apply A1. rewrite A6. destruct (_ <=? _); lia.
      * split; [reflexivity|]. split; [intros q _; rewrite Z.sub_0_r; reflexivity|].
        split; [exact F2|exact F4].
    + (* the pool is moved down *)
      subst a1.
      destruct (aligned_bytes (Asm.buffer_ mid) loc ltac:(lia)) as (S1 & S2 & S3).
      exists bs, 4. cbv zeta. split; [exact PL|].
      split; [right; split; [reflexivity|]; split;
              [rewrite LL; discriminate|rewrite <- Eloc; exact A8]|].
      split; [intros _ C; discriminate C|].
      split; [change (Asm.buffer_ (aligned_state mid loc))
                with (firstn (Z.to_nat (loc - 4)) (Asm.buffer_ mid)
                      ++ skipn (Z.to_nat loc) (Asm.buffer_ mid));
              rewrite S1, BS; lia|].
      split.
      * change (Asm.branches_ (aligned_state mid loc))
          with (lower_targets loc (Asm.branches_ mid)).
        rewrite F1, <- Eloc.
        pose proof (lower_targets_fields loc bs) as LT.
        assert (TB : Forall (fun b => 0 <= Asm.target_ b < 2 ^ 32) bs).
        { apply Forall_forall. intros b Hb. destruct (Tg b Hb) as (_ & R & _).
          change (2 ^ 32) with 4294967296. lia. }
        clear - LT TB H4. induction LT as [|b b' l l' Hb _ IH]; constructor.
        -- destruct Hb as (A1 & A2 & A3 & A4 & A5 & A6).
           repeat split; try assumption; try apply A1.
           rewrite A6. inversion TB; subst.
           destruct (Z.leb_spec loc (Asm.target_ b)); [|reflexivity].
           apply u32_small. lia.
        -- apply IH. inversion TB; assumption.
      * split.
        { intros q Hq.
          change (Asm.buffer_ (aligned_state mid loc))
            with (firstn (Z.to_nat (loc - 4)) (Asm.buffer_ mid)
                  ++ skipn (Z.to_nat loc) (Asm.buffer_ mid)).
          destruct (Z.ltb_spec q 0) as [Q|Q].
          - unfold Asm.byte_at. destruct (Z.ltb_spec q 0); [reflexivity|lia].
          - apply S2. lia. }
        split; [|split; [exact F2|exact F4]].
        intros q Hq.
        change (Asm.buffer_ (aligned_state mid loc))
          with (firstn (Z.to_nat (loc - 4)) (Asm.buffer_ mid)
                ++ skipn (Z.to_nat loc) (Asm.buffer_ mid)).
        apply S3. lia.
Qed.

(** *** The finished code *)

Lemma EmitBranches_frame (AT : GpuRegister) (a a' : Asm.Assembler) :
  Asm.EmitBranches AT a = Some (tt, a') ->
  Forall (in_code (Asm.buf_Size (Asm.buffer_ a))) (Asm.branches_ a) ->
  ForallOrdPairs apart (Asm.branches_ a) ->
  Asm.buf_Size (Asm.buffer_ a) < 2 ^ 32 - 12 ->
  Asm.buf_Size (Asm.buffer_ a') = Asm.buf_Size (Asm.buffer_ a)
  /\ forall p, (forall b, In b (Asm.branches_ a) ->
                  p < Asm.location_ b \/ Asm.location_ b + Asm.GetSize b <= p) ->
       Asm.byte_at (Asm.buffer_ a') p = Asm.byte_at (Asm.buffer_ a) p.
Proof.
  intros H HI HA HS. unfold Asm.EmitBranches in H. inv_run.
  match goal with
  | E : Asm.EmitBranchList _ _ ?a0 = Some (_, ?a1) |- _ =>
      destruct (EmitBranchList_offsets AT (Asm.branches_ a) a0 a1 eq_refl)
        as (_ & S & F & _)
  end; try assumption.
  - match goal with E : Asm.EmitBranchList _ _ _ = Some (?u, _) |- _ => destruct u end.
    assumption.
  - cbn in *. split; [exact S|exact F].
Qed.

Lemma Forall2_compose {A B C : Type} (R : A -> B -> Prop) (S : B -> C -> Prop)
    (l0 : list A) (l : list B) (l1 : list C) :
  Forall2 R l0 l -> Forall2 S l l1 ->
  Forall2 (fun a c => exists b, In a l0 /\ In b l /\ R a b /\ S b c) l0 l1.
Proof.
  intros H. revert l1. induction H as [|a b l0 l Hab _ IH]; intros l1 H1;
    inversion H1 as [|? c ? l1' Hbc H1']; subst; constructor.
  - exists b. repeat split; try (left; reflexivity); assumption.
  - generalize (IH _ H1'). apply Forall2_impl.
    intros x z (y & I1 & I2 & Rxy & Syz). exists y.
    repeat split; try (right; assumption); assumption.
Qed.

Lemma shift_at_ext (l l' : list Asm.Branch) (p : Z) :
  Forall2 same_extent l l' -> shift_at l' p = shift_at l p.
Proof.
  induction 1 as [|b b' l l' H _ IH]; cbn [shift_at]; [reflexivity|].
  rewrite IH, (growth_ext b b' H). destruct H as (-> & _). reflexivity.
Qed.

Lemma total_growth_ext (l l' : list Asm.Branch) :
  Forall2 same_extent l l' -> total_growth l' = total_growth l.
Proof.
  induction 1 as [|b b' l l' H _ IH]; cbn [total_growth]; [reflexivity|].
  rewrite IH, (growth_ext b b' H). reflexivity.
Qed.

Lemma origin_distance_even (b : Asm.Branch) :
  0 <= Asm.location_ b < 2 ^ 31 ->
  Asm.location_ b mod 2 = 0 -> Asm.target_ b mod 2 = 0 ->
  origin_distance b mod 2 = 0.
Proof.
  intros H0 H1 H2. unfold origin_distance, Asm.GetOffsetLocation.
  change (2 ^ 31) with 2147483648 in H0.
  assert (I : 0 <= Asm.instr_offset (Asm.branch_info_ (Asm.type_ b)) <= 1)
    by (destruct (Asm.type_ b); cbn; lia).
  rewrite u32_small by (change (2 ^ 32) with 4294967296; lia).
  Z.div_mod_to_equations. lia.
Qed.

(** The branches of the method as PromoteBranches leaves them, against
    the branches it found: the same instruction, [shift_at] higher, with
    a target that has moved with the code, and that is [cut] lower when
    it lies in the pool of 64-bit literals. *)
Definition finalized (bs1 : list Asm.Branch) (pool cut : Z) (b0 b1 : Asm.Branch)
  : Prop :=
  Asm.lhs_reg_ b1 = Asm.lhs_reg_ b0
  /\ Asm.rhs_reg_ b1 = Asm.rhs_reg_ b0
  /\ Asm.condition_ b1 = Asm.condition_ b0
  /\ (Asm.type_ b1 = Asm.type_ b0 \/ Asm.IsLong b1 = true)
  /\ Asm.location_ b1 = Asm.location_ b0 + shift_at bs1 (Asm.location_ b0)
  /\ Asm.IsResolved b0 = true
  /\ Asm.target_ b1
     = (let t := Asm.target_ b0 + shift_at bs1 (Asm.target_ b0) in
        if pool <=? t then t - cut else t).

Lemma finalized_code (AT : GpuRegister) (a a1 a2 : Asm.Assembler) :
  laid_out a ->
  Asm.PromoteBranches a = Some (tt, a1) ->
  Asm.EmitBranches AT a1 = Some (tt, a2) ->
  let bs1 := Asm.branches_ a1 in
  let grown_size := Asm.buf_Size (Asm.buffer_ a) + total_growth bs1 in
  let cut := grown_size - Asm.buf_Size (Asm.buffer_ a2) in
  let pool := grown_size - 8 * Z.of_nat (List.length (Asm.long_literals_ a)) in
  (cut = 0 \/ (cut = 4 /\ Asm.long_literals_ a <> [] /\ pool mod 8 <> 0))
  /\ Forall2 (finalized bs1 pool cut) (Asm.branches_ a) bs1
  /\ (forall b, In b bs1 -> offset_field (Asm.buffer_ a2) b = origin_distance b)
  /\ (forall p,
        0 <= p < Asm.buf_Size (Asm.buffer_ a) - pool_room a ->
        (forall b0, In b0 (Asm.branches_ a) ->
           p < Asm.location_ b0 \/ Asm.location_ b0 + Asm.GetSize b0 <= p) ->
        Asm.byte_at (Asm.buffer_ a2) (p + shift_at bs1 p)
        = Asm.byte_at (Asm.buffer_ a) p).
Proof.
  intros LO HP HE.
  destruct (PromoteBranches_layout a a1 LO HP)
    as (bs & cut & PL & Cut & _ & BS1 & FB & By & _ & _ & _).
  cbv zeta in PL, Cut, BS1, FB, By.
  destruct (laid_out_promoted a bs LO PL) as (P & Len & T8 & IO & Sp & OO & Tg).
  destruct LO as ((O & Lim & U & E & T) & B).
  change (2 ^ 31) with 2147483648 in B. change (2 ^ 11) with 2048 in B.
  set (size0 := Asm.buf_Size (Asm.buffer_ a)) in *.
  set (bs0 := Asm.branches_ a) in *.
  set (bs1 := Asm.branches_ a1) in *.
  pose proof (relocated_grows _ _ _ P) as G.
  assert (FE : Forall2 same_extent bs bs1).
  { generalize FB. apply Forall2_impl. intros x y (A & _). exact A. }
  assert (SE : forall p, shift_at bs1 p = shift_at bs p)
    by (intros p; apply shift_at_ext, FE).
  assert (TE : total_growth bs1 = total_growth bs) by (apply total_growth_ext, FE).
  set (T1 := total_growth bs) in *.
  set (n8 := Z.of_nat (List.length (Asm.long_literals_ a))) in *.
  assert (PRoom : 0 <= pool_room a /\ (cut = 4 -> pool_room a = 4 + 8 * n8 /\ 1 <= n8)).
  { unfold pool_room, n8. destruct (Asm.long_literals_ a) as [|x l] eqn:LL.
    - split; [lia|]. intros C. destruct Cut as [C0|(_ & NE & _)]; [lia|].
      destruct (NE eq_refl).
    - cbn [List.length]. split; [lia|]. intros _. split; lia. }
  destruct PRoom as [PR0 PR4].
  assert (Cut04 : cut = 0 \/ cut = 4) by (destruct Cut as [C|(C & _)]; auto).
  assert (Pool : size0 - pool_room a + T1 <= size0 + T1 - cut).
  { destruct Cut04 as [->| ->]; [lia|]. destruct (PR4 eq_refl). lia. }
  destruct (in_order_bounds _ _ _ IO) as [L0 _].
  (* the branches in the finished buffer *)
  assert (IO1 : in_order 0 bs1 (Asm.buf_Size (Asm.buffer_ a1))).
  { apply (in_order_weaken 0 0 (size0 - pool_room a + T1)); [lia|rewrite BS1; lia|].
    apply (in_order_ext bs bs1); [|exact IO].
    generalize FB. apply Forall2_impl. intros x y (A1 & A2 & _). split; assumption. }
  destruct (in_order_bounds _ _ _ IO1) as [_ IC].
  pose proof (in_order_apart _ _ _ IO1) as AP.
  assert (Tg1 : forall b1, In b1 bs1 ->
                  0 <= Asm.target_ b1 <= Asm.buf_Size (Asm.buffer_ a1)
                  /\ origin_distance b1 mod 2 = 0).
  { intros b1 Hb1.
    destruct (Forall2_In_r _ _ _ _ FB Hb1) as (b & Hb & _ & A2 & _ & _ & _ & A6).
    destruct (Tg b Hb) as (_ & R1 & R2 & R3 & _).
    pose proof (proj1 (Forall_forall _ _) IC b1 Hb1) as [I0 I1].
    destruct (sizes_small b1) as [Sz _].
    assert (T4 : 0 <= Asm.target_ b1 <= size0 + T1 - cut
                 /\ Asm.target_ b1 mod 2 = 0).
    { rewrite A6. unfold n8 in *.
      destruct (Z.leb_spec (size0 + T1
                            - 8 * Z.of_nat (List.length (Asm.long_literals_ a)))
                           (Asm.target_ b)) as [C|C].
      - destruct Cut04 as [->| ->]; [rewrite Z.sub_0_r; split; [lia|exact R2]|].
        destruct (PR4 eq_refl) as [PRe N1]. rewrite PRe in *.
        split; [lia|]. clear - R2. Z.div_mod_to_equations. lia.
      - destruct Cut04 as [->| ->]; [split; [lia|exact R2]|].
        destruct (PR4 eq_refl) as [PRe N1]. split; [lia|exact R2]. }
    rewrite BS1. split; [exact (proj1 T4)|].
    apply origin_distance_even; [|rewrite A2; exact R3|exact (proj2 T4)].
    rewrite BS1 in I1. change (2 ^ 31) with 2147483648. lia. }
  assert (IC1 : Forall (in_code (Asm.buf_Size (Asm.buffer_ a1))) bs1).
  { generalize IC. apply Forall_impl. intros x [A1 A2]. split; assumption. }
  assert (Sz1 : Asm.buf_Size (Asm.buffer_ a1) < 2 ^ 31 - 2 ^ 11).
  { rewrite BS1. change (2 ^ 31) with 2147483648. change (2 ^ 11) with 2048. lia. }
  destruct (EmitBranches_frame AT a1 a2 HE IC1 AP) as [S2 Fr];
    [rewrite BS1; change (2 ^ 32) with 4294967296; lia|].
  cbv zeta. rewrite S2, BS1, TE.
  replace (size0 + T1 - (size0 + T1 - cut)) with cut by lia.
  split; [exact Cut|]. split; [|split].
  - (* branch by branch *)
    generalize (Forall2_compose _ _ _ _ _ P FB). apply Forall2_impl.
    intros b0 b1 (b & Hb0 & Hb & R & (A1 & A2 & A3 & A4 & A5 & A6)).
    destruct (Tg b Hb) as (Rb & _).
    pose proof (proj1 (Forall_forall _ _) T b0 Hb0) as T0.
    assert (Hloc0 : 0 <= Asm.location_ b0 <= size0).
    { destruct (in_order_bounds _ _ _ O) as [_ IB].
      pose proof (proj1 (Forall_forall _ _) IB b0 Hb0) as [X1 X2].
      destruct (sizes_small b0). lia. }
    assert (Res : Asm.IsResolved b0 = true).
    { rewrite <- Rb. symmetry.
      apply (relocated_resolved size0 bs0 ltac:(change (2 ^ 32) with 4294967296; lia)
               bs b0 b G Len R).
      intros Hr. exact (proj1 (T0 Hr)). }
    unfold finalized. rewrite !SE.
    split; [rewrite A3; exact (rel_lhs _ _ _ R)|].
    split; [rewrite A4; exact (rel_rhs _ _ _ R)|].
    split; [rewrite A5; exact (rel_condition _ _ _ R)|].
    split.
    { destruct A1 as (_ & Ty & _). unfold Asm.IsLong. rewrite Ty.
      exact (rel_type _ _ _ R). }
    split; [rewrite A2; exact (rel_location _ _ _ R)|].
    split; [exact Res|].
    cbv zeta. rewrite A6. pose proof (rel_target _ _ _ R) as Tb.
    rewrite Res in Tb. rewrite Tb. reflexivity.
  - intros b Hb.
    apply (offsets_after_finalization AT a a1 a2 HP HE Sz1 IC1 AP Tg1 b Hb).
  - (* the code between the branches *)
    intros p Hp Gap0. rewrite SE.
    assert (Gap : in_gap bs p).
    { intros b Hb. destruct (Forall2_In_r _ _ _ _ P Hb) as (b0 & Hb0 & R).
      rewrite (rel_old_location _ _ _ R), (relocated_old_size _ _ _ R).
      apply Gap0, Hb0. }
    assert (OO' : old_order 0 bs size0).
    { clear - OO PR0. revert OO. generalize 0.
      induction bs as [|b bs IH]; intros f; cbn [old_order]; [lia|].
      intros [A1 A2]. split; [exact A1|apply IH, A2]. }
    destruct (promoted_state_buffer a bs Sp OO') as [_ Mid];
      [change (2 ^ 32) with 4294967296; fold size0; lia|].
    destruct (shift_at_range bs p G) as [Sh0 Sh1].
    rewrite Fr.
    + rewrite By by (fold T1; lia). apply Mid; [fold size0; lia|exact Gap].
    + intros b1 Hb1.
      destruct (Forall2_In_r _ _ _ _ FB Hb1) as (b & Hb & A1 & A2 & _).
      replace (Asm.GetSize b1) with (Asm.GetSize b)
        by (destruct A1 as (_ & Ty & _); unfold Asm.GetSize, Asm.GetLength;
            rewrite Ty; reflexivity).
      rewrite A2, (proj2 Sp b Hb), (size_is_old_size_and_growth b).
      destruct (Gap b Hb) as [Lt|Ge].
      * left. pose proof (old_and_new_order bs p (Asm.old_location_ b) G) as M.
        apply Z.ltb_lt. rewrite M. apply Z.ltb_lt. exact Lt.
      * right. destruct (sizes_small b) as [_ So].
        pose proof (shift_at_step bs b (Asm.old_location_ b) p G Hb ltac:(lia)).
        lia.
Qed.

(** ** Recording keeps the layout *)

(** Binding a label gives the branches that wait for it their target and
    changes nothing else. *)
Definition resolved_to (pc : Z) (b b' : Asm.Branch) : Prop :=
  b' = b \/ b' = Asm.Resolve b pc.

Lemma GetBranch_nth (id : Z) (a a' : Asm.Assembler) (b : Asm.Branch) :
  Asm.GetBranch id a = Some (b, a') ->
  nth_error (Asm.branches_ a) (Z.to_nat id) = Some b.
Proof.
  unfold Asm.GetBranch, Asm.bind, Asm.get, Asm.CHECK, Asm.lift.
  destruct ((0 <=? id) && (id <? Z.of_nat (List.length (Asm.branches_ a))));
    [|discriminate].
  destruct (nth_error (Asm.branches_ a) (Z.to_nat id)); [|discriminate].
  intros H. injection H as <- _. reflexivity.
Qed.

Lemma resolved_to_refl (pc : Z) (l : list Asm.Branch) :
  Forall2 (resolved_to pc) l l.
Proof. induction l; constructor; [left; reflexivity|assumption]. Qed.

Lemma resolved_to_update (pc : Z) (l : list Asm.Branch) (i : nat) (b : Asm.Branch) :
  nth_error l i = Some b ->
  Forall2 (resolved_to pc) l (Asm.list_update l i (Asm.Resolve b pc)).
Proof.
  revert i. induction l as [|h t IH]; intros [|i] N; try discriminate;
    cbn [Asm.list_update]; constructor.
  - injection N as ->. right. reflexivity.
  - apply resolved_to_refl.
  - left. reflexivity.
  - apply IH, N.
Qed.

Lemma resolved_to_trans (pc : Z) (l1 l2 l3 : list Asm.Branch) :
  Forall2 (resolved_to pc) l1 l2 -> Forall2 (resolved_to pc) l2 l3 ->
  Forall2 (resolved_to pc) l1 l3.
Proof.
  intros H. revert l3. induction H as [|x y l1 l2 Hxy _ IH]; intros l3 H3;
    inversion H3 as [|? z ? l3' Hyz H3']; subst; constructor; [|apply IH, H3'].
  destruct Hxy as [->| ->]; [exact Hyz|].
  destruct Hyz as [->| ->]; right; reflexivity.
Qed.

Lemma Bind_walk_branches (fuel : nat) (pc : Z) (l l' : Asm.Riscv64Label)
    (a a' : Asm.Assembler) :
  Asm.Bind_walk fuel pc l a = Some (l', a') ->
  Forall2 (resolved_to pc) (Asm.branches_ a) (Asm.branches_ a').
Proof.
  revert l a. induction fuel as [|fuel IH]; intros l a; cbn [Asm.Bind_walk].
  - destruct (Asm.IsLinked l); [discriminate|].
    intros H. injection H as _ <-. apply resolved_to_refl.
  - destruct (Asm.IsLinked l).
    + unfold Asm.bind at 1.
      destruct (Asm.GetBranch (u32 (Asm.Position l)) a) as [[b a1]|] eqn:G;
        [|discriminate].
      pose proof (GetBranch_nth _ _ _ _ G) as N.
      apply GetBranch_state in G. subst a1.
      unfold Asm.bind at 1, Asm.SetBranch, Asm.bind at 1, Asm.get at 1, Asm.put.
      unfold Asm.bind at 1, Asm.get at 1.
      intros H. apply IH in H.
      apply (resolved_to_trans pc _ _ _ (resolved_to_update pc _ _ b N)).
      destruct a; exact H.
    + intros H. injection H as _ <-. apply resolved_to_refl.
Qed.

Lemma Bind_branches (l l' : Asm.Riscv64Label) (a a' : Asm.Assembler) :
  Asm.Bind l a = Some (l', a') ->
  Forall2 (resolved_to (u32 (Asm.buf_Size (Asm.buffer_ a))))
          (Asm.branches_ a) (Asm.branches_ a').
Proof.
  unfold Asm.Bind, Asm.bind at 1, Asm.CHECK.
  destruct (negb (Asm.IsBound l)); [|discriminate].
  unfold Asm.bind at 1, Asm.get at 1. unfold Asm.bind at 1.
  destruct (Asm.Bind_walk _ _ l a) as [[l1 a1]|] eqn:W; [|discriminate].
  apply Bind_walk_branches in W.
  unfold Asm.bind at 1, Asm.get at 1.
  destruct (negb (u32 (Z.of_nat (List.length (Asm.branches_ a1))) =? 0)).
  - unfold Asm.bind.
    destruct (Asm.GetBranch _ a1) as [[b a2]|] eqn:G; [|discriminate].
    apply GetBranch_state in G. subst a2.
    intros H. injection H as _ <-. exact W.
  - intros H. injection H as _ <-. exact W.
Qed.

Lemma in_order_limit (from limit limit' : Z) (bs : list Asm.Branch) :
  limit <= limit' -> in_order from bs limit -> in_order from bs limit'.
Proof.
  intros Hl. revert from. induction bs as [|b bs IH]; intros from; cbn [in_order];
    [lia|].
  intros [H1 H2]. split; [exact H1|apply IH, H2].
Qed.

(** The layout after a step that resolves branches to [pc] and appends
    to the buffer. *)
Lemma code_layout_step (limit pc : Z) (a a' : Asm.Assembler) :
  code_layout limit a ->
  Forall2 (resolved_to pc) (Asm.branches_ a) (Asm.branches_ a') ->
  Asm.buf_Size (Asm.buffer_ a) <= Asm.buf_Size (Asm.buffer_ a') ->
  0 <= pc <= Asm.buf_Size (Asm.buffer_ a') -> pc mod 2 = 0 ->
  code_layout limit a'.
Proof.
  intros (O & Lim & U & E & T) F Hs Hpc Ev.
  assert (X : Forall2 (fun b b' => same_extent b b'
                                   /\ Asm.location_ b' = Asm.location_ b)
                      (Asm.branches_ a) (Asm.branches_ a')).
  { generalize F. apply Forall2_impl. intros b b' [->| ->]; repeat split. }
  split; [exact (in_order_ext _ _ _ _ X O)|]. split; [lia|].
  revert U E T. generalize F. generalize (Asm.branches_ a) (Asm.branches_ a').
  clear - Hs Hpc Ev.
  induction 1 as [|b b' l l' Hb _ IH]; intros U E T;
    [repeat split; constructor|].
  inversion U as [|? ? U1 U2]; inversion E as [|? ? E1 E2];
    inversion T as [|? ? T1 T2]; subst.
  destruct (IH U2 E2 T2) as (IU & IE & IT).
  split; [|split]; constructor; try assumption.
  - destruct Hb as [->| ->]; exact U1.
  - destruct Hb as [->| ->]; exact E1.
  - destruct Hb as [->| ->].
    + intros R. destruct (T1 R) as [A B]. split; [lia|exact B].
    + intros _. cbn [Asm.Resolve Asm.target_]. split; [lia|exact Ev].
Qed.

Lemma Bind_layout (limit : Z) (l l' : Asm.Riscv64Label) (a a' : Asm.Assembler) :
  code_layout limit a ->
  Asm.buf_Size (Asm.buffer_ a) mod 2 = 0 -> Asm.buf_Size (Asm.buffer_ a) < 2 ^ 32 ->
  Asm.Bind l a = Some (l', a') ->
  code_layout limit a' /\ same_code a a' /\ same_literals a a'.
Proof.
  intros C Ev Sz H.
  pose proof (Bind_branches l l' a a' H) as F.
  destruct (Bind_same l l' a a' H) as [SC SL].
  split; [|split; assumption].
  assert (S0 : 0 <= Asm.buf_Size (Asm.buffer_ a)) by (unfold Asm.buf_Size; lia).
  rewrite u32_small in F by lia.
  destruct SC as (B & _).
  apply (code_layout_step limit _ a a' C F); rewrite ?B; try lia; exact Ev.
Qed.

(** *** The literals *)

Definition sized (n : Z) (lit : Asm.Literal) : Prop :=
  Asm.size_ lit = n /\ n <= Z.of_nat (List.length (Asm.data_ lit)).

Definition literals_sized (a : Asm.Assembler) : Prop :=
  Forall (sized 4) (Asm.literals_ a) /\ Forall (sized 8) (Asm.long_literals_ a).

Lemma pool_bytes_length (n : Z) (lits : list Asm.Literal) :
  0 <= n -> Forall (sized n) lits ->
  Z.of_nat (List.length (pool_bytes lits)) = n * Z.of_nat (List.length lits).
Proof.
  intros Hn. induction 1 as [|lit lits [S D] _ IH];
    cbn [pool_bytes flat_map List.length]; [lia|].
  rewrite length_app, length_map, length_firstn, S.
  fold (pool_bytes lits). lia.
Qed.

Lemma pool_bytes_app (l1 l2 : list Asm.Literal) :
  pool_bytes (l1 ++ l2) = pool_bytes l1 ++ pool_bytes l2.
Proof. unfold pool_bytes. apply flat_map_app. Qed.

Lemma code_layout_grow (limit : Z) (a a' : Asm.Assembler) :
  code_layout limit a ->
  Asm.branches_ a' = Asm.branches_ a ->
  Asm.buf_Size (Asm.buffer_ a) <= Asm.buf_Size (Asm.buffer_ a') ->
  code_layout limit a'.
Proof.
  intros C B S.
  apply (code_layout_step limit 0 a a' C); try lia; try reflexivity.
  - rewrite B. apply resolved_to_refl.
  - unfold Asm.buf_Size. lia.
Qed.

Lemma EmitLiteralPool_keeps_layout (long : bool) (n i : nat) (limit : Z)
    (a a' : Asm.Assembler) :
  Asm.EmitLiteralPool (pool_ref long) n i a = Some (tt, a') ->
  code_layout limit a -> literals_sized a ->
  Asm.buf_Size (Asm.buffer_ a) mod 4 = 0 ->
  Asm.buf_Size (Asm.buffer_ a) + (if long then 8 else 4) * Z.of_nat n < 2 ^ 32 ->
  code_layout limit a' /\ literals_sized a'
  /\ Asm.buf_Size (Asm.buffer_ a') mod 4 = 0
  /\ List.length (Asm.branches_ a') = List.length (Asm.branches_ a).
Proof.
  revert i a. induction n as [|n IH]; intros i a H C LS M4 Sz;
    cbn [Asm.EmitLiteralPool] in H.
  - injection H as <-. split; [exact C|split; [exact LS|split; [exact M4|reflexivity]]].
  - unfold Asm.bind at 1 in H.
    destruct (Asm.GetLiteral (pool_ref long i) a) as [[lit a0]|] eqn:G; [|discriminate].
    assert (a0 = a /\ nth_error (pool_of long a) i = Some lit) as [-> N].
    { unfold Asm.GetLiteral, Asm.bind, Asm.get, Asm.lift in G.
      destruct long; cbn [pool_ref pool_of] in G |- *;
        (destruct (nth_error _ i) eqn:E; [|discriminate]);
        injection G as <- <-; split; reflexivity. }
    unfold Asm.bind at 1 in H.
    destruct (Asm.Bind (Asm.label_ lit) a) as [[label a1]|] eqn:B; [|discriminate].
    assert (M2 : Asm.buf_Size (Asm.buffer_ a) mod 2 = 0)
      by (clear - M4; Z.div_mod_to_equations; lia).
    destruct (Bind_layout limit _ _ a a1 C M2 ltac:(destruct long; lia) B)
      as (C1 & (B1 & B2 & B3) & (B4 & B5)).
    unfold Asm.bind at 1 in H.
    destruct (Asm.SetLiteralLabel (pool_ref long i) label a1) as [[[] a2]|] eqn:S;
      [|discriminate].
    set (lit' := {| Asm.label_ := label; Asm.size_ := Asm.size_ lit;
                    Asm.data_ := Asm.data_ lit |}).
    assert (A2 : Asm.buffer_ a2 = Asm.buffer_ a
                 /\ Asm.branches_ a2 = Asm.branches_ a1
                 /\ other_pool long a2 = other_pool long a
                 /\ pool_of long a2 = Asm.list_update (pool_of long a) i lit').
    { unfold Asm.SetLiteralLabel, Asm.bind at 1 in S.
      assert (G1 : Asm.GetLiteral (pool_ref long i) a1 = Some (lit, a1)).
      { unfold Asm.GetLiteral, Asm.bind, Asm.get, Asm.lift.
        destruct long; cbn [pool_ref pool_of] in *;
          [rewrite B5 | rewrite B4]; rewrite N; reflexivity. }
      rewrite G1 in S. unfold Asm.bind, Asm.get, Asm.put in S.
      destruct long; cbn [pool_ref pool_of other_pool] in *;
        injection S as <-; cbn; rewrite ?B4, ?B5; repeat split; assumption. }
    destruct A2 as (A21 & A22 & A23 & A24).
    assert (SzLit : sized (if long then 8 else 4) lit).
    { destruct LS as [L4 L8]. apply nth_error_In in N.
      destruct long; cbn [pool_of] in N;
        [exact (proj1 (Forall_forall _ _) L8 lit N)
        |exact (proj1 (Forall_forall _ _) L4 lit N)]. }
    assert (LS2 : literals_sized a2).
    { destruct LS as [L4 L8]. unfold literals_sized.
      destruct long; cbn [pool_of other_pool] in A23, A24; rewrite A23, A24.
      - split; [exact L4|]. apply Forall_list_update; [exact L8|exact SzLit].
      - split; [|exact L8]. apply Forall_list_update; [exact L4|exact SzLit]. }
    unfold Asm.bind at 1, Asm.EmitBytes, Asm.bind at 1, Asm.get, Asm.put in H.
    set (bytes := firstn (Z.to_nat (Asm.size_ lit)) (Asm.data_ lit)) in *.
    assert (LB : Z.of_nat (List.length bytes) = if long then 8 else 4).
    { unfold bytes. rewrite length_firstn. destruct SzLit as [S1 S2].
      rewrite S1. destruct long; lia. }
    assert (NewSize : Asm.buf_Size (fold_left Asm.buf_Emit8 bytes (Asm.buffer_ a2))
                      = Asm.buf_Size (Asm.buffer_ a) + (if long then 8 else 4)).
    { rewrite fold_Emit8, A21. unfold Asm.buf_Size.
      rewrite length_app, length_map. lia. }
    pose proof (Forall2_length (Bind_branches _ _ _ _ B)) as LenB.
    apply IH in H;
      [destruct H as (H1 & H2 & H3 & H4);
       split; [exact H1|split; [exact H2|split; [exact H3|]]];
       rewrite H4; cbn [Asm.branches_ Asm.with_buffer]; congruence
      | | | |];
      cbn [Asm.buffer_ Asm.with_buffer Asm.branches_ Asm.literals_ Asm.long_literals_].
    + apply (code_layout_grow limit a1); [exact C1|exact A22|].
      cbn [Asm.buffer_ Asm.with_buffer]. rewrite NewSize, B1. destruct long; lia.
    + exact LS2.
    + rewrite NewSize. clear - M4. destruct long; Z.div_mod_to_equations; lia.
    + rewrite NewSize. destruct long; lia.
Qed.

(** A method ready for FinalizeCode: in append mode, the branches in the
    code as they were recorded, the code a whole number of words, the
    literals of 4 and 8 bytes, and room below 2^31 - 2^11 bytes for the
    pools and for every branch to grow by 8 bytes. *)
Definition ready_to_finalize (a : Asm.Assembler) : Prop :=
  Asm.overwriting_ a = false
  /\ code_layout (Asm.buf_Size (Asm.buffer_ a)) a
  /\ literals_sized a
  /\ Asm.buf_Size (Asm.buffer_ a) mod 4 = 0
  /\ Asm.buf_Size (Asm.buffer_ a)
     + 4 * Z.of_nat (List.length (Asm.literals_ a)) + pool_room a
     + 8 * Z.of_nat (List.length (Asm.branches_ a)) < 2 ^ 31 - 2 ^ 11.

Lemma EmitLiterals_laid_out (a a1 : Asm.Assembler) :
  ready_to_finalize a ->
  Asm.EmitLiterals a = Some (tt, a1) ->
  laid_out a1
  /\ Asm.buffer_ a1
     = Asm.buffer_ a ++ pool_bytes (Asm.literals_ a)
       ++ match Asm.long_literals_ a with
          | [] => []
          | _ :: _ => Asm.le32 0 ++ pool_bytes (Asm.long_literals_ a)
          end
  /\ Asm.buf_Size (Asm.buffer_ a1)
     = Asm.buf_Size (Asm.buffer_ a)
       + 4 * Z.of_nat (List.length (Asm.literals_ a)) + pool_room a
  /\ List.length (Asm.long_literals_ a1) = List.length (Asm.long_literals_ a)
  /\ List.length (Asm.branches_ a1) = List.length (Asm.branches_ a)
  /\ Asm.overwriting_ a1 = false
  /\ code_layout (Asm.buf_Size (Asm.buffer_ a)) a1.
Proof.
  intros (Ho & C & LS & M4 & Bd) H.
  pose proof (EmitLiterals_layout a a1 Ho H) as Lay.
  change (2 ^ 31) with 2147483648 in Bd. change (2 ^ 11) with 2048 in Bd.
  assert (P0 : 0 <= pool_room a)
    by (unfold pool_room; destruct (Asm.long_literals_ a); cbn [List.length]; lia).
  unfold Asm.EmitLiterals, Asm.bind at 1, Asm.get at 1 in H.
  unfold Asm.bind at 1 in H.
  destruct (Asm.EmitLiteralPool Asm.Lit4 _ 0 a) as [[[] a2]|] eqn:P1; [|discriminate].
  destruct (EmitLiteralPool_keeps_layout false _ _ _ _ _ P1 C LS M4)
    as (C2 & LS2 & M42 & Len2); [change (2 ^ 32) with 4294967296; lia|].
  destruct (EmitLiteralPool_layout false _ _ _ _ P1 eq_refl) as (B2 & O2 & T2 & N2).
  cbn [pool_of other_pool skipn] in B2, T2, N2.
  assert (S2 : Asm.buf_Size (Asm.buffer_ a2)
               = Asm.buf_Size (Asm.buffer_ a)
                 + 4 * Z.of_nat (List.length (Asm.literals_ a))).
  { rewrite B2. unfold Asm.buf_Size. rewrite length_app, Nat2Z.inj_add.
    rewrite (pool_bytes_length 4 _ ltac:(lia) (proj1 LS)). reflexivity. }
  assert (Final : forall af,
            Asm.buf_Size (Asm.buffer_ af)
            = Asm.buf_Size (Asm.buffer_ a)
              + 4 * Z.of_nat (List.length (Asm.literals_ a)) + pool_room a ->
            code_layout (Asm.buf_Size (Asm.buffer_ a)) af ->
            List.length (Asm.long_literals_ af) = List.length (Asm.long_literals_ a) ->
            List.length (Asm.branches_ af) = List.length (Asm.branches_ a) ->
            laid_out af).
  { intros af Sf (O & Lim & U & E & T) Lf Bf. split.
    - assert (PRf : pool_room af = pool_room a).
      { unfold pool_room. rewrite Lf.
        destruct (Asm.long_literals_ af), (Asm.long_literals_ a);
          try discriminate; reflexivity. }
      rewrite PRf, Sf. split; [|split; [lia|repeat split; assumption]].
      apply (in_order_limit _ (Asm.buf_Size (Asm.buffer_ a))); [lia|exact O].
    - rewrite Sf, Bf. change (2 ^ 31) with 2147483648.
      change (2 ^ 11) with 2048. lia. }
  destruct (Asm.long_literals_ a) as [|front rest] eqn:LL.
  - cbn [List.length Nat.eqb negb] in H. injection H as <-.
    assert (PR : pool_room a = 0) by (unfold pool_room; rewrite LL; reflexivity).
    split; [apply Final; try assumption; [rewrite PR; lia|congruence]|].
    split; [exact Lay|]. split; [rewrite PR; lia|].
    split; [congruence|]. split; [exact Len2|]. split; [congruence|exact C2].
  - cbn [List.length Nat.eqb negb] in H.
    unfold Asm.bind at 1 in H.
    rewrite (emits_Emit 0 a2) in H by congruence.
    set (a3 := Asm.with_buffer a2 (Asm.buffer_ a2 ++ words [0])) in *.
    assert (S3 : Asm.buf_Size (Asm.buffer_ a3) = Asm.buf_Size (Asm.buffer_ a2) + 4).
    { unfold a3. cbn [Asm.buffer_ Asm.with_buffer]. unfold Asm.buf_Size.
      rewrite length_app, Nat2Z.inj_add. reflexivity. }
    assert (C3 : code_layout (Asm.buf_Size (Asm.buffer_ a)) a3).
    { apply (code_layout_grow _ a2); [exact C2|reflexivity|lia]. }
    assert (LL3 : Asm.long_literals_ a3 = front :: rest)
      by (unfold a3; cbn [Asm.long_literals_ Asm.with_buffer]; congruence).
    destruct (EmitLiteralPool_keeps_layout true _ _ _ _ _ H C3)
      as (C4 & LS4 & M44 & Len4).
    { exact LS2. }
    { rewrite S3. clear - M42. Z.div_mod_to_equations. lia. }
    { rewrite S3, S2. unfold pool_room in Bd. rewrite LL in Bd.
      cbn [List.length] in *. change (2 ^ 32) with 4294967296. lia. }
    destruct (EmitLiteralPool_layout true _ _ _ _ H) as (B4 & O4 & T4 & N4).
    { cbn [pool_of]. rewrite LL3. reflexivity. }
    cbn [pool_of other_pool skipn] in B4, T4, N4. rewrite LL3 in B4, N4.
    assert (PR : pool_room a = 4 + 8 * Z.of_nat (List.length (front :: rest)))
      by (unfold pool_room; rewrite LL; reflexivity).
    assert (S4 : Asm.buf_Size (Asm.buffer_ a1)
                 = Asm.buf_Size (Asm.buffer_ a)
                   + 4 * Z.of_nat (List.length (Asm.literals_ a)) + pool_room a).
    { rewrite B4. unfold Asm.buf_Size at 1. rewrite length_app, Nat2Z.inj_add.
      fold (Asm.buf_Size (Asm.buffer_ a3)).
      rewrite (pool_bytes_length 8 (front :: rest)), S3, S2, PR; [lia|lia|].
      rewrite <- LL. exact (proj2 LS). }
    assert (Len : List.length (Asm.branches_ a1) = List.length (Asm.branches_ a)).
    { rewrite Len4. unfold a3. cbn [Asm.branches_ Asm.with_buffer]. exact Len2. }
    assert (NL : List.length (Asm.long_literals_ a1) = List.length (front :: rest))
      by (rewrite N4; reflexivity).
    split; [apply Final; assumption|].
    split; [exact Lay|]. split; [exact S4|].
    split; [exact NL|]. split; [exact Len|].
    split; [|exact C4].
    rewrite O4. unfold a3. cbn [Asm.overwriting_ Asm.with_buffer]. congruence.
Qed.


Lemma byte_at_app_l (buf rest : list Z) (p : Z) :
  0 <= p < Asm.buf_Size buf -> Asm.byte_at (buf ++ rest) p = Asm.byte_at buf p.
Proof.
  unfold Asm.buf_Size, Asm.byte_at. intros H.
  destruct (Z.ltb_spec p 0); [lia|]. apply app_nth1. lia.
Qed.

Lemma byte_at_app_r (buf rest : list Z) (p : Z) :
  0 <= p -> Asm.byte_at (buf ++ rest) (Asm.buf_Size buf + p) = Asm.byte_at rest p.
Proof.
  unfold Asm.buf_Size, Asm.byte_at. intros H.
  destruct (Z.ltb_spec (Z.of_nat (List.length buf) + p) 0); [lia|].
  destruct (Z.ltb_spec p 0); [lia|].
  rewrite app_nth2 by lia. f_equal. lia.
Qed.

Lemma old_order_limit (from limit limit' : Z) (bs : list Asm.Branch) :
  limit <= limit' -> old_order from bs limit -> old_order from bs limit'.
Proof.
  intros L. revert from. induction bs as [|b bs IH]; intros from; cbn [old_order];
    [lia|].
  intros [A1 A2]. split; [exact A1|apply IH, A2].
Qed.

(** Where promotion leaves what stood behind the code: a byte at or beyond
    the end of the code as it was recorded stands higher by all that the
    branches have grown. *)
Lemma behind_the_code (a : Asm.Assembler) (bs : list Asm.Branch) (code_size p : Z) :
  spaced bs -> old_order 0 bs code_size ->
  code_size <= p < Asm.buf_Size (Asm.buffer_ a) ->
  Asm.buf_Size (Asm.buffer_ a) + total_growth bs < 2 ^ 32 ->
  Asm.byte_at (Asm.buffer_ (promoted_state a bs)) (p + total_growth bs)
  = Asm.byte_at (Asm.buffer_ a) p.
Proof.
  intros Sp O Hp Hb.
  destruct (old_order_bounds _ _ _ O) as [L0 F]. rewrite Forall_forall in F.
  assert (O' : old_order 0 bs (Asm.buf_Size (Asm.buffer_ a)))
    by (apply (old_order_limit 0 code_size); [lia|exact O]).
  destruct (promoted_state_buffer a bs Sp O' Hb) as [_ B].
  rewrite <- (shift_at_all bs p).
  - apply B; [unfold Asm.buf_Size in *; lia|].
    intros b Hb'. right. apply F in Hb'. lia.
  - intros b Hb'. apply F in Hb'. pose proof (proj2 (sizes_small b)). lia.
Qed.


(** What the long-literal pool is moved down by: 4 bytes when there are
    8-byte literals and the pool would start off a multiple of 8. *)
Definition pool_cut (long_literals : list Asm.Literal) (settled : Z) : Z :=
  match long_literals with
  | [] => 0
  | _ :: _ => if settled mod 8 =? 0 then 0 else 4
  end.

(** What a branch keeps of the promotion loop's result when the pool is
    aligned, and where its target goes. *)
Definition realigned (settled cut : Z) (b b' : Asm.Branch) : Prop :=
  Asm.location_ b' = Asm.location_ b
  /\ Asm.type_ b' = Asm.type_ b
  /\ Asm.lhs_reg_ b' = Asm.lhs_reg_ b
  /\ Asm.rhs_reg_ b' = Asm.rhs_reg_ b
  /\ Asm.condition_ b' = Asm.condition_ b
  /\ Asm.target_ b'
     = if settled <=? Asm.target_ b then Asm.target_ b - cut else Asm.target_ b.

Lemma FinalizeCode_layout (a a' : Asm.Assembler) :
  ready_to_finalize a ->
  Asm.FinalizeCode a = Some (tt, a') ->
  exists a1 bs,
    Asm.EmitLiterals a = Some (tt, a1)
    /\ Asm.PromoteLoop (S (Asm.short_count (Asm.branches_ a1))) (Asm.branches_ a1)
       = Asm.Settled bs
    /\ let n4 := Z.of_nat (List.length (Asm.literals_ a)) in
       let n8 := Z.of_nat (List.length (Asm.long_literals_ a)) in
       let code_end := Asm.buf_Size (Asm.buffer_ a) + total_growth bs in
       let settled := code_end + 4 * n4 + 4 in
       let cut := pool_cut (Asm.long_literals_ a) settled in
       let pool := Asm.buf_Size (Asm.buffer_ a') - 8 * n8 in
       Asm.buf_Size (Asm.buffer_ a') = code_end + 4 * n4 + pool_room a - cut
       /\ (Asm.long_literals_ a <> [] -> pool = settled - cut /\ pool mod 8 = 0)
       /\ (forall i, 0 <= i < 4 * n4 ->
             Asm.byte_at (Asm.buffer_ a') (code_end + i)
             = Asm.byte_at (pool_bytes (Asm.literals_ a)) i)
       /\ (forall i, 0 <= i < 8 * n8 ->
             Asm.byte_at (Asm.buffer_ a') (pool + i)
             = Asm.byte_at (pool_bytes (Asm.long_literals_ a)) i)
       /\ Forall2 (realigned settled cut) bs (Asm.branches_ a').
Proof.
  intros R H.
  unfold Asm.FinalizeCode, Asm.bind in H.
  destruct (Asm.EmitLiterals a) as [[[] a1]|] eqn:E; [|discriminate].
  destruct (EmitLiterals_laid_out a a1 R E) as (LO & B1 & S1 & N8 & NB & Ov & CL).
  destruct R as (Ho & C & LS & M4 & Bd).
  change (2 ^ 31) with 2147483648 in Bd. change (2 ^ 11) with 2048 in Bd.
  destruct (PromoteBranches_layout a1 a' LO H)
    as (bs & cut & PL & Cut & Cut0 & Sz & F2 & By1 & By2 & _ & _).
  cbv zeta in Cut, Cut0, Sz, F2, By1, By2.
  destruct (laid_out_promoted a1 bs LO PL) as (P & Len & T8 & _ & Sp & _ & _).
  assert (O : old_order 0 bs (Asm.buf_Size (Asm.buffer_ a)))
    by (apply (old_order_relocated bs (Asm.branches_ a1)); [exact P|apply CL]).
  pose proof (total_growth_mod4 bs) as T4.
  assert (PR : pool_room a1 = pool_room a).
  { unfold pool_room.
    destruct (Asm.long_literals_ a1), (Asm.long_literals_ a);
      try discriminate; [reflexivity|].
    cbn [List.length] in *. lia. }
  assert (NE : Asm.long_literals_ a1 = [] <-> Asm.long_literals_ a = []).
  { destruct (Asm.long_literals_ a1), (Asm.long_literals_ a);
      cbn [List.length] in N8; try discriminate; split; congruence. }
  assert (P0 : 0 <= pool_room a)
    by (unfold pool_room; destruct (Asm.long_literals_ a); cbn [List.length]; lia).
  assert (L4 : Asm.buf_Size (pool_bytes (Asm.literals_ a))
               = 4 * Z.of_nat (List.length (Asm.literals_ a))).
  { unfold Asm.buf_Size. rewrite (pool_bytes_length 4 _ ltac:(lia) (proj1 LS)). lia. }
  assert (L8 : Asm.buf_Size (pool_bytes (Asm.long_literals_ a))
               = 8 * Z.of_nat (List.length (Asm.long_literals_ a))).
  { unfold Asm.buf_Size. rewrite (pool_bytes_length 8 _ ltac:(lia) (proj2 LS)). lia. }
  assert (S0 : 0 <= Asm.buf_Size (Asm.buffer_ a)) by (unfold Asm.buf_Size; lia).
  assert (Behind : forall p, Asm.buf_Size (Asm.buffer_ a) <= p
                             < Asm.buf_Size (Asm.buffer_ a1) ->
             Asm.byte_at (Asm.buffer_ (promoted_state a1 bs)) (p + total_growth bs)
             = Asm.byte_at (Asm.buffer_ a1) p).
  { intros p Hp. apply (behind_the_code a1 bs (Asm.buf_Size (Asm.buffer_ a)));
      [exact Sp|exact O|exact Hp|]. rewrite S1, NB in *.
    change (2 ^ 32) with 4294967296. lia. }
  exists a1, bs. split; [reflexivity|]. split; [exact PL|]. cbv zeta.
  rewrite N8, S1, PR in *.
  set (size := Asm.buf_Size (Asm.buffer_ a)) in *.
  set (n4 := Z.of_nat (List.length (Asm.literals_ a))) in *.
  set (T := total_growth bs) in *.
  assert (In4 : forall i, 0 <= i < 4 * n4 ->
            Asm.byte_at (Asm.buffer_ a') (size + T + i)
            = Asm.byte_at (pool_bytes (Asm.literals_ a)) i).
  { intros i Hi. rewrite By1 by lia.
    replace (size + T + i) with (size + i + T) by lia.
    rewrite Behind by lia. rewrite B1. fold size.
    unfold size. rewrite byte_at_app_r by lia.
    apply byte_at_app_l. lia. }
  destruct (Asm.long_literals_ a) as [|front rest] eqn:LL.
  - (* no 8-byte literals *)
    assert (cut = 0)
      by (destruct Cut as [C0|(_ & C1 & _)]; [exact C0|destruct C1; apply NE; reflexivity]).
    assert (PRv : pool_room a = 0) by (unfold pool_room; rewrite LL; reflexivity).
    subst cut. cbn [pool_cut List.length]. rewrite PRv in *.
    split; [lia|]. split; [intros N; contradiction|]. split; [exact In4|].
    split; [intros i Hi; cbn in Hi; lia|].
    generalize F2. apply Forall2_impl.
    intros b b' ((_ & A1 & _) & A2 & A3 & A4 & A5 & A6).
    repeat split; try assumption.
    rewrite A6. destruct (_ <=? _), (_ <=? _); lia.
  - set (n8 := Z.of_nat (List.length (front :: rest))) in *.
    assert (PRv : pool_room a = 4 + 8 * n8)
      by (unfold pool_room; rewrite LL; reflexivity).
    assert (N0 : 0 < n8) by (unfold n8; cbn [List.length]; lia).
    rewrite PRv in *.
    assert (Ec : cut = pool_cut (front :: rest) (size + T + 4 * n4 + 4)).
    { cbn [pool_cut].
      replace (size + 4 * n4 + (4 + 8 * n8) + T - 8 * n8)
        with (size + T + 4 * n4 + 4) in * by lia.
      destruct (Z.eqb_spec ((size + T + 4 * n4 + 4) mod 8) 0) as [Z0|Z0].
      - destruct Cut as [C0|(_ & _ & C1)]; [exact C0|contradiction].
      - destruct Cut as [C0|(C1 & _)]; [|exact C1].
        exfalso. apply Z0, Cut0; [|exact C0].
        intros N. apply NE in N. discriminate. }
    rewrite <- Ec.
    replace (size + 4 * n4 + (4 + 8 * n8) + T - 8 * n8)
      with (size + T + 4 * n4 + 4) in * by lia.
    split; [lia|]. split.
    { intros _. split; [lia|].
      destruct Cut as [C0|(C1 & _ & C2)].
      - subst cut. rewrite Sz.
        replace (size + 4 * n4 + (4 + 8 * n8) + T - 0 - 8 * n8)
          with (size + T + 4 * n4 + 4) by lia.
        apply Cut0; [|reflexivity]. intros N. apply NE in N. discriminate.
      - rewrite Sz, C1. clear - C2 M4 T4. Z.div_mod_to_equations. lia. }
    split; [exact In4|]. split.
    + intros i Hi. rewrite Sz.
      replace (size + 4 * n4 + (4 + 8 * n8) + T - cut - 8 * n8 + i)
        with (size + T + 4 * n4 + 4 + i - cut) by lia.
      rewrite By2 by lia.
      replace (size + T + 4 * n4 + 4 + i) with (size + (4 * n4 + (4 + i)) + T) by lia.
      rewrite Behind by lia. rewrite B1. unfold size.
      rewrite byte_at_app_r by lia. rewrite <- L4.
      rewrite byte_at_app_r by lia.
      change 4 with (Asm.buf_Size (Asm.le32 0)) at 1.
      rewrite byte_at_app_r by lia. reflexivity.
    + generalize F2. apply Forall2_impl.
      intros b b' ((_ & A1 & _) & A2 & A3 & A4 & A5 & A6).
      repeat split; assumption.
Qed.

(** ** Recording a method

    The client of the assembler holds the labels and passes them by
    pointer; the entry points update them in place. Here the labels of a
    method live in a list, an entry point names its label by index, and the
    label it returns takes the place of the one it was given. Every
    instruction comes down to calls of Emit. *)

Inductive Recorded : Set :=
| REmit (value : Z)
| RBind (label : nat)
| RBuncond (label : nat) (is_bare : bool)
| RBcond (label : nat) (is_bare : bool) (condition : Asm.BranchCondition)
         (lhs rhs : GpuRegister)
| RCall (label : nat) (is_bare : bool)
| RLoadLabelAddress (dest_reg : GpuRegister) (label : nat)
| RNewLiteral (size : Z) (data : list Z)
| RLoadLiteral (dest_reg : GpuRegister) (load_type : Asm.LoadOperandType)
               (literal : Asm.LiteralRef).

Definition at_label (labels : list Asm.Riscv64Label) (i : nat)
    (f : Asm.Riscv64Label -> Asm.M Asm.Riscv64Label)
  : Asm.M (list Asm.Riscv64Label) :=
  Asm.bind (Asm.lift (nth_error labels i)) (fun l =>
  Asm.bind (f l) (fun l' => Asm.ret (Asm.list_update labels i l'))).

Definition record_step (r : Recorded) (labels : list Asm.Riscv64Label)
  : Asm.M (list Asm.Riscv64Label) :=
  match r with
  | REmit value => Asm.bind (Asm.Emit value) (fun _ => Asm.ret labels)
  | RBind i => at_label labels i Asm.Bind
  | RBuncond i is_bare => at_label labels i (fun l => Asm.Buncond l is_bare)
  | RBcond i is_bare condition lhs rhs =>
      at_label labels i (fun l => Asm.Bcond l is_bare condition lhs rhs)
  | RCall i is_bare => at_label labels i (fun l => Asm.Call l is_bare)
  | RLoadLabelAddress dest_reg i =>
      at_label labels i (fun l => Asm.LoadLabelAddress dest_reg l)
  | RNewLiteral size data =>
      Asm.bind (Asm.NewLiteral size data) (fun _ => Asm.ret labels)
  | RLoadLiteral dest_reg load_type literal =>
      Asm.bind (Asm.LoadLiteral dest_reg load_type literal) (fun _ => Asm.ret labels)
  end.

Fixpoint record (p : list Recorded) (labels : list Asm.Riscv64Label)
  : Asm.M (list Asm.Riscv64Label) :=
  match p with
  | [] => Asm.ret labels
  | r :: rest => Asm.bind (record_step r labels) (record rest)
  end.

(** A literal is given with its size, 4 or 8 (the DCHECK_EQ of
    NewLiteral), and at least as many bytes of data. *)
Definition well_sized (r : Recorded) : bool :=
  match r with
  | RNewLiteral size data =>
      ((size =? 4) || (size =? 8)) && (size <=? Z.of_nat (List.length data))
  | _ => true
  end.

(** The room a method takes: its code, its literals with the reserved
    word, and 8 bytes for each branch to grow by. *)
Definition extent (a : Asm.Assembler) : Z :=
  Asm.buf_Size (Asm.buffer_ a)
  + 4 * Z.of_nat (List.length (Asm.literals_ a)) + pool_room a
  + 8 * Z.of_nat (List.length (Asm.branches_ a)).

(** *** New branches *)

Definition new_branch_at (location target : Z) (b : Asm.Branch) : Prop :=
  Asm.location_ b = location /\ Asm.old_location_ b = location
  /\ Asm.target_ b = target /\ Asm.old_type_ b = Asm.type_ b.

Lemma InitializeType_keeps (b b' : Asm.Branch) (t : Asm.Type_) :
  Asm.InitializeType b t = Some b' ->
  new_branch_at (Asm.location_ b) (Asm.target_ b) b'
  \/ Asm.old_location_ b <> Asm.location_ b.
Proof.
  unfold Asm.InitializeType. cbv zeta.
  destruct (match t with Asm.kCondBranch => _ | _ => _ end) as [t'|];
    [|discriminate].
  intros H. injection H as <-.
  destruct (Z.eq_dec (Asm.old_location_ b) (Asm.location_ b)) as [E|E];
    [left|right; exact E].
  repeat split. exact E.
Qed.

Lemma Branch_uncond_new (location target : Z) (is_call is_bare : bool)
    (b : Asm.Branch) :
  Asm.Branch_uncond location target is_call is_bare = Some b ->
  new_branch_at location target b.
Proof.
  unfold Asm.Branch_uncond. intros H.
  destruct (InitializeType_keeps _ _ _ H) as [N|N]; [exact N|].
  cbn in N. contradiction.
Qed.

Lemma Branch_cond_new (location target : Z) (condition : Asm.BranchCondition)
    (lhs rhs : GpuRegister) (is_bare : bool) (b : Asm.Branch) :
  Asm.Branch_cond location target condition lhs rhs is_bare = Some b ->
  new_branch_at location target b.
Proof.
  unfold Asm.Branch_cond. cbv zeta.
  destruct (negb _); [discriminate|].
  destruct (Asm.IsNop _ _ _); [discriminate|]. intros H.
  destruct (InitializeType_keeps _ _ _ H) as [N|N]; [exact N|].
  cbn in N. contradiction.
Qed.

Lemma Branch_label_or_literal_new (location : Z) (dest_reg : GpuRegister)
    (t : Asm.Type_) (b : Asm.Branch) :
  Asm.Branch_label_or_literal location dest_reg t = Some b ->
  new_branch_at location Asm.kUnresolved b.
Proof.
  unfold Asm.Branch_label_or_literal.
  destruct (gpu_eqb _ _); [discriminate|]. intros H.
  destruct (InitializeType_keeps _ _ _ H) as [N|N]; [exact N|].
  cbn in N. contradiction.
Qed.

(** What appending a branch for a label does to the state in append
    mode: the branch joins the list, its length in words is appended to
    the code, and a label that was bound is left as it was. *)
Lemma appended_branch (ob : option Asm.Branch) (l l' : Asm.Riscv64Label)
    (a a1 a' : Asm.Assembler) :
  Asm.overwriting_ a = false ->
  Asm.emplace_back ob a = Some (tt, a1) ->
  Asm.FinalizeLabeledBranch l a1 = Some (l', a') ->
  exists b extra,
    ob = Some b
    /\ Asm.branches_ a' = Asm.branches_ a ++ [b]
    /\ Asm.buffer_ a' = Asm.buffer_ a ++ extra
    /\ Asm.buf_Size extra = Asm.GetSize b
    /\ Asm.overwriting_ a' = false
    /\ Asm.literals_ a' = Asm.literals_ a
    /\ Asm.long_literals_ a' = Asm.long_literals_ a
    /\ (if Asm.IsBound l then l' = l else Asm.IsBound l' = false).
Proof.
  intros O E F. unfold Asm.emplace_back, Asm.bind, Asm.lift, Asm.get, Asm.put in E.
  destruct ob as [x|]; [|discriminate]. injection E as <-.
  exists x. rename a into x0.
  set (a1 := Asm.with_branches x0 (Asm.branches_ x0 ++ [x])) in *.
  assert (Bs : Asm.branches_ a1 = Asm.branches_ x0 ++ [x]) by reflexivity.
  assert (O1 : Asm.overwriting_ a1 = false) by exact O.
  unfold Asm.FinalizeLabeledBranch in F.
  unfold Asm.bind at 1, Asm.get at 1 in F.
  unfold Asm.bind at 1, Asm.lift in F. rewrite Bs in F.
  replace (nth_error (Asm.branches_ x0 ++ [x])
                     (List.length (Asm.branches_ x0 ++ [x]) - 1)) with (Some x) in F.
  2:{ rewrite length_app. cbn [List.length].
      replace (List.length (Asm.branches_ x0) + 1 - 1)%nat
        with (List.length (Asm.branches_ x0)) by lia.
      rewrite nth_error_app2, Nat.sub_diag by lia. reflexivity. }
  pose proof (lengths_small x) as Lb.
  assert (Sx : Asm.GetSize x = 4 * Asm.GetLength x)
    by (unfold Asm.GetSize; rewrite u32_small; lia).
  destruct (Asm.IsBound l) eqn:B; cbn [negb] in F.
  - pose proof (emits_Nops (Z.to_nat (Asm.GetLength x)) a1 O1) as N.
    unfold Asm.bind in F. rewrite N in F. unfold Asm.ret in F.
    injection F as <- <-.
    exists (words (repeat nop_word (Z.to_nat (Asm.GetLength x)))).
    split; [reflexivity|]. split; [reflexivity|]. split; [reflexivity|].
    split; [rewrite words_size, repeat_length; lia|].
    repeat split; assumption.
  - rewrite (u32_small (Asm.GetLength x - 1)) in F by lia.
    pose proof (emits_bind _ _ [Asm.position_ l] _ (emits_Emit (Asm.position_ l))
                  (emits_Nops (Z.to_nat (Asm.GetLength x - 1))) a1 O1) as N.
    unfold Asm.bind at 1 in F. unfold Asm.bind at 1 in N.
    destruct (Asm.Emit (Asm.position_ l) a1) as [[[] a2]|]; [|discriminate].
    unfold Asm.bind at 1 in F. rewrite N in F. unfold Asm.ret in F.
    injection F as <- <-.
    exists (words ([Asm.position_ l]
                   ++ repeat nop_word (Z.to_nat (Asm.GetLength x - 1)))).
    split; [reflexivity|]. split; [reflexivity|]. split; [reflexivity|].
    split; [rewrite words_size, length_app, repeat_length; cbn [List.length]; lia|].
    split; [exact O|]. split; [reflexivity|]. split; [reflexivity|].
    unfold Asm.IsBound, Asm.LinkTo, Asm.kPointerSize. cbn [Asm.position_].
    apply Z.ltb_ge. lia.
Qed.


(** *** The labels *)

(** A bound label answers a place in the code, at an even address. *)
Definition label_ok (a : Asm.Assembler) (l : Asm.Riscv64Label) : Prop :=
  Asm.IsBound l = true ->
  exists loc, Asm.GetLabelLocation l a = Some (loc, a)
              /\ 0 <= loc <= Asm.buf_Size (Asm.buffer_ a) /\ loc mod 2 = 0.

(** The branches of [bs] are still there in [bs'], and end where they
    ended. *)
Definition keeps_ends (bs bs' : list Asm.Branch) : Prop :=
  forall i b, nth_error bs i = Some b ->
    exists b', nth_error bs' i = Some b'
               /\ Asm.GetEndLocation b' = Asm.GetEndLocation b.

Lemma keeps_ends_refl (bs : list Asm.Branch) : keeps_ends bs bs.
Proof. intros i b H. exists b. split; [exact H|reflexivity]. Qed.

Lemma keeps_ends_app (bs more : list Asm.Branch) : keeps_ends bs (bs ++ more).
Proof.
  intros i b H. exists b. split; [|reflexivity].
  rewrite nth_error_app1; [exact H|]. apply nth_error_Some. congruence.
Qed.

Lemma keeps_ends_resolved (pc : Z) (bs bs' : list Asm.Branch) :
  Forall2 (resolved_to pc) bs bs' -> keeps_ends bs bs'.
Proof.
  induction 1 as [|b b' l l' Hb _ IH]; intros [|i] x N; try discriminate.
  - cbn [nth_error] in *. injection N as <-. exists b'. split; [reflexivity|].
    destruct Hb as [->| ->]; reflexivity.
  - cbn [nth_error] in *. apply IH, N.
Qed.

Lemma GetLabelLocation_keeps (l : Asm.Riscv64Label) (a a' : Asm.Assembler) (loc : Z) :
  Asm.GetLabelLocation l a = Some (loc, a) ->
  keeps_ends (Asm.branches_ a) (Asm.branches_ a') ->
  Asm.GetLabelLocation l a' = Some (loc, a').
Proof.
  unfold Asm.GetLabelLocation, Asm.bind at 1 3, Asm.CHECK.
  destruct (Asm.IsBound l); [|discriminate].
  destruct (negb (Asm.prev_branch_id_plus_one_ l =? 0)).
  - unfold Asm.bind, Asm.GetBranch, Asm.bind, Asm.get, Asm.CHECK, Asm.lift, Asm.ret.
    set (id := Asm.prev_branch_id_plus_one_ l - 1).
    destruct ((0 <=? id) && (id <? Z.of_nat (List.length (Asm.branches_ a)))) eqn:C;
      [|discriminate].
    destruct (nth_error (Asm.branches_ a) (Z.to_nat id)) as [b|] eqn:N;
      [|discriminate].
    intros H K. destruct (K _ _ N) as (b' & N' & E).
    assert (Lt : (Z.to_nat id < List.length (Asm.branches_ a'))%nat)
      by (apply nth_error_Some; congruence).
    apply andb_true_iff in C. destruct C as [C1 C2].
    apply Z.leb_le in C1.
    replace ((0 <=? id) && (id <? Z.of_nat (List.length (Asm.branches_ a'))))
      with true
      by (symmetry; apply andb_true_iff; split;
          [apply Z.leb_le|apply Z.ltb_lt]; lia).
    rewrite N', E. injection H as <-. reflexivity.
  - unfold Asm.ret. intros H _. injection H as <-. reflexivity.
Qed.

Lemma label_ok_keeps (a a' : Asm.Assembler) (l : Asm.Riscv64Label) :
  label_ok a l ->
  keeps_ends (Asm.branches_ a) (Asm.branches_ a') ->
  Asm.buf_Size (Asm.buffer_ a) <= Asm.buf_Size (Asm.buffer_ a') ->
  label_ok a' l.
Proof.
  intros H K S B. destruct (H B) as (loc & G & R & E).
  exists loc. split; [exact (GetLabelLocation_keeps _ _ _ _ G K)|].
  split; [lia|exact E].
Qed.

Lemma label_target_value (l : Asm.Riscv64Label) (a a' : Asm.Assembler) (t : Z) :
  Asm.label_target l a = Some (t, a') ->
  a' = a
  /\ (if Asm.IsBound l then Asm.GetLabelLocation l a = Some (t, a)
      else t = Asm.kUnresolved).
Proof.
  unfold Asm.label_target. destruct (Asm.IsBound l).
  - intros H. pose proof (GetLabelLocation_state _ _ _ _ H) as ->.
    split; [reflexivity|exact H].
  - unfold Asm.ret. intros H. injection H as <- <-. split; reflexivity.
Qed.

(** The label that Bind returns answers the end of the code. *)
Lemma Bind_location (l l' : Asm.Riscv64Label) (a a' : Asm.Assembler) :
  Asm.Bind l a = Some (l', a') ->
  Asm.buf_Size (Asm.buffer_ a) < 2 ^ 31 ->
  Z.of_nat (List.length (Asm.branches_ a)) < 2 ^ 31 ->
  Forall (fun b => 0 <= Asm.location_ b
                   /\ Asm.location_ b + Asm.GetSize b
                      <= Asm.buf_Size (Asm.buffer_ a)) (Asm.branches_ a) ->
  Asm.IsBound l' = true
  /\ Asm.GetLabelLocation l' a' = Some (Asm.buf_Size (Asm.buffer_ a), a').
Proof.
  intros H Sz Ln In.
  pose proof (Bind_branches _ _ _ _ H) as F.
  assert (S0 : 0 <= Asm.buf_Size (Asm.buffer_ a)) by (unfold Asm.buf_Size; lia).
  change (2 ^ 31) with 2147483648 in *.
  revert H. unfold Asm.Bind, Asm.bind at 1, Asm.CHECK.
  destruct (negb (Asm.IsBound l)); [|discriminate].
  unfold Asm.bind at 1, Asm.get at 1. unfold Asm.bind at 1.
  rewrite (u32_small (Asm.buf_Size (Asm.buffer_ a)))
    by (change (2 ^ 32) with 4294967296; lia).
  set (pc := Asm.buf_Size (Asm.buffer_ a)) in *.
  destruct (Asm.Bind_walk _ _ l a) as [[l1 a1]|] eqn:W; [|discriminate].
  pose proof (Bind_walk_branches _ _ _ _ _ _ W) as F1.
  assert (Len : List.length (Asm.branches_ a1) = List.length (Asm.branches_ a))
    by (symmetry; exact (Forall2_length F1)).
  unfold Asm.bind at 1, Asm.get at 1.
  rewrite Len, u32_small by (change (2 ^ 32) with 4294967296; lia).
  set (n := Z.of_nat (List.length (Asm.branches_ a))) in *.
  assert (Final : forall rel, 0 <= rel < 2147483648 ->
            Asm.IsBound (Asm.BindTo {| Asm.position_ := Asm.position_ l1;
                                       Asm.prev_branch_id_plus_one_ := n |}
                                    (sext 32 rel)) = true
            /\ u32 (Asm.Position (Asm.BindTo
                      {| Asm.position_ := Asm.position_ l1;
                         Asm.prev_branch_id_plus_one_ := n |} (sext 32 rel)))
               = rel).
  { intros rel Hr.
    rewrite sext_small by (change (2 ^ (32 - 1)) with 2147483648; lia).
    unfold Asm.Position, Asm.IsBound, Asm.BindTo, Asm.kPointerSize.
    cbn [Asm.position_].
    destruct (Z.ltb_spec (- rel - 8) 0); [|lia].
    split; [reflexivity|].
    rewrite u32_small; change (2 ^ 32) with 4294967296; lia. }
  destruct (Z.eqb_spec n 0) as [E0|E0]; cbn [negb].
  - unfold Asm.ret. intros H. injection H as <- <-.
    destruct (Final pc ltac:(lia)) as [F2 F3]. split; [exact F2|].
    set (lab := Asm.BindTo _ _) in *.
    assert (P : Asm.prev_branch_id_plus_one_ lab = n) by reflexivity.
    unfold Asm.GetLabelLocation, Asm.bind at 1, Asm.CHECK. rewrite F2, P, E0.
    cbn [Z.eqb negb]. unfold Asm.ret. rewrite F3. reflexivity.
  - unfold Asm.bind at 1.
    destruct (Asm.GetBranch (n - 1) a1) as [[b a2]|] eqn:G; [|discriminate].
    pose proof (GetBranch_nth _ _ _ _ G) as N.
    pose proof (GetBranch_state _ _ _ _ G) as ->.
    unfold Asm.ret. intros H. injection H as <- <-.
    assert (Eb : 0 <= Asm.GetEndLocation b <= pc).
    { destruct (Forall2_nth_error_r _ _ _ _ _ F1 N) as (b0 & N0 & R0).
      apply nth_error_In in N0.
      destruct (proj1 (Forall_forall _ _) In b0 N0) as [I1 I2].
      pose proof (proj1 (sizes_small b0)) as Sb.
      assert (E : Asm.GetEndLocation b = Asm.GetEndLocation b0)
        by (destruct R0 as [->| ->]; reflexivity).
      rewrite E. unfold Asm.GetEndLocation. rewrite u32_small;
        change (2 ^ 32) with 4294967296; lia. }
    rewrite (u32_small (pc - Asm.GetEndLocation b))
      by (change (2 ^ 32) with 4294967296; lia).
    destruct (Final (pc - Asm.GetEndLocation b) ltac:(lia)) as [F2 F3].
    split; [exact F2|].
    set (lab := Asm.BindTo _ _) in *.
    assert (P : Asm.prev_branch_id_plus_one_ lab = n) by reflexivity.
    unfold Asm.GetLabelLocation, Asm.bind at 1, Asm.CHECK. rewrite F2, P.
    destruct (Z.eqb_spec n 0); [contradiction|]. cbn [negb].
    unfold Asm.bind at 1. rewrite G. unfold Asm.ret. rewrite F3.
    replace (pc - Asm.GetEndLocation b + Asm.GetEndLocation b) with pc by lia.
    rewrite u32_small by (change (2 ^ 32) with 4294967296; lia). reflexivity.
Qed.


(** *** What recording keeps *)

(** The state while a method is recorded: code is appended, the branches
    lie in it as [code_layout] says, the literals have their sizes, the
    code is a whole number of words, and the bound labels answer places in
    it. *)
Definition recording (labels : list Asm.Riscv64Label) (a : Asm.Assembler) : Prop :=
  Asm.overwriting_ a = false
  /\ code_layout (Asm.buf_Size (Asm.buffer_ a)) a
  /\ literals_sized a
  /\ Asm.buf_Size (Asm.buffer_ a) mod 4 = 0
  /\ Forall (label_ok a) labels.

Definition target_ok (a : Asm.Assembler) (t : Z) : Prop :=
  t = Asm.kUnresolved
  \/ (0 <= t <= Asm.buf_Size (Asm.buffer_ a) /\ t mod 2 = 0).

Lemma in_order_snoc (from limit : Z) (bs : list Asm.Branch) (b : Asm.Branch) :
  in_order from bs limit -> limit <= Asm.location_ b ->
  in_order from (bs ++ [b]) (Asm.location_ b + Asm.GetSize b).
Proof.
  revert from. induction bs as [|x bs IH]; intros from; cbn [in_order app].
  - intros H L. split; lia.
  - intros [H1 H2] L. split; [exact H1|apply IH; assumption].
Qed.

Lemma target_in_grow (size size' : Z) (b : Asm.Branch) :
  size <= size' -> target_in size b -> target_in size' b.
Proof. intros L T R. destruct (T R) as [A B]. split; [lia|exact B]. Qed.

Lemma extent_parts (a : Asm.Assembler) :
  0 <= Asm.buf_Size (Asm.buffer_ a) <= extent a
  /\ 8 * Z.of_nat (List.length (Asm.branches_ a)) <= extent a.
Proof.
  unfold extent, pool_room, Asm.buf_Size.
  destruct (Asm.long_literals_ a); cbn [List.length]; lia.
Qed.

Lemma label_target_ok (l : Asm.Riscv64Label) (a a' : Asm.Assembler) (t : Z) :
  label_ok a l -> Asm.label_target l a = Some (t, a') ->
  a' = a /\ target_ok a t.
Proof.
  intros K H. destruct (label_target_value _ _ _ _ H) as [-> V].
  split; [reflexivity|].
  destruct (Asm.IsBound l) eqn:B; [|left; exact V].
  destruct (K B) as (loc & G & R & E). right.
  rewrite G in V. injection V as <-. split; assumption.
Qed.

(** Appending a branch at the end of the code. *)
Lemma recorded_branch (labels : list Asm.Riscv64Label) (l l' : Asm.Riscv64Label)
    (ob : option Asm.Branch) (t : Z) (a a1 a' : Asm.Assembler) :
  recording labels a -> target_ok a t ->
  (forall b, ob = Some b ->
             new_branch_at (u32 (Asm.buf_Size (Asm.buffer_ a))) t b) ->
  Asm.emplace_back ob a = Some (tt, a1) ->
  Asm.FinalizeLabeledBranch l a1 = Some (l', a') ->
  extent a' < 2 ^ 31 ->
  recording labels a' /\ (label_ok a l -> label_ok a' l')
  /\ extent a <= extent a'
  /\ Asm.literals_ a' = Asm.literals_ a
  /\ Asm.long_literals_ a' = Asm.long_literals_ a.
Proof.
  intros (O & (IO & Lim & U & Ev & T) & LS & M4 & LK) TK NB E F Bd.
  destruct (appended_branch ob l l' a a1 a' O E F)
    as (b & extra & -> & Bs & Bf & Sx & O' & L4 & L8 & Lb).
  destruct (NB b eq_refl) as (N1 & N2 & N3 & N4).
  pose proof (extent_parts a') as [[_ Sz'] _].
  pose proof (proj1 (sizes_small b)) as Sb.
  pose proof (lengths_small b) as Ln.
  assert (Sb4 : Asm.GetSize b = 4 * Asm.GetLength b)
    by (unfold Asm.GetSize; rewrite u32_small; lia).
  assert (S' : Asm.buf_Size (Asm.buffer_ a')
               = Asm.buf_Size (Asm.buffer_ a) + Asm.GetSize b).
  { rewrite Bf. unfold Asm.buf_Size in *. rewrite length_app. lia. }
  assert (S0 : 0 <= Asm.buf_Size (Asm.buffer_ a)) by (unfold Asm.buf_Size; lia).
  change (2 ^ 31) with 2147483648 in Bd.
  rewrite u32_small in N1, N2 by (change (2 ^ 32) with 4294967296; lia).
  assert (K : keeps_ends (Asm.branches_ a) (Asm.branches_ a'))
    by (rewrite Bs; apply keeps_ends_app).
  assert (LK' : forall m, label_ok a m -> label_ok a' m)
    by (intros m Hm; apply (label_ok_keeps a a' m Hm K); lia).
  split; [|split; [|split; [|split; assumption]]].
  - split; [exact O'|]. split.
    { split.
      - rewrite Bs, S', <- N1. apply (in_order_snoc _ _ _ _ IO). lia.
      - split; [lia|]. rewrite Bs. split; [|split].
        + apply Forall_app. split; [exact U|].
          apply Forall_cons; [|apply Forall_nil]. split; congruence.
        + apply Forall_app. split; [exact Ev|].
          apply Forall_cons; [|apply Forall_nil].
          rewrite N1. clear - M4. Z.div_mod_to_equations. lia.
        + apply Forall_app. split.
          * refine (Forall_impl _ _ T). intros x. apply target_in_grow. lia.
          * apply Forall_cons; [|apply Forall_nil]. intros R.
            destruct TK as [TU|[T1 T2]].
            -- unfold Asm.IsResolved in R. rewrite N3, TU, Z.eqb_refl in R.
               discriminate.
            -- rewrite N3. split; [lia|exact T2]. }
    split; [unfold literals_sized; rewrite L4, L8; exact LS|].
    split; [rewrite S', Sb4; clear - M4; Z.div_mod_to_equations; lia|].
    refine (Forall_impl _ _ LK). exact LK'.
  - intros Hl. destruct (Asm.IsBound l) eqn:B.
    + subst l'. apply LK', Hl.
    + intros B'. congruence.
  - unfold extent, pool_room. rewrite L4, L8, S', Bs, length_app.
    cbn [List.length]. lia.
Qed.

Lemma at_label_Some (labels labels' : list Asm.Riscv64Label) (i : nat)
    (f : Asm.Riscv64Label -> Asm.M Asm.Riscv64Label) (a a' : Asm.Assembler) :
  at_label labels i f a = Some (labels', a') ->
  exists l l', nth_error labels i = Some l /\ f l a = Some (l', a')
               /\ labels' = Asm.list_update labels i l'.
Proof.
  unfold at_label, Asm.bind, Asm.lift, Asm.ret.
  destruct (nth_error labels i) as [l|]; [|discriminate].
  destruct (f l a) as [[l' a1]|] eqn:F; [|discriminate].
  intros H. injection H as <- <-. exists l, l'. repeat split. exact F.
Qed.

(** A branch to a label, as Buncond, Bcond and Call record it. *)
Lemma recorded_jump (labels : list Asm.Riscv64Label) (l l' : Asm.Riscv64Label)
    (mk : Z -> Z -> option Asm.Branch) (i : nat) (a a' : Asm.Assembler) :
  (forall location target b, mk location target = Some b ->
                             new_branch_at location target b) ->
  recording labels a -> nth_error labels i = Some l ->
  Asm.bind (Asm.label_target l) (fun target =>
    Asm.bind Asm.get (fun a =>
      Asm.bind (Asm.emplace_back (mk (u32 (Asm.buf_Size (Asm.buffer_ a))) target))
               (fun _ => Asm.FinalizeLabeledBranch l))) a = Some (l', a') ->
  extent a' < 2 ^ 31 ->
  recording (Asm.list_update labels i l') a' /\ extent a <= extent a'.
Proof.
  intros MK R N H Bd.
  assert (Kl : label_ok a l).
  { destruct R as (_ & _ & _ & _ & LK).
    exact (proj1 (Forall_forall _ _) LK l (nth_error_In _ _ N)). }
  apply bind_Some in H. destruct H as (t & a0 & HT & H).
  destruct (label_target_ok _ _ _ _ Kl HT) as [-> TK].
  unfold Asm.bind at 1, Asm.get at 1 in H.
  apply bind_Some in H. destruct H as ([] & a1 & HE & HF).
  destruct (recorded_branch labels l l' _ t a a1 a' R TK
              ltac:(intros b Hb; exact (MK _ _ _ Hb)) HE HF Bd)
    as ((O' & C' & LS' & M' & LK') & Kl' & Ex & _).
  split; [|exact Ex].
  split; [exact O'|]. split; [exact C'|]. split; [exact LS'|]. split; [exact M'|].
  apply Forall_list_update; [exact LK'|exact (Kl' Kl)].
Qed.


Lemma recording_labels (labels : list Asm.Riscv64Label) (a : Asm.Assembler)
    (i : nat) (l : Asm.Riscv64Label) :
  recording labels a -> label_ok a l ->
  recording (Asm.list_update labels i l) a.
Proof.
  intros (O & C & LS & M & LK) K.
  split; [exact O|]. split; [exact C|]. split; [exact LS|]. split; [exact M|].
  apply Forall_list_update; assumption.
Qed.

Lemma GetLiteral_Some (r : Asm.LiteralRef) (lit : Asm.Literal) (a a' : Asm.Assembler) :
  Asm.GetLiteral r a = Some (lit, a') ->
  a' = a
  /\ match r with
     | Asm.Lit4 i => nth_error (Asm.literals_ a) i = Some lit
     | Asm.Lit8 i => nth_error (Asm.long_literals_ a) i = Some lit
     end.
Proof.
  unfold Asm.GetLiteral, Asm.bind, Asm.get, Asm.lift.
  destruct r as [i|i];
    [destruct (nth_error (Asm.literals_ a) i) as [x|]
    |destruct (nth_error (Asm.long_literals_ a) i) as [x|]];
    try discriminate; intros H; injection H as <- <-; split; reflexivity.
Qed.

Lemma length_update {A : Type} (l : list A) (i : nat) (x : A) :
  List.length (Asm.list_update l i x) = List.length l.
Proof.
  revert i. induction l as [|h t IH]; intros [|i]; cbn [Asm.list_update List.length];
    try reflexivity. rewrite IH. reflexivity.
Qed.

Lemma pool_room_length (a a' : Asm.Assembler) :
  List.length (Asm.long_literals_ a') = List.length (Asm.long_literals_ a) ->
  pool_room a' = pool_room a.
Proof.
  unfold pool_room. intros H.
  destruct (Asm.long_literals_ a'), (Asm.long_literals_ a); try discriminate;
    [reflexivity|]. cbn [List.length] in *. lia.
Qed.

(** Every entry point keeps the state of a recording, and the method does
    not shrink. *)
Lemma record_step_keeps (r : Recorded) (labels labels' : list Asm.Riscv64Label)
    (a a' : Asm.Assembler) :
  well_sized r = true -> recording labels a ->
  record_step r labels a = Some (labels', a') ->
  extent a' < 2 ^ 31 ->
  recording labels' a' /\ extent a <= extent a'.
Proof.
  intros W R H Bd.
  destruct r as [value|i|i is_bare|i is_bare condition lhs rhs|i is_bare
                |dest_reg i|size data|dest_reg load_type literal];
    cbn [record_step] in H.
  - (* an instruction *)
    destruct R as (O & C & LS & M & LK).
    unfold Asm.bind at 1 in H. rewrite (emits_Emit value a O) in H.
    unfold Asm.ret in H. injection H as <- <-.
    set (a' := Asm.with_buffer a _) in *.
    assert (S' : Asm.buf_Size (Asm.buffer_ a') = Asm.buf_Size (Asm.buffer_ a) + 4).
    { unfold a'. cbn [Asm.buffer_ Asm.with_buffer]. unfold Asm.buf_Size.
      rewrite length_app, Nat2Z.inj_add. cbn [List.length]. lia. }
    split.
    + split; [exact O|]. split.
      { assert (Le : Asm.buf_Size (Asm.buffer_ a) <= Asm.buf_Size (Asm.buffer_ a'))
          by lia.
        destruct (code_layout_grow _ a a' C eq_refl Le) as (IO & Lim & U & Ev & T).
        split; [apply (in_order_limit _ _ _ _ Le IO)|].
        split; [lia|]. repeat split; assumption. }
      split; [exact LS|].
      split; [rewrite S'; clear - M; Z.div_mod_to_equations; lia|].
      refine (Forall_impl _ _ LK). intros l Hl.
      apply (label_ok_keeps a a' l Hl); [apply keeps_ends_refl|lia].
    + unfold extent. rewrite S'. fold (extent a).
      rewrite (pool_room_length a a' eq_refl). unfold extent, a'.
      cbn [Asm.literals_ Asm.branches_ Asm.with_buffer]. lia.
  - (* Bind *)
    apply at_label_Some in H. destruct H as (l & l' & N & H & ->).
    destruct R as (O & C & LS & M & LK).
    destruct (Bind_same _ _ _ _ H) as [(B1 & B2 & B3) (B4 & B5)].
    pose proof (Bind_branches _ _ _ _ H) as F.
    pose proof (extent_parts a') as [[S0 Sz] Nb].
    change (2 ^ 31) with 2147483648 in Bd.
    assert (Len : List.length (Asm.branches_ a') = List.length (Asm.branches_ a))
      by (symmetry; exact (Forall2_length F)).
    assert (Ex : extent a' = extent a).
    { unfold extent. rewrite B1, B4, Len, (pool_room_length a a'); [reflexivity|].
      rewrite B5. reflexivity. }
    rewrite B1 in *.
    destruct (Bind_layout _ l l' a a' C) as (C' & _); try exact H.
    { clear - M. Z.div_mod_to_equations. lia. }
    { change (2 ^ 32) with 4294967296. lia. }
    destruct (Bind_location l l' a a' H) as [Bl Gl].
    { change (2 ^ 31) with 2147483648. lia. }
    { change (2 ^ 31) with 2147483648. lia. }
    { destruct C as (IO & _). destruct (in_order_bounds _ _ _ IO) as [_ Fb].
      exact Fb. }
    split; [|lia].
    split; [congruence|]. split; [rewrite B1; exact C'|].
    split; [unfold literals_sized; rewrite B4, B5; exact LS|].
    split; [rewrite B1; exact M|].
    apply Forall_list_update.
    + refine (Forall_impl _ _ LK). intros m Hm.
      apply (label_ok_keeps a a' m Hm);
        [exact (keeps_ends_resolved _ _ _ F)|rewrite B1; lia].
    + intros _. exists (Asm.buf_Size (Asm.buffer_ a)). split; [exact Gl|].
      rewrite B1. split; [lia|]. clear - M. Z.div_mod_to_equations. lia.
  - (* Buncond *)
    apply at_label_Some in H. destruct H as (l & l' & N & H & ->).
    unfold Asm.Buncond in H.
    apply (recorded_jump labels l l'
             (fun location target => Asm.Branch_uncond location target false is_bare)
             i a a'); try assumption.
    intros location target b. apply Branch_uncond_new.
  - (* Bcond *)
    apply at_label_Some in H. destruct H as (l & l' & N & H & ->).
    unfold Asm.Bcond in H.
    destruct (Asm.IsNop condition lhs rhs).
    + unfold Asm.ret in H. injection H as <- <-. split; [|lia].
      apply recording_labels; [exact R|].
      destruct R as (_ & _ & _ & _ & LK).
      exact (proj1 (Forall_forall _ _) LK l (nth_error_In _ _ N)).
    + apply (recorded_jump labels l l'
               (fun location target =>
                  Asm.Branch_cond location target condition lhs rhs is_bare)
               i a a'); try assumption.
      intros location target b. apply Branch_cond_new.
  - (* Call *)
    apply at_label_Some in H. destruct H as (l & l' & N & H & ->).
    unfold Asm.Call in H.
    apply (recorded_jump labels l l'
             (fun location target => Asm.Branch_uncond location target true is_bare)
             i a a'); try assumption.
    intros location target b. apply Branch_uncond_new.
  - (* LoadLabelAddress *)
    apply at_label_Some in H. destruct H as (l & l' & N & H & ->).
    unfold Asm.LoadLabelAddress in H.
    unfold Asm.bind at 1, Asm.get at 1 in H.
    apply bind_Some in H. destruct H as ([] & a1 & HE & HF).
    assert (Kl : label_ok a l).
    { destruct R as (_ & _ & _ & _ & LK).
      exact (proj1 (Forall_forall _ _) LK l (nth_error_In _ _ N)). }
    assert (NB : forall b,
               Asm.Branch_label_or_literal (u32 (Asm.buf_Size (Asm.buffer_ a)))
                                           dest_reg Asm.kLabel = Some b ->
               new_branch_at (u32 (Asm.buf_Size (Asm.buffer_ a))) Asm.kUnresolved b)
      by (intros b; apply Branch_label_or_literal_new).
    destruct (recorded_branch labels l l' _ Asm.kUnresolved a a1 a' R
                (or_introl eq_refl) NB HE HF Bd)
      as (R' & Kl' & Ex & _).
    split; [|exact Ex]. apply recording_labels; [exact R'|exact (Kl' Kl)].
  - (* NewLiteral *)
    cbn [well_sized] in W. apply andb_true_iff in W. destruct W as [W1 W2].
    apply Z.leb_le in W2.
    destruct R as (O & C & [LS4 LS8] & M & LK).
    unfold Asm.NewLiteral in H.
    unfold Asm.bind at 1 in H. unfold Asm.bind at 1, Asm.get at 1 in H.
    destruct (Z.eqb_spec size 4) as [E4|E4].
    + unfold Asm.bind, Asm.put, Asm.ret in H. injection H as <- <-.
      set (a' := Asm.with_literals a _ _) in *.
      split.
      * split; [exact O|]. split; [exact C|]. split.
        { split; [|exact LS8]. unfold a'. cbn [Asm.literals_ Asm.with_literals].
          apply Forall_app. split; [exact LS4|].
          apply Forall_cons; [|apply Forall_nil]. split; [exact E4|].
          cbn [Asm.data_]. lia. }
        split; [exact M|]. refine (Forall_impl _ _ LK). intros l Hl.
        apply (label_ok_keeps a a' l Hl); [apply keeps_ends_refl|].
        unfold a'. cbn [Asm.buffer_ Asm.with_literals]. lia.
      * unfold extent. rewrite (pool_room_length a a' eq_refl). unfold a'.
        cbn [Asm.buffer_ Asm.literals_ Asm.branches_ Asm.with_literals].
        rewrite length_app. cbn [List.length]. lia.
    + assert (E8 : size = 8).
      { cbn [orb] in W1. destruct (Z.eqb_spec size 4); [contradiction|].
        cbn [orb] in W1. apply Z.eqb_eq, W1. }
      unfold Asm.bind, Asm.put, Asm.ret in H. injection H as <- <-.
      set (a' := Asm.with_literals a _ _) in *.
      split.
      * split; [exact O|]. split; [exact C|]. split.
        { split; [exact LS4|]. unfold a'.
          cbn [Asm.long_literals_ Asm.with_literals].
          apply Forall_app. split; [exact LS8|].
          apply Forall_cons; [|apply Forall_nil]. split; [exact E8|].
          cbn [Asm.data_]. lia. }
        split; [exact M|]. refine (Forall_impl _ _ LK). intros l Hl.
        apply (label_ok_keeps a a' l Hl); [apply keeps_ends_refl|].
        unfold a'. cbn [Asm.buffer_ Asm.with_literals]. lia.
      * unfold extent, pool_room, a'.
        cbn [Asm.buffer_ Asm.literals_ Asm.long_literals_ Asm.branches_
             Asm.with_literals].
        destruct (Asm.long_literals_ a) as [|x rest]; cbn [app List.length];
          [lia|]. rewrite length_app. cbn [List.length]. lia.
  - (* LoadLiteral *)
    apply bind_Some in H. destruct H as ([] & a2 & H & HR).
    unfold Asm.ret in HR. injection HR as <- <-.
    unfold Asm.LoadLiteral in H.
    apply bind_Some in H. destruct H as (literal_type & a0 & HT & H).
    assert (a0 = a) as ->.
    { destruct load_type; unfold Asm.ret, Asm.fatal in HT; try discriminate;
        injection HT as _ <-; reflexivity. }
    apply bind_Some in H. destruct H as (lit & a0 & HG & H).
    destruct (GetLiteral_Some _ _ _ _ HG) as [-> NL].
    unfold Asm.bind at 1, Asm.get at 1 in H.
    apply bind_Some in H. destruct H as ([] & a1 & HE & H).
    apply bind_Some in H. destruct H as (l' & a3 & HF & HS).
    unfold Asm.SetLiteralLabel in HS.
    apply bind_Some in HS. destruct HS as (lit' & a0 & HG' & HS).
    destruct (GetLiteral_Some _ _ _ _ HG') as [-> NL'].
    unfold Asm.bind at 1, Asm.get at 1 in HS.
    assert (Bd3 : extent a3 < 2 ^ 31).
    { replace (extent a3) with (extent a2); [exact Bd|].
      destruct literal; unfold Asm.put in HS; injection HS as <-;
        unfold extent, pool_room;
        cbn [Asm.buffer_ Asm.literals_ Asm.long_literals_ Asm.branches_
             Asm.with_literals]; rewrite ?length_update; [reflexivity|].
      destruct (Asm.long_literals_ a3) as [|x rest]; [reflexivity|].
      destruct i; cbn [Asm.list_update List.length]; rewrite ?length_update;
        reflexivity. }
    assert (NB : forall b,
               Asm.Branch_label_or_literal (u32 (Asm.buf_Size (Asm.buffer_ a)))
                                           dest_reg literal_type = Some b ->
               new_branch_at (u32 (Asm.buf_Size (Asm.buffer_ a))) Asm.kUnresolved b)
      by (intros b; apply Branch_label_or_literal_new).
    destruct (recorded_branch labels (Asm.label_ lit) l' _ Asm.kUnresolved a a1 a3 R
                (or_introl eq_refl) NB HE HF Bd3)
      as ((O' & C' & [LS4 LS8] & M' & LK') & _ & Ex & _).
    set (new := {| Asm.label_ := l'; Asm.size_ := Asm.size_ lit';
                   Asm.data_ := Asm.data_ lit' |}) in *.
    assert (Sz : forall n, sized n lit' -> sized n new) by (intros n Hn; exact Hn).
    destruct literal as [i|i]; unfold Asm.put in HS; injection HS as <-.
    + set (a2 := Asm.with_literals a3 _ _).
      split.
      * split; [exact O'|]. split; [exact C'|]. split.
        { split; [|exact LS8]. unfold a2. cbn [Asm.literals_ Asm.with_literals].
          apply Forall_list_update; [exact LS4|]. apply Sz.
          exact (proj1 (Forall_forall _ _) LS4 lit' (nth_error_In _ _ NL')). }
        split; [exact M'|]. refine (Forall_impl _ _ LK'). intros l Hl.
        apply (label_ok_keeps a3 a2 l Hl); [apply keeps_ends_refl|].
        unfold a2. cbn [Asm.buffer_ Asm.with_literals]. lia.
      * replace (extent a2) with (extent a3); [exact Ex|].
        unfold extent, pool_room, a2.
        cbn [Asm.buffer_ Asm.literals_ Asm.long_literals_ Asm.branches_
             Asm.with_literals]. rewrite length_update. reflexivity.
    + set (a2 := Asm.with_literals a3 _ _).
      split.
      * split; [exact O'|]. split; [exact C'|]. split.
        { split; [exact LS4|]. unfold a2.
          cbn [Asm.long_literals_ Asm.with_literals].
          apply Forall_list_update; [exact LS8|]. apply Sz.
          exact (proj1 (Forall_forall _ _) LS8 lit' (nth_error_In _ _ NL')). }
        split; [exact M'|]. refine (Forall_impl _ _ LK'). intros l Hl.
        apply (label_ok_keeps a3 a2 l Hl); [apply keeps_ends_refl|].
        unfold a2. cbn [Asm.buffer_ Asm.with_literals]. lia.
      * replace (extent a2) with (extent a3); [exact Ex|].
        unfold extent. rewrite (pool_room_length a3 a2); [reflexivity|].
        unfold a2. cbn [Asm.long_literals_ Asm.with_literals].
        apply length_update.
Qed.


(** A method being recorded does not shrink, whatever its size. *)
Lemma appended_grows (ob : option Asm.Branch) (l l' : Asm.Riscv64Label)
    (a a1 a' : Asm.Assembler) :
  Asm.overwriting_ a = false ->
  Asm.emplace_back ob a = Some (tt, a1) ->
  Asm.FinalizeLabeledBranch l a1 = Some (l', a') ->
  Asm.overwriting_ a' = false /\ extent a <= extent a'.
Proof.
  intros O E F.
  destruct (appended_branch ob l l' a a1 a' O E F)
    as (b & extra & _ & Bs & Bf & Sx & O' & L4 & L8 & _).
  split; [exact O'|].
  pose proof (proj1 (sizes_small b)) as Sb.
  unfold extent. rewrite (pool_room_length a a') by (rewrite L8; reflexivity).
  rewrite L4, Bs, Bf. unfold Asm.buf_Size in *. rewrite !length_app.
  cbn [List.length]. lia.
Qed.

Lemma jump_grows (l l' : Asm.Riscv64Label) (mk : Z -> Z -> option Asm.Branch)
    (a a' : Asm.Assembler) :
  Asm.overwriting_ a = false ->
  Asm.bind (Asm.label_target l) (fun target =>
    Asm.bind Asm.get (fun a =>
      Asm.bind (Asm.emplace_back (mk (u32 (Asm.buf_Size (Asm.buffer_ a))) target))
               (fun _ => Asm.FinalizeLabeledBranch l))) a = Some (l', a') ->
  Asm.overwriting_ a' = false /\ extent a <= extent a'.
Proof.
  intros O H.
  apply bind_Some in H. destruct H as (t & a0 & HT & H).
  destruct (label_target_value _ _ _ _ HT) as [-> _].
  unfold Asm.bind at 1, Asm.get at 1 in H.
  apply bind_Some in H. destruct H as ([] & a1 & HE & HF).
  exact (appended_grows _ _ _ _ _ _ O HE HF).
Qed.

Lemma record_step_grows (r : Recorded) (labels labels' : list Asm.Riscv64Label)
    (a a' : Asm.Assembler) :
  Asm.overwriting_ a = false ->
  record_step r labels a = Some (labels', a') ->
  Asm.overwriting_ a' = false /\ extent a <= extent a'.
Proof.
  intros O H.
  destruct r as [value|i|i is_bare|i is_bare condition lhs rhs|i is_bare
                |dest_reg i|size data|dest_reg load_type literal];
    cbn [record_step] in H.
  - unfold Asm.bind at 1 in H. rewrite (emits_Emit value a O) in H.
    unfold Asm.ret in H. injection H as _ <-. split; [exact O|].
    unfold extent, pool_room.
    cbn [Asm.buffer_ Asm.literals_ Asm.long_literals_ Asm.branches_
         Asm.with_buffer].
    unfold Asm.buf_Size. rewrite length_app. lia.
  - apply at_label_Some in H. destruct H as (l & l' & N & H & ->).
    destruct (Bind_same _ _ _ _ H) as [(B1 & B2 & B3) (B4 & B5)].
    pose proof (Forall2_length (Bind_branches _ _ _ _ H)) as Len.
    split; [congruence|]. unfold extent.
    rewrite B1, B4, <- Len, (pool_room_length a a'); [lia|].
    rewrite B5. reflexivity.
  - apply at_label_Some in H. destruct H as (l & l' & N & H & ->).
    exact (jump_grows l l' (fun location target =>
                              Asm.Branch_uncond location target false is_bare)
                      a a' O H).
  - apply at_label_Some in H. destruct H as (l & l' & N & H & ->).
    unfold Asm.Bcond in H. destruct (Asm.IsNop condition lhs rhs).
    + unfold Asm.ret in H. injection H as _ <-. split; [exact O|lia].
    + exact (jump_grows l l' (fun location target =>
                                Asm.Branch_cond location target condition lhs rhs
                                                is_bare)
                        a a' O H).
  - apply at_label_Some in H. destruct H as (l & l' & N & H & ->).
    exact (jump_grows l l' (fun location target =>
                              Asm.Branch_uncond location target true is_bare)
                      a a' O H).
  - apply at_label_Some in H. destruct H as (l & l' & N & H & ->).
    unfold Asm.LoadLabelAddress in H.
    unfold Asm.bind at 1, Asm.get at 1 in H.
    apply bind_Some in H. destruct H as ([] & a1 & HE & HF).
    exact (appended_grows _ _ _ _ _ _ O HE HF).
  - unfold Asm.NewLiteral in H.
    unfold Asm.bind at 1 in H. unfold Asm.bind at 1, Asm.get at 1 in H.
    destruct (size =? 4); unfold Asm.bind, Asm.put, Asm.ret in H;
      injection H as _ <-; (split; [exact O|]); unfold extent, pool_room;
      cbn [Asm.buffer_ Asm.literals_ Asm.long_literals_ Asm.branches_
           Asm.with_literals].
    + rewrite length_app. cbn [List.length].
      destruct (Asm.long_literals_ a); lia.
    + destruct (Asm.long_literals_ a) as [|x rest]; cbn [app List.length];
        [lia|]. rewrite length_app. cbn [List.length]. lia.
  - apply bind_Some in H. destruct H as ([] & a2 & H & HR).
    unfold Asm.ret in HR. injection HR as _ <-.
    unfold Asm.LoadLiteral in H.
    apply bind_Some in H. destruct H as (literal_type & a0 & HT & H).
    assert (a0 = a) as ->.
    { destruct load_type; unfold Asm.ret, Asm.fatal in HT; try discriminate;
        injection HT as _ <-; reflexivity. }
    apply bind_Some in H. destruct H as (lit & a0 & HG & H).
    destruct (GetLiteral_Some _ _ _ _ HG) as [-> NL].
    unfold Asm.bind at 1, Asm.get at 1 in H.
    apply bind_Some in H. destruct H as ([] & a1 & HE & H).
    apply bind_Some in H. destruct H as (l' & a3 & HF & HS).
    destruct (appended_grows _ _ _ _ _ _ O HE HF) as [O3 Ex].
    unfold Asm.SetLiteralLabel in HS.
    apply bind_Some in HS. destruct HS as (lit' & a0 & HG' & HS).
    destruct (GetLiteral_Some _ _ _ _ HG') as [-> NL'].
    unfold Asm.bind at 1, Asm.get at 1 in HS.
    destruct literal as [i|i]; unfold Asm.put in HS; injection HS as <-;
      (split; [exact O3|]).
    + replace (extent (Asm.with_literals a3 _ _)) with (extent a3); [exact Ex|].
      unfold extent, pool_room.
      cbn [Asm.buffer_ Asm.literals_ Asm.long_literals_ Asm.branches_
           Asm.with_literals]. rewrite length_update. reflexivity.
    + replace (extent (Asm.with_literals a3 _ _)) with (extent a3); [exact Ex|].
      unfold extent.
      rewrite (pool_room_length a3 (Asm.with_literals a3 _ _)); [reflexivity|].
      cbn [Asm.long_literals_ Asm.with_literals]. apply length_update.
Qed.

Lemma record_grows (p : list Recorded) (labels labels' : list Asm.Riscv64Label)
    (a a' : Asm.Assembler) :
  Asm.overwriting_ a = false ->
  record p labels a = Some (labels', a') ->
  Asm.overwriting_ a' = false /\ extent a <= extent a'.
Proof.
  revert labels a. induction p as [|r rest IH]; intros labels a O H;
    cbn [record] in H.
  - unfold Asm.ret in H. injection H as _ <-. split; [exact O|lia].
  - apply bind_Some in H. destruct H as (labels1 & a1 & H1 & H2).
    destruct (record_step_grows _ _ _ _ _ O H1) as [O1 E1].
    destruct (IH _ _ O1 H2) as [O2 E2]. split; [exact O2|lia].
Qed.

(** A recording keeps its state to the end, for a method that stays
    below 2^31 bytes. *)
Lemma record_keeps (p : list Recorded) (labels labels' : list Asm.Riscv64Label)
    (a a' : Asm.Assembler) :
  forallb well_sized p = true -> recording labels a ->
  record p labels a = Some (labels', a') ->
  extent a' < 2 ^ 31 ->
  recording labels' a'.
Proof.
  revert labels a. induction p as [|r rest IH]; intros labels a W R H Bd;
    cbn [record] in H.
  - unfold Asm.ret in H. injection H as <- <-. exact R.
  - cbn [forallb] in W. apply andb_true_iff in W. destruct W as [W1 W2].
    apply bind_Some in H. destruct H as (labels1 & a1 & H1 & H2).
    destruct (record_step_grows _ _ _ _ _ (proj1 R) H1) as [O1 _].
    destruct (record_grows _ _ _ _ _ O1 H2) as [_ E2].
    destruct (record_step_keeps r labels labels1 a a1 W1 R H1 ltac:(lia)) as [R1 _].
    exact (IH _ _ W2 R1 H2 Bd).
Qed.

Lemma recording_starts (n : nat) : recording (repeat Asm.new_label n) Asm.new_assembler.
Proof.
  split; [reflexivity|]. split.
  { split; [cbn; lia|]. split; [cbn; lia|]. repeat split; apply Forall_nil. }
  split; [split; apply Forall_nil|]. split; [reflexivity|].
  apply Forall_forall. intros l Hl. apply repeat_spec in Hl. subst l.
  intros B. discriminate B.
Qed.

(** A method recorded from the new assembler with new labels is ready to
    be finalized. *)
Lemma recorded_ready (p : list Recorded) (n : nat) (labels : list Asm.Riscv64Label)
    (a : Asm.Assembler) :
  forallb well_sized p = true ->
  record p (repeat Asm.new_label n) Asm.new_assembler = Some (labels, a) ->
  extent a < 2 ^ 31 - 2 ^ 11 ->
  ready_to_finalize a.
Proof.
  intros W H Bd.
  destruct (record_keeps p _ _ _ _ W (recording_starts n) H) as (O & C & LS & M & _).
  { change (2 ^ 31) with 2147483648 in *. change (2 ^ 11) with 2048 in *. lia. }
  split; [exact O|]. split; [exact C|]. split; [exact LS|]. split; [exact M|].
  exact Bd.
Qed.


(** The offsets of a recorded method: FinalizeCode and then EmitBranches
    leave every branch with the distance to its target in its offset
    field. *)
Lemma recorded_offsets (AT : GpuRegister) (p : list Recorded) (n : nat)
    (labels : list Asm.Riscv64Label) (a a1 a2 : Asm.Assembler) :
  forallb well_sized p = true ->
  record p (repeat Asm.new_label n) Asm.new_assembler = Some (labels, a) ->
  extent a < 2 ^ 31 - 2 ^ 11 ->
  Asm.FinalizeCode a = Some (tt, a1) ->
  Asm.EmitBranches AT a1 = Some (tt, a2) ->
  List.length (Asm.branches_ a1) = List.length (Asm.branches_ a)
  /\ forall b, In b (Asm.branches_ a1) ->
       offset_field (Asm.buffer_ a2) b = origin_distance b.
Proof.
  intros W H Bd HF HE.
  pose proof (recorded_ready p n labels a W H Bd) as R.
  unfold Asm.FinalizeCode, Asm.bind in HF.
  destruct (Asm.EmitLiterals a) as [[[] mid]|] eqn:E; [|discriminate].
  destruct (EmitLiterals_laid_out a mid R E) as (LO & _ & _ & _ & NB & _).
  destruct (finalized_code AT mid a1 a2 LO HF HE) as (_ & F & Off & _).
  split; [|exact Off].
  rewrite <- NB. symmetry. exact (Forall2_length F).
Qed.


(** A conditional branch over a jump and 999 instructions, recorded with
    two labels: the branch is promoted, and the jump and both targets move
    up by 8 bytes. *)
Definition recorded_pair : list Recorded :=
  [RBcond 0 false Asm.kCondEQ A0 A1; RBuncond 1 false]
  ++ repeat (REmit nop_word) 999
  ++ [RBind 0; REmit nop_word; RBind 1].

Definition recorded_state (p : list Recorded) (n : nat) : Asm.Assembler :=
  match record p (repeat Asm.new_label n) Asm.new_assembler with
  | Some (_, a) => a
  | None => Asm.new_assembler
  end.

Definition recorded_labels (p : list Recorded) (n : nat) : list Asm.Riscv64Label :=
  match record p (repeat Asm.new_label n) Asm.new_assembler with
  | Some (labels, _) => labels
  | None => []
  end.

Definition before_promotion : Asm.Assembler := recorded_state recorded_pair 2.
Definition after_promotion : Asm.Assembler :=
  match Asm.PromoteBranches before_promotion with
  | Some (_, a) => a
  | None => before_promotion
  end.
Definition after_emission : Asm.Assembler :=
  match Asm.EmitBranches T4 after_promotion with
  | Some (_, a) => a
  | None => after_promotion
  end.

Definition recorded_branches : list Asm.Branch :=
  Eval vm_compute in Asm.branches_ before_promotion.

Definition promoted_branches : list Asm.Branch :=
  Eval vm_compute in Asm.branches_ after_promotion.



(** C6. Finalization lays the literals out behind the code and aligns the
    8-byte ones. EmitLiterals appends the 4-byte literals and then, when
    there are 8-byte literals, one reserved word of 4 bytes and the 8-byte
    literals, and it does return on a state in append mode whose literal
    labels are unbound with chains of uses that end. AlignLongLiterals, on a
    pool at the end of the buffer that starts at loc, changes nothing when
    loc is a multiple of 8 and otherwise moves the pool down by 4 bytes over
    the reserved word, shortens the buffer by 4, lowers by 4 every branch
    target at or beyond loc, and the labels of the literals with them. And
    FinalizeCode as a whole, on a method whose branches lie in the code in
    the order of their recording, unpromoted, at even places, with literals
    of their declared sizes, a code size that is a multiple of 4 and room
    below 2^31 - 2^11: EmitLiterals returns, the promotion loop settles on
    branches bs, and with settled the place where the 8-byte pool starts
    once the branches have grown (the end of the grown code, the 4-byte
    literals and the reserved word) the pool is moved down by cut = 4 bytes
    exactly when there are 8-byte literals and settled is not a multiple of
    8, and by 0 otherwise; the final buffer is shorter by cut; the 8-byte
    pool ends the buffer, starts at settled - cut, a multiple of 8, and holds
    the bytes of the 8-byte literals; the 4-byte literals follow the grown
    code; and every branch has the place, type, registers and condition the
    loop gave it and its target lowered by cut when it was at or beyond
    settled. A method recorded from the new assembler through Emit, Bind,
    Buncond, Bcond, Call, LoadLabelAddress, NewLiteral and LoadLiteral,
    with literals of 4 or 8 bytes and an extent (code, literals and 8 bytes
    for each branch) below 2^31 - 2^11, is such a method. *)
Theorem long_literals_are_aligned :
  (forall a a',
      Asm.overwriting_ a = false ->
      Asm.EmitLiterals a = Some (tt, a') ->
      Asm.buffer_ a'
      = Asm.buffer_ a ++ pool_bytes (Asm.literals_ a)
        ++ match Asm.long_literals_ a with
           | [] => []
           | _ :: _ => Asm.le32 0 ++ pool_bytes (Asm.long_literals_ a)
           end)
  /\ (forall a,
         can_emit_literals a = true ->
         exists a', Asm.EmitLiterals a = Some (tt, a'))
  /\ (forall a front loc,
         hd_error (Asm.long_literals_ a) = Some front ->
         Asm.GetLabelLocation (Asm.label_ front) a = Some (loc, a) ->
         4 <= loc ->
         loc + Z.of_nat (List.length (Asm.long_literals_ a)) * 8
         = Asm.buf_Size (Asm.buffer_ a) ->
         Asm.AlignLongLiterals a
         = Some (tt, if loc mod 8 =? 0 then a else aligned_state a loc)
         /\ Asm.buf_Size (Asm.buffer_ (aligned_state a loc))
            = Asm.buf_Size (Asm.buffer_ a) - 4
         /\ (forall p, 0 <= p < loc - 4 ->
               Asm.byte_at (Asm.buffer_ (aligned_state a loc)) p
               = Asm.byte_at (Asm.buffer_ a) p)
         /\ (forall p, loc <= p < Asm.buf_Size (Asm.buffer_ a) ->
               Asm.byte_at (Asm.buffer_ (aligned_state a loc)) (p - 4)
               = Asm.byte_at (Asm.buffer_ a) p)
         /\ Asm.branches_ (aligned_state a loc)
            = map (fun branch =>
                     if loc <=? Asm.target_ branch
                     then Asm.Resolve branch (u32 (Asm.target_ branch - 4))
                     else branch) (Asm.branches_ a)
         /\ (forall lit x,
               In lit (Asm.long_literals_ a) ->
               Asm.GetLabelLocation (Asm.label_ lit) a = Some (x, a) ->
               Asm.position_ (Asm.label_ lit) + 4 < 0 ->
               exists lit',
                 In lit' (Asm.long_literals_ (aligned_state a loc))
                 /\ Asm.data_ lit' = Asm.data_ lit
                 /\ Asm.GetLabelLocation (Asm.label_ lit') (aligned_state a loc)
                    = Some (u32 (x - 4), aligned_state a loc)))
  /\ (forall a a',
         ready_to_finalize a ->
         Asm.FinalizeCode a = Some (tt, a') ->
         exists a1 bs,
           Asm.EmitLiterals a = Some (tt, a1)
           /\ Asm.PromoteLoop (S (Asm.short_count (Asm.branches_ a1)))
                              (Asm.branches_ a1)
              = Asm.Settled bs
           /\ let n4 := Z.of_nat (List.length (Asm.literals_ a)) in
              let n8 := Z.of_nat (List.length (Asm.long_literals_ a)) in
              let code_end := Asm.buf_Size (Asm.buffer_ a) + total_growth bs in
              let settled := code_end + 4 * n4 + 4 in
              let cut := pool_cut (Asm.long_literals_ a) settled in
              let pool := Asm.buf_Size (Asm.buffer_ a') - 8 * n8 in
              Asm.buf_Size (Asm.buffer_ a') = code_end + 4 * n4 + pool_room a - cut
              /\ (Asm.long_literals_ a <> [] ->
                  pool = settled - cut /\ pool mod 8 = 0)
              /\ (forall i, 0 <= i < 4 * n4 ->
                    Asm.byte_at (Asm.buffer_ a') (code_end + i)
                    = Asm.byte_at (pool_bytes (Asm.literals_ a)) i)
              /\ (forall i, 0 <= i < 8 * n8 ->
                    Asm.byte_at (Asm.buffer_ a') (pool + i)
                    = Asm.byte_at (pool_bytes (Asm.long_literals_ a)) i)
              /\ Forall2 (realigned settled cut) bs (Asm.branches_ a'))
  /\ (forall p n labels a,
         forallb well_sized p = true ->
         record p (repeat Asm.new_label n) Asm.new_assembler = Some (labels, a) ->
         extent a < 2 ^ 31 - 2 ^ 11 ->
         ready_to_finalize a).
Proof.
  destruct literal_pool_steps as (H1 & H2 & H3).
  split; [exact H1|]. split; [exact H2|]. split; [exact H3|].
  split; [exact FinalizeCode_layout|exact recorded_ready].
Qed.

Lemma returned_state_inj (x y : Asm.Assembler) :
  Some (tt, x) = Some (tt, y) -> x = y.
Proof. intros H. injection H as H. exact H. Qed.

Lemma Settled_inj (x y : list Asm.Branch) : Asm.Settled x = Asm.Settled y -> x = y.
Proof. intros H. injection H as H. exact H. Qed.

(** A conditional branch over a load of an 8-byte literal and 1000
    instructions: the branch is promoted, the code grows by 8 bytes, the
    8-byte pool would start at 4028 and is moved down to 4024. *)
Definition literal_behind_branch : list Recorded :=
  [RNewLiteral 8 [1; 2; 3; 4; 5; 6; 7; 8];
   RBcond 0 false Asm.kCondEQ A0 A1;
   RLoadLiteral A0 Asm.kLoadDoubleword (Asm.Lit8 0)]
  ++ repeat (REmit nop_word) 1000
  ++ [RBind 0; REmit nop_word].

Definition before_finalization : Asm.Assembler :=
  recorded_state literal_behind_branch 1.
Definition after_literals : Asm.Assembler :=
  match Asm.EmitLiterals before_finalization with
  | Some (_, a) => a
  | None => before_finalization
  end.
Definition after_finalization : Asm.Assembler :=
  match Asm.FinalizeCode before_finalization with
  | Some (_, a) => a
  | None => before_finalization
  end.

Definition long_literals_before_finalization : list Asm.Literal :=
  Eval vm_compute in Asm.long_literals_ before_finalization.

Definition settled_branches : list Asm.Branch :=
  Eval vm_compute in
    match Asm.PromoteLoop (S (Asm.short_count (Asm.branches_ after_literals)))
                          (Asm.branches_ after_literals) with
    | Asm.Settled bs => bs
    | _ => []
    end.

Lemma long_literals_are_aligned_witness :
  forallb well_sized literal_behind_branch = true
  /\ record literal_behind_branch (repeat Asm.new_label 1) Asm.new_assembler
     = Some (recorded_labels literal_behind_branch 1, before_finalization)
  /\ extent before_finalization < 2 ^ 31 - 2 ^ 11
  /\ ready_to_finalize before_finalization
  /\ Asm.FinalizeCode before_finalization = Some (tt, after_finalization)
  /\ Asm.buf_Size (Asm.buffer_ before_finalization) = 4016
  /\ Asm.buf_Size (Asm.buffer_ after_literals) = 4028
  /\ Asm.buf_Size (Asm.buffer_ after_finalization) = 4032
  /\ map Asm.type_ settled_branches = [Asm.kLongCondBranch; Asm.kLiteralLong]
  /\ map Asm.target_ settled_branches = [4020; 4028]
  /\ Forall2 (realigned 4028 4) settled_branches (Asm.branches_ after_finalization)
  /\ (forall i, 0 <= i < 8 ->
        Asm.byte_at (Asm.buffer_ after_finalization) (4024 + i)
        = Asm.byte_at [1; 2; 3; 4; 5; 6; 7; 8] i).
Proof.
  assert (W : forallb well_sized literal_behind_branch = true)
    by (vm_compute; reflexivity).
  assert (H0 : record literal_behind_branch (repeat Asm.new_label 1)
                      Asm.new_assembler
               = Some (recorded_labels literal_behind_branch 1, before_finalization))
    by (vm_compute; reflexivity).
  assert (Bd : extent before_finalization < 2 ^ 31 - 2 ^ 11)
    by (vm_compute; reflexivity).
  assert (HF : Asm.FinalizeCode before_finalization = Some (tt, after_finalization))
    by (vm_compute; reflexivity).
  assert (HE : Asm.EmitLiterals before_finalization = Some (tt, after_literals))
    by (vm_compute; reflexivity).
  assert (HP : Asm.PromoteLoop (S (Asm.short_count (Asm.branches_ after_literals)))
                               (Asm.branches_ after_literals)
               = Asm.Settled settled_branches)
    by (vm_compute; reflexivity).
  assert (L0 : Asm.long_literals_ before_finalization
               = long_literals_before_finalization)
    by (vm_compute; reflexivity).
  assert (L4 : Asm.literals_ before_finalization = [])
    by (vm_compute; reflexivity).
  assert (S0 : Asm.buf_Size (Asm.buffer_ before_finalization) = 4016)
    by (vm_compute; reflexivity).
  assert (S1 : Asm.buf_Size (Asm.buffer_ after_literals) = 4028)
    by (vm_compute; reflexivity).
  destruct long_literals_are_aligned as (_ & _ & _ & H & HR).
  pose proof (HR literal_behind_branch 1%nat _ before_finalization W H0 Bd) as R.
  split; [exact W|]. split; [exact H0|]. split; [exact Bd|].
  split; [exact R|]. split; [exact HF|]. split; [exact S0|]. split; [exact S1|].
  destruct (H before_finalization after_finalization R HF)
    as (a1 & bs & E & PL & Sz & Al & _ & By & Br).
  rewrite HE in E. apply returned_state_inj in E. subst a1.
  rewrite HP in PL. apply Settled_inj in PL. subst bs.
  rewrite L0, L4, S0 in *.
  assert (PR : pool_room before_finalization = 12)
    by (unfold pool_room; rewrite L0; reflexivity).
  rewrite PR in Sz.
  change (total_growth settled_branches) with 8 in *.
  change (Z.of_nat (List.length long_literals_before_finalization)) with 1 in *.
  change (Z.of_nat (@List.length Asm.Literal [])) with 0 in *.
  change (pool_cut long_literals_before_finalization (4016 + 8 + 4 * 0 + 4))
    with 4 in *.
  change (4016 + 8 + 4 * 0 + 4) with 4028 in *.
  split; [rewrite Sz; reflexivity|].
  split; [reflexivity|]. split; [reflexivity|].
  split; [exact Br|].
  intros i Hi. rewrite Sz in By.
  change (4016 + 8 + 4 * 0 + 12 - 4 - 8 * 1) with 4024 in By.
  apply By. lia.
Defined.
